(** * Tiled: document manager and object-creation tool

    A shallow embedding of [src/tiled/documentmanager.cpp] and
    [src/tiled/createobjecttool.cpp], with the properties of the design
    document stated and proved over it.

    Conventions.
    - A C++ pointer to a heap object is the object's address, a [nat]; the
      list [mDocuments] holds document objects, each carrying its address
      ([docId]), so that "the same document" means "the same address".
    - A failed [Q_ASSERT], an out-of-range [QList::at] and a null-pointer
      dereference make an operation return [None].
    - Signals the manager emits are appended to a log ([emitted]); a slot
      connected to a signal of the tab widget is run at the point of emission.
    - A [qreal] is kept as the 64-bit pattern of the double: values of that
      type are only stored and copied here, their arithmetic belongs to the
      renderer and is a parameter. The one place where the tool itself
      computes with doubles, the snapping of [mousePressed], is embedded a
      second time in [QReal], over the binary64 numbers of the Standard
      Library's [SpecFloat]. *)

From stdpp Require Import gmultiset.
From stdpp Require Import base option numbers list strings gmap.
From Stdlib Require SpecFloat QArith Qpower Lqa.

Local Open Scope Z_scope.

Definition qreal : Type := Z.
Definition QDateTime : Type := Z.
Definition DocId : Type := nat.
Definition ToolId : Type := nat.
Definition Reader : Type := nat.

Definition newline : string := String (Ascii.ascii_of_nat 10) "".

(** ** QList *)

Module QList.
Section QList.
Context {A : Type}.

Definition validIndex (l : list A) (i : Z) : bool :=
    bool_decide (0 ≤ i < Z.of_nat (length l)).

  (** [QList::at(i)]: [i] must be a valid index. *)
Definition at_ (l : list A) (i : Z) : option A :=
    if validIndex l i then l !! Z.to_nat i else None.

  (** [QList::removeAt(i)]: does nothing when [i] is out of range. *)
Definition removeAt (i : Z) (l : list A) : list A :=
    if validIndex l i then delete (Z.to_nat i) l else l.

Definition insertAt (i : nat) (x : A) (l : list A) : list A :=
    take i l ++ x :: drop i l.

  (** [QList::move(from, to)]: takes the item at [from] out and puts it back
      at [to]; both indices must be valid. *)
Definition move (from to : Z) (l : list A) : option (list A) :=
    if validIndex l from && validIndex l to then
      x ← l !! Z.to_nat from;
      Some (insertAt (Z.to_nat to) x (delete (Z.to_nat from) l))
    else None.
End QList.
End QList.

(** ** Documents, views and the tab widget *)

Record MapDocument := mkMapDocument {
  docId : DocId;
  fileName : string;
  isModified : bool;
  lastSaved : QDateTime;
  readerPluginFileName : string;
  currentLayerIndex : Z;
  layerCount : Z;                     (* map()->layerCount() *)
}.

Definition setCurrentLayerIndex (i : Z) (d : MapDocument) : MapDocument :=
  {| docId := docId d; fileName := fileName d; isModified := isModified d;
     lastSaved := lastSaved d; readerPluginFileName := readerPluginFileName d;
     currentLayerIndex := i; layerCount := layerCount d |}.

(** The state of a [MapView] that [reloadDocumentAt] reads and writes:
    [zoomable()->scale()] and the slider positions of the two scroll bars. *)
Record MapView := mkMapView {
  scale : qreal;
  horizontalPosition : Z;
  verticalPosition : Z;
}.

Definition setScale (s : qreal) (v : MapView) : MapView :=
  {| scale := s; horizontalPosition := horizontalPosition v;
     verticalPosition := verticalPosition v |}.
Definition setHorizontalPosition (p : Z) (v : MapView) : MapView :=
  {| scale := scale v; horizontalPosition := p;
     verticalPosition := verticalPosition v |}.
Definition setVerticalPosition (p : Z) (v : MapView) : MapView :=
  {| scale := scale v; horizontalPosition := horizontalPosition v;
     verticalPosition := p |}.

(** [MapViewContainer]: the view, the visibility of its
    [FileChangedWarning], and the document shown by the view's scene. *)
Record MapViewContainer := mkContainer {
  mapView : MapView;
  warningVisible : bool;
  sceneDocument : DocId;
}.

Definition setFileChangedWarningVisible (b : bool) (c : MapViewContainer)
  : MapViewContainer :=
  {| mapView := mapView c; warningVisible := b;
     sceneDocument := sceneDocument c |}.
Definition withMapView (f : MapView → MapView) (c : MapViewContainer)
  : MapViewContainer :=
  {| mapView := f (mapView c); warningVisible := warningVisible c;
     sceneDocument := sceneDocument c |}.

(** [MovableTabWidget], a [QTabWidget] with movable tabs: the pages in tab
    order and the current index ([-1] when there is no page). Each operation
    also tells whether [currentChanged] (for [moveTab]: [tabMoved]) was
    emitted, so that the manager can run the connected slot. Tab captions and
    tool tips are not part of the state. *)
Module TabWidget.
Record t := mk {
    pages : list MapViewContainer;
    currentIndex : Z;
  }.

Definition empty : t := {| pages := []; currentIndex := -1 |}.

Definition count (w : t) : Z := Z.of_nat (length (pages w)).
Definition validIndex (w : t) (i : Z) : bool := QList.validIndex (pages w) i.

Definition widget (w : t) (i : Z) : option MapViewContainer :=
    QList.at_ (pages w) i.
Definition currentWidget (w : t) : option MapViewContainer :=
    widget w (currentIndex w).

  (** [addTab]: the page goes last; the first page added becomes current. *)
Definition addTab (c : MapViewContainer) (w : t) : t * bool :=
    match pages w with
    | [] => ({| pages := [c]; currentIndex := 0 |}, true)
    | _ => ({| pages := pages w ++ [c]; currentIndex := currentIndex w |}, false)
    end.

  (** [setCurrentIndex]: ignored for an invalid index or the current one. *)
Definition setCurrentIndex (i : Z) (w : t) : t * bool :=
    if validIndex w i && negb (bool_decide (i = currentIndex w)) then
      ({| pages := pages w; currentIndex := i |}, true)
    else (w, false).

  (** [removeTab]: when the current page goes away the page to its right
      (else the new last page) becomes current; when a page before the
      current one goes away the current page stays current under an index
      one lower. *)
Definition removeTab (i : Z) (w : t) : t * bool :=
    if validIndex w i then
      let ps := delete (Z.to_nat i) (pages w) in
      if bool_decide (i = currentIndex w) then
        match ps with
        | [] => ({| pages := ps; currentIndex := -1 |}, true)
        | _ => ({| pages := ps;
                   currentIndex := Z.min i (Z.of_nat (length ps) - 1) |}, true)
        end
      else if bool_decide (i < currentIndex w) then
        ({| pages := ps; currentIndex := currentIndex w - 1 |}, true)
      else ({| pages := ps; currentIndex := currentIndex w |}, false)
    else (w, false).

  (** The index of the current page after the tab at [from] went to [to]. *)
Definition calculateNewPosition (from to index : Z) : Z :=
    if bool_decide (index = from) then to
    else if bool_decide (Z.min from to ≤ index ≤ Z.max from to) then
      if bool_decide (from < to) then index - 1 else index + 1
    else index.

  (** [moveTab]: ignored when [from = to] or an index is invalid; otherwise
      the page moves, the current page stays current, and [tabMoved] is
      emitted. *)
Definition moveTab (from to : Z) (w : t) : t * bool :=
    if bool_decide (from = to) then (w, false)
    else match QList.move from to (pages w) with
         | Some ps =>
             ({| pages := ps;
                 currentIndex := calculateNewPosition from to (currentIndex w) |},
              true)
         | None => (w, false)
         end.

Definition setPages (ps : list MapViewContainer) (w : t) : t :=
    {| pages := ps; currentIndex := currentIndex w |}.
End TabWidget.

(** ** The document manager *)

(** Modelled from the spec: [FileSystemWatcher] (filesystemwatcher.h is not
    among the sources). The spec describes it as a file-watch service with
    [subscribe(path)] and [unsubscribe(path)]. The registry subscribes the
    path of each document it opens and unsubscribes it when that document
    closes, and the spec has the result be "one subscription per unique
    non-empty file path among open documents", a path being unsubscribed
    "unless another open document shares" it: the service keeps, for each
    path, the subscriptions that were not cancelled yet, and watches a path
    as long as there is one. *)
Module FileSystemWatcher.
Abbreviation t := (gmultiset string).
Definition empty : t := ∅.
Definition addPath (p : string) (w : t) : t := {[+ p +]} ⊎ w.
Definition removePath (p : string) (w : t) : t := w ∖ {[+ p +]}.
Definition watches (w : t) (p : string) : bool := bool_decide (p ∈ w).
End FileSystemWatcher.

(** [QUndoGroup]: the undo stacks of the open documents (a stack is named by
    the document that owns it) and the active one. *)
Module UndoGroup.
Record t := mk {
    stacks : list DocId;
    activeStack : option DocId;
  }.
Definition empty : t := {| stacks := []; activeStack := None |}.
Definition addStack (s : DocId) (g : t) : t :=
    if bool_decide (s ∈ stacks g) then g
    else {| stacks := stacks g ++ [s]; activeStack := activeStack g |}.
Definition setActiveStack (s : DocId) (g : t) : t :=
    {| stacks := stacks g; activeStack := Some s |}.
  (** A stack that is destroyed leaves its group. *)
Definition stackDestroyed (s : DocId) (g : t) : t :=
    {| stacks := filter (λ x, x ≠ s) (stacks g);
       activeStack := if bool_decide (activeStack g = Some s) then None
                      else activeStack g |}.
End UndoGroup.

Inductive Signal :=
  | documentAboutToClose (d : DocId)
  | currentDocumentChanged (d : option DocId)
  | reloadError (message : string).

(** What the manager asks of the file system, the plugin manager, the map
    reader and the graphics view. *)
Record Env := mkEnv {
  (** [QFileInfo(f).canonicalFilePath()]: empty when [f] does not exist. *)
  canonicalFilePath : string → string;
  (** [QFileInfo(f).lastModified()] *)
  lastModified : string → QDateTime;
  (** [PluginManager::pluginByFileName] followed by the cast of the plugin
      instance to [MapReaderInterface]: [None] is the null reader. *)
  pluginByFileName : string → option Reader;
  (** [MapDocument::load(fileName, reader, &error)]: the new document, or
      the error message. *)
  load : string → option Reader → MapDocument + string;
  (** the state of a [MapView] just constructed *)
  newMapView : MapView;
  (** [view->centerOn(document->renderer()->pixelToScreenCoords(x, y))] *)
  centerOn : MapDocument → qreal → qreal → MapView → MapView;
}.

Module DocumentManager.

Record t := mk {
    mDocuments : list MapDocument;
    mTabWidget : TabWidget.t;
    mUndoGroup : UndoGroup.t;
    mSelectedTool : option ToolId;
    mSceneWithTool : option DocId;    (* the scene, named by its document *)
    mFileSystemWatcher : FileSystemWatcher.t;
    emitted : list Signal;
  }.

  (** The manager just constructed. *)
Definition init : t :=
    {| mDocuments := []; mTabWidget := TabWidget.empty;
       mUndoGroup := UndoGroup.empty; mSelectedTool := None;
       mSceneWithTool := None; mFileSystemWatcher := FileSystemWatcher.empty;
       emitted := [] |}.

Definition setDocuments (ds : list MapDocument) (m : t) : t :=
    {| mDocuments := ds; mTabWidget := mTabWidget m; mUndoGroup := mUndoGroup m;
       mSelectedTool := mSelectedTool m; mSceneWithTool := mSceneWithTool m;
       mFileSystemWatcher := mFileSystemWatcher m; emitted := emitted m |}.
Definition setTabWidget (w : TabWidget.t) (m : t) : t :=
    {| mDocuments := mDocuments m; mTabWidget := w; mUndoGroup := mUndoGroup m;
       mSelectedTool := mSelectedTool m; mSceneWithTool := mSceneWithTool m;
       mFileSystemWatcher := mFileSystemWatcher m; emitted := emitted m |}.
Definition setUndoGroup (g : UndoGroup.t) (m : t) : t :=
    {| mDocuments := mDocuments m; mTabWidget := mTabWidget m; mUndoGroup := g;
       mSelectedTool := mSelectedTool m; mSceneWithTool := mSceneWithTool m;
       mFileSystemWatcher := mFileSystemWatcher m; emitted := emitted m |}.
Definition setSceneWithTool (s : option DocId) (m : t) : t :=
    {| mDocuments := mDocuments m; mTabWidget := mTabWidget m;
       mUndoGroup := mUndoGroup m; mSelectedTool := mSelectedTool m;
       mSceneWithTool := s; mFileSystemWatcher := mFileSystemWatcher m;
       emitted := emitted m |}.
Definition setWatcher (w : FileSystemWatcher.t) (m : t) : t :=
    {| mDocuments := mDocuments m; mTabWidget := mTabWidget m;
       mUndoGroup := mUndoGroup m; mSelectedTool := mSelectedTool m;
       mSceneWithTool := mSceneWithTool m; mFileSystemWatcher := w;
       emitted := emitted m |}.
Definition emit (s : Signal) (m : t) : t :=
    {| mDocuments := mDocuments m; mTabWidget := mTabWidget m;
       mUndoGroup := mUndoGroup m; mSelectedTool := mSelectedTool m;
       mSceneWithTool := mSceneWithTool m;
       mFileSystemWatcher := mFileSystemWatcher m;
       emitted := emitted m ++ [s] |}.

Definition currentIndex (m : t) : Z := TabWidget.currentIndex (mTabWidget m).

  (** [currentDocument()]: the outer [option] is the failure of
      [mDocuments.at], the inner one the null pointer. *)
Definition currentDocument (m : t) : option (option MapDocument) :=
    if bool_decide (currentIndex m = -1) then Some None
    else Some <$> QList.at_ (mDocuments m) (currentIndex m).

Definition currentMapView (m : t) : option MapView :=
    mapView <$> TabWidget.currentWidget (mTabWidget m).

  (** [currentMapScene()], the scene named by its document. *)
Definition currentMapScene (m : t) : option DocId :=
    sceneDocument <$> TabWidget.currentWidget (mTabWidget m).

Definition indexOf (d : DocId) (m : t) : Z :=
    match list_find (λ x, docId x = d) (mDocuments m) with
    | Some (i, _) => Z.of_nat i
    | None => -1
    end.

Definition viewForDocument (d : DocId) (m : t) : option (option MapView) :=
    let index := indexOf d m in
    if bool_decide (index = -1) then Some None
    else Some <$> (mapView <$> TabWidget.widget (mTabWidget m) index).

Section WithEnv.
Variable env : Env.

    (** The loop of [findDocument] from index [i] on. *)
Fixpoint findFrom (canonical : string) (i : Z) (ds : list MapDocument) : Z :=
      match ds with
      | [] => -1
      | d :: ds' =>
          if bool_decide (canonicalFilePath env (fileName d) = canonical)
          then i else findFrom canonical (i + 1) ds'
      end.

Definition findDocument (name : string) (m : t) : Z :=
      let canonical := canonicalFilePath env name in
      if bool_decide (canonical = "") then -1      (* file doesn't exist *)
      else findFrom canonical 0 (mDocuments m).

    (** The slot connected to the tab widget's [currentChanged]. *)
Definition currentIndexChanged (m : t) : option t :=
      let m := match mSceneWithTool m with
               | Some _ => setSceneWithTool None m   (* disableSelectedTool *)
               | None => m
               end in
      mapDocument ← currentDocument m;
      let m := match mapDocument with
               | Some d => setUndoGroup
                             (UndoGroup.setActiveStack (docId d) (mUndoGroup m)) m
               | None => m
               end in
      let m := emit (currentDocumentChanged (docId <$> mapDocument)) m in
      Some match currentMapScene m with
           | Some scene => setSceneWithTool (Some scene) m
           | None => m
           end.

    (** Stores the tab widget and runs [currentIndexChanged] when the widget
        emitted [currentChanged]. *)
Definition afterTabs (r : TabWidget.t * bool) (m : t) : option t :=
      let m := setTabWidget r.1 m in
      if r.2 then currentIndexChanged m else Some m.

Definition switchToDocument (index : Z) (m : t) : option t :=
      afterTabs (TabWidget.setCurrentIndex index (mTabWidget m)) m.

Definition centerViewOn (x y : qreal) (m : t) : option t :=
      match currentMapView m with
      | None => Some m
      | Some _ =>
          cur ← currentDocument m;
          d ← cur;
          let w := mTabWidget m in
          Some (setTabWidget
                  (TabWidget.setPages
                     (alter (withMapView (centerOn env d x y))
                            (Z.to_nat (TabWidget.currentIndex w))
                            (TabWidget.pages w)) w) m)
      end.

Definition addDocument (mapDocument : MapDocument) (m : t) : option t :=
      (* Q_ASSERT(!mDocuments.contains(mapDocument)) *)
      if bool_decide (docId mapDocument ∈ docId <$> mDocuments m) then None else
      let m := setDocuments (mDocuments m ++ [mapDocument]) m in
      let m := setUndoGroup (UndoGroup.addStack (docId mapDocument) (mUndoGroup m)) m in
      let m := if bool_decide (fileName mapDocument = "") then m
               else setWatcher (FileSystemWatcher.addPath (fileName mapDocument)
                                  (mFileSystemWatcher m)) m in
      let container := {| mapView := newMapView env; warningVisible := false;
                          sceneDocument := docId mapDocument |} in
      let documentIndex := Z.of_nat (length (mDocuments m)) - 1 in
      m ← afterTabs (TabWidget.addTab container (mTabWidget m)) m;
      m ← switchToDocument documentIndex m;
      centerViewOn 0 0 m.

Definition closeDocumentAt (index : Z) (m : t) : option t :=
      mapDocument ← QList.at_ (mDocuments m) index;
      let m := emit (documentAboutToClose (docId mapDocument)) m in
      let m := setDocuments (QList.removeAt index (mDocuments m)) m in
      m ← afterTabs (TabWidget.removeTab index (mTabWidget m)) m;
      let m := if bool_decide (fileName mapDocument = "") then m
               else setWatcher (FileSystemWatcher.removePath (fileName mapDocument)
                                  (mFileSystemWatcher m)) m in
      (* delete mapDocument: its undo stack goes with it *)
      Some (setUndoGroup (UndoGroup.stackDestroyed (docId mapDocument)
                            (mUndoGroup m)) m).

    (** The slot connected to [tabMoved]. *)
Definition documentTabMoved (from to : Z) (m : t) : option t :=
      ds ← QList.move from to (mDocuments m);
      Some (setDocuments ds m).

    (** [mTabWidget->moveTab(from, to)] with the slot it triggers. *)
Definition moveTab (from to : Z) (m : t) : option t :=
      let r := TabWidget.moveTab from to (mTabWidget m) in
      let m := setTabWidget r.1 m in
      if r.2 then documentTabMoved from to m else Some m.

    (** [tr("%1:\n\n%2").arg(file, error)] *)
Definition errorMessage (file error : string) : string :=
      file ++ ":" ++ newline ++ newline ++ error.

    (** [newDocument->setCurrentLayerIndex(i)], the document being the one in
        [mDocuments] with that address. *)
Definition setLayerIndexOf (d : DocId) (i : Z) (m : t) : t :=
      setDocuments
        ((λ x, if bool_decide (docId x = d) then setCurrentLayerIndex i x else x)
           <$> mDocuments m) m.

Definition restoreView (s : qreal) (h v : Z) (m : t) : option t :=
      match currentMapView m with
      | None => None
      | Some _ =>
          let w := mTabWidget m in
          Some (setTabWidget
                  (TabWidget.setPages
                     (alter (withMapView
                               (λ mv, setVerticalPosition v
                                        (setHorizontalPosition h (setScale s mv))))
                            (Z.to_nat (TabWidget.currentIndex w))
                            (TabWidget.pages w)) w) m)
      end.

Definition reloadDocumentAt (index : Z) (m : t) : option (bool * t) :=
      oldDocument ← QList.at_ (mDocuments m) index;
      (* Try to find the interface that was used for reading this map *)
      let readerPluginName := readerPluginFileName oldDocument in
      let reader := if bool_decide (readerPluginName = "") then None
                    else pluginByFileName env readerPluginName in
      match load env (fileName oldDocument) reader with
      | inr error =>
          Some (false,
                emit (reloadError (errorMessage (fileName oldDocument) error)) m)
      | inl newDocument =>
          (* Remember current view state *)
          view ← viewForDocument (docId oldDocument) m;
          mapView ← view;
          let layerIndex := currentLayerIndex oldDocument in
          let scale := scale mapView in
          let horizontalPosition := horizontalPosition mapView in
          let verticalPosition := verticalPosition mapView in
          (* Replace old tab *)
          m ← addDocument newDocument m;
          m ← closeDocumentAt index m;
          m ← moveTab (Z.of_nat (length (mDocuments m)) - 1) index m;
          (* Restore previous view state *)
          m ← restoreView scale horizontalPosition verticalPosition m;
          let m := if bool_decide (0 < layerIndex) &&
                      bool_decide (layerIndex < layerCount newDocument)
                   then setLayerIndexOf (docId newDocument) layerIndex m
                   else m in
          Some (true, m)
      end.

Definition fileChanged (name : string) (m : t) : option t :=
      let index := findDocument name m in
      (* Most likely the file was removed *)
      if bool_decide (index = -1) then Some m else
      document ← QList.at_ (mDocuments m) index;
      (* Ignore change event when it seems to be our own save *)
      if bool_decide (lastModified env name = lastSaved document) then Some m else
      (* Automatically reload when there are no unsaved changes *)
      if negb (isModified document) then snd <$> reloadDocumentAt index m else
      container ← TabWidget.widget (mTabWidget m) index;
      let w := mTabWidget m in
      Some (setTabWidget
              (TabWidget.setPages
                 (<[Z.to_nat index := setFileChangedWarningVisible true container]>
                    (TabWidget.pages w)) w) m).
End WithEnv.
End DocumentManager.

(** ** The object-creation tool *)

Definition Address : Type := nat.
Definition QPointF : Type := (qreal * qreal)%type.
Definition QPoint : Type := (Z * Z)%type.

Record Tile := mkTile { width : Z; height : Z }.

Record MapObject := mkMapObject {
  position : QPointF;
  objectGroup : option Address;       (* the group the object is in, or null *)
}.

Definition setPosition (p : QPointF) (o : MapObject) : MapObject :=
  {| position := p; objectGroup := objectGroup o |}.
Definition setObjectGroup (g : option Address) (o : MapObject) : MapObject :=
  {| position := position o; objectGroup := g |}.

(** Modelled from the spec: [ObjectGroup] (objectgroup.h is not among the
    sources). The spec gives the map model "object-group add/remove of a map
    object" and the "query of layer count, visibility, editability". *)
Record ObjectGroup := mkObjectGroup {
  objects : list Address;
  isVisible : bool;
  isEditable : bool;
}.

Definition setObjects (os : list Address) (g : ObjectGroup) : ObjectGroup :=
  {| objects := os; isVisible := isVisible g; isEditable := isEditable g |}.

Fixpoint removeOne (a : Address) (l : list Address) : list Address :=
  match l with
  | [] => []
  | x :: l' => if bool_decide (x = a) then l' else x :: removeOne a l'
  end.

Record MapObjectItem := mkMapObjectItem {
  mapObject : Address;
  zValue : Z;
}.

(** Modelled from the spec: the undo stack and the "add object" command
    (addremovemapobject.h is not among the sources). The spec has
    [push(command)], commands being "opaque, reversible, atomic units", and an
    object that is "still present" once its "add object" command is pushed:
    pushing records the command and performs it. *)
Inductive Command :=
  | AddMapObject (group object : Address).

Inductive CreationMode := CreateTile | CreateGeometry.

Inductive Key := Key_Enter | Key_Return | Key_Escape | Key_other (code : Z).

Inductive MouseButton := LeftButton | RightButton | MidButton.

Record MouseEvent := mkMouseEvent {
  button : MouseButton;
  controlModifier : bool;             (* modifiers() & Qt::ControlModifier *)
  scenePos : QPointF;
}.

(** [Preferences::instance()], as far as the tool reads it. *)
Record Preferences := mkPreferences {
  snapToGrid : bool;
  snapToFineGrid : bool;
  gridFine : Z;
}.

(** Calls the tool forwards to its base class [AbstractObjectTool]. *)
Inductive BaseCall :=
  | base_deactivate
  | base_keyPressed (k : Key)
  | base_mouseMoved (pos : QPointF) (control : bool)
  | base_mousePressed (e : MouseEvent).

(** The renderer of the tool's document and the [qreal] arithmetic of
    [QPointF] (IEEE doubles), which the tool uses but does not define. *)
Record Geometry := mkGeometry {
  screenToTileCoords : QPointF → QPointF;
  tileToPixelCoords : QPointF → QPointF;
  pointAdd : QPointF → QPointF → QPointF;      (* operator+ *)
  pointMul : QPointF → Z → QPointF;            (* operator*(QPointF, int) *)
  pointDiv : QPointF → Z → QPointF;            (* operator/=(int) *)
  toPoint : QPointF → QPoint;                  (* QPointF::toPoint() *)
  ofPoint : QPoint → QPointF;                  (* QPointF(const QPoint &) *)
}.

Module CreateObjectTool.

Record t := mk {
    mNewMapObjectItem : option Address;
    mOverlayObjectGroup : option Address;
    mOverlayPolygonObject : option Address;
    mOverlayPolygonItem : option Address;
    mTile : option Tile;
    mMode : CreationMode;
    (* the map document and the scene the tool is active on *)
    heap : gmap Address MapObject;            (* the map objects alive *)
    groups : gmap Address ObjectGroup;        (* the object groups of the map *)
    items : gmap Address MapObjectItem;       (* the object items alive *)
    sceneItems : list Address;                (* mapScene()->items() *)
    undoStack : list Command;                 (* mapDocument()->undoStack() *)
    currentObjectGroup : option Address;      (* currentObjectGroup() *)
    preferences : Preferences;
    nextAddress : Address;                    (* where [new] allocates next *)
    baseCalls : list BaseCall;
  }.

  (** The tool as its constructor leaves it, on a given document and scene. *)
Definition create (mode : CreationMode) (hp : gmap Address MapObject)
      (gs : gmap Address ObjectGroup) (cur : option Address)
      (prefs : Preferences) (next : Address) : t :=
    {| mNewMapObjectItem := None; mOverlayObjectGroup := None;
       mOverlayPolygonObject := None; mOverlayPolygonItem := None;
       mTile := None; mMode := mode; heap := hp; groups := gs; items := ∅;
       sceneItems := []; undoStack := []; currentObjectGroup := cur;
       preferences := prefs; nextAddress := next; baseCalls := [] |}.

Definition setNewMapObjectItem (i : option Address) (s : t) : t :=
    {| mNewMapObjectItem := i; mOverlayObjectGroup := mOverlayObjectGroup s;
       mOverlayPolygonObject := mOverlayPolygonObject s;
       mOverlayPolygonItem := mOverlayPolygonItem s; mTile := mTile s;
       mMode := mMode s; heap := heap s; groups := groups s; items := items s;
       sceneItems := sceneItems s; undoStack := undoStack s;
       currentObjectGroup := currentObjectGroup s; preferences := preferences s;
       nextAddress := nextAddress s; baseCalls := baseCalls s |}.
Definition setOverlayPolygonItem (i : option Address) (s : t) : t :=
    {| mNewMapObjectItem := mNewMapObjectItem s;
       mOverlayObjectGroup := mOverlayObjectGroup s;
       mOverlayPolygonObject := mOverlayPolygonObject s;
       mOverlayPolygonItem := i; mTile := mTile s;
       mMode := mMode s; heap := heap s; groups := groups s; items := items s;
       sceneItems := sceneItems s; undoStack := undoStack s;
       currentObjectGroup := currentObjectGroup s; preferences := preferences s;
       nextAddress := nextAddress s; baseCalls := baseCalls s |}.
Definition setTile (tile : option Tile) (s : t) : t :=
    {| mNewMapObjectItem := mNewMapObjectItem s;
       mOverlayObjectGroup := mOverlayObjectGroup s;
       mOverlayPolygonObject := mOverlayPolygonObject s;
       mOverlayPolygonItem := mOverlayPolygonItem s; mTile := tile;
       mMode := mMode s; heap := heap s; groups := groups s; items := items s;
       sceneItems := sceneItems s; undoStack := undoStack s;
       currentObjectGroup := currentObjectGroup s; preferences := preferences s;
       nextAddress := nextAddress s; baseCalls := baseCalls s |}.
Definition setHeap (h : gmap Address MapObject) (s : t) : t :=
    {| mNewMapObjectItem := mNewMapObjectItem s;
       mOverlayObjectGroup := mOverlayObjectGroup s;
       mOverlayPolygonObject := mOverlayPolygonObject s;
       mOverlayPolygonItem := mOverlayPolygonItem s; mTile := mTile s;
       mMode := mMode s; heap := h; groups := groups s; items := items s;
       sceneItems := sceneItems s; undoStack := undoStack s;
       currentObjectGroup := currentObjectGroup s; preferences := preferences s;
       nextAddress := nextAddress s; baseCalls := baseCalls s |}.
Definition setGroups (g : gmap Address ObjectGroup) (s : t) : t :=
    {| mNewMapObjectItem := mNewMapObjectItem s;
       mOverlayObjectGroup := mOverlayObjectGroup s;
       mOverlayPolygonObject := mOverlayPolygonObject s;
       mOverlayPolygonItem := mOverlayPolygonItem s; mTile := mTile s;
       mMode := mMode s; heap := heap s; groups := g; items := items s;
       sceneItems := sceneItems s; undoStack := undoStack s;
       currentObjectGroup := currentObjectGroup s; preferences := preferences s;
       nextAddress := nextAddress s; baseCalls := baseCalls s |}.
Definition setScene (i : gmap Address MapObjectItem) (sc : list Address)
      (s : t) : t :=
    {| mNewMapObjectItem := mNewMapObjectItem s;
       mOverlayObjectGroup := mOverlayObjectGroup s;
       mOverlayPolygonObject := mOverlayPolygonObject s;
       mOverlayPolygonItem := mOverlayPolygonItem s; mTile := mTile s;
       mMode := mMode s; heap := heap s; groups := groups s; items := i;
       sceneItems := sc; undoStack := undoStack s;
       currentObjectGroup := currentObjectGroup s; preferences := preferences s;
       nextAddress := nextAddress s; baseCalls := baseCalls s |}.
Definition setUndoStack (u : list Command) (s : t) : t :=
    {| mNewMapObjectItem := mNewMapObjectItem s;
       mOverlayObjectGroup := mOverlayObjectGroup s;
       mOverlayPolygonObject := mOverlayPolygonObject s;
       mOverlayPolygonItem := mOverlayPolygonItem s; mTile := mTile s;
       mMode := mMode s; heap := heap s; groups := groups s; items := items s;
       sceneItems := sceneItems s; undoStack := u;
       currentObjectGroup := currentObjectGroup s; preferences := preferences s;
       nextAddress := nextAddress s; baseCalls := baseCalls s |}.
Definition setNextAddress (n : Address) (s : t) : t :=
    {| mNewMapObjectItem := mNewMapObjectItem s;
       mOverlayObjectGroup := mOverlayObjectGroup s;
       mOverlayPolygonObject := mOverlayPolygonObject s;
       mOverlayPolygonItem := mOverlayPolygonItem s; mTile := mTile s;
       mMode := mMode s; heap := heap s; groups := groups s; items := items s;
       sceneItems := sceneItems s; undoStack := undoStack s;
       currentObjectGroup := currentObjectGroup s; preferences := preferences s;
       nextAddress := n; baseCalls := baseCalls s |}.
Definition callBase (c : BaseCall) (s : t) : t :=
    {| mNewMapObjectItem := mNewMapObjectItem s;
       mOverlayObjectGroup := mOverlayObjectGroup s;
       mOverlayPolygonObject := mOverlayPolygonObject s;
       mOverlayPolygonItem := mOverlayPolygonItem s; mTile := mTile s;
       mMode := mMode s; heap := heap s; groups := groups s; items := items s;
       sceneItems := sceneItems s; undoStack := undoStack s;
       currentObjectGroup := currentObjectGroup s; preferences := preferences s;
       nextAddress := nextAddress s; baseCalls := baseCalls s ++ [c] |}.

  (** [objectGroup->addObject(object)] *)
Definition addObject (g o : Address) (s : t) : option t :=
    grp ← groups s !! g;
    obj ← heap s !! o;
    Some (setHeap (<[o := setObjectGroup (Some g) obj]> (heap s))
            (setGroups (<[g := setObjects (objects grp ++ [o]) grp]> (groups s)) s)).

  (** [objectGroup->removeObject(object)] *)
Definition removeObject (g o : Address) (s : t) : option t :=
    grp ← groups s !! g;
    obj ← heap s !! o;
    Some (setHeap (<[o := setObjectGroup None obj]> (heap s))
            (setGroups (<[g := setObjects (removeOne o (objects grp)) grp]>
                          (groups s)) s)).

  (** [delete item], for a possibly null item: a graphics item that is
      destroyed leaves its scene. *)
Definition deleteItem (i : option Address) (s : t) : t :=
    match i with
    | Some a => setScene (delete a (items s)) (removeOne a (sceneItems s)) s
    | None => s
    end.

  (** [undoStack()->push(command)] *)
Definition push (c : Command) (s : t) : option t :=
    let s := setUndoStack (undoStack s ++ [c]) s in
    match c with
    | AddMapObject g o => addObject g o s
    end.

Section WithGeometry.
Variable geo : Geometry.
    (** [createNewMapObject()], pure virtual in this class: the object a
        subclass constructs, or null. *)
Variable createNewMapObject : t → option MapObject.

    (** The hooks "while creating object", as this class defines them. *)
Definition mouseMovedWhileCreatingObject (pos : QPointF) (control : bool)
        (snapToGrid snapToFineGrid : bool) (s : t) : option t := Some s.
Definition mousePressedWhileCreatingObject (e : MouseEvent)
        (snapToGrid snapToFineGrid : bool) (s : t) : option t := Some s.
Definition mouseReleasedWhileCreatingObject (e : MouseEvent)
        (snapToGrid snapToFineGrid : bool) (s : t) : option t := Some s.

Definition startNewMapObject (pos : QPointF) (group : Address) (s : t)
      : option t :=
      match mNewMapObjectItem s with
      | Some _ => None                        (* Q_ASSERT(!mNewMapObjectItem) *)
      | None =>
          match createNewMapObject s with
          | None => Some s
          | Some made =>
              let newMapObject := nextAddress s in
              let s := setNextAddress (S newMapObject)
                         (setHeap (<[newMapObject := setPosition pos made]> (heap s)) s) in
              s ← addObject group newMapObject s;
              let item := nextAddress s in
              let s := setNextAddress (S item) s in
              let s := setScene
                         (<[item := {| mapObject := newMapObject; zValue := 10000 |}]>
                            (items s))
                         (sceneItems s ++ [item]) s in
              Some (setNewMapObjectItem (Some item) s)
          end
      end.

    (** Returns the new map object together with the state. *)
Definition clearNewMapObjectItem (s : t) : option (Address * t) :=
      item ← mNewMapObjectItem s;             (* Q_ASSERT(mNewMapObjectItem) *)
      it ← items s !! item;
      let newMapObject := mapObject it in
      obj ← heap s !! newMapObject;
      group ← objectGroup obj;
      s ← removeObject group newMapObject s;
      let s := setNewMapObjectItem None (deleteItem (Some item) s) in
      let s := setOverlayPolygonItem None (deleteItem (mOverlayPolygonItem s) s) in
      Some (newMapObject, s).

Definition cancelNewMapObject (s : t) : option t :=
      r ← clearNewMapObjectItem s;
      Some (setHeap (delete r.1 (heap r.2)) r.2).      (* delete newMapObject *)

Definition finishNewMapObject (s : t) : option t :=
      item ← mNewMapObjectItem s;             (* Q_ASSERT(mNewMapObjectItem) *)
      it ← items s !! item;
      let newMapObject := mapObject it in
      obj ← heap s !! newMapObject;
      group ← objectGroup obj;
      r ← clearNewMapObjectItem s;
      push (AddMapObject group newMapObject) r.2.

Definition deactivate (s : t) : option t :=
      s ← match mNewMapObjectItem s with
          | Some _ => cancelNewMapObject s
          | None => Some s
          end;
      Some (callBase base_deactivate s).

Definition keyPressed (k : Key) (s : t) : option t :=
      match k, mNewMapObjectItem s with
      | (Key_Enter | Key_Return), Some _ => finishNewMapObject s
      | Key_Escape, Some _ => cancelNewMapObject s
      | _, _ => Some (callBase (base_keyPressed k) s)
      end.

Definition mouseEntered (s : t) : option t := Some s.

    (** The two snap flags of an event: the Control modifier inverts
        snap-to-grid and turns snap-to-fine-grid off. *)
Definition snapFlags (control : bool) (s : t) : bool * bool :=
      if control then (negb (snapToGrid (preferences s)), false)
      else (snapToGrid (preferences s), snapToFineGrid (preferences s)).

Definition mouseMoved (pos : QPointF) (control : bool) (s : t) : option t :=
      let s := callBase (base_mouseMoved pos control) s in
      match mNewMapObjectItem s with
      | Some _ =>
          let f := snapFlags control s in
          mouseMovedWhileCreatingObject pos control f.1 f.2 s
      | None => Some s
      end.

    (** The snapping of [mousePressed]. *)
Definition snap (snapToGrid snapToFineGrid : bool) (s : t)
        (tileCoords : QPointF) : QPointF :=
      if snapToFineGrid then
        let gridFine := gridFine (preferences s) in
        pointDiv geo (ofPoint geo (toPoint geo (pointMul geo tileCoords gridFine)))
                 gridFine
      else if snapToGrid then ofPoint geo (toPoint geo tileCoords)
      else tileCoords.

Definition mousePressed (e : MouseEvent) (s : t) : option t :=
      let f := snapFlags (controlModifier e) s in
      match mNewMapObjectItem s with
      | Some _ => mousePressedWhileCreatingObject e f.1 f.2 s
      | None =>
          match button e with
          | LeftButton =>
              match currentObjectGroup s with
              | None => Some s
              | Some group =>
                  grp ← groups s !! group;
                  if negb (isVisible grp) then Some s else
                  let start tileCoords :=
                    startNewMapObject
                      (tileToPixelCoords geo (snap f.1 f.2 s tileCoords)) group s in
                  match mMode s with
                  | CreateTile =>
                      match mTile s with
                      | None => Some s
                      | Some tile =>
                          let diff := ofPoint geo (Z.quot (- width tile) 2,
                                                   Z.quot (height tile) 2) in
                          start (screenToTileCoords geo (pointAdd geo (scenePos e) diff))
                      end
                  | CreateGeometry => start (screenToTileCoords geo (scenePos e))
                  end
              end
          | _ => Some (callBase (base_mousePressed e) s)
          end
      end.

Definition mouseReleased (e : MouseEvent) (s : t) : option t :=
      let f := snapFlags (controlModifier e) s in
      match mNewMapObjectItem s with
      | Some _ => mouseReleasedWhileCreatingObject e f.1 f.2 s
      | None => Some s
      end.

    (** What the scene and the application deliver to the tool. *)
Inductive Event :=
      | Deactivate
      | KeyPressed (k : Key)
      | MouseEntered
      | MouseMoved (pos : QPointF) (control : bool)
      | MousePressed (e : MouseEvent)
      | MouseReleased (e : MouseEvent)
      | SetTile (tile : option Tile).

Definition handle (ev : Event) (s : t) : option t :=
      match ev with
      | Deactivate => deactivate s
      | KeyPressed k => keyPressed k s
      | MouseEntered => mouseEntered s
      | MouseMoved pos control => mouseMoved pos control s
      | MousePressed e => mousePressed e s
      | MouseReleased e => mouseReleased e s
      | SetTile tile => Some (setTile tile s)
      end.

Fixpoint run (evs : list Event) (s : t) : option t :=
      match evs with
      | [] => Some s
      | ev :: evs' => s' ← handle ev s; run evs' s'
      end.
End WithGeometry.
End CreateObjectTool.

(** ** What is stated about the manager *)

Module Registry.
Import DocumentManager.

(** Every document has its page, and the current index is [-1] or the index
    of a document. *)
Definition consistent (m : t) : Prop :=
  length (TabWidget.pages (mTabWidget m)) = length (mDocuments m) ∧
  (currentIndex m = -1 ∨
   0 ≤ currentIndex m < Z.of_nat (length (mDocuments m))).

(** No document object is in [mDocuments] twice. *)
Definition uniqueObjects (m : t) : Prop := NoDup (docId <$> mDocuments m).

(** The file [name] exists and [d] is a document of that file. *)
Definition resolvesTo (env : Env) (name : string) (d : MapDocument) : Prop :=
  canonicalFilePath env name ≠ "" ∧
  canonicalFilePath env (fileName d) = canonicalFilePath env name.

(** No two open documents are documents of one existing file. *)
Definition uniquePaths (env : Env) (m : t) : Prop :=
  ∀ (i j : nat) d1 d2,
    mDocuments m !! i = Some d1 → mDocuments m !! j = Some d2 → i ≠ j →
    ¬ resolvesTo env (fileName d1) d2.

(** The file watcher holds one subscription for each open document that
    has a file name, and no other. *)
Definition watchOk (m : t) : Prop :=
  mFileSystemWatcher m
  = list_to_set_disj (filter (λ p, p ≠ "") (fileName <$> mDocuments m)).


Inductive Op :=
  | Open (d : MapDocument)
  | Close (index : Z).

Definition applyOp (env : Env) (op : Op) (m : t) : option t :=
  match op with
  | Open d => addDocument env d m
  | Close index => closeDocumentAt index m
  end.

Fixpoint runOps (env : Env) (ops : list Op) (m : t) : option t :=
  match ops with
  | [] => Some m
  | op :: ops' => m' ← applyOp env op m; runOps env ops' m'
  end.

(** Along the run of [ops] from [m], a document is opened only when
    [findDocument] does not find its file among the open documents. *)
Fixpoint guarded (env : Env) (ops : list Op) (m : t) : Prop :=
  match ops with
  | [] => True
  | op :: ops' =>
      match op with
      | Open d => findDocument env (fileName d) m = -1
      | Close _ => True
      end ∧
      match applyOp env op m with
      | Some m' => guarded env ops' m'
      | None => True
      end
  end.

(** The page that [reloadDocumentAt] leaves for the new document: a new
    view carrying the zoom and the scroll positions of the old one. *)
Definition reloadedPage (old : MapView) (newDocument : MapDocument)
  : MapViewContainer :=
  {| mapView := {| scale := scale old;
                   horizontalPosition := horizontalPosition old;
                   verticalPosition := verticalPosition old |};
     warningVisible := false;
     sceneDocument := docId newDocument |}.

(** The new document as [reloadDocumentAt] leaves it. *)
Definition reloadedDocument (oldDocument newDocument : MapDocument)
  : MapDocument :=
  if bool_decide (0 < currentLayerIndex oldDocument) &&
     bool_decide (currentLayerIndex oldDocument < layerCount newDocument)
  then setCurrentLayerIndex (currentLayerIndex oldDocument) newDocument
  else newDocument.

(** The reader [reloadDocumentAt] passes to [MapDocument::load]. *)
Definition readerOf (env : Env) (d : MapDocument) : option Reader :=
  if bool_decide (readerPluginFileName d = "") then None
  else pluginByFileName env (readerPluginFileName d).

(** The page [addDocument] makes for a document. *)
Definition openedPage (env : Env) (d : MapDocument) : MapViewContainer :=
  {| mapView := centerOn env d 0 0 (newMapView env); warningVisible := false;
     sceneDocument := docId d |}.

(** The current index [TabWidget.removeTab] leaves. *)
Definition indexAfterRemove (index current : Z) (remaining : nat) : Z :=
  if bool_decide (index = current) then
    match remaining with
    | O => -1
    | S _ => Z.min index (Z.of_nat remaining - 1)
    end
  else if bool_decide (index < current) then current - 1 else current.

Definition setPage (index : nat) (c : MapViewContainer) (m : t) : t :=
  setTabWidget
    (TabWidget.setPages (<[index := c]> (TabWidget.pages (mTabWidget m)))
       (mTabWidget m)) m.
End Registry.

(** ** A directory with three maps, and three documents open *)

Module Examples.
Import DocumentManager Registry.

Definition docA : MapDocument :=
  {| docId := 1%nat; fileName := "a.tmx"; isModified := false; lastSaved := 100;
     readerPluginFileName := ""; currentLayerIndex := 0; layerCount := 2 |}.
Definition docB : MapDocument :=
  {| docId := 2%nat; fileName := "b.tmx"; isModified := true; lastSaved := 100;
     readerPluginFileName := ""; currentLayerIndex := 1; layerCount := 2 |}.
Definition docC : MapDocument :=
  {| docId := 3%nat; fileName := "c.tmx"; isModified := false; lastSaved := 100;
     readerPluginFileName := "libjson.so"; currentLayerIndex := 1; layerCount := 2 |}.

(** What reading a.tmx and c.tmx anew gives. *)
Definition docA' : MapDocument :=
  {| docId := 4%nat; fileName := "a.tmx"; isModified := false; lastSaved := 200;
     readerPluginFileName := ""; currentLayerIndex := 0; layerCount := 2 |}.
Definition docC' : MapDocument :=
  {| docId := 5%nat; fileName := "c.tmx"; isModified := false; lastSaved := 200;
     readerPluginFileName := "libjson.so"; currentLayerIndex := 0; layerCount := 3 |}.

(** The files a.tmx, b.tmx and c.tmx exist in /maps and were last modified
    at time 200; b.tmx can no longer be read. *)
Definition directory : Env :=
  {| canonicalFilePath := λ f,
       if bool_decide (f ∈ ["a.tmx"; "b.tmx"; "c.tmx"]) then String.append "/maps/" f
       else "";
     lastModified := λ _, 200;
     pluginByFileName := λ p, if bool_decide (p = "libjson.so") then Some 7%nat
                              else None;
     load := λ f r,
       if bool_decide (f = "a.tmx") then inl docA'
       else if bool_decide (f = "c.tmx") then
              match r with
              | Some _ => inl docC'
              | None => inr "Unrecognized file format."
              end
       else inr "Could not open file for reading.";
     newMapView := {| scale := 4607182418800017408;    (* 1.0 *)
                      horizontalPosition := 0; verticalPosition := 0 |};
     centerOn := λ _ _ _ v, v |}.

(** The user zooms and scrolls the view at [index]. *)
Definition zoomAndScroll (index : nat) (s : qreal) (h v : Z) (m : t) : t :=
  setTabWidget
    (TabWidget.setPages
       (alter (withMapView (λ _, {| scale := s; horizontalPosition := h;
                                    verticalPosition := v |}))
              index (TabWidget.pages (mTabWidget m))) (mTabWidget m)) m.

(** a.tmx, b.tmx and c.tmx open, c.tmx current and zoomed to 2.0. *)
Definition threeOpen : t :=
  zoomAndScroll 2 4611686018427387904 30 40
    (default init (runOps directory [Open docA; Open docB; Open docC] init)).

(** a.tmx and b.tmx open, b.tmx current. *)
Definition twoOpen : t :=
  default init (runOps directory [Open docA; Open docB] init).

End Examples.

(** ** What is stated about the creation tool *)

Module Session.
Import CreateObjectTool.

(** The events that neither finish nor cancel a creation. *)
Definition quiet (ev : Event) : Prop :=
  match ev with
  | Deactivate => False
  | KeyPressed (Key_Enter | Key_Return | Key_Escape) => False
  | _ => True
  end.

(** The confirm keys. *)
Definition confirms (ev : Event) : Prop :=
  ev = KeyPressed Key_Enter ∨ ev = KeyPressed Key_Return.

(** The cancel key and the deactivation of the tool. *)
Definition cancels (ev : Event) : Prop :=
  ev = KeyPressed Key_Escape ∨ ev = Deactivate.

(** The number of objects in the group at [g]. *)
Definition objectCount (g : Address) (s : t) : option nat :=
  (λ grp, length (objects grp)) <$> groups s !! g.

(** The document and the scene are the same in [s] and [s']: what may
    differ is the tile selected and the record of calls to the base class. *)
Definition sameModel (s s' : t) : Prop :=
  mNewMapObjectItem s' = mNewMapObjectItem s ∧
  mOverlayPolygonItem s' = mOverlayPolygonItem s ∧
  mMode s' = mMode s ∧
  heap s' = heap s ∧ groups s' = groups s ∧ items s' = items s ∧
  sceneItems s' = sceneItems s ∧ undoStack s' = undoStack s ∧
  currentObjectGroup s' = currentObjectGroup s ∧
  preferences s' = preferences s ∧ nextAddress s' = nextAddress s.

(** The tool right after [startNewMapObject] put the object its factory
    made at [pos] into the group [grp] at address [g]. *)
Definition started (pos : QPointF) (g : Address) (grp : ObjectGroup) (s : t) : t :=
  let object := nextAddress s in
  let item := S object in
  setNewMapObjectItem (Some item)
    (setScene (<[item := {| mapObject := object; zValue := 10000 |}]> (items s))
       (sceneItems s ++ [item])
       (setNextAddress (S item)
          (setHeap (<[object := {| position := pos; objectGroup := Some g |}]> (heap s))
             (setGroups (<[g := setObjects (objects grp ++ [object]) grp]> (groups s))
                s)))).
End Session.

(** ** A map with one object layer, and a tool on it *)

Module ToolExamples.
Import CreateObjectTool Session.

(** An orthogonal renderer with tiles of one pixel converts by the
    identity. The example events come in geometry mode with both snap
    preferences off, where a press uses nothing of the geometry but the two
    conversions; the arithmetic entries are not exercised and are the
    projections. *)
Definition unitTiles : Geometry :=
  {| screenToTileCoords := λ p, p;
     tileToPixelCoords := λ p, p;
     pointAdd := λ p _, p;
     pointMul := λ p _, p;
     pointDiv := λ p _, p;
     toPoint := λ _, (0, 0);
     ofPoint := λ _, (0, 0) |}.

(** A factory that always makes an object (a rectangle, say). *)
Definition makeShape (s : t) : option MapObject :=
  Some {| position := (0, 0); objectGroup := None |}.

(** The factory of tile-stamp mode: it declines when no tile is selected. *)
Definition makeTile (s : t) : option MapObject :=
  match mTile s with
  | Some _ => Some {| position := (0, 0); objectGroup := None |}
  | None => None
  end.

Definition noSnap : Preferences :=
  {| snapToGrid := false; snapToFineGrid := false; gridFine := 4 |}.

(** One visible and editable object group at address 10 holding the
    objects 11 and 12; the next allocation is at 20. *)
Definition layer : ObjectGroup :=
  {| objects := [11%nat; 12%nat]; isVisible := true; isEditable := true |}.

Definition idle : t :=
  create CreateGeometry
    (<[11%nat := {| position := (0, 0); objectGroup := Some 10%nat |}]>
       (<[12%nat := {| position := (0, 0); objectGroup := Some 10%nat |}]> ∅))
    (<[10%nat := layer]> ∅) (Some 10%nat) noSnap 20%nat.

(** The same with the layer visible but not editable. *)
Definition lockedLayer : ObjectGroup :=
  {| objects := [11%nat; 12%nat]; isVisible := true; isEditable := false |}.

Definition idleLocked : t :=
  create CreateGeometry
    (<[11%nat := {| position := (0, 0); objectGroup := Some 10%nat |}]>
       (<[12%nat := {| position := (0, 0); objectGroup := Some 10%nat |}]> ∅))
    (<[10%nat := lockedLayer]> ∅) (Some 10%nat) noSnap 20%nat.

(** The same with the layer hidden. *)
Definition hiddenLayer : ObjectGroup :=
  {| objects := [11%nat; 12%nat]; isVisible := false; isEditable := true |}.

Definition idleHidden : t :=
  create CreateGeometry
    (<[11%nat := {| position := (0, 0); objectGroup := Some 10%nat |}]>
       (<[12%nat := {| position := (0, 0); objectGroup := Some 10%nat |}]> ∅))
    (<[10%nat := hiddenLayer]> ∅) (Some 10%nat) noSnap 20%nat.

(** A press of the left button at the scene position with bit patterns
    (0, 0), that is at the origin. *)
Definition press : MouseEvent :=
  {| button := LeftButton; controlModifier := false; scenePos := (0, 0) |}.
End ToolExamples.

(** ** The rest of the document manager *)

Module DocumentManagerMore.
Import DocumentManager.

(** [switchToDocument] for a document given by its address. *)
Definition switchToDocumentPtr (mapDocument : DocId) (m : t) : option t :=
  let index := indexOf mapDocument m in
  if bool_decide (index = -1) then Some m else switchToDocument index m.

Definition switchToLeftDocument (m : t) : option t :=
  let tabCount := TabWidget.count (mTabWidget m) in
  if bool_decide (tabCount < 2) then Some m else
  let currentIndex := currentIndex m in
  switchToDocument
    ((if bool_decide (0 < currentIndex) then currentIndex else tabCount) - 1) m.

Definition switchToRightDocument (m : t) : option t :=
  let tabCount := TabWidget.count (mTabWidget m) in
  if bool_decide (tabCount < 2) then Some m else
  let currentIndex := currentIndex m in
  switchToDocument (Z.rem (currentIndex + 1) tabCount) m.

Definition closeCurrentDocument (m : t) : option t :=
  let index := currentIndex m in
  if bool_decide (index = -1) then Some m else closeDocumentAt index m.

Definition reloadCurrentDocument (env : Env) (m : t) : option (bool * t) :=
  let index := currentIndex m in
  if bool_decide (index = -1) then Some (false, m) else reloadDocumentAt env index m.

(** [closeAllDocuments()]: the loop runs at most [fuel] times; [None] is
    also the answer when the fuel does not suffice. *)
Fixpoint closeAllDocuments (fuel : nat) (m : t) : option t :=
  match mDocuments m with
  | [] => Some m
  | _ :: _ =>
      match fuel with
      | O => None
      | S fuel' => m' ← closeCurrentDocument m; closeAllDocuments fuel' m'
      end
  end.

(** The destructor: all documents should be closed beforehand. *)
Definition destroy (m : t) : option unit :=
  match mDocuments m with
  | [] => Some ()
  | _ :: _ => None                  (* Q_ASSERT(mDocuments.isEmpty()) *)
  end.

(** The slot [documentSaved()], [document] being the sender. *)
Definition documentSaved (document : DocId) (m : t) : option t :=
  let index := indexOf document m in
  if bool_decide (index = -1) then None else        (* Q_ASSERT(index != -1) *)
  container ← TabWidget.widget (mTabWidget m) index;
  let w := mTabWidget m in
  Some (setTabWidget
          (TabWidget.setPages
             (<[Z.to_nat index := setFileChangedWarningVisible false container]>
                (TabWidget.pages w)) w) m).

(** The "No" button of the warning of the page at [index]: the container
    connects the warning's [ignore()] to the warning's [hide()]. *)
Definition ignoreWarning (index : nat) (m : t) : t :=
  let w := mTabWidget m in
  setTabWidget
    (TabWidget.setPages
       (alter (setFileChangedWarningVisible false) index (TabWidget.pages w)) w) m.
End DocumentManagerMore.

(** ** What the manager keeps true *)

Module WellFormed.
Import DocumentManager Registry DocumentManagerMore.

(** The page at each index is the page of the document at that index. *)
Definition aligned (m : t) : Prop :=
  (sceneDocument <$> TabWidget.pages (mTabWidget m)) = (docId <$> mDocuments m).

(** There is a current page exactly when there are pages. *)
Definition tabsOk (m : t) : Prop :=
  (TabWidget.pages (mTabWidget m) = [] ∧ currentIndex m = -1) ∨
  0 ≤ currentIndex m < Z.of_nat (length (TabWidget.pages (mTabWidget m))).

(** The address of the current document, if there is one. *)
Definition currentId (m : t) : option DocId :=
  if bool_decide (0 ≤ currentIndex m)
  then docId <$> mDocuments m !! Z.to_nat (currentIndex m)
  else None.

(** The undo stack of the current document is the active one, and its scene
    is the one with the tool. *)
Definition followsCurrent (m : t) : Prop :=
  UndoGroup.activeStack (mUndoGroup m) = currentId m ∧
  mSceneWithTool m = currentId m.

Definition wellFormed (m : t) : Prop :=
  aligned m ∧ tabsOk m ∧ uniqueObjects m ∧ followsCurrent m.

(** The undo group holds the undo stacks of the open documents, each once,
    and no other. *)
Definition stacksOk (m : t) : Prop :=
  NoDup (UndoGroup.stacks (mUndoGroup m)) ∧
  ∀ x, x ∈ UndoGroup.stacks (mUndoGroup m) ↔ x ∈ (docId <$> mDocuments m).

(** What the user and the file system can make the manager do. *)
Inductive Action :=
  | AddDocument (d : MapDocument)
  | CloseDocumentAt (index : Z)
  | CloseCurrentDocument
  | SwitchToDocument (index : Z)
  | SwitchToDocumentPtr (d : DocId)
  | SwitchToLeftDocument
  | SwitchToRightDocument
  | MoveTab (from to : Z)
  | ReloadDocumentAt (index : Z)
  | ReloadCurrentDocument
  | FileChanged (name : string)
  | DocumentSaved (d : DocId)
  | IgnoreWarning (index : nat).

Definition act (env : Env) (a : Action) (m : t) : option t :=
  match a with
  | AddDocument d => addDocument env d m
  | CloseDocumentAt index => closeDocumentAt index m
  | CloseCurrentDocument => closeCurrentDocument m
  | SwitchToDocument index => switchToDocument index m
  | SwitchToDocumentPtr d => switchToDocumentPtr d m
  | SwitchToLeftDocument => switchToLeftDocument m
  | SwitchToRightDocument => switchToRightDocument m
  | MoveTab from to => moveTab from to m
  | ReloadDocumentAt index => snd <$> reloadDocumentAt env index m
  | ReloadCurrentDocument => snd <$> reloadCurrentDocument env m
  | FileChanged name => fileChanged env name m
  | DocumentSaved d => documentSaved d m
  | IgnoreWarning index => Some (ignoreWarning index m)
  end.

(** A history: each action comes with the file system, the plugins and the
    loader as they are when it happens. What [load] hands out is a new object
    each time, so its address differs from one action to the next. *)
Fixpoint acts (l : list (Env * Action)) (m : t) : option t :=
  match l with
  | [] => Some m
  | (env, a) :: l' => m' ← act env a m; acts l' m'
  end.

(** [env] at a time when the next document allocated is at [address]. *)
Definition allocatingAt (address : DocId) (env : Env) : Env :=
  {| canonicalFilePath := canonicalFilePath env;
     lastModified := lastModified env;
     pluginByFileName := pluginByFileName env;
     load := λ f r,
       match load env f r with
       | inl d =>
           inl {| docId := address; fileName := fileName d;
                  isModified := isModified d; lastSaved := lastSaved d;
                  readerPluginFileName := readerPluginFileName d;
                  currentLayerIndex := currentLayerIndex d;
                  layerCount := layerCount d |}
       | inr e => inr e
       end;
     newMapView := newMapView env;
     centerOn := centerOn env |}.
End WellFormed.

(** ** What the creation tool keeps true *)

Module ToolWellFormed.
Import CreateObjectTool Session.

(** The current object group is a group of the map, and the item of a
    creation going on shows an object that is in a group of the map. *)
Definition wellFormed (s : t) : Prop :=
  (∀ g, currentObjectGroup s = Some g → is_Some (groups s !! g)) ∧
  (∀ item, mNewMapObjectItem s = Some item →
     ∃ it obj g grp,
       items s !! item = Some it ∧ heap s !! mapObject it = Some obj ∧
       objectGroup obj = Some g ∧ groups s !! g = Some grp ∧
       mapObject it ∈ objects grp).

(** Where [mousePressed] puts a new object for a press at [scenePos]. *)
Definition pressPosition (geo : Geometry) (e : MouseEvent) (s : t) : QPointF :=
  let f := snapFlags (controlModifier e) s in
  let tileCoords :=
    match mMode s, mTile s with
    | CreateTile, Some tile =>
        screenToTileCoords geo
          (pointAdd geo (scenePos e)
             (ofPoint geo (Z.quot (- width tile) 2, Z.quot (height tile) 2)))
    | _, _ => screenToTileCoords geo (scenePos e)
    end in
  tileToPixelCoords geo (snap geo f.1 f.2 s tileCoords).

(** What the tool passes on to its base class when it handles [ev]. *)
Definition forwarded (ev : Event) (s : t) : list BaseCall :=
  match ev with
  | Deactivate => [base_deactivate]
  | KeyPressed k =>
      match k, mNewMapObjectItem s with
      | (Key_Enter | Key_Return | Key_Escape), Some _ => []
      | _, _ => [base_keyPressed k]
      end
  | MouseMoved pos control => [base_mouseMoved pos control]
  | MousePressed e =>
      match mNewMapObjectItem s, button e with
      | None, (RightButton | MidButton) => [base_mousePressed e]
      | _, _ => []
      end
  | _ => []
  end.
End ToolWellFormed.

(** ** The arithmetic of the snapping

    [qreal] is [double], an IEEE 754 binary64 number: [SpecFloat] with 53
    digits and exponents below 1024. An [int] has 32 bits. Converting a
    double to [int] drops the fraction, and is undefined ([None]) when the
    whole part is no [int], as it is for an infinity and for not-a-number. *)

Module QReal.
Import SpecFloat.

Definition prec : Z := 53.
Definition emax : Z := 1024.
Definition INT_MIN : Z := -2147483648.
Definition INT_MAX : Z := 2147483647.

Definition mul : spec_float → spec_float → spec_float := SFmul prec emax.
Definition div : spec_float → spec_float → spec_float := SFdiv prec emax.
Definition add : spec_float → spec_float → spec_float := SFadd prec emax.
Definition sub : spec_float → spec_float → spec_float := SFsub prec emax.

(** The conversion of an [int] to [double], which is exact. *)
Definition ofInt (n : Z) : spec_float := binary_normalize prec emax n 0 false.

(** An [int] result: undefined when it overflows. *)
Definition checked (n : Z) : option Z :=
  if bool_decide (INT_MIN ≤ n ≤ INT_MAX) then Some n else None.

(** [int(d)] *)
Definition toInt (d : spec_float) : option Z :=
  match d with
  | S754_zero _ => Some 0
  | S754_finite s m e =>
      let n := cond_Zopp s (Z.pos m) in
      checked (if bool_decide (0 ≤ e) then n * 2 ^ e else Z.quot n (2 ^ (- e)))
  | _ => None
  end.

(** 0.5 *)
Definition half : spec_float := S754_finite false 4503599627370496 (-53).

(** [qRound] of Qt's qglobal.h:
    [d >= 0.0 ? int(d + 0.5) : int(d - int(d-1) + 0.5) + int(d-1)] *)
Definition qRound (d : spec_float) : option Z :=
  if SFleb (S754_zero false) d then toInt (add d half)
  else
    k ← toInt (sub d (ofInt 1));
    r ← toInt (add (sub d (ofInt k)) half);
    checked (r + k).

Definition QPointF : Type := (spec_float * spec_float)%type.
Definition QPoint : Type := (Z * Z)%type.

(** [QPointF::toPoint()] *)
Definition toPoint (p : QPointF) : option QPoint :=
  x ← qRound p.1; y ← qRound p.2; Some (x, y).
(** [QPointF(const QPoint &)] *)
Definition ofPoint (p : QPoint) : QPointF := (ofInt p.1, ofInt p.2).
(** [operator*(const QPointF &, qreal)] *)
Definition pointMul (p : QPointF) (c : spec_float) : QPointF :=
  (mul p.1 c, mul p.2 c).
(** [QPointF::operator/=(qreal)] *)
Definition pointDiv (p : QPointF) (c : spec_float) : QPointF :=
  (div p.1 c, div p.2 c).

(** The snapping of [mousePressed]: [gridFine] is an [int], converted to
    [qreal] where it multiplies and divides. *)
Definition snap (snapToGrid snapToFineGrid : bool) (gridFine : Z)
    (tileCoords : QPointF) : option QPointF :=
  if snapToFineGrid then
    p ← toPoint (pointMul tileCoords (ofInt gridFine));
    Some (pointDiv (ofPoint p) (ofInt gridFine))
  else if snapToGrid then ofPoint <$> toPoint tileCoords
  else Some tileCoords.

(** A double that is a number: neither an infinity nor not-a-number. *)
Definition isNumber (d : spec_float) : bool :=
  match d with
  | S754_zero _ | S754_finite _ _ _ => true
  | _ => false
  end.

(** The position of the tile numbered [INT_MIN], which [qRound] can give but
    not take: for a negative [d] it converts [d - 1] to [int]. *)
Definition leastPosition (snapToGrid snapToFineGrid : bool) (gridFine : Z)
  : option spec_float :=
  if snapToFineGrid then Some (div (ofInt INT_MIN) (ofInt gridFine))
  else if snapToGrid then Some (ofInt INT_MIN)
  else None.
End QReal.

(** ** The value of a double

    What a finite double stands for, as a rational number: the bounds on the
    rounding of the operations are stated with it. *)

Module QRealValue.
Import QArith Qpower.
Local Open Scope Z_scope.

Definition pow2 (e : Z) : Q := (2 ^ e)%Q.
Definition sgn (s : bool) : Q := if s then (-1)%Q else 1%Q.
(** the magnitude of the double with mantissa [m] and exponent [e] *)
Definition mag (m : positive) (e : Z) : Q := (inject_Z (Z.pos m) * pow2 e)%Q.
Definition F2Q (s : bool) (m : positive) (e : Z) : Q := (sgn s * mag m e)%Q.
(** the relative error of one rounding is at most one unit in the last
    place *)
Definition u : Q := (1 # 4503599627370496)%Q.
(** a mantissa of exactly 53 digits *)
Definition canonical (m : positive) : Prop := 2 ^ 52 ≤ Z.pos m < 2 ^ 53.
End QRealValue.

(** * Facts about the containers *)

Module QListFacts.
Section Facts.
Context {A : Type}.
Implicit Types (l : list A) (x : A).

Lemma validIndex_true l i :
  QList.validIndex l i = true ↔ 0 ≤ i < Z.of_nat (length l).
Proof. unfold QList.validIndex. by rewrite bool_decide_eq_true. Qed.

Lemma validIndex_of_nat l (n : nat) :
  (n < length l)%nat → QList.validIndex l (Z.of_nat n) = true.
Proof. intros. apply validIndex_true. lia. Qed.

Lemma at_Some l i x :
  QList.at_ l i = Some x ↔ 0 ≤ i ∧ l !! Z.to_nat i = Some x.
Proof.
  unfold QList.at_, QList.validIndex. case_bool_decide as H; split.
  - intros ?. split; [lia | done].
  - by intros [_ ?].
  - done.
  - intros [? Hl]. apply lookup_lt_Some in Hl. lia.
Qed.

Lemma at_of_nat l (n : nat) : QList.at_ l (Z.of_nat n) = l !! n.
Proof.
  unfold QList.at_, QList.validIndex. rewrite Nat2Z.id.
  case_bool_decide as H; [done |].
  symmetry. apply lookup_ge_None. lia.
Qed.

Lemma removeAt_of_nat l (n : nat) : QList.removeAt (Z.of_nat n) l = delete n l.
Proof.
  unfold QList.removeAt, QList.validIndex. rewrite Nat2Z.id.
  case_bool_decide as H; [done |].
  rewrite delete_take_drop, take_ge, drop_ge by lia. by rewrite app_nil_r.
Qed.

(** Appending an item, deleting the one at [i] and moving the last item to
    [i] replaces the item at [i]. *)
Lemma delete_snoc_last l x (i : nat) :
  S i = length l → delete i (l ++ [x]) = <[i := x]> l.
Proof.
  intros Hi. rewrite delete_take_drop, insert_take_drop by lia.
  rewrite take_app_le by lia. f_equal.
  rewrite drop_app_length' by lia. by rewrite drop_ge by lia.
Qed.

Lemma move_delete_snoc l x (i : nat) :
  (i < length l)%nat →
  QList.move (Z.of_nat (length l) - 1) (Z.of_nat i) (delete i (l ++ [x]))
  = Some (<[i := x]> l).
Proof.
  intros Hi. unfold QList.move.
  assert (Hlen : length (delete i (l ++ [x])) = length l).
  { rewrite length_delete; [rewrite length_app; simpl; lia |].
    apply lookup_lt_is_Some. rewrite length_app. simpl. lia. }
  assert (Hd : delete i (l ++ [x]) = delete i l ++ [x]).
  { rewrite !delete_take_drop. rewrite take_app_le, drop_app_le by lia.
    by rewrite <- app_assoc. }
  assert (Hdl : length (delete i l) = (length l - 1)%nat).
  { rewrite length_delete; [lia | by apply lookup_lt_is_Some]. }
  rewrite (proj2 (validIndex_true _ _)), (proj2 (validIndex_true _ _)) by lia.
  simpl. replace (Z.to_nat (Z.of_nat (length l) - 1)) with (length (delete i l)) by lia.
  rewrite Nat2Z.id, Hd, list_lookup_middle by done. simpl. f_equal.
  unfold QList.insertAt.
  replace (delete (length (delete i l)) (delete i l ++ [x])) with (delete i l).
  2:{ rewrite (delete_take_drop (_ ++ _)), take_app_length.
      rewrite drop_ge; [by rewrite app_nil_r | rewrite length_app; simpl; lia]. }
  rewrite insert_take_drop by lia. rewrite delete_take_drop.
  rewrite take_app_le by (rewrite length_take; lia).
  rewrite take_take, Nat.min_id. f_equal. f_equal.
  rewrite drop_app_length'; [done | rewrite length_take; lia].
Qed.

Lemma alter_insert_same (f : A → A) l (i : nat) x :
  alter f i (<[i := x]> l) = <[i := f x]> l.
Proof.
  revert i. induction l as [| y l IH]; intros [| i]; simpl; try done.
  f_equal. apply IH.
Qed.
End Facts.
End QListFacts.

(** * Facts about the document manager *)

Module RegistryFacts.
Import DocumentManager Registry QListFacts.

Section Facts.
Variable env : Env.
Implicit Types (m : t) (d : MapDocument).

Lemma findFrom_range c i ds :
  findFrom env c i ds = -1 ∨ i ≤ findFrom env c i ds < i + Z.of_nat (length ds).
Proof.
  revert i. induction ds as [| d ds IH]; intros i; simpl; [by left |].
  case_bool_decide; [right; lia |].
  destruct (IH (i + 1)) as [-> | ?]; [by left | right; lia].
Qed.

Lemma findFrom_none c i ds :
  0 ≤ i → findFrom env c i ds = -1 →
  ∀ d, d ∈ ds → canonicalFilePath env (fileName d) ≠ c.
Proof.
  revert i. induction ds as [| d ds IH]; intros i Hi Hf x Hx.
  - by apply not_elem_of_nil in Hx.
  - simpl in Hf. case_bool_decide as Hc; [lia |].
    apply elem_of_cons in Hx as [-> | Hx]; [done |].
    by apply (IH (i + 1)); [lia | |].
Qed.

Lemma findFrom_found c i ds r :
  0 ≤ i → findFrom env c i ds = r → r ≠ -1 →
  ∃ d, ds !! Z.to_nat (r - i) = Some d ∧
       canonicalFilePath env (fileName d) = c ∧
       ∀ (k : nat) d', (k < Z.to_nat (r - i))%nat → ds !! k = Some d' →
                       canonicalFilePath env (fileName d') ≠ c.
Proof.
  revert i. induction ds as [| d ds IH]; intros i Hi Hf Hr; simpl in Hf; [lia |].
  case_bool_decide as Hc.
  - subst r. replace (i - i) with 0 by lia. exists d. split; [done |].
    split; [done |]. intros k d' Hk. simpl in Hk. lia.
  - destruct (findFrom_range c (i + 1) ds) as [? | Hrange]; [lia |].
    destruct (IH (i + 1)) as (d0 & Hl & Hcan & Hmin); [lia | done | done |].
    exists d0. replace (Z.to_nat (r - i)) with (S (Z.to_nat (r - (i + 1)))) by lia.
    split; [done |]. split; [done |].
    intros [| k] d' Hk Hd'; simpl in Hd'.
    + by injection Hd' as <-.
    + apply (Hmin k); [lia | done].
Qed.

(** [findDocument] answers [-1] exactly when no open document is a document
    of the file. *)
Lemma findDocument_none name m :
  findDocument env name m = -1 ↔ ∀ d, d ∈ mDocuments m → ¬ resolvesTo env name d.
Proof.
  unfold findDocument, resolvesTo. case_bool_decide as He; split.
  - intros _ d _ [? _]. done.
  - done.
  - intros Hf d Hd [_ Hc]. by eapply findFrom_none in Hf.
  - intros Hall.
    destruct (decide (findFrom env (canonicalFilePath env name) 0 (mDocuments m) = -1))
      as [| Hne]; [done |].
    destruct (findFrom_found _ 0 (mDocuments m) _ ltac:(lia) eq_refl Hne)
      as (d & Hl & Hc & _).
    exfalso. apply (Hall d); [by eapply list_elem_of_lookup_2 | done].
Qed.

(** Otherwise it answers the index of the first such document. *)
Lemma findDocument_found name m index :
  findDocument env name m = index → index ≠ -1 →
  ∃ d, QList.at_ (mDocuments m) index = Some d ∧ resolvesTo env name d ∧
       ∀ (k : nat) d', Z.of_nat k < index → mDocuments m !! k = Some d' →
                       ¬ resolvesTo env name d'.
Proof.
  unfold findDocument, resolvesTo. case_bool_decide as He; [lia |].
  intros Hf Hne.
  destruct (findFrom_range (canonicalFilePath env name) 0 (mDocuments m))
    as [? | Hrange]; [lia |].
  destruct (findFrom_found _ 0 (mDocuments m) _ ltac:(lia) Hf Hne)
    as (d & Hl & Hc & Hmin).
  replace (index - 0) with index in * by lia.
  exists d. split; [apply at_Some; split; [lia | done] |]. split; [done |].
  intros k d' Hk Hd' [_ Hc']. apply (Hmin k d'); [lia | done | done].
Qed.

Lemma at_valid {A} (l : list A) i :
  0 ≤ i < Z.of_nat (length l) → ∃ x, QList.at_ l i = Some x.
Proof.
  intros Hi. destruct (lookup_lt_is_Some_2 l (Z.to_nat i)) as [x Hx]; [lia |].
  exists x. apply at_Some. split; [lia | done].
Qed.

Lemma currentIndexChanged_ok m :
  currentIndex m = -1 ∨ 0 ≤ currentIndex m < Z.of_nat (length (mDocuments m)) →
  ∃ m', currentIndexChanged m = Some m' ∧
        mDocuments m' = mDocuments m ∧ mTabWidget m' = mTabWidget m ∧
        mFileSystemWatcher m' = mFileSystemWatcher m ∧
        UndoGroup.stacks (mUndoGroup m') = UndoGroup.stacks (mUndoGroup m).
Proof.
  intros Hcur. unfold currentIndexChanged.
  assert (∃ x, ∀ s : option DocId, currentDocument (match s with
                                      | Some _ => setSceneWithTool None m
                                      | None => m
                                      end) = Some x) as [x Hx].
  { unfold currentDocument. destruct Hcur as [Hcur | Hcur].
    - exists None. intros [|]; simpl; unfold currentIndex in *; simpl;
        by rewrite bool_decide_eq_true_2.
    - destruct (at_valid (mDocuments m) _ Hcur) as [d Hd]. exists (Some d).
      intros [|]; simpl; unfold currentIndex in *; simpl;
        (rewrite bool_decide_eq_false_2 by lia); by rewrite Hd. }
  rewrite Hx. simpl.
  destruct (mSceneWithTool m), x;
    (eexists; split; [reflexivity |]);
    destruct (currentMapScene _); done.
Qed.

Lemma afterTabs_ok (r : TabWidget.t * bool) m :
  (r.2 = true →
   TabWidget.currentIndex r.1 = -1 ∨
   0 ≤ TabWidget.currentIndex r.1 < Z.of_nat (length (mDocuments m))) →
  ∃ m', afterTabs r m = Some m' ∧
        mDocuments m' = mDocuments m ∧ mTabWidget m' = r.1 ∧
        mFileSystemWatcher m' = mFileSystemWatcher m ∧
        UndoGroup.stacks (mUndoGroup m') = UndoGroup.stacks (mUndoGroup m).
Proof.
  intros Hr. unfold afterTabs. destruct r as [w [|]]; simpl in *.
  - destruct (currentIndexChanged_ok (setTabWidget w m)) as (m' & -> & ? & ? & ? & ?);
      [by apply Hr | by exists m'].
  - by eexists.
Qed.

Lemma addTab_spec c w :
  TabWidget.pages (TabWidget.addTab c w).1 = TabWidget.pages w ++ [c] ∧
  ((TabWidget.addTab c w).2 = true → TabWidget.currentIndex (TabWidget.addTab c w).1 = 0).
Proof. unfold TabWidget.addTab. by destruct (TabWidget.pages w). Qed.

Lemma setCurrentIndex_spec i w :
  0 ≤ i < Z.of_nat (length (TabWidget.pages w)) →
  TabWidget.pages (TabWidget.setCurrentIndex i w).1 = TabWidget.pages w ∧
  TabWidget.currentIndex (TabWidget.setCurrentIndex i w).1 = i.
Proof.
  intros Hi. unfold TabWidget.setCurrentIndex, TabWidget.validIndex.
  rewrite (proj2 (validIndex_true _ _)) by done.
  case_bool_decide; simpl; done.
Qed.

Lemma setCurrentIndex_invalid i w :
  ¬ 0 ≤ i < Z.of_nat (length (TabWidget.pages w)) →
  TabWidget.setCurrentIndex i w = (w, false).
Proof.
  intros Hi. unfold TabWidget.setCurrentIndex, TabWidget.validIndex, QList.validIndex.
  by rewrite bool_decide_eq_false_2.
Qed.

Lemma removeTab_spec i w :
  0 ≤ i < Z.of_nat (length (TabWidget.pages w)) →
  TabWidget.pages (TabWidget.removeTab i w).1 = delete (Z.to_nat i) (TabWidget.pages w) ∧
  TabWidget.currentIndex (TabWidget.removeTab i w).1
  = indexAfterRemove i (TabWidget.currentIndex w)
      (length (delete (Z.to_nat i) (TabWidget.pages w))).
Proof.
  intros Hi. unfold TabWidget.removeTab, TabWidget.validIndex, indexAfterRemove.
  rewrite (proj2 (validIndex_true _ _)) by done.
  repeat case_bool_decide; simpl; try done.
  by destruct (delete _ _).
Qed.

Lemma indexAfterRemove_range i cur (n : nat) :
  0 ≤ i < Z.of_nat (S n) → cur = -1 ∨ 0 ≤ cur < Z.of_nat (S n) →
  indexAfterRemove i cur n = -1 ∨ 0 ≤ indexAfterRemove i cur n < Z.of_nat n.
Proof.
  intros Hi Hcur. unfold indexAfterRemove.
  repeat case_bool_decide; destruct n; lia.
Qed.

Lemma centerViewOn_spec x y m d :
  QList.at_ (mDocuments m) (currentIndex m) = Some d →
  0 ≤ currentIndex m < Z.of_nat (length (TabWidget.pages (mTabWidget m))) →
  centerViewOn env x y m
  = Some (setTabWidget
            (TabWidget.setPages
               (alter (withMapView (centerOn env d x y)) (Z.to_nat (currentIndex m))
                  (TabWidget.pages (mTabWidget m))) (mTabWidget m)) m).
Proof.
  intros Hd Hcur. unfold centerViewOn, currentMapView, currentDocument.
  unfold TabWidget.currentWidget, TabWidget.widget, currentIndex in *.
  destruct (at_valid _ _ Hcur) as [c ->]. simpl.
  rewrite bool_decide_eq_false_2 by lia.
  by rewrite Hd.
Qed.

(** [addDocument] appends the document and its page and makes it current. *)
Lemma addDocument_ok d m :
  docId d ∉ (docId <$> mDocuments m) → consistent m →
  ∃ m', addDocument env d m = Some m' ∧
    mDocuments m' = mDocuments m ++ [d] ∧
    TabWidget.pages (mTabWidget m') =
      TabWidget.pages (mTabWidget m) ++ [openedPage env d] ∧
    currentIndex m' = Z.of_nat (length (mDocuments m)) ∧
    mFileSystemWatcher m' =
      (if bool_decide (fileName d = "") then mFileSystemWatcher m
       else FileSystemWatcher.addPath (fileName d) (mFileSystemWatcher m)).
Proof.
  intros Hfresh [Hlen Hcur]. unfold addDocument.
  rewrite bool_decide_eq_false_2 by done. cbv zeta.
  match goal with
  | |- context [afterTabs (TabWidget.addTab ?c (mTabWidget ?x)) _] =>
      set (c0 := c); set (m1 := x)
  end.
  assert (Hd1 : mDocuments m1 = mDocuments m ++ [d])
    by (subst m1; by case_bool_decide).
  assert (Ht1 : mTabWidget m1 = mTabWidget m)
    by (subst m1; by case_bool_decide).
  assert (Hw1 : mFileSystemWatcher m1 =
                (if bool_decide (fileName d = "") then mFileSystemWatcher m
                 else FileSystemWatcher.addPath (fileName d) (mFileSystemWatcher m)))
    by (subst m1; by case_bool_decide).
  clearbody m1.
  destruct (addTab_spec c0 (mTabWidget m1)) as [Hp2 Hc2].
  destruct (afterTabs_ok (TabWidget.addTab c0 (mTabWidget m1)) m1)
    as (m2 & -> & Hd2 & Ht2 & Hw2 & _).
  { intros He. right. rewrite (Hc2 He), Hd1, length_app. simpl. lia. }
  simpl. unfold switchToDocument.
  assert (Hn : 0 ≤ Z.of_nat (length (mDocuments m1)) - 1
               < Z.of_nat (length (TabWidget.pages (mTabWidget m2)))).
  { rewrite Ht2, Hp2, Ht1, Hd1, !length_app, Hlen. simpl. lia. }
  destruct (setCurrentIndex_spec _ _ Hn) as [Hp3 Hc3].
  destruct (afterTabs_ok (TabWidget.setCurrentIndex
                            (Z.of_nat (length (mDocuments m1)) - 1) (mTabWidget m2)) m2)
    as (m3 & -> & Hd3 & Ht3 & Hw3 & _).
  { intros _. right. rewrite Hc3, Hd2, Hd1, length_app. simpl. lia. }
  simpl.
  assert (Hcur3 : currentIndex m3 = Z.of_nat (length (mDocuments m)))
    by (unfold currentIndex; rewrite Ht3, Hc3, Hd1, length_app; simpl; lia).
  assert (Hpages3 : TabWidget.pages (mTabWidget m3)
                    = TabWidget.pages (mTabWidget m) ++ [c0])
    by (by rewrite Ht3, Hp3, Ht2, Hp2, Ht1).
  rewrite (centerViewOn_spec 0 0 m3 d).
  - eexists. split; [reflexivity |]. simpl.
    split; [by rewrite Hd3, Hd2 |].
    split; [| split; [done | by rewrite Hw3, Hw2]].
    rewrite Hcur3, Nat2Z.id, Hpages3, <- Hlen.
    replace (length (TabWidget.pages (mTabWidget m)))
      with (length (TabWidget.pages (mTabWidget m)) + 0)%nat at 1 by lia.
    by rewrite alter_app_r.
  - rewrite Hcur3, at_of_nat, Hd3, Hd2, Hd1.
    by rewrite list_lookup_middle.
  - rewrite Hcur3, Hpages3, length_app, Hlen. simpl. lia.
Qed.

(** [closeDocumentAt] takes the document and its page out, asks the watcher
    to drop the file name, and the document's undo stack leaves the group. *)
Lemma closeDocumentAt_ok index m d :
  consistent m → QList.at_ (mDocuments m) index = Some d →
  ∃ m', closeDocumentAt index m = Some m' ∧
    mDocuments m' = delete (Z.to_nat index) (mDocuments m) ∧
    TabWidget.pages (mTabWidget m') =
      delete (Z.to_nat index) (TabWidget.pages (mTabWidget m)) ∧
    currentIndex m' =
      indexAfterRemove index (currentIndex m) (length (mDocuments m) - 1) ∧
    mFileSystemWatcher m' =
      (if bool_decide (fileName d = "") then mFileSystemWatcher m
       else FileSystemWatcher.removePath (fileName d) (mFileSystemWatcher m)) ∧
    UndoGroup.stacks (mUndoGroup m') =
      filter (λ x, x ≠ docId d) (UndoGroup.stacks (mUndoGroup m)).
Proof.
  intros [Hlen Hcur] Hd. unfold closeDocumentAt. rewrite Hd. simpl.
  apply at_Some in Hd as [Hi0 Hd]. pose proof (lookup_lt_Some _ _ _ Hd) as Hi.
  assert (Hr : QList.removeAt index (mDocuments m) = delete (Z.to_nat index) (mDocuments m)).
  { rewrite <- (Z2Nat.id index) at 1 by done. apply removeAt_of_nat. }
  rewrite Hr.
  assert (Hv : 0 ≤ index < Z.of_nat (length (TabWidget.pages (mTabWidget m)))) by lia.
  destruct (removeTab_spec index (mTabWidget m) Hv) as [Hp Hc].
  assert (Hdl : length (delete (Z.to_nat index) (mDocuments m))
                = (length (mDocuments m) - 1)%nat).
  { rewrite length_delete; [lia | by eexists]. }
  match goal with
  | |- context [afterTabs ?r ?x] =>
      destruct (afterTabs_ok r x) as (m2 & -> & Hd2 & Ht2 & Hw2 & Hs2)
  end.
  { intros _. simpl. rewrite Hc, Hdl.
    rewrite length_delete by (apply lookup_lt_is_Some; lia). rewrite Hlen.
    destruct (length (mDocuments m)) as [| n] eqn:Hn; [lia |].
    replace (S n - 1)%nat with n by lia.
    apply indexAfterRemove_range; unfold currentIndex in *; lia. }
  simpl in *. eexists. split; [reflexivity |].
  split; [by case_bool_decide |]. split; [case_bool_decide; simpl; by rewrite Ht2 |].
  split.
  { unfold currentIndex. case_bool_decide; simpl; rewrite Ht2, Hc;
      rewrite length_delete by (apply lookup_lt_is_Some; lia); by rewrite Hlen. }
  split; case_bool_decide; simpl; by rewrite ?Hw2, ?Hs2.
Qed.

Lemma moveTab_same index m :
  ∃ m', moveTab index index m = Some m' ∧ mDocuments m' = mDocuments m ∧
        mTabWidget m' = mTabWidget m.
Proof.
  unfold moveTab, TabWidget.moveTab. rewrite bool_decide_eq_true_2 by done.
  simpl. by eexists.
Qed.

Lemma moveTab_ok from to m ds ps :
  from ≠ to →
  QList.move from to (mDocuments m) = Some ds →
  QList.move from to (TabWidget.pages (mTabWidget m)) = Some ps →
  ∃ m', moveTab from to m = Some m' ∧ mDocuments m' = ds ∧
        TabWidget.pages (mTabWidget m') = ps ∧
        currentIndex m' = TabWidget.calculateNewPosition from to (currentIndex m).
Proof.
  intros Hne Hds Hps. unfold moveTab, TabWidget.moveTab.
  rewrite bool_decide_eq_false_2 by done. rewrite Hps. simpl.
  unfold documentTabMoved. simpl. rewrite Hds. simpl. by eexists.
Qed.

Lemma restoreView_ok s h v m c :
  TabWidget.widget (mTabWidget m) (currentIndex m) = Some c →
  ∃ m', restoreView s h v m = Some m' ∧ mDocuments m' = mDocuments m ∧
        currentIndex m' = currentIndex m ∧
        TabWidget.pages (mTabWidget m') =
          alter (withMapView (λ mv, setVerticalPosition v
                                      (setHorizontalPosition h (setScale s mv))))
                (Z.to_nat (currentIndex m)) (TabWidget.pages (mTabWidget m)).
Proof.
  intros Hc. unfold restoreView, currentMapView, TabWidget.currentWidget.
  unfold currentIndex in Hc. rewrite Hc. simpl. by eexists.
Qed.

Lemma indexOf_unique m (i : nat) d :
  uniqueObjects m → mDocuments m !! i = Some d → indexOf (docId d) m = Z.of_nat i.
Proof.
  intros Hnd Hd. unfold indexOf.
  assert (list_find (λ x, docId x = docId d) (mDocuments m) = Some (i, d)) as ->.
  { apply list_find_Some. split; [done |]. split; [done |].
    intros j y Hy Hj Heq.
    assert (j = i); [| lia].
    eapply (NoDup_lookup _ j i (docId d) Hnd);
      rewrite list_lookup_fmap; [rewrite Hy; simpl; by f_equal | by rewrite Hd]. }
  done.
Qed.

Lemma setLayer_fresh (l : list MapDocument) (i : nat) d f :
  docId d ∉ docId <$> l →
  (λ x, if bool_decide (docId x = docId d) then f x else x) <$> <[i := d]> l
  = <[i := if bool_decide (i < length l)%nat then f d else d]> l.
Proof.
  intros Hfresh. rewrite list_fmap_insert. rewrite bool_decide_eq_true_2 by done.
  destruct (decide (i < length l)%nat) as [Hi | Hi].
  - rewrite bool_decide_eq_true_2 by done. f_equal.
    rewrite <- (list_fmap_id l) at 2. apply list_fmap_ext.
    intros j x Hx. rewrite bool_decide_eq_false_2; [done |].
    intros Heq. apply Hfresh. rewrite <- Heq.
    apply list_elem_of_fmap. exists x. split; [done | by eapply list_elem_of_lookup_2].
  - rewrite !list_insert_ge by (rewrite ?length_fmap; lia).
    rewrite <- (list_fmap_id l) at 2. apply list_fmap_ext.
    intros j x Hx. rewrite bool_decide_eq_false_2; [done |].
    intros Heq. apply Hfresh. rewrite <- Heq.
    apply list_elem_of_fmap. exists x. split; [done | by eapply list_elem_of_lookup_2].
Qed.

Lemma consistent_page m (i : nat) d :
  consistent m → mDocuments m !! i = Some d →
  ∃ c, TabWidget.pages (mTabWidget m) !! i = Some c.
Proof.
  intros [Hlen _] Hd. apply lookup_lt_is_Some. rewrite Hlen.
  by eapply lookup_lt_Some.
Qed.

(** A reload that reads the file: the new document and a page with the old
    view state take the place of the old ones, at the same index, and that
    index becomes the current one. *)
Lemma reloadDocumentAt_success (index : nat) m oldDocument newDocument old :
  consistent m → uniqueObjects m →
  mDocuments m !! index = Some oldDocument →
  TabWidget.pages (mTabWidget m) !! index = Some old →
  load env (fileName oldDocument) (readerOf env oldDocument) = inl newDocument →
  docId newDocument ∉ (docId <$> mDocuments m) →
  ∃ m', reloadDocumentAt env (Z.of_nat index) m = Some (true, m') ∧
    mDocuments m' =
      <[index := reloadedDocument oldDocument newDocument]> (mDocuments m) ∧
    TabWidget.pages (mTabWidget m') =
      <[index := reloadedPage (mapView old) newDocument]>
        (TabWidget.pages (mTabWidget m)) ∧
    currentIndex m' = Z.of_nat index.
Proof.
  intros Hcons Huniq Hold Hpage Hload Hfresh.
  pose proof Hcons as [Hlen Hcur].
  pose proof (lookup_lt_Some _ _ _ Hold) as Hi.
  unfold reloadDocumentAt. rewrite at_of_nat, Hold. simpl.
  unfold readerOf in Hload. rewrite Hload.
  unfold viewForDocument. rewrite (indexOf_unique m index oldDocument Huniq Hold).
  rewrite (bool_decide_eq_false_2 (Z.of_nat index = -1)) by lia.
  unfold TabWidget.widget. rewrite at_of_nat, Hpage. simpl.
  (* addDocument *)
  destruct (addDocument_ok newDocument m Hfresh Hcons)
    as (m1 & -> & Hd1 & Hp1 & Hc1 & _). simpl.
  (* closeDocumentAt *)
  assert (Hcons1 : consistent m1).
  { split; [by rewrite Hp1, Hd1, !length_app, Hlen |].
    right. rewrite Hc1, Hd1, length_app. simpl. lia. }
  destruct (closeDocumentAt_ok (Z.of_nat index) m1 oldDocument Hcons1)
    as (m2 & -> & Hd2 & Hp2 & Hc2 & _).
  { rewrite at_of_nat, Hd1. by rewrite lookup_app_l. }
  simpl. rewrite Nat2Z.id in Hd2, Hp2.
  assert (Hlen2 : length (mDocuments m2) = length (mDocuments m)).
  { rewrite Hd2, length_delete, Hd1, length_app; [simpl; lia |].
    apply lookup_lt_is_Some. rewrite Hd1, length_app. simpl. lia. }
  assert (Hcur2 : currentIndex m2 = Z.of_nat (length (mDocuments m)) - 1).
  { rewrite Hc2, Hc1. unfold indexAfterRemove.
    rewrite bool_decide_eq_false_2, bool_decide_eq_true_2 by lia. done. }
  (* moveTab *)
  rewrite Hlen2.
  assert (∃ m3, moveTab (Z.of_nat (length (mDocuments m)) - 1) (Z.of_nat index) m2
                = Some m3 ∧
                mDocuments m3 = <[index := newDocument]> (mDocuments m) ∧
                TabWidget.pages (mTabWidget m3) =
                  <[index := openedPage env newDocument]>
                    (TabWidget.pages (mTabWidget m)) ∧
                currentIndex m3 = Z.of_nat index) as (m3 & -> & Hd3 & Hp3 & Hc3).
  { destruct (decide (Z.of_nat (length (mDocuments m)) - 1 = Z.of_nat index)) as [He | Hne].
    - rewrite He. destruct (moveTab_same (Z.of_nat index) m2) as (m3 & -> & Hd3 & Ht3).
      exists m3. split; [done |].
      split; [rewrite Hd3, Hd2, Hd1; apply delete_snoc_last; lia |].
      split; [rewrite Ht3, Hp2, Hp1; apply delete_snoc_last; lia |].
      unfold currentIndex in *. rewrite Ht3. lia.
    - destruct (moveTab_ok (Z.of_nat (length (mDocuments m)) - 1) (Z.of_nat index) m2
                  (<[index := newDocument]> (mDocuments m))
                  (<[index := openedPage env newDocument]>
                     (TabWidget.pages (mTabWidget m)))) as (m3 & -> & Hd3 & Hp3 & Hc3).
      + done.
      + rewrite Hd2, Hd1. by apply move_delete_snoc.
      + rewrite Hp2, Hp1, <- Hlen. apply move_delete_snoc. lia.
      + exists m3. split; [done |]. split; [done |]. split; [done |].
        rewrite Hc3, Hcur2. unfold TabWidget.calculateNewPosition.
        by rewrite bool_decide_eq_true_2. }
  simpl.
  (* the view state and the layer index *)
  destruct (restoreView_ok (scale (mapView old)) (horizontalPosition (mapView old))
              (verticalPosition (mapView old)) m3 (openedPage env newDocument))
    as (m4 & -> & Hd4 & Hc4 & Hp4).
  { unfold TabWidget.widget. rewrite Hc3, at_of_nat, Hp3.
    apply list_lookup_insert_eq. lia. }
  simpl. eexists. split; [reflexivity |].
  assert (Hpages : TabWidget.pages (mTabWidget m4) =
                   <[index := reloadedPage (mapView old) newDocument]>
                     (TabWidget.pages (mTabWidget m))).
  { rewrite Hp4, Hc3, Nat2Z.id, Hp3.
    by rewrite alter_insert_same. }
  unfold reloadedDocument.
  destruct (bool_decide (0 < currentLayerIndex oldDocument) &&
            bool_decide (currentLayerIndex oldDocument < layerCount newDocument)).
  - unfold setLayerIndexOf. simpl. split; [| split; [done | by rewrite <- Hc3]].
    rewrite Hd4, Hd3, setLayer_fresh by done.
    by rewrite bool_decide_eq_true_2.
  - split; [by rewrite Hd4 | split; [done | by rewrite Hc4]].
Qed.

(** ** The invariants of the registry *)

Lemma consistent_init : consistent init.
Proof. split; [done | by left]. Qed.

Lemma uniqueObjects_init : uniqueObjects init.
Proof. apply NoDup_nil_2. Qed.

Lemma addDocument_Some d m m' :
  addDocument env d m = Some m' → docId d ∉ (docId <$> mDocuments m).
Proof. unfold addDocument. by case_bool_decide. Qed.

Lemma closeDocumentAt_Some index m m' :
  closeDocumentAt index m = Some m' → ∃ d, QList.at_ (mDocuments m) index = Some d.
Proof.
  unfold closeDocumentAt. destruct (QList.at_ (mDocuments m) index); [eauto | done].
Qed.

Lemma applyOp_consistent op m m' :
  consistent m → applyOp env op m = Some m' → consistent m'.
Proof.
  intros Hc Hop. destruct op as [d | index]; simpl in Hop.
  - destruct (addDocument_ok d m (addDocument_Some _ _ _ Hop) Hc)
      as (m1 & Hm1 & Hd & Hp & Hcur & _).
    rewrite Hm1 in Hop. injection Hop as <-. destruct Hc as [Hlen _].
    split; [by rewrite Hp, Hd, !length_app, Hlen |].
    right. rewrite Hcur, Hd, length_app. simpl. lia.
  - destruct (closeDocumentAt_Some _ _ _ Hop) as [d Hat].
    destruct (closeDocumentAt_ok index m d Hc Hat) as (m1 & Hm1 & Hd & Hp & Hcur & _).
    rewrite Hm1 in Hop. injection Hop as <-. destruct Hc as [Hlen Hc].
    apply at_Some in Hat as [Hi0 Hat]. pose proof (lookup_lt_Some _ _ _ Hat) as Hi.
    assert (Hdl : length (delete (Z.to_nat index) (mDocuments m))
                  = (length (mDocuments m) - 1)%nat).
    { rewrite length_delete; [lia | by eexists]. }
    split.
    + rewrite Hp, Hd, Hdl, length_delete; [lia |]. apply lookup_lt_is_Some. lia.
    + rewrite Hcur, Hd, Hdl.
      destruct (length (mDocuments m)) as [| n]; [lia |].
      replace (S n - 1)%nat with n by lia.
      apply indexAfterRemove_range; lia.
Qed.

Lemma applyOp_documents op m m' :
  consistent m → applyOp env op m = Some m' →
  match op with
  | Open d => (docId d ∉ (docId <$> mDocuments m)) ∧
              mDocuments m' = mDocuments m ++ [d]
  | Close index => 0 ≤ index ∧ mDocuments m' = delete (Z.to_nat index) (mDocuments m)
  end.
Proof.
  intros Hc Hop. destruct op as [d | index]; simpl in Hop.
  - pose proof (addDocument_Some _ _ _ Hop) as Hf.
    destruct (addDocument_ok d m Hf Hc) as (m1 & Hm1 & Hd & _).
    rewrite Hm1 in Hop. by injection Hop as <-.
  - destruct (closeDocumentAt_Some _ _ _ Hop) as [d Hat].
    destruct (closeDocumentAt_ok index m d Hc Hat) as (m1 & Hm1 & Hd & _).
    rewrite Hm1 in Hop. injection Hop as <-. by apply at_Some in Hat as [? _].
Qed.

Lemma applyOp_uniqueObjects op m m' :
  consistent m → uniqueObjects m → applyOp env op m = Some m' → uniqueObjects m'.
Proof.
  intros Hc Hu Hop. pose proof (applyOp_documents op m m' Hc Hop) as Hd.
  unfold uniqueObjects in *. destruct op as [d | index].
  - destruct Hd as [Hf ->]. rewrite fmap_app. apply NoDup_app.
    split; [done |]. split; [| apply NoDup_singleton].
    intros x Hx Hin. apply list_elem_of_singleton in Hin. by subst x.
  - destruct Hd as [_ ->]. eapply sublist_NoDup; [exact Hu |].
    apply fmap_sublist, sublist_delete.
Qed.

Lemma resolvesTo_sym d1 d2 :
  resolvesTo env (fileName d1) d2 → resolvesTo env (fileName d2) d1.
Proof. unfold resolvesTo. intros [Hne Heq]. rewrite Heq. done. Qed.

Lemma applyOp_uniquePaths op m m' :
  consistent m → uniquePaths env m → guarded env [op] m →
  applyOp env op m = Some m' → uniquePaths env m'.
Proof.
  intros Hc Hu [Hg _] Hop. pose proof (applyOp_documents op m m' Hc Hop) as Hd.
  unfold uniquePaths in *. destruct op as [d | index].
  - destruct Hd as [_ Hd]. rewrite Hd. clear Hd.
    pose proof (proj1 (findDocument_none (fileName d) m) Hg) as Hnone.
    intros i j d1 d2 H1 H2 Hij.
    apply lookup_app_Some in H1 as [H1 | [Hi1 H1]];
      apply lookup_app_Some in H2 as [H2 | [Hi2 H2]].
    + by apply (Hu i j).
    + apply list_lookup_singleton_Some in H2 as [_ <-].
      intros Hr. apply resolvesTo_sym in Hr.
      apply (Hnone d1); [by eapply list_elem_of_lookup_2 | done].
    + apply list_lookup_singleton_Some in H1 as [_ <-].
      apply Hnone. by eapply list_elem_of_lookup_2.
    + apply list_lookup_singleton_Some in H1 as [? _].
      apply list_lookup_singleton_Some in H2 as [? _]. lia.
  - destruct Hd as [_ Hd]. rewrite Hd. clear Hd.
    intros i j d1 d2 H1 H2 Hij.
    rewrite list_lookup_delete in H1, H2.
    repeat case_decide; eapply Hu; eauto; lia.
Qed.

Lemma runOps_invariant ops m m' :
  consistent m → uniqueObjects m → runOps env ops m = Some m' →
  consistent m' ∧ uniqueObjects m' ∧
  (uniquePaths env m → guarded env ops m → uniquePaths env m').
Proof.
  revert m. induction ops as [| op ops IH]; intros m Hc Hu Hrun; simpl in Hrun.
  - injection Hrun as <-. done.
  - destruct (applyOp env op m) as [m1 |] eqn:Hop; [| done]. simpl in Hrun.
    destruct (IH m1) as (Hc' & Hu' & Hp');
      [by eapply applyOp_consistent | by eapply applyOp_uniqueObjects | done |].
    split; [done |]. split; [done |].
    intros Hpaths [Hg Hrest]. rewrite Hop in Hrest. apply Hp'; [| done].
    apply (applyOp_uniquePaths op m m1 Hc Hpaths); [| done].
    simpl. rewrite Hop. done.
Qed.

(** ** Reload and file-change notification *)

Lemma findDocument_first name m index d :
  QList.at_ (mDocuments m) index = Some d → resolvesTo env name d →
  (∀ (k : nat) d', Z.of_nat k < index → mDocuments m !! k = Some d' →
                   ¬ resolvesTo env name d') →
  findDocument env name m = index.
Proof.
  intros Hat Hres Hmin. apply at_Some in Hat as [Hi0 Hat].
  destruct (decide (findDocument env name m = -1)) as [Hnone | Hsome].
  - exfalso. apply (proj1 (findDocument_none name m) Hnone d); [| done].
    by eapply list_elem_of_lookup_2.
  - destruct (findDocument_found name m _ eq_refl Hsome) as (d0 & Hat0 & Hres0 & Hmin0).
    apply at_Some in Hat0 as [Hr0 Hat0].
    destruct (Z.lt_trichotomy (findDocument env name m) index) as [Hlt | [Heq | Hgt]].
    + exfalso. apply (Hmin (Z.to_nat (findDocument env name m)) d0); [lia | done | done].
    + done.
    + exfalso. apply (Hmin0 (Z.to_nat index) d); [lia | done | done].
Qed.

Lemma reloadDocumentAt_failure index m oldDocument error :
  QList.at_ (mDocuments m) index = Some oldDocument →
  load env (fileName oldDocument) (readerOf env oldDocument) = inr error →
  reloadDocumentAt env index m
  = Some (false, emit (reloadError (errorMessage (fileName oldDocument) error)) m).
Proof.
  intros Hat Hload. unfold reloadDocumentAt. rewrite Hat. simpl.
  unfold readerOf in Hload. by rewrite Hload.
Qed.

Lemma reloadDocumentAt_stale index m oldDocument newDocument :
  QList.at_ (mDocuments m) index = Some oldDocument →
  load env (fileName oldDocument) (readerOf env oldDocument) = inl newDocument →
  docId newDocument ∈ docId <$> mDocuments m →
  reloadDocumentAt env index m = None.
Proof.
  intros Hat Hload Hin. unfold reloadDocumentAt. rewrite Hat. simpl.
  unfold readerOf in Hload. rewrite Hload.
  destruct (viewForDocument _ m) as [[v |] |]; simpl; try done.
  unfold addDocument. by rewrite (bool_decide_eq_true_2 _ Hin).
Qed.

(** A reload shows no file-changed warning that was not showing before. *)
Lemma reloadDocumentAt_no_warning index m oldDocument r m' :
  consistent m → uniqueObjects m →
  QList.at_ (mDocuments m) index = Some oldDocument →
  reloadDocumentAt env index m = Some (r, m') →
  ∀ (j : nat) c', TabWidget.pages (mTabWidget m') !! j = Some c' →
                  warningVisible c' = true →
                  ∃ c, TabWidget.pages (mTabWidget m) !! j = Some c ∧
                       warningVisible c = true.
Proof.
  intros Hc Hu Hat Hre j c' Hj Hw. pose proof Hat as Hat'.
  apply at_Some in Hat' as [Hi0 Hold].
  destruct (load env (fileName oldDocument) (readerOf env oldDocument))
    as [newDocument | error] eqn:Hload.
  - destruct (decide (docId newDocument ∈ docId <$> mDocuments m)) as [Hin | Hfresh].
    { by rewrite (reloadDocumentAt_stale _ _ _ _ Hat Hload Hin) in Hre. }
    destruct (consistent_page m _ _ Hc Hold) as [old Hpage].
    destruct (reloadDocumentAt_success _ m _ _ _ Hc Hu Hold Hpage Hload Hfresh)
      as (m1 & Hm1 & _ & Hp & _).
    rewrite Z2Nat.id in Hm1 by done. rewrite Hm1 in Hre. injection Hre as _ <-.
    rewrite Hp in Hj. destruct (decide (j = Z.to_nat index)) as [-> | Hne].
    + rewrite list_lookup_insert_eq in Hj by (by eapply lookup_lt_Some).
      injection Hj as <-. done.
    + rewrite list_lookup_insert_ne in Hj by done. eauto.
  - rewrite (reloadDocumentAt_failure _ _ _ _ Hat Hload) in Hre.
    injection Hre as _ <-. eauto.
Qed.
End Facts.
End RegistryFacts.

(** * The properties of the document manager *)

(** * Facts about the file watcher *)

Module WatcherFacts.
Import DocumentManager Registry QListFacts RegistryFacts.


Lemma names_delete (docs : list MapDocument) (i : nat) d :
  docs !! i = Some d →
  list_to_set_disj (filter (λ p, p ≠ "") (fileName <$> docs))
  =@{gmultiset string}
  (if bool_decide (fileName d = "") then ∅ else {[+ fileName d +]})
  ⊎ list_to_set_disj (filter (λ p, p ≠ "") (fileName <$> delete i docs)).
Proof.
  intros Hd. rewrite <- (take_drop_middle docs i d Hd) at 1.
  rewrite delete_take_drop, !fmap_app, !filter_app, !list_to_set_disj_app.
  rewrite fmap_cons, filter_cons.
  case_bool_decide as Hn.
  - rewrite decide_False by (intros Hne; by apply Hne). multiset_solver.
  - rewrite decide_True by done. rewrite list_to_set_disj_cons. multiset_solver.
Qed.

Lemma watchOk_watches m p :
  watchOk m →
  FileSystemWatcher.watches (mFileSystemWatcher m) p = true ↔
  p ≠ "" ∧ ∃ d, d ∈ mDocuments m ∧ fileName d = p.
Proof.
  intros Hw. unfold FileSystemWatcher.watches. rewrite bool_decide_eq_true, Hw.
  rewrite elem_of_list_to_set_disj, list_elem_of_filter, list_elem_of_fmap.
  split.
  - intros [Hne (d & -> & Hd)]. split; [done |]. by exists d.
  - intros [Hne (d & Hd & <-)]. split; [done |]. by exists d.
Qed.

Lemma watchOk_init : watchOk init.
Proof. done. Qed.

Lemma watchOk_close index m m' d :
  consistent m → watchOk m → QList.at_ (mDocuments m) index = Some d →
  closeDocumentAt index m = Some m' → watchOk m'.
Proof.
  intros Hc Hw Hat Hm'.
  destruct (closeDocumentAt_ok index m d Hc Hat) as (m2 & Hm2 & Hd & _ & _ & Hwat & _).
  assert (m2 = m') as -> by congruence.
  apply at_Some in Hat as [_ Hdoc].
  unfold watchOk. rewrite Hwat, Hd, Hw.
  rewrite (names_delete (mDocuments m) (Z.to_nat index) d Hdoc).
  unfold FileSystemWatcher.removePath. case_bool_decide; multiset_solver.
Qed.

Lemma watchOk_add env d m m' :
  consistent m → watchOk m → addDocument env d m = Some m' → watchOk m'.
Proof.
  intros Hc Hw Hm'.
  destruct (addDocument_ok env d m (addDocument_Some env d m m' Hm') Hc)
    as (m2 & Hm2 & Hd & _ & _ & Hwat).
  assert (m2 = m') as -> by congruence.
  unfold watchOk. rewrite Hwat, Hd, Hw.
  rewrite fmap_app, filter_app, list_to_set_disj_app. simpl.
  rewrite filter_cons, filter_nil. unfold FileSystemWatcher.addPath.
  case_bool_decide as Hn.
  - rewrite decide_False by (intros Hne; by apply Hne). multiset_solver.
  - rewrite decide_True by done. rewrite list_to_set_disj_cons. multiset_solver.
Qed.
End WatcherFacts.

Module RegistryProperties.
Import DocumentManager Registry Examples QListFacts RegistryFacts WatcherFacts.

(** C1. A file-change notification for [name]: when no open document is a
    document of that file, nothing happens at all. Otherwise, for the first
    open document of the file: when the file's modification time is the
    document's last-saved time, nothing happens; else, when the document is
    not modified, the notification does what [reloadDocumentAt] does for that
    document, without a prompt: no warning appears that was not showing, and
    when the file can be read the document read from it is at the index
    afterwards, as the loader made it up to the current layer, with a page of
    its own whose warning is hidden, the old document is gone and the other
    documents and pages stay; when it cannot be read the documents and tabs
    stay and [reloadError] is emitted. Else the warning of that document's
    page is visible afterwards, the page keeps its view and scene, and
    documents, other pages, current index, undo group, tool, watcher and
    signals are as before. *)
Theorem fileChanged_reconciliation (env : Env) (name : string) (m : t) :
  consistent m → uniqueObjects m →
  ((∀ d, d ∈ mDocuments m → ¬ resolvesTo env name d) →
   fileChanged env name m = Some m) ∧
  (∀ index document,
     QList.at_ (mDocuments m) index = Some document →
     resolvesTo env name document →
     (∀ (k : nat) d', Z.of_nat k < index → mDocuments m !! k = Some d' →
                      ¬ resolvesTo env name d') →
     (lastModified env name = lastSaved document →
      fileChanged env name m = Some m) ∧
     (lastModified env name ≠ lastSaved document → isModified document = false →
      fileChanged env name m = snd <$> reloadDocumentAt env index m ∧
      (∀ m', fileChanged env name m = Some m' →
             ∀ (j : nat) c', TabWidget.pages (mTabWidget m') !! j = Some c' →
                             warningVisible c' = true →
                             ∃ c, TabWidget.pages (mTabWidget m) !! j = Some c ∧
                                  warningVisible c = true) ∧
      (∀ newDocument,
         load env (fileName document) (readerOf env document) = inl newDocument →
         docId newDocument ∉ (docId <$> mDocuments m) →
         ∃ m' d' c',
           fileChanged env name m = Some m' ∧
           length (mDocuments m') = length (mDocuments m) ∧
           mDocuments m' !! Z.to_nat index = Some d' ∧
           docId d' = docId newDocument ∧ fileName d' = fileName newDocument ∧
           isModified d' = isModified newDocument ∧
           lastSaved d' = lastSaved newDocument ∧
           layerCount d' = layerCount newDocument ∧
           (docId document ∉ (docId <$> mDocuments m')) ∧
           TabWidget.pages (mTabWidget m') !! Z.to_nat index = Some c' ∧
           sceneDocument c' = docId newDocument ∧ warningVisible c' = false ∧
           (∀ j : nat, j ≠ Z.to_nat index →
              mDocuments m' !! j = mDocuments m !! j ∧
              TabWidget.pages (mTabWidget m') !! j
              = TabWidget.pages (mTabWidget m) !! j)) ∧
      (∀ error,
         load env (fileName document) (readerOf env document) = inr error →
         ∃ m',
           fileChanged env name m = Some m' ∧
           mDocuments m' = mDocuments m ∧ mTabWidget m' = mTabWidget m ∧
           mUndoGroup m' = mUndoGroup m ∧
           emitted m'
           = emitted m ++ [reloadError (fileName document +:+ ":" +:+ newline
                                          +:+ newline +:+ error)])) ∧
     (lastModified env name ≠ lastSaved document → isModified document = true →
      ∃ container m' c',
        TabWidget.pages (mTabWidget m) !! Z.to_nat index = Some container ∧
        fileChanged env name m = Some m' ∧
        m' = setPage (Z.to_nat index)
               (setFileChangedWarningVisible true container) m ∧
        TabWidget.pages (mTabWidget m') !! Z.to_nat index = Some c' ∧
        warningVisible c' = true ∧
        mapView c' = mapView container ∧
        sceneDocument c' = sceneDocument container ∧
        (∀ j : nat, j ≠ Z.to_nat index →
           TabWidget.pages (mTabWidget m') !! j = TabWidget.pages (mTabWidget m) !! j) ∧
        currentIndex m' = currentIndex m ∧
        mDocuments m' = mDocuments m ∧ mUndoGroup m' = mUndoGroup m ∧
        mSceneWithTool m' = mSceneWithTool m ∧
        mFileSystemWatcher m' = mFileSystemWatcher m ∧
        emitted m' = emitted m)).
Proof.
  intros Hc Hu. split.
  - intros Hnone. apply findDocument_none in Hnone.
    unfold fileChanged. rewrite Hnone. by rewrite bool_decide_eq_true_2.
  - intros index document Hat Hres Hmin.
    pose proof (findDocument_first env name m index document Hat Hres Hmin) as Hfind.
    pose proof Hat as Hat'. apply at_Some in Hat' as [Hi0 Hdoc].
    pose proof (lookup_lt_Some _ _ _ Hdoc) as Hi.
    assert (Hfc : lastModified env name ≠ lastSaved document →
                  isModified document = false →
                  fileChanged env name m = snd <$> reloadDocumentAt env index m).
    { intros Htime Hmod. unfold fileChanged. rewrite Hfind.
      rewrite (bool_decide_eq_false_2 (index = -1)) by lia. rewrite Hat. simpl.
      rewrite bool_decide_eq_false_2 by done. by rewrite Hmod. }
    split; [| split].
    + intros Htime. unfold fileChanged. rewrite Hfind.
      rewrite (bool_decide_eq_false_2 (index = -1)) by lia. rewrite Hat. simpl.
      by rewrite bool_decide_eq_true_2.
    + intros Htime Hmod. specialize (Hfc Htime Hmod).
      split; [done |]. split; [| split].
      * intros m' Hre. rewrite Hfc in Hre.
        destruct (reloadDocumentAt env index m) as [[r m1] |] eqn:Hreload; [| done].
        injection Hre as <-.
        by eapply reloadDocumentAt_no_warning.
      * intros newDocument Hload Hfresh.
        destruct (consistent_page m _ _ Hc Hdoc) as [old Hpage].
        destruct (reloadDocumentAt_success env _ m _ _ _ Hc Hu Hdoc Hpage Hload Hfresh)
          as (m' & Hm' & Hd & Hp & _).
        rewrite Z2Nat.id in Hm' by done.
        assert (Hnew : ∀ f : MapDocument → Z,
                  (∀ i x, f (setCurrentLayerIndex i x) = f x) →
                  f (reloadedDocument document newDocument) = f newDocument)
          by (intros f Hf; unfold reloadedDocument; destruct (_ && _); [apply Hf | done]).
        exists m', (reloadedDocument document newDocument),
          (reloadedPage (mapView old) newDocument).
        split; [by rewrite Hfc, Hm' |].
        split; [by rewrite Hd, length_insert |].
        split; [rewrite Hd; by apply list_lookup_insert_eq |].
        split; [unfold reloadedDocument; by destruct (_ && _) |].
        split; [unfold reloadedDocument; by destruct (_ && _) |].
        split; [unfold reloadedDocument; by destruct (_ && _) |].
        split; [by apply (Hnew lastSaved) |].
        split; [by apply (Hnew layerCount) |].
        split.
        { intros Hin. rewrite Hd in Hin.
          apply list_elem_of_fmap in Hin as (x & Hx & Hin).
          apply list_elem_of_lookup in Hin as [k Hk].
          destruct (decide (k = Z.to_nat index)) as [-> | Hne].
          - rewrite list_lookup_insert_eq in Hk by done. injection Hk as <-.
            apply Hfresh.
            assert (docId (reloadedDocument document newDocument) = docId newDocument)
              as <- by (unfold reloadedDocument; by destruct (_ && _)).
            rewrite <- Hx. apply list_elem_of_fmap. exists document. split; [done |].
            by eapply list_elem_of_lookup_2.
          - rewrite list_lookup_insert_ne in Hk by done.
            assert (k = Z.to_nat index); [| done].
            eapply (NoDup_lookup _ k (Z.to_nat index) (docId document) Hu);
              rewrite list_lookup_fmap; [rewrite Hk; simpl; by f_equal | by rewrite Hdoc]. }
        split; [rewrite Hp; apply list_lookup_insert_eq; by eapply lookup_lt_Some |].
        split; [done |]. split; [done |].
        intros j Hj. rewrite Hd, Hp.
        split; by apply list_lookup_insert_ne.
      * intros error Hload.
        rewrite Hfc, (reloadDocumentAt_failure env index m document error Hat Hload).
        simpl. eexists. split; [reflexivity |]. done.
    + intros Htime Hmod.
      destruct (consistent_page m _ _ Hc Hdoc) as [container Hpage].
      pose proof (lookup_lt_Some _ _ _ Hpage) as Hip.
      exists container,
        (setPage (Z.to_nat index) (setFileChangedWarningVisible true container) m),
        (setFileChangedWarningVisible true container).
      split; [done |]. split.
      { unfold fileChanged. rewrite Hfind.
        rewrite (bool_decide_eq_false_2 (index = -1)) by lia. rewrite Hat. simpl.
        rewrite bool_decide_eq_false_2 by done. rewrite Hmod. simpl.
        unfold TabWidget.widget.
        assert (QList.at_ (TabWidget.pages (mTabWidget m)) index = Some container) as ->
          by (apply at_Some; done).
        done. }
      split; [done |].
      split; [simpl; by apply list_lookup_insert_eq |].
      do 3 (split; [done |]).
      split; [intros j Hj; simpl; by apply list_lookup_insert_ne |].
      done.
Qed.

Lemma fileChanged_reconciliation_witness :
  ∃ m' c',
    fileChanged directory "b.tmx" threeOpen = Some m' ∧
    TabWidget.pages (mTabWidget m') !! 1%nat = Some c' ∧
    warningVisible c' = true ∧
    mDocuments m' = mDocuments threeOpen ∧
    m' = setPage 1 (setFileChangedWarningVisible true
                      {| mapView := newMapView directory; warningVisible := false;
                         sceneDocument := 2%nat |}) threeOpen.
Proof.
  assert (Hc : consistent threeOpen)
    by (split; [reflexivity | right; vm_compute; done]).
  assert (Hu : uniqueObjects threeOpen)
    by (unfold uniqueObjects; apply (bool_decide_unpack _); by vm_compute).
  assert (Hres : resolvesTo directory "b.tmx" docB)
    by (clear; split; [vm_compute; intros H; discriminate H | reflexivity]).
  assert (Hmin : ∀ (k : nat) d', Z.of_nat k < 1 → mDocuments threeOpen !! k = Some d' →
                                 ¬ resolvesTo directory "b.tmx" d').
  { clear. intros [| k] d' Hk Hd'; [| lia].
    vm_compute in Hd'. injection Hd' as <-.
    intros [_ Heq]. vm_compute in Heq. discriminate Heq. }
  assert (Htime : lastModified directory "b.tmx" ≠ lastSaved docB)
    by (clear; vm_compute; intros H; discriminate H).
  destruct (fileChanged_reconciliation directory "b.tmx" threeOpen Hc Hu) as [_ H].
  destruct (H 1 docB eq_refl Hres Hmin) as (_ & _ & Hprompt).
  destruct (Hprompt Htime eq_refl)
    as (container & m' & c' & Hpage & Hfc & Heq & Hc' & Hvis & _ & _ & _ & _ & Hd & _).
  assert (Hcont : container = {| mapView := newMapView directory; warningVisible := false;
                                sceneDocument := 2%nat |})
    by (clear - Hpage; vm_compute in Hpage; injection Hpage as <-; reflexivity).
  exists m', c'. split; [exact Hfc |]. split; [exact Hc' |]. split; [exact Hvis |].
  split; [exact Hd |]. rewrite <- Hcont. exact Heq.
Defined.

(** C2. When the map of the document at [index] cannot be read again,
    [reloadDocumentAt] answers false, having emitted [reloadError] once with a
    message made of the file name, a colon, two line breaks and the reader's
    error; the documents, the tab widget with its pages and current index, and
    every other part of the manager are as before. *)
Theorem reload_failure_keeps_document (env : Env) (index : Z) (m : t)
    (oldDocument : MapDocument) (error : string) :
  QList.at_ (mDocuments m) index = Some oldDocument →
  load env (fileName oldDocument) (readerOf env oldDocument) = inr error →
  ∃ m' message,
    reloadDocumentAt env index m = Some (false, m') ∧
    emitted m' = emitted m ++ [reloadError message] ∧
    message = fileName oldDocument +:+ ":" +:+ newline +:+ newline +:+ error ∧
    mDocuments m' = mDocuments m ∧
    mTabWidget m' = mTabWidget m ∧
    QList.at_ (mDocuments m') index = Some oldDocument ∧
    mUndoGroup m' = mUndoGroup m ∧
    mSceneWithTool m' = mSceneWithTool m ∧
    mFileSystemWatcher m' = mFileSystemWatcher m.
Proof.
  intros Hat Hload. eexists _, _.
  split; [by apply reloadDocumentAt_failure |]. simpl. done.
Qed.

Lemma reload_failure_keeps_document_witness :
  ∃ m' message,
    reloadDocumentAt directory 1 threeOpen = Some (false, m') ∧
    emitted m' = emitted threeOpen ++ [reloadError message] ∧
    message = "b.tmx" +:+ ":" +:+ newline +:+ newline
                +:+ "Could not open file for reading." ∧
    mDocuments m' = mDocuments threeOpen ∧
    mTabWidget m' = mTabWidget threeOpen.
Proof.
  destruct (reload_failure_keeps_document directory 1 threeOpen docB
              "Could not open file for reading.")
    as (m' & message & H1 & H2 & H3 & H4 & H5 & _); [reflexivity | reflexivity |].
  exact (ex_intro _ m' (ex_intro _ message
           (conj H1 (conj H2 (conj H3 (conj H4 H5)))))).
Defined.

(** C3. When the map of the document at tab index [index] is read again,
    the new document is at [index] afterwards and the number of documents is
    the same; its page shows the new document with the zoom factor and the
    two scroll positions of the old view; and the new document has the
    current-layer index of the old one whenever that index is a valid layer
    index of the new map. [reloadDocumentAt] writes the index only when it is
    greater than zero, zero being the index a document that was just read
    has when it has layers: that is the hypothesis on [newDocument]. *)
Theorem reload_success_in_place (env : Env) (index : Z) (m : t)
    (oldDocument newDocument : MapDocument) (old : MapViewContainer) :
  consistent m → uniqueObjects m →
  QList.at_ (mDocuments m) index = Some oldDocument →
  TabWidget.widget (mTabWidget m) index = Some old →
  load env (fileName oldDocument) (readerOf env oldDocument) = inl newDocument →
  docId newDocument ∉ (docId <$> mDocuments m) →
  (0 < layerCount newDocument → currentLayerIndex newDocument = 0) →
  ∃ m' d' c',
    reloadDocumentAt env index m = Some (true, m') ∧
    length (mDocuments m') = length (mDocuments m) ∧
    QList.at_ (mDocuments m') index = Some d' ∧
    docId d' = docId newDocument ∧
    TabWidget.widget (mTabWidget m') index = Some c' ∧
    sceneDocument c' = docId newDocument ∧
    scale (mapView c') = scale (mapView old) ∧
    horizontalPosition (mapView c') = horizontalPosition (mapView old) ∧
    verticalPosition (mapView c') = verticalPosition (mapView old) ∧
    (0 ≤ currentLayerIndex oldDocument < layerCount newDocument →
     currentLayerIndex d' = currentLayerIndex oldDocument) ∧
    (¬ 0 < currentLayerIndex oldDocument < layerCount newDocument →
     d' = newDocument).
Proof.
  intros Hc Hu Hat Hpage Hload Hfresh Hfirst.
  apply at_Some in Hat as [Hi0 Hold]. apply at_Some in Hpage as [_ Hpage].
  pose proof (lookup_lt_Some _ _ _ Hold) as Hi.
  pose proof (lookup_lt_Some _ _ _ Hpage) as Hip.
  destruct (reloadDocumentAt_success env _ m _ _ _ Hc Hu Hold Hpage Hload Hfresh)
    as (m' & Hm' & Hd & Hp & _).
  rewrite Z2Nat.id in Hm' by done.
  exists m', (reloadedDocument oldDocument newDocument),
    (reloadedPage (mapView old) newDocument).
  split; [done |]. split; [by rewrite Hd, length_insert |].
  split; [apply at_Some; split; [done |]; rewrite Hd; by apply list_lookup_insert_eq |].
  split; [unfold reloadedDocument; by destruct (_ && _) |].
  split; [apply at_Some; split; [done |]; rewrite Hp; by apply list_lookup_insert_eq |].
  do 4 (split; [done |]).
  unfold reloadedDocument. split.
  - intros [Hlow Hhigh].
    destruct (decide (0 < currentLayerIndex oldDocument)) as [Hpos | Hzero].
    + by rewrite !bool_decide_eq_true_2.
    + rewrite (bool_decide_eq_false_2 (0 < _)) by done. simpl.
      rewrite Hfirst by lia. lia.
  - intros Hn. do 2 (case_bool_decide; simpl; [| done]). lia.
Qed.

Lemma reload_success_in_place_witness :
  ∃ m' d' c',
    reloadDocumentAt directory 2 threeOpen = Some (true, m') ∧
    QList.at_ (mDocuments m') 2 = Some d' ∧
    docId d' = 5%nat ∧
    TabWidget.widget (mTabWidget m') 2 = Some c' ∧
    scale (mapView c') = 4611686018427387904 ∧
    horizontalPosition (mapView c') = 30 ∧
    verticalPosition (mapView c') = 40 ∧
    currentLayerIndex d' = 1.
Proof.
  assert (Hc : consistent threeOpen)
    by (split; [reflexivity | right; vm_compute; done]).
  assert (Hu : uniqueObjects threeOpen)
    by (unfold uniqueObjects; apply (bool_decide_unpack _); by vm_compute).
  assert (Hfresh : docId docC' ∉ (docId <$> mDocuments threeOpen))
    by (apply (bool_decide_unpack _); by vm_compute).
  assert (Hlayer : 0 ≤ currentLayerIndex docC < layerCount docC')
    by (simpl; lia).
  assert (Hfirst : 0 < layerCount docC' → currentLayerIndex docC' = 0)
    by (intros _; reflexivity).
  destruct (reload_success_in_place directory 2 threeOpen docC docC'
              {| mapView := {| scale := 4611686018427387904;
                               horizontalPosition := 30; verticalPosition := 40 |};
                 warningVisible := false; sceneDocument := 3%nat |}
              Hc Hu eq_refl eq_refl eq_refl Hfresh Hfirst)
    as (m' & d' & c' & H1 & _ & H3 & H4 & H5 & _ & H7 & H8 & H9 & H10 & _).
  exists m', d', c'.
  split; [exact H1 |]. split; [exact H3 |]. split; [exact H4 |].
  split; [exact H5 |]. split; [exact H7 |]. split; [exact H8 |].
  split; [exact H9 |]. exact (H10 Hlayer).
Defined.

(** C7, as the code has it. A notification for the file of document A,
    which has no unsaved changes and whose file can be read again: every other
    open document B is untouched (the same document at the same tab index,
    with the same page: view, zoom, scroll positions, warning), and the
    reloaded A is the current document afterwards, whichever document was
    current before. *)
Theorem reload_leaves_other_documents (env : Env) (name : string) (m : t)
    (a : Z) (A newDocument : MapDocument) :
  consistent m → uniqueObjects m →
  QList.at_ (mDocuments m) a = Some A →
  resolvesTo env name A →
  (∀ (k : nat) d', Z.of_nat k < a → mDocuments m !! k = Some d' →
                   ¬ resolvesTo env name d') →
  lastModified env name ≠ lastSaved A →
  isModified A = false →
  load env (fileName A) (readerOf env A) = inl newDocument →
  docId newDocument ∉ (docId <$> mDocuments m) →
  ∃ m',
    fileChanged env name m = Some m' ∧
    (∀ b : nat, Z.of_nat b ≠ a →
       mDocuments m' !! b = mDocuments m !! b ∧
       TabWidget.pages (mTabWidget m') !! b = TabWidget.pages (mTabWidget m) !! b) ∧
    currentIndex m' = a ∧
    (∃ d', currentDocument m' = Some (Some d') ∧ docId d' = docId newDocument).
Proof.
  intros Hc Hu Hat Hres Hmin Htime Hmod Hload Hfresh.
  pose proof (findDocument_first env name m a A Hat Hres Hmin) as Hfind.
  pose proof Hat as Hat'. apply at_Some in Hat' as [Hi0 Hold].
  pose proof (lookup_lt_Some _ _ _ Hold) as Hi.
  destruct (consistent_page m _ _ Hc Hold) as [old Hpage].
  destruct (reloadDocumentAt_success env _ m _ _ _ Hc Hu Hold Hpage Hload Hfresh)
    as (m' & Hm' & Hd & Hp & Hcur).
  rewrite Z2Nat.id in Hm', Hcur by done.
  exists m'. split.
  { unfold fileChanged. rewrite Hfind.
    rewrite (bool_decide_eq_false_2 (a = -1)) by lia. rewrite Hat. simpl.
    rewrite bool_decide_eq_false_2 by done. rewrite Hmod. simpl. by rewrite Hm'. }
  split.
  { intros b Hb. rewrite Hd, Hp. split; apply list_lookup_insert_ne; lia. }
  split; [done |].
  exists (reloadedDocument A newDocument). split.
  - unfold currentDocument. rewrite Hcur.
    rewrite (bool_decide_eq_false_2 (a = -1)) by lia.
    assert (QList.at_ (mDocuments m') a = Some (reloadedDocument A newDocument)) as ->; [| done].
    apply at_Some. split; [done |]. rewrite Hd. by apply list_lookup_insert_eq.
  - unfold reloadedDocument. by destruct (_ && _).
Qed.

Lemma reload_leaves_other_documents_witness :
  ∃ m',
    fileChanged directory "a.tmx" twoOpen = Some m' ∧
    mDocuments m' !! 1%nat = Some docB ∧
    TabWidget.pages (mTabWidget m') !! 1%nat
    = TabWidget.pages (mTabWidget twoOpen) !! 1%nat ∧
    currentIndex m' = 0.
Proof.
  assert (Hc : consistent twoOpen)
    by (split; [reflexivity | right; vm_compute; done]).
  assert (Hu : uniqueObjects twoOpen)
    by (unfold uniqueObjects; apply (bool_decide_unpack _); by vm_compute).
  assert (Hres : resolvesTo directory "a.tmx" docA)
    by (split; [by vm_compute | reflexivity]).
  assert (Hmin : ∀ (k : nat) d', Z.of_nat k < 0 → mDocuments twoOpen !! k = Some d' →
                                 ¬ resolvesTo directory "a.tmx" d')
    by (intros k d' Hk; lia).
  assert (Htime : lastModified directory "a.tmx" ≠ lastSaved docA)
    by (by vm_compute).
  assert (Hfresh : docId docA' ∉ (docId <$> mDocuments twoOpen))
    by (apply (bool_decide_unpack _); by vm_compute).
  assert (Hb : Z.of_nat 1 ≠ 0) by lia.
  destruct (reload_leaves_other_documents directory "a.tmx" twoOpen 0 docA docA'
              Hc Hu eq_refl Hres Hmin Htime eq_refl eq_refl Hfresh)
    as (m' & H1 & H2 & H3 & _).
  exists m'. split; [exact H1 |].
  split; [exact (proj1 (H2 1%nat Hb)) |].
  split; [exact (proj2 (H2 1%nat Hb)) | exact H3].
Defined.

(** C7 as the design document has it fails: with a.tmx and b.tmx open and
    b.tmx current, the notification for a.tmx reloads it and leaves the
    reloaded a.tmx current, not b.tmx. *)
Lemma reload_changes_current_counterexample :
  ∃ m',
    (docId <$> mDocuments twoOpen) = [1%nat; 2%nat] ∧
    currentDocument twoOpen = Some (Some docB) ∧
    isModified docA = false ∧
    fileChanged directory "a.tmx" twoOpen = Some m' ∧
    mDocuments m' !! 1%nat = Some docB ∧
    currentIndex m' = 0 ∧
    currentDocument m' ≠ Some (Some docB).
Proof.
  eexists. split; [reflexivity |]. split; [reflexivity |]. split; [reflexivity |].
  split; [vm_compute; reflexivity |]. split; [reflexivity |].
  split; [reflexivity |]. by vm_compute.
Qed.



(** C9, as the code has it. Along every sequence of [addDocument] and
    [closeDocumentAt] from the empty manager that meets the assertions of the
    code, no document object is in [mDocuments] twice; and when each document
    is opened only after [findDocument] did not find its file among the open
    documents, as the callers of [addDocument] other than [reloadDocumentAt]
    are to do, no two open documents are documents of one existing file.
    [addDocument] itself does not look at file names. *)
Theorem registry_unique (env : Env) (ops : list Op) (m : t) :
  runOps env ops init = Some m →
  uniqueObjects m ∧ (guarded env ops init → uniquePaths env m).
Proof.
  intros Hrun.
  destruct (runOps_invariant env ops init m consistent_init uniqueObjects_init Hrun)
    as (_ & Hu & Hp).
  split; [done |]. intros Hg. apply Hp; [| done].
  intros i j d1 d2 H1. done.
Qed.

Lemma registry_unique_witness :
  ∃ m,
    runOps directory [Open docA; Open docB; Close 0; Open docC] init = Some m ∧
    (docId <$> mDocuments m) = [2%nat; 3%nat] ∧
    uniqueObjects m ∧ uniquePaths directory m.
Proof.
  assert (Hg : guarded directory [Open docA; Open docB; Close 0; Open docC] init).
  { vm_compute. repeat (split; [reflexivity |]). exact I. }
  destruct (runOps directory [Open docA; Open docB; Close 0; Open docC] init)
    as [m |] eqn:Hrun; [| vm_compute in Hrun; discriminate Hrun].
  destruct (registry_unique directory
              [Open docA; Open docB; Close 0; Open docC] m Hrun) as [Hu Hp].
  exists m. split; [reflexivity |].
  split; [vm_compute in Hrun; injection Hrun as <-; reflexivity |].
  split; [exact Hu | exact (Hp Hg)].
Defined.

(** C9 as the design document has it fails: [addDocument] accepts a second
    document object of a file that is already open, as [reloadDocumentAt]
    relies on, and both are open then. *)
Lemma same_path_twice_counterexample :
  ∃ m,
    runOps directory [Open docA; Open docA'] init = Some m ∧
    mDocuments m = [docA; docA'] ∧
    resolvesTo directory (fileName docA) docA' ∧
    ¬ uniquePaths directory m.
Proof.
  assert (Hr : resolvesTo directory (fileName docA) docA')
    by (split; [by vm_compute | reflexivity]).
  assert (Hne : 0%nat ≠ 1%nat) by lia.
  eexists. split; [vm_compute; reflexivity |]. split; [reflexivity |].
  split; [exact Hr |].
  intros Hu. exact (Hu 0%nat 1%nat docA docA' eq_refl eq_refl Hne Hr).
Qed.
End RegistryProperties.

(** * Facts about the creation tool *)

Module SessionFacts.
Import CreateObjectTool Session.

Lemma length_removeOne a l : a ∈ l → S (length (removeOne a l)) = length l.
Proof.
  induction l as [| x l IH]; intros Hin; [by apply not_elem_of_nil in Hin |].
  simpl. case_bool_decide as Hx; [done |].
  apply elem_of_cons in Hin as [-> | Hin]; [done |].
  simpl. by rewrite IH.
Qed.

Lemma removeOne_snoc_fresh a l : a ∉ l → removeOne a (l ++ [a]) = l.
Proof.
  induction l as [| x l IH]; intros Hnotin; simpl.
  - by rewrite bool_decide_eq_true_2.
  - apply not_elem_of_cons in Hnotin as [Hne Hnotin].
    rewrite bool_decide_eq_false_2 by done. by rewrite IH.
Qed.

Lemma removeOne_fresh a l : a ∉ l → removeOne a l = l.
Proof.
  induction l as [| x l IH]; intros Hnotin; simpl; [done |].
  apply not_elem_of_cons in Hnotin as [Hne Hnotin].
  rewrite bool_decide_eq_false_2 by done. by rewrite IH.
Qed.

Lemma sameModel_refl s : sameModel s s.
Proof. by repeat split. Qed.

Lemma sameModel_trans s1 s2 s3 : sameModel s1 s2 → sameModel s2 s3 → sameModel s1 s3.
Proof.
  unfold sameModel. intros H1 H2.
  destruct H1 as (?&?&?&?&?&?&?&?&?&?&?), H2 as (?&?&?&?&?&?&?&?&?&?&?).
  repeat split; congruence.
Qed.

Section Facts.
Variable geo : Geometry.
Variable createNewMapObject : t → option MapObject.

(** [startNewMapObject] with a factory that makes an object. *)
Lemma startNewMapObject_started pos g grp made s :
  mNewMapObjectItem s = None → createNewMapObject s = Some made →
  groups s !! g = Some grp →
  startNewMapObject createNewMapObject pos g s = Some (started pos g grp s).
Proof.
  intros Hidle Hmade Hgrp. unfold startNewMapObject, started.
  rewrite Hidle, Hmade. unfold addObject. simpl. rewrite Hgrp. simpl.
  rewrite lookup_insert_eq. simpl. by rewrite insert_insert_eq.
Qed.

(** [startNewMapObject] with a factory that declines. *)
Lemma startNewMapObject_declined pos g s :
  mNewMapObjectItem s = None → createNewMapObject s = None →
  startNewMapObject createNewMapObject pos g s = Some s.
Proof. intros Hidle Hmade. unfold startNewMapObject. by rewrite Hidle, Hmade. Qed.

(** What [clearNewMapObjectItem] does to a session whose object is in a
    group. *)
Lemma clearNewMapObjectItem_ok s item it obj g grp :
  mNewMapObjectItem s = Some item → items s !! item = Some it →
  heap s !! mapObject it = Some obj → objectGroup obj = Some g →
  groups s !! g = Some grp →
  ∃ s', clearNewMapObjectItem s = Some (mapObject it, s') ∧
    mNewMapObjectItem s' = None ∧ mOverlayPolygonItem s' = None ∧
    heap s' = <[mapObject it := setObjectGroup None obj]> (heap s) ∧
    groups s' = <[g := setObjects (removeOne (mapObject it) (objects grp)) grp]>
                  (groups s) ∧
    items s' !! item = None ∧
    undoStack s' = undoStack s ∧ baseCalls s' = baseCalls s ∧
    sceneItems s' = match mOverlayPolygonItem s with
                    | Some overlay => removeOne overlay (removeOne item (sceneItems s))
                    | None => removeOne item (sceneItems s)
                    end.
Proof.
  intros Hitem Hit Hobj Hg Hgrp. unfold clearNewMapObjectItem.
  rewrite Hitem. simpl. rewrite Hit. simpl. rewrite Hobj. simpl. rewrite Hg. simpl.
  unfold removeObject. rewrite Hgrp. simpl. rewrite Hobj. simpl.
  destruct (mOverlayPolygonItem s) as [overlay |]; simpl;
    (eexists; split; [reflexivity |]; simpl;
     do 4 (split; [done |]); split; [| done]).
  - destruct (decide (overlay = item)) as [-> | Hne].
    + apply lookup_delete_eq.
    + rewrite lookup_delete_ne by done. apply lookup_delete_eq.
  - apply lookup_delete_eq.
Qed.

(** Neither clearing nor cancelling touches the undo stack. *)
Lemma clearNewMapObjectItem_undoStack s r :
  clearNewMapObjectItem s = Some r → undoStack r.2 = undoStack s.
Proof.
  unfold clearNewMapObjectItem. intros H.
  destruct (mNewMapObjectItem s) as [item |]; [| done]. simpl in H.
  destruct (items s !! item) as [it |]; [| done]. simpl in H.
  destruct (heap s !! mapObject it) as [obj |] eqn:Hobj; [| done]. simpl in H.
  destruct (objectGroup obj) as [g |]; [| done]. simpl in H.
  unfold removeObject in H.
  destruct (groups s !! g) as [grp |]; [| done]. simpl in H.
  rewrite Hobj in H. simpl in H.
  injection H as <-. simpl. by destruct (mOverlayPolygonItem s).
Qed.

Lemma cancelNewMapObject_undoStack s s' :
  cancelNewMapObject s = Some s' → undoStack s' = undoStack s.
Proof.
  unfold cancelNewMapObject. intros H.
  destruct (clearNewMapObjectItem s) as [r |] eqn:Hr; [| done].
  simpl in H. injection H as <-. simpl. by apply clearNewMapObjectItem_undoStack.
Qed.

Lemma startNewMapObject_undoStack pos g s s' :
  startNewMapObject createNewMapObject pos g s = Some s' →
  undoStack s' = undoStack s.
Proof.
  unfold startNewMapObject. intros H.
  destruct (mNewMapObjectItem s); [done |].
  destruct (createNewMapObject s) as [made |]; [| by injection H as <-].
  unfold addObject in H. simpl in H.
  destruct (groups s !! g) as [grp |]; [| done]. simpl in H.
  rewrite lookup_insert_eq in H. simpl in H.
  by injection H as <-.
Qed.

(** The events that neither finish nor cancel leave the document and the
    scene alone while a creation is going on. *)
Lemma handle_quiet ev s :
  quiet ev → mNewMapObjectItem s ≠ None →
  ∃ s', handle geo createNewMapObject ev s = Some s' ∧ sameModel s s'.
Proof.
  intros Hq Hs. destruct (mNewMapObjectItem s) as [item |] eqn:Hitem; [| done].
  destruct ev as [| k | | pos control | e | e | tile]; simpl in *.
  - done.
  - unfold keyPressed. rewrite Hitem.
    destruct k; try done. eexists. split; [reflexivity |]. by repeat split.
  - eexists. split; [reflexivity |]. apply sameModel_refl.
  - unfold mouseMoved. simpl. rewrite Hitem.
    eexists. split; [reflexivity |]. by repeat split.
  - unfold mousePressed. rewrite Hitem.
    eexists. split; [reflexivity |]. apply sameModel_refl.
  - unfold mouseReleased. rewrite Hitem.
    eexists. split; [reflexivity |]. apply sameModel_refl.
  - eexists. split; [reflexivity |]. by repeat split.
Qed.

Lemma run_quiet evs s :
  Forall quiet evs → mNewMapObjectItem s ≠ None →
  ∃ s', run geo createNewMapObject evs s = Some s' ∧ sameModel s s'.
Proof.
  intros Hq. revert s. induction Hq as [| ev evs Hev _ IH]; intros s Hs; simpl.
  - exists s. split; [done | apply sameModel_refl].
  - destruct (handle_quiet ev s Hev Hs) as (s1 & -> & Hsame). simpl.
    destruct (IH s1) as (s2 & Hrun & Hsame2).
    { destruct Hsame as [-> _]. done. }
    exists s2. split; [done |]. by eapply sameModel_trans.
Qed.

Lemma run_app evs1 evs2 s :
  run geo createNewMapObject (evs1 ++ evs2) s
  = run geo createNewMapObject evs1 s ≫= run geo createNewMapObject evs2.
Proof.
  revert s. induction evs1 as [| ev evs1 IH]; intros s; simpl; [done |].
  destruct (handle geo createNewMapObject ev s) as [s1 |]; simpl; [apply IH | done].
Qed.

Lemma run_singleton ev s :
  run geo createNewMapObject [ev] s = handle geo createNewMapObject ev s.
Proof. simpl. by destruct (handle geo createNewMapObject ev s). Qed.

(** Finishing: the one command pushed, and the object back in its group. *)
Lemma finishNewMapObject_ok s item it obj g grp :
  mNewMapObjectItem s = Some item → items s !! item = Some it →
  heap s !! mapObject it = Some obj → objectGroup obj = Some g →
  groups s !! g = Some grp →
  ∃ s', finishNewMapObject s = Some s' ∧
    mNewMapObjectItem s' = None ∧
    undoStack s' = undoStack s ++ [AddMapObject g (mapObject it)] ∧
    heap s' !! mapObject it = Some (setObjectGroup (Some g) obj) ∧
    groups s' !! g =
      Some (setObjects (removeOne (mapObject it) (objects grp) ++ [mapObject it]) grp) ∧
    items s' !! item = None.
Proof.
  intros Hitem Hit Hobj Hg Hgrp. unfold finishNewMapObject.
  destruct (clearNewMapObjectItem_ok s item it obj g grp Hitem Hit Hobj Hg Hgrp)
    as (s1 & Hclear & Hnone & _ & Hheap & Hgroups & Hitems & Hundo & _ & _).
  rewrite Hitem. simpl. rewrite Hit. simpl. rewrite Hobj. simpl. rewrite Hg. simpl.
  rewrite Hclear. simpl. unfold push, addObject. simpl.
  rewrite Hgroups, lookup_insert_eq. simpl. rewrite Hheap, lookup_insert_eq. simpl.
  eexists. split; [reflexivity |]. simpl.
  split; [done |]. split; [by rewrite Hundo |].
  split; [by rewrite lookup_insert_eq |]. split; [by rewrite lookup_insert_eq | done].
Qed.

Lemma cancelNewMapObject_ok s item it obj g grp :
  mNewMapObjectItem s = Some item → items s !! item = Some it →
  heap s !! mapObject it = Some obj → objectGroup obj = Some g →
  groups s !! g = Some grp →
  ∃ s', cancelNewMapObject s = Some s' ∧
    mNewMapObjectItem s' = None ∧ mOverlayPolygonItem s' = None ∧
    undoStack s' = undoStack s ∧
    heap s' !! mapObject it = None ∧
    groups s' !! g =
      Some (setObjects (removeOne (mapObject it) (objects grp)) grp) ∧
    items s' !! item = None ∧ baseCalls s' = baseCalls s ∧
    sceneItems s' = match mOverlayPolygonItem s with
                    | Some overlay => removeOne overlay (removeOne item (sceneItems s))
                    | None => removeOne item (sceneItems s)
                    end.
Proof.
  intros Hitem Hit Hobj Hg Hgrp. unfold cancelNewMapObject.
  destruct (clearNewMapObjectItem_ok s item it obj g grp Hitem Hit Hobj Hg Hgrp)
    as (s1 & Hclear & Hnone & Hov & Hheap & Hgroups & Hitems & Hundo & Hbase & Hscene).
  rewrite Hclear. simpl. eexists. split; [reflexivity |]. simpl.
  split; [done |]. split; [done |]. split; [done |].
  split; [apply lookup_delete_eq |]. split; [by rewrite Hgroups, lookup_insert_eq |].
  done.
Qed.

(** Only finishing pushes on the undo stack. *)
Lemma finishNewMapObject_undoStack s s' :
  finishNewMapObject s = Some s' →
  ∃ g o, undoStack s' = undoStack s ++ [AddMapObject g o].
Proof.
  unfold finishNewMapObject. intros H.
  destruct (mNewMapObjectItem s) as [item |]; [| done]. simpl in H.
  destruct (items s !! item) as [it |]; [| done]. simpl in H.
  destruct (heap s !! mapObject it) as [obj |]; [| done]. simpl in H.
  destruct (objectGroup obj) as [g |]; [| done]. simpl in H.
  destruct (clearNewMapObjectItem s) as [r |] eqn:Hr; [| done]. simpl in H.
  apply clearNewMapObjectItem_undoStack in Hr.
  unfold push, addObject in H. simpl in H.
  destruct (groups r.2 !! g); [| done]. simpl in H.
  destruct (heap r.2 !! mapObject it); [| done]. simpl in H.
  injection H as <-. simpl. rewrite Hr. eauto.
Qed.

Lemma handle_undoStack ev s s' :
  handle geo createNewMapObject ev s = Some s' →
  undoStack s' = undoStack s ∨
  (confirms ev ∧ mNewMapObjectItem s ≠ None ∧
   ∃ g o, undoStack s' = undoStack s ++ [AddMapObject g o]).
Proof.
  intros H. destruct ev as [| k | | pos control | e | e | tile]; simpl in H.
  - left. unfold deactivate in H.
    destruct (mNewMapObjectItem s).
    + destruct (cancelNewMapObject s) as [s1 |] eqn:Hc; [| done].
      simpl in H. injection H as <-. simpl. by apply cancelNewMapObject_undoStack.
    + simpl in H. by injection H as <-.
  - unfold keyPressed in H.
    destruct k, (mNewMapObjectItem s) as [item |] eqn:Hitem;
      try (left; by injection H as <-).
    + right. split; [by left |]. split; [done |]. by apply finishNewMapObject_undoStack.
    + right. split; [by right |]. split; [done |]. by apply finishNewMapObject_undoStack.
    + left. by apply cancelNewMapObject_undoStack.
  - left. by injection H as <-.
  - left. unfold mouseMoved in H. simpl in H.
    destruct (mNewMapObjectItem s); by injection H as <-.
  - left. unfold mousePressed in H.
    destruct (mNewMapObjectItem s); [by injection H as <- |].
    destruct (button e); try by injection H as <-.
    destruct (currentObjectGroup s) as [g |]; [| by injection H as <-].
    destruct (groups s !! g) as [grp |]; [| done]. simpl in H.
    destruct (isVisible grp); simpl in H; [| by injection H as <-].
    destruct (mMode s).
    + destruct (mTile s); [| by injection H as <-].
      by eapply startNewMapObject_undoStack.
    + by eapply startNewMapObject_undoStack.
  - left. unfold mouseReleased in H.
    destruct (mNewMapObjectItem s); by injection H as <-.
  - left. by injection H as <-.
Qed.

(** The session [startNewMapObject] opens, seen from a state with the same
    document and scene. *)
Lemma started_session pos g grp s s2 :
  groups s !! g = Some grp → sameModel (started pos g grp s) s2 →
  mNewMapObjectItem s2 = Some (S (nextAddress s)) ∧
  items s2 !! S (nextAddress s)
  = Some {| mapObject := nextAddress s; zValue := 10000 |} ∧
  heap s2 !! nextAddress s = Some {| position := pos; objectGroup := Some g |} ∧
  groups s2 !! g = Some (setObjects (objects grp ++ [nextAddress s]) grp) ∧
  undoStack s2 = undoStack s ∧
  sceneItems s2 = sceneItems s ++ [S (nextAddress s)] ∧
  mOverlayPolygonItem s2 = mOverlayPolygonItem s.
Proof.
  intros Hgrp (Hi & Ho & _ & Hh & Hg & Hit & Hsc & Hu & _).
  rewrite Hi, Ho, Hh, Hg, Hit, Hsc, Hu. simpl.
  by rewrite !lookup_insert_eq.
Qed.
End Facts.
End SessionFacts.

(** * The properties of the creation tool *)

Module SessionProperties.
Import CreateObjectTool Session ToolExamples SessionFacts.

(** C4. A creation is started on the group at [g], any number of events
    that neither finish nor cancel follow, and then the cancel key is pressed
    or the tool is deactivated. Each step succeeds; afterwards no session is
    active, the object and its item are destroyed, the undo stack is the one
    from before the start, and the group has as many objects as before the
    start: when the new address was not in the group, the group is as it
    was. *)
Theorem cancel_restores (geo : Geometry) (createNewMapObject : t → option MapObject)
    (s : t) (pos : QPointF) (g : Address) (grp : ObjectGroup) (made : MapObject)
    (evs : list Event) (ev : Event) :
  mNewMapObjectItem s = None →
  groups s !! g = Some grp →
  createNewMapObject s = Some made →
  Forall quiet evs →
  cancels ev →
  ∃ s1 s2 s3,
    startNewMapObject createNewMapObject pos g s = Some s1 ∧
    mNewMapObjectItem s1 = Some (S (nextAddress s)) ∧
    objectCount g s1 = Some (S (length (objects grp))) ∧
    run geo createNewMapObject evs s1 = Some s2 ∧
    handle geo createNewMapObject ev s2 = Some s3 ∧
    mNewMapObjectItem s3 = None ∧
    mOverlayPolygonItem s3 = None ∧
    heap s3 !! nextAddress s = None ∧
    items s3 !! S (nextAddress s) = None ∧
    undoStack s3 = undoStack s ∧
    objectCount g s3 = objectCount g s ∧
    (nextAddress s ∉ objects grp → groups s3 !! g = Some grp) ∧
    (mOverlayPolygonItem s = None → S (nextAddress s) ∉ sceneItems s →
     sceneItems s3 = sceneItems s).
Proof.
  intros Hidle Hgrp Hmade Hquiet Hcancel.
  exists (started pos g grp s).
  destruct (run_quiet geo createNewMapObject evs (started pos g grp s) Hquiet)
    as (s2 & Hrun & Hsame); [done |].
  destruct (started_session pos g grp s s2 Hgrp Hsame)
    as (Hitem & Hit & Hobj & Hg2 & Hundo & Hscene & Hov).
  destruct (cancelNewMapObject_ok s2 _ _ _ g _ Hitem Hit Hobj eq_refl Hg2)
    as (s3 & Hc & Hn3 & Ho3 & Hu3 & Hh3 & Hg3 & Hi3 & _ & Hs3).
  simpl in *.
  assert (Hlen : length (removeOne (nextAddress s) (objects grp ++ [nextAddress s]))
                 = length (objects grp)).
  { pose proof (length_removeOne (nextAddress s) (objects grp ++ [nextAddress s])) as Hl.
    rewrite length_app in Hl. simpl in Hl.
    assert (nextAddress s ∈ objects grp ++ [nextAddress s]) by set_solver.
    specialize (Hl ltac:(done)). lia. }
  assert (Hall :
    ∀ s4, mNewMapObjectItem s4 = mNewMapObjectItem s3 →
          mOverlayPolygonItem s4 = mOverlayPolygonItem s3 →
          heap s4 = heap s3 → items s4 = items s3 → undoStack s4 = undoStack s3 →
          groups s4 = groups s3 → sceneItems s4 = sceneItems s3 →
          mNewMapObjectItem s4 = None ∧
          mOverlayPolygonItem s4 = None ∧
          heap s4 !! nextAddress s = None ∧
          items s4 !! S (nextAddress s) = None ∧
          undoStack s4 = undoStack s ∧
          objectCount g s4 = objectCount g s ∧
          (nextAddress s ∉ objects grp → groups s4 !! g = Some grp) ∧
          (mOverlayPolygonItem s = None → S (nextAddress s) ∉ sceneItems s →
           sceneItems s4 = sceneItems s)).
  { intros s4 E1 E2 E3 E4 E5 E6 E7.
    rewrite E1, E2, E3, E4, E5, E7. unfold objectCount. rewrite E6, Hg3, Hgrp. simpl.
    split; [done |]. split; [done |]. split; [done |]. split; [done |].
    split; [congruence |]. split; [by rewrite Hlen |]. split.
    - intros Hfresh. rewrite removeOne_snoc_fresh by done. by destruct grp.
    - intros Hnov Hfresh. rewrite Hs3, Hov, Hnov, Hscene.
      by apply removeOne_snoc_fresh. }
  exists s2. destruct Hcancel as [-> | ->].
  - exists s3. split; [by eapply startNewMapObject_started |].
    split; [done |]. split.
    { unfold objectCount. simpl. rewrite lookup_insert_eq. simpl.
      rewrite length_app. simpl. f_equal. lia. }
    split; [done |]. split; [simpl; unfold keyPressed; by rewrite Hitem |].
    by apply Hall.
  - exists (callBase base_deactivate s3). split; [by eapply startNewMapObject_started |].
    split; [done |]. split.
    { unfold objectCount. simpl. rewrite lookup_insert_eq. simpl.
      rewrite length_app. simpl. f_equal. lia. }
    split; [done |]. split; [simpl; unfold deactivate; by rewrite Hitem, Hc |].
    by apply Hall.
Qed.

Lemma cancel_restores_witness :
  ∃ s3,
    run unitTiles makeShape
      [MousePressed press; MouseMoved (0, 0) false; KeyPressed Key_Escape] idle
    = Some s3 ∧
    mNewMapObjectItem s3 = None ∧ heap s3 !! 20%nat = None ∧
    undoStack s3 = [] ∧ groups s3 !! 10%nat = Some layer.
Proof.
  assert (Hq : Forall quiet [MouseMoved (0, 0) false])
    by (repeat constructor).
  assert (Hcancel : cancels (KeyPressed Key_Escape)) by (left; reflexivity).
  assert (Hfresh : nextAddress idle ∉ objects layer)
    by (apply (bool_decide_unpack _); vm_compute; exact I).
  destruct (cancel_restores unitTiles makeShape idle (0, 0) 10%nat layer
              {| position := (0, 0); objectGroup := None |}
              [MouseMoved (0, 0) false] (KeyPressed Key_Escape)
              eq_refl eq_refl eq_refl Hq Hcancel)
    as (s1 & s2 & s3 & H1 & _ & _ & H4 & H5 & H6 & _ & H8 & _ & H10 & _ & H12 & _).
  exists s3. split.
  - change [MousePressed press; MouseMoved (0, 0) false; KeyPressed Key_Escape]
      with ([MousePressed press] ++ [MouseMoved (0, 0) false]
              ++ [KeyPressed Key_Escape]).
    rewrite run_app, run_singleton.
    change (handle unitTiles makeShape (MousePressed press) idle)
      with (startNewMapObject makeShape (0, 0) 10%nat idle).
    rewrite H1. cbn [mbind option_bind].
    rewrite run_app, H4. cbn [mbind option_bind].
    rewrite run_singleton. exact H5.
  - split; [exact H6 |]. split; [exact H8 |]. split; [exact H10 |].
    exact (H12 Hfresh).
Defined.

(** C5. Starting a creation puts the new object into its group and into
    the document at once and leaves the undo stack alone; so do the events
    that neither finish nor cancel; a confirm key then pushes exactly one
    [AddMapObject] command, for that object and group, on the undo stack of the
    tool's document, with the object in its group and no session active. And
    whatever event the tool handles in whatever state, the undo stack changes
    only when a confirm key finishes a session, by exactly one [AddMapObject]
    command. *)
Theorem commit_pushes_one_command (geo : Geometry)
    (createNewMapObject : t → option MapObject) :
  (∀ (s : t) (pos : QPointF) (g : Address) (grp : ObjectGroup) (made : MapObject)
     (evs : list Event) (ev : Event),
     mNewMapObjectItem s = None →
     groups s !! g = Some grp →
     createNewMapObject s = Some made →
     Forall quiet evs →
     confirms ev →
     ∃ s1 s2 s3,
       startNewMapObject createNewMapObject pos g s = Some s1 ∧
       heap s1 !! nextAddress s = Some {| position := pos; objectGroup := Some g |} ∧
       groups s1 !! g = Some (setObjects (objects grp ++ [nextAddress s]) grp) ∧
       undoStack s1 = undoStack s ∧
       run geo createNewMapObject evs s1 = Some s2 ∧
       undoStack s2 = undoStack s ∧
       handle geo createNewMapObject ev s2 = Some s3 ∧
       undoStack s3 = undoStack s ++ [AddMapObject g (nextAddress s)] ∧
       mNewMapObjectItem s3 = None ∧
       heap s3 !! nextAddress s = Some {| position := pos; objectGroup := Some g |} ∧
       (∃ grp3, groups s3 !! g = Some grp3 ∧ nextAddress s ∈ objects grp3 ∧
                length (objects grp3) = S (length (objects grp)))) ∧
  (∀ (ev : Event) (s s' : t),
     handle geo createNewMapObject ev s = Some s' →
     undoStack s' = undoStack s ∨
     (confirms ev ∧ mNewMapObjectItem s ≠ None ∧
      ∃ g o, undoStack s' = undoStack s ++ [AddMapObject g o])).
Proof.
  split; [| intros ev s s'; apply handle_undoStack].
  intros s pos g grp made evs ev Hidle Hgrp Hmade Hquiet Hconfirm.
  exists (started pos g grp s).
  destruct (run_quiet geo createNewMapObject evs (started pos g grp s) Hquiet)
    as (s2 & Hrun & Hsame); [done |].
  destruct (started_session pos g grp s s2 Hgrp Hsame)
    as (Hitem & Hit & Hobj & Hg2 & Hundo & Hscene & Hov).
  destruct (finishNewMapObject_ok s2 _ _ _ g _ Hitem Hit Hobj eq_refl Hg2)
    as (s3 & Hf & Hn3 & Hu3 & Hh3 & Hg3 & _).
  simpl in *. exists s2, s3.
  split; [by eapply startNewMapObject_started |].
  split; [by rewrite lookup_insert_eq |]. split; [by rewrite lookup_insert_eq |].
  split; [done |]. split; [done |]. split; [done |].
  split; [destruct Hconfirm as [-> | ->]; simpl; unfold keyPressed; by rewrite Hitem |].
  split; [by rewrite Hu3, Hundo |]. split; [done |]. split; [done |].
  eexists. split; [exact Hg3 |]. simpl. split; [set_solver |].
  rewrite length_app. simpl.
  pose proof (length_removeOne (nextAddress s) (objects grp ++ [nextAddress s])) as Hl.
  rewrite length_app in Hl. simpl in Hl.
  assert (nextAddress s ∈ objects grp ++ [nextAddress s]) by set_solver.
  specialize (Hl ltac:(done)). lia.
Qed.

Lemma commit_pushes_one_command_witness :
  ∃ s1 s3,
    mousePressed unitTiles makeShape press idle = Some s1 ∧
    undoStack s1 = [] ∧
    (objects <$> groups s1 !! 10%nat) = Some [11%nat; 12%nat; 20%nat] ∧
    run unitTiles makeShape [MouseMoved (0, 0) false; KeyPressed Key_Enter] s1
    = Some s3 ∧
    undoStack s3 = [AddMapObject 10%nat 20%nat] ∧
    (∃ grp3, groups s3 !! 10%nat = Some grp3 ∧ 20%nat ∈ objects grp3 ∧
             length (objects grp3) = 3%nat).
Proof.
  assert (Hq : Forall quiet [MouseMoved (0, 0) false])
    by (repeat constructor).
  assert (Hconfirm : confirms (KeyPressed Key_Enter)) by (left; reflexivity).
  destruct (commit_pushes_one_command unitTiles makeShape) as [Hcommit _].
  destruct (Hcommit idle (0, 0) 10%nat layer
              {| position := (0, 0); objectGroup := None |}
              [MouseMoved (0, 0) false] (KeyPressed Key_Enter)
              eq_refl eq_refl eq_refl Hq Hconfirm)
    as (s1 & s2 & s3 & H1 & _ & H3 & H4 & H5 & _ & H7 & H8 & _ & _ & H11).
  exists s1, s3. split; [exact H1 |]. split; [exact H4 |].
  split; [exact (f_equal (fmap objects) H3) |]. split.
  - change [MouseMoved (0, 0) false; KeyPressed Key_Enter]
      with ([MouseMoved (0, 0) false] ++ [KeyPressed Key_Enter]).
    rewrite run_app, H5. cbn [mbind option_bind].
    rewrite run_singleton. exact H7.
  - split; [exact H8 | exact H11].
Defined.

(** C6, as the code has it. A press of the left button while no session is
    active leaves the tool exactly as it was when there is no current object
    group, when the current object group is not visible, and when the tool is
    in tile mode with no tile selected. Whether the group is editable is not
    looked at: on a visible group, editable or not, the press starts a session
    as soon as the factory makes an object (in tile mode, with a tile
    selected). *)
Theorem press_without_target_ignored (geo : Geometry)
    (createNewMapObject : t → option MapObject) (e : MouseEvent) (s : t) :
  mNewMapObjectItem s = None →
  button e = LeftButton →
  (currentObjectGroup s = None → mousePressed geo createNewMapObject e s = Some s) ∧
  (∀ g grp, currentObjectGroup s = Some g → groups s !! g = Some grp →
            isVisible grp = false →
            mousePressed geo createNewMapObject e s = Some s) ∧
  (∀ g grp, currentObjectGroup s = Some g → groups s !! g = Some grp →
            mMode s = CreateTile → mTile s = None →
            mousePressed geo createNewMapObject e s = Some s) ∧
  (∀ g grp made, currentObjectGroup s = Some g → groups s !! g = Some grp →
                 isVisible grp = true →
                 mMode s = CreateGeometry ∨ mTile s ≠ None →
                 createNewMapObject s = Some made →
                 ∃ s', mousePressed geo createNewMapObject e s = Some s' ∧
                       mNewMapObjectItem s' = Some (S (nextAddress s)) ∧
                       groups s' !! g
                       = Some (setObjects (objects grp ++ [nextAddress s]) grp)).
Proof.
  intros Hidle Hleft. unfold mousePressed. rewrite Hidle, Hleft.
  split; [by intros -> |]. split; [| split].
  - intros g grp -> Hgrp Hvis. rewrite Hgrp. simpl. by rewrite Hvis.
  - intros g grp -> Hgrp Hmode Htile. rewrite Hgrp. simpl.
    rewrite Hmode, Htile. by destruct (isVisible grp).
  - intros g grp made -> Hgrp Hvis Hmode Hmade. rewrite Hgrp. simpl. rewrite Hvis.
    simpl.
    assert (∀ pos, ∃ s', startNewMapObject createNewMapObject pos g s = Some s' ∧
                         mNewMapObjectItem s' = Some (S (nextAddress s)) ∧
                         groups s' !! g
                         = Some (setObjects (objects grp ++ [nextAddress s]) grp))
      as Hstart.
    { intros pos. exists (started pos g grp s).
      split; [by eapply startNewMapObject_started |]. simpl.
      split; [done | by rewrite lookup_insert_eq]. }
    destruct (mMode s); [| apply Hstart].
    destruct (mTile s); [apply Hstart |]. by destruct Hmode.
Qed.

Lemma press_without_target_ignored_witness :
  mousePressed unitTiles makeShape press idleHidden = Some idleHidden ∧
  mousePressed unitTiles makeTile press
    (create CreateTile (heap idle) (groups idle) (Some 10%nat) noSnap 20%nat)
  = Some (create CreateTile (heap idle) (groups idle) (Some 10%nat) noSnap 20%nat).
Proof.
  split.
  - exact (proj1 (proj2 (press_without_target_ignored unitTiles makeShape press
                           idleHidden eq_refl eq_refl))
             10%nat hiddenLayer eq_refl eq_refl eq_refl).
  - exact (proj1 (proj2 (proj2 (press_without_target_ignored unitTiles makeTile press
                                  (create CreateTile (heap idle) (groups idle)
                                     (Some 10%nat) noSnap 20%nat)
                                  eq_refl eq_refl)))
             10%nat layer eq_refl eq_refl eq_refl eq_refl).
Defined.

(** C6 as the design document has it fails: on the layer that is visible
    but not editable the press is not ignored; it puts a new object into the
    layer and starts a session. *)
Lemma press_on_locked_layer_counterexample :
  ∃ s',
    mNewMapObjectItem idleLocked = None ∧
    currentObjectGroup idleLocked = Some 10%nat ∧
    groups idleLocked !! 10%nat = Some lockedLayer ∧
    isEditable lockedLayer = false ∧
    mousePressed unitTiles makeShape press idleLocked = Some s' ∧
    s' ≠ idleLocked ∧
    mNewMapObjectItem s' = Some 21%nat ∧
    (objects <$> groups s' !! 10%nat) = Some [11%nat; 12%nat; 20%nat].
Proof.
  exists (started (0, 0) 10%nat lockedLayer idleLocked).
  split; [reflexivity |]. split; [reflexivity |]. split; [reflexivity |].
  split; [reflexivity |].
  split; [exact (startNewMapObject_started makeShape (0, 0) 10%nat lockedLayer
                   {| position := (0, 0); objectGroup := None |} idleLocked
                   eq_refl eq_refl eq_refl) |].
  split; [| split; [reflexivity | vm_compute; reflexivity]].
  intros Heq. apply (f_equal mNewMapObjectItem) in Heq. discriminate Heq.
Qed.
End SessionProperties.

(** * The manager stays well-formed *)

Module WellFormedFacts.
Import DocumentManager Registry DocumentManagerMore WellFormed QListFacts RegistryFacts.

(** ** Moving an item of a list *)

Lemma move_Some {A} (l l' : list A) from to :
  QList.move from to l = Some l' →
  0 ≤ from < Z.of_nat (length l) ∧ 0 ≤ to < Z.of_nat (length l) ∧
  ∃ x, l !! Z.to_nat from = Some x ∧
       l' = take (Z.to_nat to) (delete (Z.to_nat from) l)
            ++ x :: drop (Z.to_nat to) (delete (Z.to_nat from) l).
Proof.
  unfold QList.move, QList.insertAt. intros H.
  destruct (QList.validIndex l from) eqn:Hf; [| done].
  destruct (QList.validIndex l to) eqn:Ht; [| done]. simpl in H.
  apply validIndex_true in Hf, Ht.
  destruct (l !! Z.to_nat from) as [x |]; [| done]. simpl in H. injection H as <-.
  eauto.
Qed.

Lemma move_length {A} (l l' : list A) from to :
  QList.move from to l = Some l' → length l' = length l.
Proof.
  intros H. apply move_Some in H as (Hf & Ht & x & Hx & ->).
  rewrite length_app. simpl. rewrite length_take, length_drop.
  rewrite length_delete by (by eexists). lia.
Qed.

Lemma move_Permutation {A} (l l' : list A) from to :
  QList.move from to l = Some l' → l' ≡ₚ l.
Proof.
  intros H. apply move_Some in H as (Hf & Ht & x & Hx & ->).
  rewrite <- Permutation_middle, take_drop.
  by rewrite <- delete_Permutation.
Qed.

Lemma move_fmap {A B} (f : A → B) (l : list A) from to :
  QList.move from to (f <$> l) = fmap (M := list) f <$> QList.move from to l.
Proof.
  unfold QList.move, QList.validIndex, QList.insertAt. rewrite length_fmap.
  destruct (bool_decide _ && bool_decide _); [| done].
  rewrite list_lookup_fmap. destruct (l !! Z.to_nat from) as [x |]; [| done].
  simpl. f_equal. rewrite fmap_app. simpl.
  by rewrite fmap_take, fmap_drop, !list_fmap_delete.
Qed.

(** The item at [index] is at [calculateNewPosition from to index] after
    the move. *)
Lemma move_lookup {A} (l l' : list A) from to (index : nat) :
  QList.move from to l = Some l' → (index < length l)%nat →
  l' !! Z.to_nat (TabWidget.calculateNewPosition from to (Z.of_nat index))
  = l !! index.
Proof.
  intros H Hi. apply move_Some in H as (Hf & Ht & x & Hx & ->).
  assert (Hdl : length (delete (Z.to_nat from) l) = (length l - 1)%nat)
    by (rewrite length_delete; [lia | by eexists]).
  unfold TabWidget.calculateNewPosition.
  set (d := delete (Z.to_nat from) l) in *.
  assert (Hlow : ∀ k : nat, (k < Z.to_nat to)%nat →
            (take (Z.to_nat to) d ++ x :: drop (Z.to_nat to) d) !! k = d !! k).
  { intros k Hk. rewrite lookup_app_l by (rewrite length_take; lia).
    by rewrite lookup_take_lt. }
  assert (Hhigh : ∀ k : nat, (Z.to_nat to < k)%nat →
            (take (Z.to_nat to) d ++ x :: drop (Z.to_nat to) d) !! k
            = d !! (k - 1)%nat).
  { intros k Hk. rewrite lookup_app_r by (rewrite length_take; lia).
    rewrite length_take. replace (k - Z.to_nat to `min` length d)%nat
      with (S (k - 1 - Z.to_nat to)) by lia.
    simpl. rewrite lookup_drop. f_equal. lia. }
  assert (Hat : (take (Z.to_nat to) d ++ x :: drop (Z.to_nat to) d) !! Z.to_nat to
                = Some x).
  { rewrite lookup_app_r by (rewrite length_take; lia).
    rewrite length_take. replace (Z.to_nat to - Z.to_nat to `min` length d)%nat
      with 0%nat by lia. done. }
  assert (Hbelow : ∀ k : nat, (k < Z.to_nat from)%nat → d !! k = l !! k)
    by (intros k Hk; by apply list_lookup_delete_lt).
  assert (Habove : ∀ k : nat, (Z.to_nat from ≤ k)%nat → d !! k = l !! S k)
    by (intros k Hk; by apply list_lookup_delete_ge).
  repeat case_bool_decide.
  - replace index with (Z.to_nat from) by lia. by rewrite Hat.
  - (* from < index ≤ to *)
    rewrite Hlow by lia. rewrite Habove by lia. f_equal. lia.
  - (* to ≤ index < from *)
    rewrite Hhigh by lia. rewrite Hbelow by lia. f_equal. lia.
  - destruct (decide (Z.of_nat index < from)).
    + rewrite Hlow by lia. rewrite Hbelow by lia. f_equal. lia.
    + rewrite Hhigh by lia. rewrite Habove by lia. f_equal. lia.
Qed.

Lemma calculateNewPosition_range from to index (n : nat) :
  0 ≤ from < Z.of_nat n → 0 ≤ to < Z.of_nat n → 0 ≤ index < Z.of_nat n →
  0 ≤ TabWidget.calculateNewPosition from to index < Z.of_nat n.
Proof.
  intros Hf Ht Hi. unfold TabWidget.calculateNewPosition.
  repeat case_bool_decide; lia.
Qed.

(** ** The invariants *)

Lemma aligned_lookup m (i : nat) :
  aligned m →
  sceneDocument <$> TabWidget.pages (mTabWidget m) !! i = docId <$> mDocuments m !! i.
Proof. intros Ha. by rewrite <- !list_lookup_fmap, Ha. Qed.

Lemma aligned_length m :
  aligned m → length (TabWidget.pages (mTabWidget m)) = length (mDocuments m).
Proof.
  intros Ha. apply (f_equal length) in Ha. by rewrite !length_fmap in Ha.
Qed.

Lemma wellFormed_consistent m : wellFormed m → consistent m.
Proof.
  intros (Ha & Ht & _). split; [by apply aligned_length |].
  rewrite <- (aligned_length m Ha). destruct Ht as [[_ ?] | ?]; [by left | by right].
Qed.

Lemma at_lookup {A} (l : list A) i :
  QList.at_ l i = if bool_decide (0 ≤ i) then l !! Z.to_nat i else None.
Proof.
  unfold QList.at_, QList.validIndex.
  repeat case_bool_decide; try done; try lia.
  symmetry. apply lookup_ge_None. lia.
Qed.

Lemma currentMapScene_currentId m : aligned m → currentMapScene m = currentId m.
Proof.
  intros Ha. unfold currentMapScene, currentId, TabWidget.currentWidget,
    TabWidget.widget, currentIndex.
  rewrite at_lookup. case_bool_decide; [| done]. by apply aligned_lookup.
Qed.

Lemma currentDocument_Some m :
  currentIndex m = -1 ∨ 0 ≤ currentIndex m < Z.of_nat (length (mDocuments m)) →
  ∃ cur, currentDocument m = Some cur ∧ docId <$> cur = currentId m.
Proof.
  intros Hcur. unfold currentDocument, currentId. destruct Hcur as [Hcur | Hcur].
  - exists None. rewrite Hcur. by rewrite bool_decide_eq_true_2.
  - destruct (at_valid (mDocuments m) _ Hcur) as [d Hd]. exists (Some d).
    rewrite bool_decide_eq_false_2 by lia. rewrite Hd. split; [done |].
    rewrite bool_decide_eq_true_2 by lia.
    apply at_Some in Hd as [_ ->]. done.
Qed.

(** What the slot [currentIndexChanged] does. *)
Lemma currentIndexChanged_spec m m' :
  currentIndexChanged m = Some m' →
  mDocuments m' = mDocuments m ∧ mTabWidget m' = mTabWidget m ∧
  UndoGroup.stacks (mUndoGroup m') = UndoGroup.stacks (mUndoGroup m) ∧
  mSelectedTool m' = mSelectedTool m ∧
  mFileSystemWatcher m' = mFileSystemWatcher m ∧
  mSceneWithTool m' = currentMapScene m ∧
  ∃ cur, currentDocument m = Some cur ∧
    UndoGroup.activeStack (mUndoGroup m') =
      match cur with
      | Some d => Some (docId d)
      | None => UndoGroup.activeStack (mUndoGroup m)
      end ∧
    emitted m' = emitted m ++ [currentDocumentChanged (docId <$> cur)].
Proof.
  unfold currentIndexChanged. intros H.
  assert (∀ s : option DocId,
            currentDocument (match s with
                             | Some _ => setSceneWithTool None m
                             | None => m
                             end) = currentDocument m) as Hcd by (by intros [|]).
  rewrite Hcd in H.
  destruct (currentDocument m) as [cur |] eqn:Hcur; [| done]. simpl in H.
  injection H as <-. unfold currentMapScene.
  destruct m as [docs w ug st swt fw em]. simpl in *.
  destruct (TabWidget.currentWidget w) as [c |] eqn:Hw, swt as [sc |], cur as [d |];
    simpl; rewrite ?Hw; simpl; repeat (split; [done |]); eauto.
Qed.

Lemma afterTabs_spec (r : TabWidget.t * bool) m m' :
  afterTabs r m = Some m' →
  mDocuments m' = mDocuments m ∧ mTabWidget m' = r.1 ∧
  UndoGroup.stacks (mUndoGroup m') = UndoGroup.stacks (mUndoGroup m) ∧
  mFileSystemWatcher m' = mFileSystemWatcher m ∧
  (r.2 = false →
   mUndoGroup m' = mUndoGroup m ∧ mSceneWithTool m' = mSceneWithTool m ∧
   emitted m' = emitted m) ∧
  (r.2 = true →
   mSceneWithTool m' = currentMapScene m' ∧
   ∃ cur, currentDocument m' = Some cur ∧
     UndoGroup.activeStack (mUndoGroup m') =
       match cur with
       | Some d => Some (docId d)
       | None => UndoGroup.activeStack (mUndoGroup m)
       end ∧
     emitted m' = emitted m ++ [currentDocumentChanged (docId <$> cur)]).
Proof.
  unfold afterTabs. destruct r as [w [|]]; simpl; intros H.
  - apply currentIndexChanged_spec in H
      as (Hd & Ht & Hs & _ & Hw & Hsc & cur & Hcur & Hact & Hem).
    simpl in *. do 4 (split; [done |]). split; [done |]. intros _.
    split.
    + rewrite Hsc. unfold currentMapScene. simpl. by rewrite Ht.
    + exists cur. split; [| done].
      rewrite <- Hcur. unfold currentDocument, currentIndex. simpl.
      by rewrite Ht, Hd.
  - injection H as <-. simpl. do 4 (split; [done |]). split; done.
Qed.

Lemma afterTabs_wellFormed (r : TabWidget.t * bool) m m' :
  afterTabs r m = Some m' →
  aligned (setTabWidget r.1 m) → tabsOk (setTabWidget r.1 m) → uniqueObjects m →
  (r.2 = false → followsCurrent (setTabWidget r.1 m)) →
  aligned m' ∧ tabsOk m' ∧ uniqueObjects m' ∧ mSceneWithTool m' = currentId m' ∧
  (UndoGroup.activeStack (mUndoGroup m') = currentId m' ∨
   (TabWidget.pages r.1 = [] ∧
    UndoGroup.activeStack (mUndoGroup m') = UndoGroup.activeStack (mUndoGroup m))).
Proof.
  intros H Ha Ht Hu Hf.
  apply afterTabs_spec in H as (Hd & Htw & _ & _ & Hsame & Hchanged).
  assert (Ha' : aligned m').
  { unfold aligned in *. simpl in Ha. by rewrite Htw, Hd. }
  assert (Ht' : tabsOk m').
  { unfold tabsOk, currentIndex in *. simpl in Ht. by rewrite Htw. }
  assert (Hid : currentId m' = currentId (setTabWidget r.1 m)).
  { unfold currentId, currentIndex. simpl. by rewrite Htw, Hd. }
  split; [done |]. split; [done |].
  split; [unfold uniqueObjects in *; by rewrite Hd |].
  destruct r as [w [|]]; simpl in *.
  - destruct Hchanged as (Hsc & cur & Hcur & Hact & _); [done |].
    split; [rewrite Hsc; by apply currentMapScene_currentId |].
    assert (Hrange : currentIndex m' = -1 ∨
                     0 ≤ currentIndex m' < Z.of_nat (length (mDocuments m'))).
    { rewrite <- (aligned_length m' Ha').
      destruct Ht' as [[_ ?] | ?]; [by left | by right]. }
    destruct (currentDocument_Some m' Hrange) as (cur' & Hcur' & Hids).
    rewrite Hcur in Hcur'. injection Hcur' as <-.
    destruct cur as [d |].
    + left. by rewrite Hact, <- Hids.
    + right. split; [| done].
      destruct Ht' as [[Hnil _] | Hvalid]; [by rewrite Htw in Hnil |].
      exfalso. rewrite (aligned_length m' Ha') in Hvalid.
      unfold currentId in Hids. rewrite bool_decide_eq_true_2 in Hids by lia.
      destruct (lookup_lt_is_Some_2 (mDocuments m') (Z.to_nat (currentIndex m')))
        as [d Hd']; [lia |].
      by rewrite Hd' in Hids.
  - destruct Hsame as (Hug & Hsc & _); [done |].
    destruct Hf as [Hf1 Hf2]; [done |]. simpl in *.
    split; [by rewrite Hsc, Hid |]. left. by rewrite Hug, Hid.
Qed.

Lemma wellFormed_intro m :
  aligned m → tabsOk m → uniqueObjects m → mSceneWithTool m = currentId m →
  UndoGroup.activeStack (mUndoGroup m) = currentId m → wellFormed m.
Proof. intros. by repeat split. Qed.

(** [switchToDocument] *)
Lemma switchToDocument_wellFormed index m m' :
  wellFormed m → switchToDocument index m = Some m' →
  wellFormed m' ∧ mDocuments m' = mDocuments m ∧
  TabWidget.pages (mTabWidget m') = TabWidget.pages (mTabWidget m).
Proof.
  intros (Ha & Ht & Hu & Hf1 & Hf2) H. unfold switchToDocument in H.
  pose proof H as Hspec. apply afterTabs_spec in Hspec as (Hd & Htw & _).
  assert (Hpages : TabWidget.pages (TabWidget.setCurrentIndex index (mTabWidget m)).1
                   = TabWidget.pages (mTabWidget m)).
  { unfold TabWidget.setCurrentIndex. by destruct (_ && _). }
  split; [| split; [done | by rewrite Htw]].
  apply afterTabs_wellFormed in H as (Ha' & Ht' & Hu' & Hsc & [Hact | [Hnil Hact]]).
  - by apply wellFormed_intro.
  - apply wellFormed_intro; try done. rewrite Hact, Hf1.
    rewrite Hpages in Hnil. unfold currentId.
    destruct Ht as [[_ Hc] | Hc]; [| rewrite Hnil in Hc; simpl in Hc; lia].
    destruct Ht' as [[_ Hc'] | Hc'];
      [| rewrite Htw, Hpages, Hnil in Hc'; simpl in Hc'; lia].
    rewrite Hc, Hc'. done.
  - unfold aligned in *. simpl. by rewrite Hpages.
  - unfold tabsOk, currentIndex in *. simpl. rewrite Hpages.
    unfold TabWidget.setCurrentIndex, TabWidget.validIndex.
    destruct (QList.validIndex _ index) eqn:Hv; simpl; [| done].
    apply validIndex_true in Hv. case_bool_decide; simpl; [done | by right].
  - done.
  - intros Hno. unfold TabWidget.setCurrentIndex in *.
    destruct (_ && _); [done |]. simpl.
    split; simpl; [by destruct m | by destruct m].
Qed.

(** Changing pages without changing whose pages they are, and documents
    without changing their addresses. *)
Lemma pages_wellFormed ps m :
  wellFormed m →
  sceneDocument <$> ps = sceneDocument <$> TabWidget.pages (mTabWidget m) →
  wellFormed (setTabWidget (TabWidget.setPages ps (mTabWidget m)) m).
Proof.
  intros (Ha & Ht & Hu & Hf) Hps.
  assert (Hlen : length ps = length (TabWidget.pages (mTabWidget m)))
    by (apply (f_equal length) in Hps; by rewrite !length_fmap in Hps).
  split; [unfold aligned in *; simpl; by rewrite Hps |].
  split; [| by split].
  unfold tabsOk, currentIndex in *. simpl. rewrite Hlen.
  destruct Ht as [[Hnil Hc] | Hc]; [left | by right].
  split; [| done]. rewrite Hnil in Hlen. by destruct ps.
Qed.

Lemma documents_wellFormed ds m :
  wellFormed m → docId <$> ds = docId <$> mDocuments m →
  wellFormed (setDocuments ds m).
Proof.
  intros (Ha & Ht & Hu & Hf1 & Hf2) Hds.
  assert (Hid : currentId (setDocuments ds m) = currentId m).
  { unfold currentId, currentIndex. simpl. case_bool_decide; [| done].
    by rewrite <- !list_lookup_fmap, Hds. }
  split; [unfold aligned in *; simpl; by rewrite Hds |].
  split; [done |].
  split; [unfold uniqueObjects in *; simpl; by rewrite Hds |].
  split; simpl; by rewrite Hid.
Qed.

Lemma fmap_alter_same {A B} (f : A → B) (g : A → A) (l : list A) (i : nat) :
  (∀ x, f (g x) = f x) → f <$> alter g i l = f <$> l.
Proof.
  intros Hfg. revert i. induction l as [| x l IH]; intros [| i]; simpl; try done.
  - by rewrite Hfg.
  - f_equal. apply IH.
Qed.

Lemma fmap_insert_same {A B} (f : A → B) (l : list A) (i : nat) x y :
  l !! i = Some x → f y = f x → f <$> <[i := y]> l = f <$> l.
Proof.
  intros Hx Hf. rewrite list_fmap_insert, Hf.
  apply list_insert_id. by rewrite list_lookup_fmap, Hx.
Qed.

Lemma emit_wellFormed sig m : wellFormed m → wellFormed (emit sig m).
Proof. by intros (? & ? & ? & ? & ?). Qed.

Lemma centerViewOn_wellFormed env x y m m' :
  wellFormed m → centerViewOn env x y m = Some m' → wellFormed m'.
Proof.
  intros Hwf H. unfold centerViewOn in H.
  destruct (currentMapView m); [| by injection H as <-].
  destruct (currentDocument m) as [[d |] |]; try done. simpl in H.
  injection H as <-. apply pages_wellFormed; [done |].
  by apply fmap_alter_same.
Qed.

Lemma restoreView_wellFormed s h v m m' :
  wellFormed m → restoreView s h v m = Some m' → wellFormed m'.
Proof.
  intros Hwf H. unfold restoreView in H.
  destruct (currentMapView m); [| done]. injection H as <-.
  apply pages_wellFormed; [done |]. by apply fmap_alter_same.
Qed.

Lemma setLayerIndexOf_wellFormed d i m :
  wellFormed m → wellFormed (setLayerIndexOf d i m).
Proof.
  intros Hwf. unfold setLayerIndexOf. apply documents_wellFormed; [done |].
  rewrite <- list_fmap_compose. apply list_fmap_ext.
  intros j x _. simpl. by case_bool_decide.
Qed.

(** [addDocument] *)
Lemma addDocument_wellFormed env d m m' :
  wellFormed m → addDocument env d m = Some m' → wellFormed m'.
Proof.
  intros Hwf H. pose proof Hwf as (Ha & Ht & Hu & Hf1 & Hf2).
  pose proof (addDocument_Some env d m m' H) as Hfresh.
  unfold addDocument in H. rewrite bool_decide_eq_false_2 in H by done.
  cbv zeta in H.
  match type of H with
  | context [afterTabs (TabWidget.addTab ?c (mTabWidget ?x)) _] =>
      set (c0 := c) in *; set (m1 := x) in *
  end.
  assert (Hd1 : mDocuments m1 = mDocuments m ++ [d])
    by (subst m1; by case_bool_decide).
  assert (Ht1 : mTabWidget m1 = mTabWidget m)
    by (subst m1; by case_bool_decide).
  assert (Hs1 : mSceneWithTool m1 = mSceneWithTool m)
    by (subst m1; by case_bool_decide).
  assert (Hu1 : UndoGroup.activeStack (mUndoGroup m1)
                = UndoGroup.activeStack (mUndoGroup m)).
  { subst m1. unfold UndoGroup.addStack.
    case_bool_decide; simpl; by case_bool_decide. }
  clearbody m1.
  destruct (afterTabs (TabWidget.addTab c0 (mTabWidget m1)) m1) as [m2 |] eqn:H2;
    [| done]. simpl in H.
  destruct (switchToDocument (Z.of_nat (length (mDocuments m1)) - 1) m2)
    as [m3 |] eqn:H3; [| done]. simpl in H.
  apply (centerViewOn_wellFormed env 0 0 m3 m'); [| done].
  refine (proj1 (switchToDocument_wellFormed _ m2 m3 _ H3)).
  destruct (addTab_spec c0 (mTabWidget m1)) as [Hp Hc].
  pose proof (aligned_length m Ha) as Hlen.
  apply afterTabs_wellFormed in H2 as (Ha2 & Ht2 & Hu2 & Hsc2 & [Hact | [Hnil _]]).
  - by apply wellFormed_intro.
  - rewrite Hp in Hnil. by destruct (TabWidget.pages (mTabWidget m1)).
  - unfold aligned in *. simpl. rewrite Hp, Hd1, Ht1, !fmap_app, Ha. done.
  - unfold tabsOk, currentIndex in *. simpl. right. rewrite Hp, length_app. simpl.
    unfold TabWidget.addTab. rewrite Ht1.
    destruct Ht as [[Hnil Hcur] | Hcur].
    + rewrite Hnil. simpl. lia.
    + destruct (TabWidget.pages (mTabWidget m)) eqn:Hpages; simpl in *; lia.
  - unfold uniqueObjects in *. rewrite Hd1, fmap_app. apply NoDup_app.
    split; [done |]. split; [| apply NoDup_singleton].
    intros x Hx Hin. apply list_elem_of_singleton in Hin. by subst x.
  - intros Hno. unfold TabWidget.addTab in *. rewrite Ht1 in *.
    destruct (TabWidget.pages (mTabWidget m)) as [| c l] eqn:Hpages;
      simpl in Hno; [done |].
    destruct Ht as [[? _] | Hcur]; [congruence |]. rewrite Hpages in Hcur.
    simpl in Hlen, Hcur.
    unfold followsCurrent, currentId, currentIndex in *. simpl.
    rewrite Hd1, Hu1, Hs1, Hf1, Hf2.
    case_bool_decide; [| done]. rewrite lookup_app_l by lia. done.
Qed.

Lemma delete_other_id (docs : list MapDocument) (i k : nat) d x :
  NoDup (docId <$> docs) → docs !! i = Some d → delete i docs !! k = Some x →
  docId x ≠ docId d.
Proof.
  intros Hnd Hd Hx Heq. rewrite list_lookup_delete in Hx.
  case_decide.
  - assert (k = i); [| lia].
    eapply (NoDup_lookup _ k i (docId d) Hnd);
      rewrite list_lookup_fmap; [rewrite Hx; simpl; by f_equal | by rewrite Hd].
  - assert (S k = i); [| lia].
    eapply (NoDup_lookup _ (S k) i (docId d) Hnd);
      rewrite list_lookup_fmap; [rewrite Hx; simpl; by f_equal | by rewrite Hd].
Qed.

(** [closeDocumentAt] *)
Lemma closeDocumentAt_wellFormed index m m' :
  wellFormed m → closeDocumentAt index m = Some m' → wellFormed m'.
Proof.
  intros Hwf H. pose proof Hwf as (Ha & Ht & Hu & Hf1 & Hf2).
  pose proof (aligned_length m Ha) as Hlen.
  unfold closeDocumentAt in H.
  destruct (QList.at_ (mDocuments m) index) as [d |] eqn:Hat; [| done]. simpl in H.
  apply at_Some in Hat as [Hi0 Hd]. pose proof (lookup_lt_Some _ _ _ Hd) as Hi.
  assert (Hr : QList.removeAt index (mDocuments m) = delete (Z.to_nat index) (mDocuments m)).
  { rewrite <- (Z2Nat.id index) at 1 by done. apply removeAt_of_nat. }
  rewrite Hr in H.
  assert (Hv : 0 ≤ index < Z.of_nat (length (TabWidget.pages (mTabWidget m)))) by lia.
  destruct (removeTab_spec index (mTabWidget m) Hv) as [Hp Hc].
  assert (Hcur : 0 ≤ currentIndex m < Z.of_nat (length (TabWidget.pages (mTabWidget m)))).
  { destruct Ht as [[Hnil _] | ?]; [| done]. rewrite Hnil in Hv. simpl in Hv. lia. }
  assert (Hdl : length (delete (Z.to_nat index) (TabWidget.pages (mTabWidget m)))
                = (length (mDocuments m) - 1)%nat).
  { rewrite length_delete by (apply lookup_lt_is_Some; lia). lia. }
  match type of H with
  | context [afterTabs ?r ?x] =>
      destruct (afterTabs r x) as [m2 |] eqn:H2; [| done]
  end.
  simpl in H. injection H as <-.
  pose proof H2 as Hspec. apply afterTabs_spec in Hspec as (Hd2 & Ht2 & _).
  simpl in Hd2.
  apply afterTabs_wellFormed in H2 as (Ha2 & Htabs2 & Hu2 & Hsc2 & Hact).
  - (* the document's undo stack goes *)
    assert (Hid : ∀ g w, currentId (setUndoGroup g
                   (if bool_decide (fileName d = "") then m2 else setWatcher w m2))
                 = currentId m2) by (intros; by case_bool_decide).
    apply wellFormed_intro.
    + unfold aligned in *. by case_bool_decide.
    + unfold tabsOk, currentIndex in *. by case_bool_decide.
    + unfold uniqueObjects in *. by case_bool_decide.
    + rewrite Hid. by case_bool_decide.
    + rewrite Hid.
      assert (UndoGroup.activeStack (mUndoGroup
                (if bool_decide (fileName d = "") then m2 else
                   setWatcher (FileSystemWatcher.removePath (fileName d)
                                 (mFileSystemWatcher m2)) m2))
              = UndoGroup.activeStack (mUndoGroup m2)) as Hsame
        by (by case_bool_decide).
      simpl. rewrite Hsame. clear Hsame.
      destruct Hact as [Hact | [Hnil Hact]].
      * rewrite Hact. rewrite bool_decide_eq_false_2; [done |].
        unfold currentId. destruct (bool_decide (0 ≤ currentIndex m2)); [| done].
        rewrite Hd2.
        destruct (delete (Z.to_nat index) (mDocuments m) !! _) as [x |] eqn:Hx;
          [| done].
        simpl. intros [= Heq]. by eapply delete_other_id.
      * (* the last document was closed *)
        rewrite Hp in Hnil. apply (f_equal length) in Hnil. simpl in Hnil.
        assert (Hone : length (mDocuments m) = 1%nat) by lia.
        assert (Hnone : currentId m2 = None).
        { unfold currentId. destruct (bool_decide (0 ≤ currentIndex m2)); [| done].
          rewrite Hd2. rewrite lookup_ge_None_2; [done |].
          rewrite length_delete by (by eexists). lia. }
        rewrite Hnone, Hact. simpl. rewrite Hf1.
        rewrite bool_decide_eq_true_2; [done |].
        unfold currentId. rewrite bool_decide_eq_true_2 by lia.
        replace (Z.to_nat (currentIndex m)) with (Z.to_nat index) by lia.
        by rewrite Hd.
  - unfold aligned in *. simpl. by rewrite Hp, !list_fmap_delete, Ha.
  - unfold tabsOk, currentIndex in *. simpl. rewrite Hc, Hp.
    rewrite length_delete by (apply lookup_lt_is_Some; lia).
    unfold indexAfterRemove.
    destruct (length (TabWidget.pages (mTabWidget m))) as [| n] eqn:Hn; [lia |].
    replace (S n - 1)%nat with n by lia.
    repeat case_bool_decide.
    + destruct n.
      * left. split; [| done].
        apply length_zero_iff_nil. rewrite length_delete; [lia |].
        apply lookup_lt_is_Some. lia.
      * right. lia.
    + right. lia.
    + right. lia.
  - unfold uniqueObjects in *. simpl. eapply sublist_NoDup; [exact Hu |].
    apply fmap_sublist, sublist_delete.
  - intros Hno. unfold TabWidget.removeTab, TabWidget.validIndex in Hno.
    rewrite (proj2 (validIndex_true _ _)) in Hno by done.
    case_bool_decide;
      [destruct (delete (Z.to_nat index) (TabWidget.pages (mTabWidget m)));
       simpl in Hno; done |].
    case_bool_decide; [done |].
    unfold followsCurrent, currentId, currentIndex in *. simpl.
    rewrite Hc. unfold indexAfterRemove.
    rewrite (bool_decide_eq_false_2 (index = _)) by done.
    rewrite (bool_decide_eq_false_2 (index < _)) by done.
    rewrite Hf1, Hf2.
    destruct (bool_decide (0 ≤ TabWidget.currentIndex (mTabWidget m))) eqn:Hb;
      [| done].
    rewrite list_lookup_delete_lt by lia. done.
Qed.

(** [moveTab], with the slot [documentTabMoved]: the document and its page
    move together, and the current document stays the current one. *)
Lemma moveTab_spec from to m m' :
  wellFormed m → moveTab from to m = Some m' →
  (mDocuments m' = mDocuments m ∧ mTabWidget m' = mTabWidget m ∧
   (from = to ∨ QList.move from to (mDocuments m) = None)) ∨
  (QList.move from to (mDocuments m) = Some (mDocuments m') ∧
   QList.move from to (TabWidget.pages (mTabWidget m))
   = Some (TabWidget.pages (mTabWidget m')) ∧
   currentIndex m' = TabWidget.calculateNewPosition from to (currentIndex m)) ∧
  mUndoGroup m' = mUndoGroup m ∧ mSceneWithTool m' = mSceneWithTool m ∧
  emitted m' = emitted m ∧ mFileSystemWatcher m' = mFileSystemWatcher m.
Proof.
  intros Hwf H. pose proof Hwf as (Ha & _).
  pose proof (aligned_length m Ha) as Hlen.
  unfold moveTab, TabWidget.moveTab in H.
  case_bool_decide as Heq; simpl in H.
  { injection H as <-. left. simpl. by destruct m; eauto. }
  destruct (QList.move from to (TabWidget.pages (mTabWidget m))) as [ps |] eqn:Hps;
    simpl in H.
  - unfold documentTabMoved in H. simpl in H.
    destruct (QList.move from to (mDocuments m)) as [ds |] eqn:Hds; [| done].
    simpl in H. injection H as <-. right. simpl. done.
  - injection H as <-. left. simpl. split; [done |]. split; [by destruct m |].
    right. unfold QList.move, QList.validIndex in *. rewrite <- Hlen.
    destruct (bool_decide _ && bool_decide _) eqn:Hb; [| done].
    exfalso. apply andb_true_iff in Hb as [Hb1 Hb2].
    apply bool_decide_eq_true in Hb1.
    destruct (lookup_lt_is_Some_2 (TabWidget.pages (mTabWidget m)) (Z.to_nat from))
      as [x Hx]; [lia |].
    by rewrite Hx in Hps.
Qed.

Lemma moveTab_wellFormed from to m m' :
  wellFormed m → moveTab from to m = Some m' → wellFormed m'.
Proof.
  intros Hwf H. pose proof Hwf as (Ha & Ht & Hu & Hf1 & Hf2).
  pose proof (aligned_length m Ha) as Hlen.
  destruct (moveTab_spec from to m m' Hwf H)
    as [(Hd & Htw & _) | ((Hd & Hp & Hc) & Hug & Hsc & _)].
  - assert (Hid : currentId m' = currentId m)
      by (unfold currentId, currentIndex; by rewrite Hd, Htw).
    unfold moveTab, TabWidget.moveTab in H.
    assert (mUndoGroup m' = mUndoGroup m ∧ mSceneWithTool m' = mSceneWithTool m)
      as [Hug Hsc].
    { case_bool_decide; simpl in H; [by injection H as <- |].
      destruct (QList.move from to (TabWidget.pages (mTabWidget m))); simpl in H.
      - unfold documentTabMoved in H. simpl in H.
        destruct (QList.move from to (mDocuments m)); [| done].
        simpl in H. by injection H as <-.
      - by injection H as <-. }
    apply wellFormed_intro.
    + unfold aligned. by rewrite Htw, Hd.
    + unfold tabsOk, currentIndex. by rewrite Htw.
    + unfold uniqueObjects. by rewrite Hd.
    + by rewrite Hsc, Hid.
    + by rewrite Hug, Hid.
  - pose proof (move_Some _ _ _ _ Hd) as (Hfrom & Hto & _).
    pose proof (move_length _ _ _ _ Hd) as Hdl.
    pose proof (move_length _ _ _ _ Hp) as Hpl.
    assert (Hcur : 0 ≤ currentIndex m < Z.of_nat (length (mDocuments m))).
    { destruct Ht as [[Hnil _] | ?]; [| lia].
      rewrite Hnil in Hlen. simpl in Hlen. lia. }
    assert (Hid : currentId m' = currentId m).
    { unfold currentId. rewrite Hc.
      pose proof (calculateNewPosition_range from to (currentIndex m)
                    (length (mDocuments m)) Hfrom Hto Hcur) as Hrange.
      rewrite !bool_decide_eq_true_2 by lia.
      rewrite <- (Z2Nat.id (currentIndex m)) at 1 by lia.
      rewrite (move_lookup _ _ _ _ _ Hd) by lia. done. }
    apply wellFormed_intro.
    + unfold aligned in *.
      pose proof (move_fmap sceneDocument (TabWidget.pages (mTabWidget m)) from to)
        as Hm1.
      pose proof (move_fmap docId (mDocuments m) from to) as Hm2.
      rewrite Hp in Hm1. rewrite Hd in Hm2. rewrite Ha in Hm1.
      rewrite Hm1 in Hm2. simpl in Hm2. by injection Hm2.
    + unfold tabsOk. right. rewrite Hc, Hpl, Hlen.
      by apply calculateNewPosition_range.
    + unfold uniqueObjects in *.
      apply (NoDup_Permutation_proper _ _
               (fmap_Permutation docId _ _ (move_Permutation _ _ _ _ Hd))).
      done.
    + by rewrite Hsc, Hid.
    + by rewrite Hug, Hid.
Qed.

Lemma reloadDocumentAt_wellFormed env index m r m' :
  wellFormed m → reloadDocumentAt env index m = Some (r, m') → wellFormed m'.
Proof.
  intros Hwf H. unfold reloadDocumentAt in H.
  destruct (QList.at_ (mDocuments m) index) as [oldDocument |]; [| done].
  simpl in H.
  destruct (load env _ _) as [newDocument | error].
  - destruct (viewForDocument (docId oldDocument) m) as [[v |] |]; try done.
    simpl in H.
    destruct (addDocument env newDocument m) as [m1 |] eqn:H1; [| done].
    simpl in H.
    destruct (closeDocumentAt index m1) as [m2 |] eqn:H2; [| done]. simpl in H.
    destruct (moveTab _ index m2) as [m3 |] eqn:H3; [| done]. simpl in H.
    destruct (restoreView _ _ _ m3) as [m4 |] eqn:H4; [| done]. simpl in H.
    injection H as _ <-.
    assert (wellFormed m4) as Hwf4.
    { eapply restoreView_wellFormed; [| exact H4].
      eapply moveTab_wellFormed; [| exact H3].
      eapply closeDocumentAt_wellFormed; [| exact H2].
      eapply addDocument_wellFormed; [exact Hwf | exact H1]. }
    destruct (_ && _); [by apply setLayerIndexOf_wellFormed | done].
  - injection H as _ <-. by apply emit_wellFormed.
Qed.

Lemma warning_wellFormed b (index : nat) c m :
  wellFormed m → TabWidget.pages (mTabWidget m) !! index = Some c →
  wellFormed
    (setTabWidget
       (TabWidget.setPages
          (<[index := setFileChangedWarningVisible b c]>
             (TabWidget.pages (mTabWidget m))) (mTabWidget m)) m).
Proof.
  intros Hwf Hc. apply pages_wellFormed; [done |].
  by eapply fmap_insert_same.
Qed.

Lemma fileChanged_wellFormed env name m m' :
  wellFormed m → fileChanged env name m = Some m' → wellFormed m'.
Proof.
  intros Hwf H. unfold fileChanged in H.
  case_bool_decide; [by injection H as <- |].
  destruct (QList.at_ (mDocuments m) _) as [document |]; [| done]. simpl in H.
  case_bool_decide; [by injection H as <- |].
  destruct (isModified document); simpl in H.
  - destruct (TabWidget.widget _ _) as [c |] eqn:Hc; [| done]. simpl in H.
    injection H as <-. apply warning_wellFormed; [done |].
    by apply at_Some in Hc as [_ ?].
  - destruct (reloadDocumentAt env _ m) as [[r m1] |] eqn:Hr; [| done].
    simpl in H. injection H as <-. by eapply reloadDocumentAt_wellFormed.
Qed.

Lemma documentSaved_wellFormed d m m' :
  wellFormed m → documentSaved d m = Some m' → wellFormed m'.
Proof.
  intros Hwf H. unfold documentSaved in H.
  case_bool_decide; [done |].
  destruct (TabWidget.widget _ _) as [c |] eqn:Hc; [| done]. simpl in H.
  injection H as <-. apply warning_wellFormed; [done |].
  by apply at_Some in Hc as [_ ?].
Qed.

Lemma ignoreWarning_wellFormed index m :
  wellFormed m → wellFormed (ignoreWarning index m).
Proof.
  intros Hwf. unfold ignoreWarning. apply pages_wellFormed; [done |].
  by apply fmap_alter_same.
Qed.

(** Every action keeps the manager well-formed. *)
Lemma act_wellFormed env a m m' :
  wellFormed m → act env a m = Some m' → wellFormed m'.
Proof.
  intros Hwf H. destruct a; simpl in H.
  - by eapply addDocument_wellFormed.
  - by eapply closeDocumentAt_wellFormed.
  - unfold closeCurrentDocument in H.
    case_bool_decide; [by injection H as <- | by eapply closeDocumentAt_wellFormed].
  - by eapply switchToDocument_wellFormed.
  - unfold switchToDocumentPtr in H.
    case_bool_decide; [by injection H as <- | by eapply switchToDocument_wellFormed].
  - unfold switchToLeftDocument in H.
    case_bool_decide; [by injection H as <- | by eapply switchToDocument_wellFormed].
  - unfold switchToRightDocument in H.
    case_bool_decide; [by injection H as <- | by eapply switchToDocument_wellFormed].
  - by eapply moveTab_wellFormed.
  - destruct (reloadDocumentAt env index m) as [[r m1] |] eqn:Hr; [| done].
    simpl in H. injection H as <-. by eapply reloadDocumentAt_wellFormed.
  - unfold reloadCurrentDocument in H.
    case_bool_decide; [simpl in H; by injection H as <- |].
    destruct (reloadDocumentAt env _ m) as [[r m1] |] eqn:Hr; [| done].
    simpl in H. injection H as <-. by eapply reloadDocumentAt_wellFormed.
  - by eapply fileChanged_wellFormed.
  - by eapply documentSaved_wellFormed.
  - injection H as <-. by apply ignoreWarning_wellFormed.
Qed.

Lemma acts_wellFormed l m m' :
  wellFormed m → acts l m = Some m' → wellFormed m'.
Proof.
  revert m. induction l as [| [env a] l IH]; intros m Hwf H; simpl in H.
  - by injection H as <-.
  - destruct (act env a m) as [m1 |] eqn:Ha; [| done]. simpl in H.
    eapply IH; [| exact H]. by eapply act_wellFormed.
Qed.

Lemma init_wellFormed : wellFormed init.
Proof.
  split; [done |]. split; [by left |]. split; [apply NoDup_nil_2 | done].
Qed.

(** ** Switching *)

Lemma setTabWidget_same m : setTabWidget (mTabWidget m) m = m.
Proof. by destruct m. Qed.

Lemma switchToDocument_noop index m :
  index = currentIndex m ∨
  ¬ 0 ≤ index < Z.of_nat (length (TabWidget.pages (mTabWidget m))) →
  switchToDocument index m = Some m.
Proof.
  intros Hi. unfold switchToDocument, afterTabs.
  assert (TabWidget.setCurrentIndex index (mTabWidget m) = (mTabWidget m, false)) as ->.
  { destruct Hi as [-> | Hi]; [| by apply setCurrentIndex_invalid].
    unfold TabWidget.setCurrentIndex, currentIndex.
    rewrite (bool_decide_eq_true_2 (_ = _)) by done. by rewrite andb_false_r. }
  simpl. by rewrite setTabWidget_same.
Qed.

Lemma switchToDocument_valid index m :
  wellFormed m →
  0 ≤ index < Z.of_nat (length (TabWidget.pages (mTabWidget m))) →
  ∃ m', switchToDocument index m = Some m' ∧ wellFormed m' ∧
        currentIndex m' = index ∧ mDocuments m' = mDocuments m ∧
        TabWidget.pages (mTabWidget m') = TabWidget.pages (mTabWidget m) ∧
        (index ≠ currentIndex m →
         emitted m' = emitted m ++ [currentDocumentChanged (currentId m')]).
Proof.
  intros Hwf Hi. pose proof Hwf as (Ha & _).
  pose proof (aligned_length m Ha) as Hlen.
  destruct (setCurrentIndex_spec index (mTabWidget m) Hi) as [Hp Hc].
  destruct (afterTabs_ok (TabWidget.setCurrentIndex index (mTabWidget m)) m)
    as (m' & Hm' & Hd & Ht & _).
  { intros _. right. rewrite Hc. lia. }
  exists m'. split; [done |].
  destruct (switchToDocument_wellFormed index m m' Hwf Hm') as (Hwf' & _ & Hp').
  split; [done |]. split; [unfold currentIndex; by rewrite Ht |].
  split; [done |]. split; [done |].
  intros Hne. apply afterTabs_spec in Hm' as (_ & _ & _ & _ & _ & Hch).
  destruct Hch as (_ & cur & Hcur & _ & Hem).
  { unfold TabWidget.setCurrentIndex, TabWidget.validIndex.
    rewrite (proj2 (validIndex_true _ _)) by done.
    by rewrite (bool_decide_eq_false_2 (_ = _)). }
  rewrite Hem. do 3 f_equal.
  assert (Hrange : currentIndex m' = -1 ∨
            0 ≤ currentIndex m' < Z.of_nat (length (mDocuments m')))
    by (right; unfold currentIndex; rewrite Ht, Hc, Hd; lia).
  destruct (currentDocument_Some m' Hrange) as (cur' & Hcur' & Hids).
  congruence.
Qed.

Lemma addDocument_effect_aux env d m :
  wellFormed m → docId d ∉ (docId <$> mDocuments m) →
  ∃ m', addDocument env d m = Some m' ∧ wellFormed m' ∧
    mDocuments m' = mDocuments m ++ [d] ∧
    TabWidget.pages (mTabWidget m') =
      TabWidget.pages (mTabWidget m) ++ [openedPage env d] ∧
    currentIndex m' = Z.of_nat (length (mDocuments m)) ∧
    currentId m' = Some (docId d).
Proof.
  intros Hwf Hfresh.
  destruct (addDocument_ok env d m Hfresh (wellFormed_consistent m Hwf))
    as (m' & Hm' & Hd & Hp & Hc & _).
  exists m'. split; [done |]. split; [by eapply addDocument_wellFormed |].
  split; [done |]. split; [done |]. split; [done |].
  unfold currentId. rewrite Hc, Hd, Nat2Z.id, list_lookup_middle by done.
  by rewrite bool_decide_eq_true_2 by lia.
Qed.

Lemma centerViewOn_emitted env x y m m' :
  centerViewOn env x y m = Some m' → emitted m' = emitted m.
Proof.
  unfold centerViewOn. intros H.
  destruct (currentMapView m); [| by injection H as <-].
  destruct (currentDocument m) as [[d |] |]; try done. simpl in H.
  by injection H as <-.
Qed.

Lemma addDocument_emitted env d m m' :
  wellFormed m → addDocument env d m = Some m' →
  emitted m' = emitted m ++ [currentDocumentChanged (Some (docId d))].
Proof.
  intros Hwf H. pose proof Hwf as (Ha & Ht & _).
  pose proof (aligned_length m Ha) as Hlen.
  pose proof (addDocument_Some env d m m' H) as Hfresh.
  unfold addDocument in H. rewrite bool_decide_eq_false_2 in H by done.
  cbv zeta in H.
  match type of H with
  | context [afterTabs (TabWidget.addTab ?c (mTabWidget ?x)) _] =>
      set (c0 := c) in *; set (m1 := x) in *
  end.
  assert (Hd1 : mDocuments m1 = mDocuments m ++ [d])
    by (subst m1; by case_bool_decide).
  assert (Ht1 : mTabWidget m1 = mTabWidget m)
    by (subst m1; by case_bool_decide).
  assert (He1 : emitted m1 = emitted m)
    by (subst m1; by case_bool_decide).
  clearbody m1.
  destruct (afterTabs (TabWidget.addTab c0 (mTabWidget m1)) m1) as [m2 |] eqn:H2;
    [| done]. simpl in H.
  destruct (switchToDocument (Z.of_nat (length (mDocuments m1)) - 1) m2)
    as [m3 |] eqn:H3; [| done]. simpl in H.
  rewrite (centerViewOn_emitted env 0 0 m3 m' H).
  apply afterTabs_spec in H2 as (Hd2 & Ht2 & _ & _ & Hsame & Hch).
  rewrite Hd1, length_app in H3. simpl in H3.
  destruct (TabWidget.pages (mTabWidget m)) as [| c l] eqn:Hpages.
  - assert (Hadd : TabWidget.addTab c0 (mTabWidget m1)
                   = ({| TabWidget.pages := [c0]; TabWidget.currentIndex := 0 |}, true))
      by (unfold TabWidget.addTab; by rewrite Ht1, Hpages).
    rewrite Hadd in Ht2, Hch. simpl in Ht2, Hch.
    simpl in Hlen. symmetry in Hlen. apply length_zero_iff_nil in Hlen.
    destruct (Hch eq_refl) as (_ & cur & Hcur & _ & Hem).
    unfold currentDocument, currentIndex in Hcur. rewrite Ht2 in Hcur. simpl in Hcur.
    rewrite Hd2, Hd1, Hlen in Hcur. simpl in Hcur.
    rewrite Hlen in H3. simpl in H3.
    rewrite switchToDocument_noop in H3
      by (left; unfold currentIndex; by rewrite Ht2).
    injection H3 as <-. injection Hcur as <-. by rewrite Hem, He1.
  - assert (Hcur : 0 ≤ currentIndex m < Z.of_nat (length (mDocuments m))).
    { destruct Ht as [[Hnil _] | Hr]; [by rewrite Hpages in Hnil |].
      rewrite Hpages in Hr. lia. }
    assert (Hadd : TabWidget.addTab c0 (mTabWidget m1)
                   = ({| TabWidget.pages := TabWidget.pages (mTabWidget m) ++ [c0];
                         TabWidget.currentIndex := currentIndex m |}, false))
      by (unfold TabWidget.addTab; by rewrite Ht1, Hpages).
    rewrite Hadd in Ht2, Hsame. simpl in Ht2, Hsame.
    destruct (Hsame eq_refl) as (_ & _ & He2).
    unfold switchToDocument in H3.
    assert (Hset : TabWidget.setCurrentIndex
                     (Z.of_nat (length (mDocuments m) + 1) - 1) (mTabWidget m2)
                   = ({| TabWidget.pages := TabWidget.pages (mTabWidget m) ++ [c0];
                         TabWidget.currentIndex
                         := Z.of_nat (length (mDocuments m) + 1) - 1 |}, true)).
    { unfold TabWidget.setCurrentIndex, TabWidget.validIndex. rewrite Ht2. simpl.
      rewrite (proj2 (validIndex_true _ _))
        by (rewrite length_app, Hpages; simpl; simpl in Hlen; lia).
      by rewrite (bool_decide_eq_false_2 (_ = _)) by lia. }
    rewrite Hset in H3.
    apply afterTabs_spec in H3 as (Hd3 & Ht3 & _ & _ & _ & Hch3). simpl in Ht3, Hch3.
    destruct (Hch3 eq_refl) as (_ & cur & Hcur3 & _ & Hem).
    unfold currentDocument, currentIndex in Hcur3. rewrite Ht3 in Hcur3.
    simpl in Hcur3. rewrite bool_decide_eq_false_2 in Hcur3 by lia.
    replace (Z.of_nat (length (mDocuments m) + 1) - 1)
      with (Z.of_nat (length (mDocuments m))) in Hcur3 by lia.
    rewrite at_of_nat, Hd3, Hd2, Hd1, list_lookup_middle in Hcur3 by done.
    simpl in Hcur3. injection Hcur3 as <-. by rewrite Hem, He2, He1.
Qed.

(** ** Closing *)

Lemma closeDocumentAt_emitted index m m' d :
  QList.at_ (mDocuments m) index = Some d → closeDocumentAt index m = Some m' →
  ∃ l, emitted m' = emitted m ++ documentAboutToClose (docId d) :: l.
Proof.
  intros Hat H. unfold closeDocumentAt in H. rewrite Hat in H. simpl in H.
  match type of H with
  | context [afterTabs ?r ?x] =>
      destruct (afterTabs r x) as [m2 |] eqn:H2; [| done]
  end.
  simpl in H. injection H as <-.
  apply afterTabs_spec in H2 as (_ & _ & _ & _ & Hsame & Hch).
  assert (emitted (setUndoGroup (UndoGroup.stackDestroyed (docId d)
             (mUndoGroup (if bool_decide (fileName d = "") then m2 else
                setWatcher (FileSystemWatcher.removePath (fileName d)
                              (mFileSystemWatcher m2)) m2)))
             (if bool_decide (fileName d = "") then m2 else
                setWatcher (FileSystemWatcher.removePath (fileName d)
                              (mFileSystemWatcher m2)) m2))
          = emitted m2) as -> by (by case_bool_decide).
  match type of Hsame with
  | ?b = false → _ => destruct b
  end.
  - destruct Hch as (_ & cur & _ & _ & ->); [done |]. simpl.
    rewrite <- app_assoc. simpl. eauto.
  - destruct Hsame as (_ & _ & ->); [done |]. simpl. eauto.
Qed.

Lemma closeDocumentAt_current_aux index m d :
  wellFormed m → QList.at_ (mDocuments m) index = Some d →
  ∃ m', closeDocumentAt index m = Some m' ∧ wellFormed m' ∧
    mDocuments m' = delete (Z.to_nat index) (mDocuments m) ∧
    (index ≠ currentIndex m → currentId m' = currentId m) ∧
    (index = currentIndex m →
     currentId m' =
       match mDocuments m !! S (Z.to_nat index) with
       | Some x => Some (docId x)
       | None => match Z.to_nat index with
                 | O => None
                 | S j => docId <$> mDocuments m !! j
                 end
       end).
Proof.
  intros Hwf Hat. pose proof Hwf as (Ha & Ht & _).
  pose proof (aligned_length m Ha) as Hlen.
  destruct (closeDocumentAt_ok index m d (wellFormed_consistent m Hwf) Hat)
    as (m' & Hm' & Hd & _ & Hc & _).
  exists m'. split; [done |]. split; [by eapply closeDocumentAt_wellFormed |].
  split; [done |].
  apply at_Some in Hat as [Hi0 Hdoc]. pose proof (lookup_lt_Some _ _ _ Hdoc) as Hi.
  assert (Hcur : 0 ≤ currentIndex m < Z.of_nat (length (mDocuments m))).
  { destruct Ht as [[Hnil _] | ?]; [| lia].
    rewrite Hnil in Hlen. simpl in Hlen. lia. }
  unfold currentId. rewrite Hc, Hd. unfold indexAfterRemove. split.
  - intros Hne. rewrite (bool_decide_eq_false_2 (index = _)) by done.
    rewrite (bool_decide_eq_true_2 (0 ≤ currentIndex m)) by lia.
    destruct (decide (index < currentIndex m)) as [Hlt | Hge].
    + rewrite (bool_decide_eq_true_2 (index < currentIndex m)) by done.
      rewrite bool_decide_eq_true_2 by lia.
      rewrite list_lookup_delete_ge by lia. do 2 f_equal. lia.
    + rewrite (bool_decide_eq_false_2 (index < currentIndex m)) by done.
      rewrite bool_decide_eq_true_2 by lia.
      by rewrite list_lookup_delete_lt by lia.
  - intros Heq. rewrite (bool_decide_eq_true_2 (index = _)) by done.
    destruct (length (mDocuments m) - 1)%nat as [| k] eqn:Hk.
    + rewrite bool_decide_eq_false_2 by lia.
      rewrite lookup_ge_None_2 by lia.
      replace (Z.to_nat index) with 0%nat by lia. done.
    + destruct (decide (Z.to_nat index ≤ k)%nat) as [Hle | Hgt].
      * rewrite bool_decide_eq_true_2 by lia.
        replace (Z.to_nat (index `min` (Z.of_nat (S k) - 1))) with (Z.to_nat index)
          by lia.
        rewrite list_lookup_delete_ge by lia.
        destruct (lookup_lt_is_Some_2 (mDocuments m) (S (Z.to_nat index)))
          as [x Hx]; [lia |].
        by rewrite Hx.
      * rewrite bool_decide_eq_true_2 by lia.
        replace (Z.to_nat (index `min` (Z.of_nat (S k) - 1))) with k by lia.
        rewrite list_lookup_delete_lt by lia.
        rewrite (lookup_ge_None_2 _ (S (Z.to_nat index))) by lia.
        replace (Z.to_nat index) with (S k) by lia. done.
Qed.

Lemma elem_of_delete_or {A} (l : list A) (i : nat) x y :
  l !! i = Some y → x ∈ l → x = y ∨ x ∈ delete i l.
Proof.
  intros Hy Hx. apply list_elem_of_lookup in Hx as [j Hj].
  destruct (decide (j = i)) as [-> | Hne]; [left; congruence |].
  right. apply list_elem_of_lookup.
  destruct (decide (j < i)%nat).
  - exists j. by rewrite list_lookup_delete_lt.
  - exists (j - 1)%nat. rewrite list_lookup_delete_ge by lia.
    by replace (S (j - 1)) with j by lia.
Qed.

Lemma closeAllDocuments_aux (n : nat) m :
  wellFormed m → length (mDocuments m) = n →
  ∃ m' l, closeAllDocuments n m = Some m' ∧ wellFormed m' ∧
    mDocuments m' = [] ∧ emitted m' = emitted m ++ l ∧
    ∀ d, d ∈ mDocuments m → documentAboutToClose (docId d) ∈ l.
Proof.
  revert m. induction n as [| n IH]; intros m Hwf Hn.
  - exists m, []. apply length_zero_iff_nil in Hn.
    unfold closeAllDocuments. rewrite Hn. split; [done |]. split; [done |].
    split; [done |]. split; [by rewrite app_nil_r |].
    intros d Hd. by apply not_elem_of_nil in Hd.
  - pose proof Hwf as (Ha & Ht & _). pose proof (aligned_length m Ha) as Hlen.
    assert (Hcur : 0 ≤ currentIndex m < Z.of_nat (length (mDocuments m))).
    { destruct Ht as [[Hnil _] | ?]; [| lia].
      rewrite Hnil in Hlen. simpl in Hlen. lia. }
    destruct (at_valid (mDocuments m) _ Hcur) as [d Hat].
    destruct (closeDocumentAt_current_aux _ m d Hwf Hat) as (m1 & Hm1 & Hwf1 & Hd1 & _).
    destruct (closeDocumentAt_emitted _ m m1 d Hat Hm1) as [l1 Hem1].
    pose proof Hat as Hat'. apply at_Some in Hat' as [_ Hdoc].
    destruct (IH m1 Hwf1) as (m' & l & Hm' & Hwf' & Hd' & Hem' & Hall).
    { rewrite Hd1, length_delete by (by eexists). lia. }
    exists m', (documentAboutToClose (docId d) :: l1 ++ l).
    split.
    { simpl. destruct (mDocuments m) eqn:Hdocs; [simpl in Hn; lia |].
      unfold closeCurrentDocument. rewrite bool_decide_eq_false_2 by lia.
      rewrite Hm1. done. }
    split; [done |]. split; [done |].
    split; [rewrite Hem', Hem1, <- app_assoc; done |].
    intros x Hx. destruct (elem_of_delete_or _ _ _ _ Hdoc Hx) as [-> | Hin].
    + apply elem_of_cons. by left.
    + apply elem_of_cons. right. apply elem_of_app. right.
      apply Hall. by rewrite Hd1.
Qed.

(** ** The warning of a page *)

Lemma fileChanged_prompt env name m index document c :
  QList.at_ (mDocuments m) index = Some document →
  resolvesTo env name document →
  (∀ (k : nat) d', Z.of_nat k < index → mDocuments m !! k = Some d' →
                   ¬ resolvesTo env name d') →
  lastModified env name ≠ lastSaved document → isModified document = true →
  TabWidget.pages (mTabWidget m) !! Z.to_nat index = Some c →
  fileChanged env name m
  = Some (setPage (Z.to_nat index) (setFileChangedWarningVisible true c) m).
Proof.
  intros Hat Hres Hmin Htime Hmod Hc.
  pose proof (findDocument_first env name m index document Hat Hres Hmin) as Hfind.
  pose proof Hat as Hat'. apply at_Some in Hat' as [Hi0 Hdoc].
  unfold fileChanged. rewrite Hfind.
  rewrite (bool_decide_eq_false_2 (index = -1)) by lia. rewrite Hat. simpl.
  rewrite bool_decide_eq_false_2 by done. rewrite Hmod. simpl.
  unfold TabWidget.widget.
  assert (QList.at_ (TabWidget.pages (mTabWidget m)) index = Some c) as ->
    by (apply at_Some; done).
  done.
Qed.

Lemma setPage_setPage (i : nat) c1 c2 m :
  setPage i c2 (setPage i c1 m) = setPage i c2 m.
Proof.
  unfold setPage, setTabWidget, TabWidget.setPages. simpl.
  by rewrite list_insert_insert_eq.
Qed.

Lemma setPage_same (i : nat) c m :
  TabWidget.pages (mTabWidget m) !! i = Some c → setPage i c m = m.
Proof.
  intros Hc. unfold setPage, setTabWidget, TabWidget.setPages.
  rewrite list_insert_id by done. by destruct m as [? [? ?] ? ? ? ? ?].
Qed.

(** ** Neighbours *)

Lemma current_in_range m :
  wellFormed m → mDocuments m ≠ [] →
  0 ≤ currentIndex m < Z.of_nat (length (mDocuments m)).
Proof.
  intros (Ha & Ht & _) Hne. pose proof (aligned_length m Ha) as Hlen.
  destruct Ht as [[Hnil _] | ?]; [| lia].
  rewrite Hnil in Hlen. simpl in Hlen.
  destruct (mDocuments m); [done | simpl in Hlen; lia].
Qed.

Lemma switchToLeftDocument_spec m :
  wellFormed m → 2 ≤ Z.of_nat (length (mDocuments m)) →
  ∃ m', switchToLeftDocument m = Some m' ∧ wellFormed m' ∧
        currentIndex m'
        = (currentIndex m - 1) `mod` Z.of_nat (length (mDocuments m)) ∧
        mDocuments m' = mDocuments m ∧
        TabWidget.pages (mTabWidget m') = TabWidget.pages (mTabWidget m).
Proof.
  intros Hwf Hn. pose proof Hwf as (Ha & _).
  pose proof (aligned_length m Ha) as Hlen.
  assert (Hcur : 0 ≤ currentIndex m < Z.of_nat (length (mDocuments m))).
  { apply current_in_range; [done |]. destruct (mDocuments m); [simpl in Hn; lia | done]. }
  unfold switchToLeftDocument, TabWidget.count. rewrite Hlen.
  rewrite (bool_decide_eq_false_2 (_ < 2)) by lia.
  assert (Hmod : (if bool_decide (0 < currentIndex m) then currentIndex m
                  else Z.of_nat (length (mDocuments m))) - 1
                 = (currentIndex m - 1) `mod` Z.of_nat (length (mDocuments m))).
  { destruct (decide (0 < currentIndex m)) as [Hpos | Hzero].
    - rewrite (bool_decide_eq_true_2 _ Hpos). by rewrite Z.mod_small by lia.
    - rewrite (bool_decide_eq_false_2 _ Hzero).
      apply (Z.mod_unique _ _ (-1)); [left; lia | lia]. }
  rewrite Hmod.
  destruct (switchToDocument_valid
              ((currentIndex m - 1) `mod` Z.of_nat (length (mDocuments m))) m Hwf)
    as (m' & Hm' & Hwf' & Hc & Hd & Hp & _).
  { rewrite Hlen. apply Z.mod_pos_bound. lia. }
  exists m'. done.
Qed.

Lemma switchToRightDocument_spec m :
  wellFormed m → 2 ≤ Z.of_nat (length (mDocuments m)) →
  ∃ m', switchToRightDocument m = Some m' ∧ wellFormed m' ∧
        currentIndex m'
        = (currentIndex m + 1) `mod` Z.of_nat (length (mDocuments m)) ∧
        mDocuments m' = mDocuments m ∧
        TabWidget.pages (mTabWidget m') = TabWidget.pages (mTabWidget m).
Proof.
  intros Hwf Hn. pose proof Hwf as (Ha & _).
  pose proof (aligned_length m Ha) as Hlen.
  assert (Hcur : 0 ≤ currentIndex m < Z.of_nat (length (mDocuments m))).
  { apply current_in_range; [done |]. destruct (mDocuments m); [simpl in Hn; lia | done]. }
  unfold switchToRightDocument, TabWidget.count. rewrite Hlen.
  rewrite (bool_decide_eq_false_2 (_ < 2)) by lia.
  rewrite Z.rem_mod_nonneg by lia.
  destruct (switchToDocument_valid
              ((currentIndex m + 1) `mod` Z.of_nat (length (mDocuments m))) m Hwf)
    as (m' & Hm' & Hwf' & Hc & Hd & Hp & _).
  { rewrite Hlen. apply Z.mod_pos_bound. lia. }
  exists m'. done.
Qed.

(** ** Moving a tab *)

Lemma move_valid {A} (l : list A) from to :
  0 ≤ from < Z.of_nat (length l) → 0 ≤ to < Z.of_nat (length l) →
  ∃ l', QList.move from to l = Some l'.
Proof.
  intros Hf Ht. unfold QList.move.
  rewrite (proj2 (validIndex_true l from) Hf), (proj2 (validIndex_true l to) Ht).
  simpl.
  destruct (lookup_lt_is_Some_2 l (Z.to_nat from)) as [x Hx]; [lia |].
  rewrite Hx. simpl. by eexists.
Qed.

Lemma move_invalid {A} (l : list A) from to :
  ¬ (0 ≤ from < Z.of_nat (length l) ∧ 0 ≤ to < Z.of_nat (length l)) →
  QList.move from to l = None.
Proof.
  intros Hno. destruct (QList.move from to l) as [l' |] eqn:H; [| done].
  apply move_Some in H as (Hf & Ht & _). by destruct Hno.
Qed.

(** ** No document open *)

Lemma indexOf_none d m : d ∉ (docId <$> mDocuments m) → indexOf d m = -1.
Proof.
  intros Hno. unfold indexOf.
  destruct (list_find _ _) as [[i x] |] eqn:Hfind; [| done].
  apply list_find_Some in Hfind as (Hx & Hid & _).
  exfalso. apply Hno. apply list_elem_of_fmap. exists x. split; [done |].
  by eapply list_elem_of_lookup_2.
Qed.

Lemma prompt_state env name m index document :
  wellFormed m →
  QList.at_ (mDocuments m) index = Some document →
  resolvesTo env name document →
  (∀ (k : nat) d', Z.of_nat k < index → mDocuments m !! k = Some d' →
                   ¬ resolvesTo env name d') →
  lastModified env name ≠ lastSaved document → isModified document = true →
  ∃ c, TabWidget.pages (mTabWidget m) !! Z.to_nat index = Some c ∧
    (∀ b c', fileChanged env name
               (setPage (Z.to_nat index) (setFileChangedWarningVisible b c') m)
             = Some (setPage (Z.to_nat index) (setFileChangedWarningVisible true c') m)) ∧
    fileChanged env name m
    = Some (setPage (Z.to_nat index) (setFileChangedWarningVisible true c) m).
Proof.
  intros Hwf Hat Hres Hmin Htime Hmod. pose proof Hwf as (Ha & _).
  pose proof (aligned_length m Ha) as Hlen.
  pose proof Hat as Hat'. apply at_Some in Hat' as [Hi0 Hdoc].
  pose proof (lookup_lt_Some _ _ _ Hdoc) as Hi.
  destruct (lookup_lt_is_Some_2 (TabWidget.pages (mTabWidget m)) (Z.to_nat index))
    as [c Hc]; [lia |].
  exists c. split; [done |]. split.
  - intros b c'.
    rewrite (fileChanged_prompt env name
               (setPage (Z.to_nat index) (setFileChangedWarningVisible b c') m)
               index document
               (setFileChangedWarningVisible b c') Hat Hres Hmin Htime Hmod).
    + by rewrite setPage_setPage.
    + simpl. rewrite list_lookup_insert_eq; [done | lia].
  - by apply (fileChanged_prompt env name m index document c).
Qed.

(** ** The undo group *)

Lemma switchToDocument_stacks index m m' :
  switchToDocument index m = Some m' →
  UndoGroup.stacks (mUndoGroup m') = UndoGroup.stacks (mUndoGroup m) ∧
  mDocuments m' = mDocuments m.
Proof.
  unfold switchToDocument. intros H.
  by apply afterTabs_spec in H as (Hd & _ & Hs & _).
Qed.

Lemma centerViewOn_frame env x y m m' :
  centerViewOn env x y m = Some m' →
  mUndoGroup m' = mUndoGroup m ∧ mDocuments m' = mDocuments m.
Proof.
  unfold centerViewOn. intros H.
  destruct (currentMapView m); [| by injection H as <-].
  destruct (currentDocument m) as [[d |] |]; try done. simpl in H.
  by injection H as <-.
Qed.

Lemma restoreView_frame s h v m m' :
  restoreView s h v m = Some m' →
  mUndoGroup m' = mUndoGroup m ∧ mDocuments m' = mDocuments m.
Proof.
  unfold restoreView. intros H.
  destruct (currentMapView m); [| done]. by injection H as <-.
Qed.

Lemma addDocument_stacks env d m m' :
  addDocument env d m = Some m' →
  UndoGroup.stacks (mUndoGroup m')
  = UndoGroup.stacks (UndoGroup.addStack (docId d) (mUndoGroup m)) ∧
  mDocuments m' = mDocuments m ++ [d].
Proof.
  intros H. pose proof (addDocument_Some env d m m' H) as Hfresh.
  unfold addDocument in H. rewrite bool_decide_eq_false_2 in H by done.
  cbv zeta in H.
  match type of H with
  | context [afterTabs (TabWidget.addTab ?c (mTabWidget ?x)) _] =>
      set (c0 := c) in *; set (m1 := x) in *
  end.
  assert (Hd1 : mDocuments m1 = mDocuments m ++ [d])
    by (subst m1; by case_bool_decide).
  assert (Hs1 : mUndoGroup m1 = UndoGroup.addStack (docId d) (mUndoGroup m))
    by (subst m1; by case_bool_decide).
  clearbody m1.
  destruct (afterTabs (TabWidget.addTab c0 (mTabWidget m1)) m1) as [m2 |] eqn:H2;
    [| done]. simpl in H.
  destruct (switchToDocument (Z.of_nat (length (mDocuments m1)) - 1) m2)
    as [m3 |] eqn:H3; [| done]. simpl in H.
  apply afterTabs_spec in H2 as (Hd2 & _ & Hs2 & _).
  apply switchToDocument_stacks in H3 as [Hs3 Hd3].
  apply centerViewOn_frame in H as [Hs4 Hd4].
  by rewrite Hs4, Hd4, Hs3, Hd3, Hs2, Hd2, Hs1, Hd1.
Qed.

Lemma closeDocumentAt_stacks index m m' :
  closeDocumentAt index m = Some m' →
  ∃ d, mDocuments m !! Z.to_nat index = Some d ∧
       UndoGroup.stacks (mUndoGroup m')
       = filter (λ x, x ≠ docId d) (UndoGroup.stacks (mUndoGroup m)) ∧
       mDocuments m' = delete (Z.to_nat index) (mDocuments m).
Proof.
  intros H. unfold closeDocumentAt in H.
  destruct (QList.at_ (mDocuments m) index) as [d |] eqn:Hat; [| done]. simpl in H.
  apply at_Some in Hat as [Hi0 Hd].
  assert (Hr : QList.removeAt index (mDocuments m)
               = delete (Z.to_nat index) (mDocuments m)).
  { rewrite <- (Z2Nat.id index) at 1 by done. apply removeAt_of_nat. }
  rewrite Hr in H.
  match type of H with
  | context [afterTabs ?r ?x] =>
      destruct (afterTabs r x) as [m2 |] eqn:H2; [| done]
  end.
  simpl in H. injection H as <-.
  apply afterTabs_spec in H2 as (Hd2 & _ & Hs2 & _). simpl in Hd2, Hs2.
  exists d. split; [done |]. simpl.
  split; [case_bool_decide; simpl; by rewrite Hs2 | by case_bool_decide].
Qed.

Lemma elem_of_delete_ids (docs : list MapDocument) (i : nat) d x :
  NoDup (docId <$> docs) → docs !! i = Some d →
  x ∈ (docId <$> delete i docs) ↔ x ∈ (docId <$> docs) ∧ x ≠ docId d.
Proof.
  intros Hnd Hd. split.
  - intros Hx. apply list_elem_of_fmap in Hx as (y & -> & Hy).
    apply list_elem_of_lookup in Hy as [k Hk]. split.
    + apply list_elem_of_fmap. exists y. split; [done |].
      apply (list_elem_of_delete_inv _ i). by eapply list_elem_of_lookup_2.
    + by eapply delete_other_id.
  - intros [Hx Hne]. apply list_elem_of_fmap in Hx as (y & -> & Hy).
    apply list_elem_of_fmap. exists y. split; [done |].
    destruct (elem_of_delete_or _ i _ _ Hd Hy) as [-> | Hin]; [done | done].
Qed.

Lemma stacksOk_add d m m' :
  stacksOk m →
  UndoGroup.stacks (mUndoGroup m')
  = UndoGroup.stacks (UndoGroup.addStack (docId d) (mUndoGroup m)) →
  mDocuments m' = mDocuments m ++ [d] → stacksOk m'.
Proof.
  intros [Hnd Hiff] Hs Hd. unfold stacksOk. rewrite Hs, Hd, fmap_app.
  unfold UndoGroup.addStack. case_bool_decide as Hin; simpl.
  - split; [done |]. intros x. rewrite elem_of_app, list_elem_of_singleton.
    rewrite Hiff. split; [by left |]. intros [? | ->]; [done |]. by apply Hiff.
  - split.
    + apply NoDup_app. split; [done |]. split; [| apply NoDup_singleton].
      intros x Hx Hx'. apply list_elem_of_singleton in Hx'. by subst x.
    + intros x. rewrite !elem_of_app, !list_elem_of_singleton. by rewrite Hiff.
Qed.

Lemma stacksOk_close (i : nat) d m m' :
  uniqueObjects m → stacksOk m → mDocuments m !! i = Some d →
  UndoGroup.stacks (mUndoGroup m')
  = filter (λ x, x ≠ docId d) (UndoGroup.stacks (mUndoGroup m)) →
  mDocuments m' = delete i (mDocuments m) → stacksOk m'.
Proof.
  intros Hu [Hnd Hiff] Hdoc Hs Hd. unfold stacksOk. rewrite Hs, Hd.
  split; [by apply NoDup_filter |].
  intros x. rewrite list_elem_of_filter, (elem_of_delete_ids _ i d x Hu Hdoc).
  rewrite Hiff. tauto.
Qed.

Lemma stacksOk_same m m' :
  stacksOk m →
  UndoGroup.stacks (mUndoGroup m') = UndoGroup.stacks (mUndoGroup m) →
  (docId <$> mDocuments m') ≡ₚ (docId <$> mDocuments m) → stacksOk m'.
Proof.
  intros [Hnd Hiff] Hs Hd. unfold stacksOk. rewrite Hs. split; [done |].
  intros x. by rewrite Hd.
Qed.

Lemma moveTab_stacksOk from to m m' :
  wellFormed m → stacksOk m → moveTab from to m = Some m' → stacksOk m'.
Proof.
  intros Hwf Hst H.
  destruct (moveTab_spec from to m m' Hwf H)
    as [(Hd & Htw & _) | ((Hd & _) & Hug & _)].
  - unfold moveTab, TabWidget.moveTab in H.
    assert (mUndoGroup m' = mUndoGroup m) as Hug.
    { destruct (bool_decide (from = to)); simpl in H; [by injection H as <- |].
      destruct (QList.move from to (TabWidget.pages (mTabWidget m)));
        simpl in H; [| by injection H as <-].
      unfold documentTabMoved in H. simpl in H.
      destruct (QList.move from to (mDocuments m)); [| done].
      simpl in H. by injection H as <-. }
    apply (stacksOk_same m); [done | by rewrite Hug | by rewrite Hd].
  - apply (stacksOk_same m); [done | by rewrite Hug |].
    apply fmap_Permutation. by apply (move_Permutation _ _ from to).
Qed.

Lemma closeDocumentAt_stacksOk index m m' :
  wellFormed m → stacksOk m → closeDocumentAt index m = Some m' → stacksOk m'.
Proof.
  intros (_ & _ & Hu & _) Hst H.
  destruct (closeDocumentAt_stacks index m m' H) as (d & Hdoc & Hs & Hd).
  by eapply stacksOk_close.
Qed.

Lemma addDocument_stacksOk env d m m' :
  stacksOk m → addDocument env d m = Some m' → stacksOk m'.
Proof.
  intros Hst H. destruct (addDocument_stacks env d m m' H) as [Hs Hd].
  by eapply stacksOk_add.
Qed.

Lemma switchToDocument_stacksOk index m m' :
  stacksOk m → switchToDocument index m = Some m' → stacksOk m'.
Proof.
  intros Hst H. destruct (switchToDocument_stacks index m m' H) as [Hs Hd].
  apply (stacksOk_same m); [done | done | by rewrite Hd].
Qed.

Lemma reloadDocumentAt_stacksOk env index m r m' :
  wellFormed m → stacksOk m → reloadDocumentAt env index m = Some (r, m') →
  stacksOk m'.
Proof.
  intros Hwf Hst H. unfold reloadDocumentAt in H.
  destruct (QList.at_ (mDocuments m) index) as [oldDocument |]; [| done].
  simpl in H.
  destruct (load env _ _) as [newDocument | error].
  - destruct (viewForDocument (docId oldDocument) m) as [[v |] |]; try done.
    simpl in H.
    destruct (addDocument env newDocument m) as [m1 |] eqn:H1; [| done].
    simpl in H.
    destruct (closeDocumentAt index m1) as [m2 |] eqn:H2; [| done]. simpl in H.
    destruct (moveTab _ index m2) as [m3 |] eqn:H3; [| done]. simpl in H.
    destruct (restoreView _ _ _ m3) as [m4 |] eqn:H4; [| done]. simpl in H.
    injection H as _ <-.
    pose proof (addDocument_wellFormed env _ m m1 Hwf H1) as Hwf1.
    pose proof (closeDocumentAt_wellFormed index m1 m2 Hwf1 H2) as Hwf2.
    assert (Hst4 : stacksOk m4).
    { apply restoreView_frame in H4 as [Hs4 Hd4].
      apply (stacksOk_same m3); [| by rewrite Hs4 | by rewrite Hd4].
      eapply moveTab_stacksOk; [exact Hwf2 | | exact H3].
      eapply closeDocumentAt_stacksOk; [exact Hwf1 | | exact H2].
      eapply addDocument_stacksOk; [exact Hst | exact H1]. }
    destruct (_ && _); [| done].
    apply (stacksOk_same m4); [done | done |].
    unfold setLayerIndexOf. simpl. rewrite <- list_fmap_compose.
    assert ((docId ∘ (λ x, if bool_decide (docId x = docId newDocument)
                           then setCurrentLayerIndex (currentLayerIndex oldDocument) x
                           else x)) <$> mDocuments m4 = docId <$> mDocuments m4) as ->;
      [| done].
    apply list_fmap_ext. intros j x _. simpl. by case_bool_decide.
  - injection H as _ <-. by apply (stacksOk_same m).
Qed.

Lemma act_stacksOk env a m m' :
  wellFormed m → stacksOk m → act env a m = Some m' → stacksOk m'.
Proof.
  intros Hwf Hst H. destruct a; simpl in H.
  - by eapply addDocument_stacksOk.
  - by eapply closeDocumentAt_stacksOk.
  - unfold closeCurrentDocument in H.
    case_bool_decide; [by injection H as <- | by eapply closeDocumentAt_stacksOk].
  - by eapply switchToDocument_stacksOk.
  - unfold switchToDocumentPtr in H.
    case_bool_decide; [by injection H as <- | by eapply switchToDocument_stacksOk].
  - unfold switchToLeftDocument in H.
    case_bool_decide; [by injection H as <- | by eapply switchToDocument_stacksOk].
  - unfold switchToRightDocument in H.
    case_bool_decide; [by injection H as <- | by eapply switchToDocument_stacksOk].
  - by eapply moveTab_stacksOk.
  - destruct (reloadDocumentAt env index m) as [[r m1] |] eqn:Hr; [| done].
    simpl in H. injection H as <-. by eapply reloadDocumentAt_stacksOk.
  - unfold reloadCurrentDocument in H.
    case_bool_decide; [simpl in H; by injection H as <- |].
    destruct (reloadDocumentAt env _ m) as [[r m1] |] eqn:Hr; [| done].
    simpl in H. injection H as <-. by eapply reloadDocumentAt_stacksOk.
  - unfold fileChanged in H.
    case_bool_decide; [by injection H as <- |].
    destruct (QList.at_ (mDocuments m) _) as [document |]; [| done]. simpl in H.
    case_bool_decide; [by injection H as <- |].
    destruct (isModified document); simpl in H.
    + destruct (TabWidget.widget _ _) as [c |]; [| done]. simpl in H.
      injection H as <-. by apply (stacksOk_same m).
    + destruct (reloadDocumentAt env _ m) as [[r m1] |] eqn:Hr; [| done].
      simpl in H. injection H as <-. by eapply reloadDocumentAt_stacksOk.
  - unfold documentSaved in H.
    case_bool_decide; [done |].
    destruct (TabWidget.widget _ _) as [c |]; [| done]. simpl in H.
    injection H as <-. by apply (stacksOk_same m).
  - injection H as <-. by apply (stacksOk_same m).
Qed.

Lemma acts_stacksOk l m m' :
  wellFormed m → stacksOk m → acts l m = Some m' → stacksOk m'.
Proof.
  revert m. induction l as [| [env a] l IH]; intros m Hwf Hst H; simpl in H.
  - by injection H as <-.
  - destruct (act env a m) as [m1 |] eqn:Ha; [| done]. simpl in H.
    eapply (IH m1); [by eapply act_wellFormed | by eapply act_stacksOk | exact H].
Qed.

Lemma currentId_elem m x :
  currentId m = Some x → x ∈ (docId <$> mDocuments m).
Proof.
  unfold currentId. case_bool_decide; [| done].
  destruct (mDocuments m !! _) as [d |] eqn:Hd; [| done].
  simpl. intros [= <-]. apply list_elem_of_fmap. exists d. split; [done |].
  by eapply list_elem_of_lookup_2.
Qed.

(** ** Signals of a reload *)

Lemma moveTab_emitted from to m m' :
  moveTab from to m = Some m' → emitted m' = emitted m.
Proof.
  unfold moveTab, TabWidget.moveTab. intros H.
  destruct (bool_decide (from = to)); simpl in H; [by injection H as <- |].
  destruct (QList.move from to (TabWidget.pages (mTabWidget m)));
    simpl in H; [| by injection H as <-].
  unfold documentTabMoved in H. simpl in H.
  destruct (QList.move from to (mDocuments m)); [| done].
  simpl in H. by injection H as <-.
Qed.

Lemma restoreView_emitted s h v m m' :
  restoreView s h v m = Some m' → emitted m' = emitted m.
Proof.
  unfold restoreView. intros H.
  destruct (currentMapView m); [| done]. by injection H as <-.
Qed.

Lemma reloadDocumentAt_emitted env index m m' oldDocument newDocument :
  wellFormed m → QList.at_ (mDocuments m) index = Some oldDocument →
  load env (fileName oldDocument) (readerOf env oldDocument) = inl newDocument →
  reloadDocumentAt env index m = Some (true, m') →
  ∃ l, emitted m'
       = emitted m ++ currentDocumentChanged (Some (docId newDocument))
           :: documentAboutToClose (docId oldDocument) :: l.
Proof.
  intros Hwf Hat Hload H. unfold reloadDocumentAt in H.
  rewrite Hat in H. simpl in H. unfold readerOf in Hload. rewrite Hload in H.
  destruct (viewForDocument (docId oldDocument) m) as [[v |] |]; try done.
  simpl in H.
  destruct (addDocument env newDocument m) as [m1 |] eqn:H1; [| done].
  simpl in H.
  destruct (closeDocumentAt index m1) as [m2 |] eqn:H2; [| done]. simpl in H.
  destruct (moveTab _ index m2) as [m3 |] eqn:H3; [| done]. simpl in H.
  destruct (restoreView _ _ _ m3) as [m4 |] eqn:H4; [| done]. simpl in H.
  injection H as <-.
  pose proof (addDocument_emitted env newDocument m m1 Hwf H1) as He1.
  destruct (addDocument_stacks env newDocument m m1 H1) as [_ Hd1].
  assert (Hat1 : QList.at_ (mDocuments m1) index = Some oldDocument).
  { apply at_Some in Hat as [Hi0 Hdoc]. apply at_Some. split; [done |].
    rewrite Hd1. rewrite lookup_app_l by (by eapply lookup_lt_Some). done. }
  destruct (closeDocumentAt_emitted index m1 m2 oldDocument Hat1 H2) as [l He2].
  apply moveTab_emitted in H3. apply restoreView_emitted in H4.
  exists l.
  assert (emitted (if bool_decide (0 < currentLayerIndex oldDocument) &&
                     bool_decide (currentLayerIndex oldDocument < layerCount newDocument)
                   then setLayerIndexOf (docId newDocument)
                          (currentLayerIndex oldDocument) m4
                   else m4) = emitted m4) as -> by (by destruct (_ && _)).
  rewrite H4, H3, He2, He1, <- app_assoc. done.
Qed.

Lemma stacksOk_threeOpen : stacksOk Examples.threeOpen.
Proof.
  assert (Heq : UndoGroup.stacks (mUndoGroup Examples.threeOpen)
                = docId <$> mDocuments Examples.threeOpen) by reflexivity.
  split; [| intros x; by rewrite Heq].
  apply (bool_decide_unpack _). vm_compute. reflexivity.
Qed.

Lemma wellFormed_threeOpen : wellFormed Examples.threeOpen.
Proof.
  split; [reflexivity |]. split; [right; vm_compute; done |].
  split; [unfold uniqueObjects; apply (bool_decide_unpack _); by vm_compute |].
  split; reflexivity.
Qed.
End WellFormedFacts.

(** * More properties of the document manager *)

Module ManagerProperties.
Import DocumentManager Registry DocumentManagerMore WellFormed Examples.
Import QListFacts RegistryFacts WellFormedFacts.

(** X1. [findDocument] answers [-1] when the file does not exist, whatever
    is open, and otherwise exactly when no open document is a document of the
    file; any other answer is the least index of an open document of the
    file. *)
Theorem findDocument_least (env : Env) (name : string) (m : t) :
  (canonicalFilePath env name = "" → findDocument env name m = -1) ∧
  (findDocument env name m = -1 ↔
   ∀ d, d ∈ mDocuments m → ¬ resolvesTo env name d) ∧
  (findDocument env name m ≠ -1 →
   ∃ d, QList.at_ (mDocuments m) (findDocument env name m) = Some d ∧
        canonicalFilePath env (fileName d) = canonicalFilePath env name ∧
        ∀ (k : nat) d', Z.of_nat k < findDocument env name m →
                        mDocuments m !! k = Some d' →
                        canonicalFilePath env (fileName d') ≠ canonicalFilePath env name).
Proof.
  split; [| split].
  - intros He. unfold findDocument. by rewrite bool_decide_eq_true_2.
  - apply findDocument_none.
  - intros Hne.
    destruct (findDocument_found env name m _ eq_refl Hne) as (d & Hat & [Hex Hc] & Hmin).
    exists d. split; [done |]. split; [done |].
    intros k d' Hk Hd' Heq. by apply (Hmin k d' Hk Hd').
Qed.

Lemma findDocument_least_witness :
  findDocument directory "c.tmx" threeOpen = 2 ∧
  findDocument directory "d.tmx" threeOpen = -1.
Proof.
  destruct (findDocument_least directory "d.tmx" threeOpen) as (Hnone & _ & _).
  split; [vm_compute; reflexivity | apply Hnone; reflexivity].
Defined.

(** X2. [switchToDocument] with the current index or with an index that
    is not a tab does nothing at all. With the index of another tab it makes
    that tab current, leaves documents and pages as they are, keeps the
    manager well-formed (so the undo stack of the new current document is the
    active one and its scene has the tool) and emits [currentDocumentChanged]
    once, for the new current document. *)
Theorem switchToDocument_effect (index : Z) (m : t) :
  wellFormed m →
  (index = currentIndex m ∨
   ¬ 0 ≤ index < Z.of_nat (length (mDocuments m)) →
   switchToDocument index m = Some m) ∧
  (index ≠ currentIndex m → 0 ≤ index < Z.of_nat (length (mDocuments m)) →
   ∃ m' d,
     switchToDocument index m = Some m' ∧
     currentIndex m' = index ∧
     mDocuments m' = mDocuments m ∧
     TabWidget.pages (mTabWidget m') = TabWidget.pages (mTabWidget m) ∧
     mDocuments m !! Z.to_nat index = Some d ∧
     UndoGroup.activeStack (mUndoGroup m') = Some (docId d) ∧
     mSceneWithTool m' = Some (docId d) ∧
     emitted m' = emitted m ++ [currentDocumentChanged (Some (docId d))]).
Proof.
  intros Hwf. pose proof Hwf as (Ha & _).
  pose proof (aligned_length m Ha) as Hlen. split.
  - intros Hi. apply switchToDocument_noop. rewrite Hlen. done.
  - intros Hne Hi.
    destruct (switchToDocument_valid index m Hwf) as (m' & Hm' & Hwf' & Hc & Hd & Hp & Hem);
      [lia |].
    destruct (lookup_lt_is_Some_2 (mDocuments m) (Z.to_nat index)) as [d Hdoc]; [lia |].
    assert (Hid : currentId m' = Some (docId d)).
    { unfold currentId. rewrite Hc, Hd, Hdoc. by rewrite bool_decide_eq_true_2 by lia. }
    destruct Hwf' as (_ & _ & _ & Hf1 & Hf2).
    exists m', d. rewrite Hf1, Hf2, (Hem Hne), Hid. done.
Qed.

Lemma switchToDocument_effect_witness :
  ∃ m',
    switchToDocument 0 threeOpen = Some m' ∧ currentIndex m' = 0 ∧
    UndoGroup.activeStack (mUndoGroup m') = Some 1%nat ∧
    mSceneWithTool m' = Some 1%nat.
Proof.
  assert (Hwf : wellFormed threeOpen).
  { split; [reflexivity |]. split; [right; vm_compute; done |].
    split; [unfold uniqueObjects; apply (bool_decide_unpack _); by vm_compute |].
    split; reflexivity. }
  assert (Hne : 0 ≠ currentIndex threeOpen) by (by vm_compute).
  assert (Hi : 0 ≤ 0 < Z.of_nat (length (mDocuments threeOpen)))
    by (vm_compute; done).
  destruct (switchToDocument_effect 0 threeOpen Hwf) as [_ Hswitch].
  destruct (Hswitch Hne Hi) as (m' & d & H1 & H2 & _ & _ & H5 & H6 & H7 & _).
  assert (Hd : d = docA) by (vm_compute in H5; by injection H5 as <-).
  exists m'. split; [exact H1 |]. split; [exact H2 |].
  rewrite Hd in H6, H7. split; [exact H6 | exact H7].
Defined.

(** X3. With fewer than two documents open [switchToLeftDocument] and
    [switchToRightDocument] do nothing. With two or more they make the
    previous and the next tab current, going round at the ends, and each
    undoes the other: the tab that was current is current again. *)
Theorem switchToLeft_right_round_trip (m : t) :
  wellFormed m →
  (Z.of_nat (length (mDocuments m)) < 2 →
   switchToLeftDocument m = Some m ∧ switchToRightDocument m = Some m) ∧
  (2 ≤ Z.of_nat (length (mDocuments m)) →
   ∃ l r,
     switchToLeftDocument m = Some l ∧ switchToRightDocument m = Some r ∧
     currentIndex l = (currentIndex m - 1) `mod` Z.of_nat (length (mDocuments m)) ∧
     currentIndex r = (currentIndex m + 1) `mod` Z.of_nat (length (mDocuments m)) ∧
     mDocuments l = mDocuments m ∧ mDocuments r = mDocuments m ∧
     currentIndex <$> switchToRightDocument l = Some (currentIndex m) ∧
     currentIndex <$> switchToLeftDocument r = Some (currentIndex m)).
Proof.
  intros Hwf. pose proof Hwf as (Ha & _).
  pose proof (aligned_length m Ha) as Hlen. split.
  - intros Hn. unfold switchToLeftDocument, switchToRightDocument, TabWidget.count.
    rewrite Hlen. by rewrite !(bool_decide_eq_true_2 (_ < 2)) by done.
  - intros Hn.
    assert (Hcur : 0 ≤ currentIndex m < Z.of_nat (length (mDocuments m))).
    { apply current_in_range; [done |].
      destruct (mDocuments m); [simpl in Hn; lia | done]. }
    destruct (switchToLeftDocument_spec m Hwf Hn) as (l & Hl & Hwfl & Hcl & Hdl & _).
    destruct (switchToRightDocument_spec m Hwf Hn) as (r & Hr & Hwfr & Hcr & Hdr & _).
    destruct (switchToRightDocument_spec l Hwfl) as (l' & Hl' & _ & Hcl' & _);
      [by rewrite Hdl |].
    destruct (switchToLeftDocument_spec r Hwfr) as (r' & Hr' & _ & Hcr' & _);
      [by rewrite Hdr |].
    exists l, r. do 6 (split; [done |]).
    rewrite Hl', Hr'. simpl. rewrite Hcl', Hcr', Hcl, Hcr, Hdl, Hdr.
    rewrite Z.add_mod_idemp_l by lia.
    replace (currentIndex m - 1 + 1) with (currentIndex m) by lia.
    replace ((currentIndex m + 1) `mod` Z.of_nat (length (mDocuments m)) - 1)
      with ((currentIndex m + 1) `mod` Z.of_nat (length (mDocuments m)) + (-1)) by lia.
    rewrite Z.add_mod_idemp_l by lia.
    replace (currentIndex m + 1 + -1) with (currentIndex m) by lia.
    by rewrite Z.mod_small by lia.
Qed.

Lemma switchToLeft_right_round_trip_witness :
  ∃ l r,
    switchToLeftDocument threeOpen = Some l ∧
    switchToRightDocument threeOpen = Some r ∧
    currentIndex l = 1 ∧ currentIndex r = 0 ∧
    currentIndex <$> switchToRightDocument l = Some 2 ∧
    currentIndex <$> switchToLeftDocument r = Some 2.
Proof.
  assert (Hn : 2 ≤ Z.of_nat (length (mDocuments threeOpen))) by (vm_compute; discriminate).
  destruct (switchToLeft_right_round_trip threeOpen wellFormed_threeOpen) as [_ Hround].
  destruct (Hround Hn) as (l & r & H1 & H2 & H3 & H4 & _ & _ & H7 & H8).
  exists l, r. split; [exact H1 |]. split; [exact H2 |].
  split; [exact H3 |]. split; [exact H4 |]. split; [exact H7 | exact H8].
Defined.

(** X4. [addDocument] fails on a document that is open already (its
    assertion). Any other document is put last in the list of documents, its
    page last among the tabs, and it becomes the current document: its undo
    stack is the active one, its scene has the tool, and
    [currentDocumentChanged] is emitted exactly once, for the new document. *)
Theorem addDocument_appends (env : Env) (d : MapDocument) (m : t) :
  wellFormed m →
  (docId d ∈ (docId <$> mDocuments m) → addDocument env d m = None) ∧
  (docId d ∉ (docId <$> mDocuments m) →
   ∃ m', addDocument env d m = Some m' ∧ wellFormed m' ∧
     mDocuments m' = mDocuments m ++ [d] ∧
     TabWidget.pages (mTabWidget m')
     = TabWidget.pages (mTabWidget m) ++ [openedPage env d] ∧
     currentIndex m' = Z.of_nat (length (mDocuments m)) ∧
     currentDocument m' = Some (Some d) ∧
     UndoGroup.activeStack (mUndoGroup m') = Some (docId d) ∧
     mSceneWithTool m' = Some (docId d) ∧
     emitted m' = emitted m ++ [currentDocumentChanged (Some (docId d))]).
Proof.
  intros Hwf. split.
  - intros Hin. unfold addDocument. by rewrite bool_decide_eq_true_2.
  - intros Hfresh.
    destruct (addDocument_effect_aux env d m Hwf Hfresh)
      as (m' & Hm' & Hwf' & Hd & Hp & Hc & Hid).
    pose proof Hwf' as (_ & _ & _ & Hf1 & Hf2).
    pose proof (addDocument_emitted env d m m' Hwf Hm') as Hem.
    exists m'. rewrite Hf1, Hf2, Hid. do 5 (split; [done |]). split; [| done].
    unfold currentDocument. rewrite Hc.
    rewrite bool_decide_eq_false_2 by lia.
    assert (QList.at_ (mDocuments m') (Z.of_nat (length (mDocuments m))) = Some d) as ->.
    { apply at_Some. split; [lia |].
      by rewrite Hd, Nat2Z.id, list_lookup_middle. }
    done.
Qed.

Lemma addDocument_appends_witness :
  addDocument directory docA threeOpen = None ∧
  ∃ m', addDocument directory docA' threeOpen = Some m' ∧
        currentIndex m' = 3 ∧ mSceneWithTool m' = Some 4%nat.
Proof.
  assert (Hin : docId docA ∈ (docId <$> mDocuments threeOpen))
    by (apply (bool_decide_unpack _); vm_compute; reflexivity).
  assert (Hfresh : docId docA' ∉ (docId <$> mDocuments threeOpen))
    by (apply (bool_decide_unpack _); vm_compute; reflexivity).
  destruct (addDocument_appends directory docA threeOpen wellFormed_threeOpen)
    as [Hnone _].
  destruct (addDocument_appends directory docA' threeOpen wellFormed_threeOpen)
    as [_ Hsome].
  destruct (Hsome Hfresh) as (m' & H1 & _ & _ & _ & H5 & _ & _ & H8 & _).
  split; [exact (Hnone Hin) |].
  exists m'. split; [exact H1 |]. split; [exact H5 | exact H8].
Defined.

(** X5. [closeDocumentAt] with the index of an open document announces it
    with [documentAboutToClose] and takes it out of the manager. When the
    document was not the current one, the current document stays current.
    When it was, its right neighbour becomes current, or its left neighbour
    when it was the last, or nothing when it was the only one. Neither the
    active undo stack nor the scene with the tool is the closed document's
    afterwards. *)
Theorem closeDocumentAt_current (index : Z) (d : MapDocument) (m : t) :
  wellFormed m → QList.at_ (mDocuments m) index = Some d →
  ∃ m', closeDocumentAt index m = Some m' ∧ wellFormed m' ∧
    mDocuments m' = delete (Z.to_nat index) (mDocuments m) ∧
    (docId d ∉ (docId <$> mDocuments m')) ∧
    (index ≠ currentIndex m → currentId m' = currentId m) ∧
    (index = currentIndex m →
     currentId m' =
       match mDocuments m !! S (Z.to_nat index) with
       | Some x => Some (docId x)
       | None => match Z.to_nat index with
                 | O => None
                 | S j => docId <$> mDocuments m !! j
                 end
       end) ∧
    UndoGroup.activeStack (mUndoGroup m') ≠ Some (docId d) ∧
    mSceneWithTool m' ≠ Some (docId d) ∧
    ∃ l, emitted m' = emitted m ++ documentAboutToClose (docId d) :: l.
Proof.
  intros Hwf Hat.
  destruct (closeDocumentAt_current_aux index m d Hwf Hat)
    as (m' & Hm' & Hwf' & Hd & Hother & Hsame).
  assert (Hgone : docId d ∉ (docId <$> mDocuments m')).
  { intros Hin. apply list_elem_of_fmap in Hin as (x & Hid & Hx).
    apply list_elem_of_lookup in Hx as [k Hk]. rewrite Hd in Hk.
    pose proof Hat as Hat'. apply at_Some in Hat' as [_ Hdoc].
    destruct Hwf as (_ & _ & Hu & _).
    by apply (delete_other_id _ _ _ _ _ Hu Hdoc Hk). }
  pose proof Hwf' as (_ & _ & _ & Hf1 & Hf2).
  exists m'. do 3 (split; [done |]). split; [done |].
  do 2 (split; [done |]).
  split; [rewrite Hf1; intros Hc; by apply Hgone, currentId_elem |].
  split; [rewrite Hf2; intros Hc; by apply Hgone, currentId_elem |].
  by eapply closeDocumentAt_emitted.
Qed.

Lemma closeDocumentAt_current_witness :
  ∃ m', closeDocumentAt 0 threeOpen = Some m' ∧
        currentId m' = currentId threeOpen ∧
        mDocuments m' = [docB; docC].
Proof.
  assert (Hat : QList.at_ (mDocuments threeOpen) 0 = Some docA) by reflexivity.
  assert (Hne : 0 ≠ currentIndex threeOpen) by (vm_compute; discriminate).
  destruct (closeDocumentAt_current 0 docA threeOpen wellFormed_threeOpen Hat)
    as (m' & H1 & _ & H3 & _ & H5 & _).
  exists m'. split; [exact H1 |]. split; [exact (H5 Hne) | exact H3].
Defined.

(** X6. With no document open, closing or reloading the current document,
    switching to a neighbour, closing all documents and a notification of
    the file system all leave the manager as it is, whereas the operations
    that take an index or a document (closing or reloading at an index, the
    slot of [saved]) fail on their assertions. *)
Theorem nothing_open (env : Env) (m : t) :
  wellFormed m → mDocuments m = [] →
  closeCurrentDocument m = Some m ∧
  reloadCurrentDocument env m = Some (false, m) ∧
  switchToLeftDocument m = Some m ∧ switchToRightDocument m = Some m ∧
  (∀ fuel, closeAllDocuments fuel m = Some m) ∧
  (∀ name, fileChanged env name m = Some m) ∧
  (∀ index, switchToDocument index m = Some m) ∧
  (∀ index, closeDocumentAt index m = None) ∧
  (∀ index, reloadDocumentAt env index m = None) ∧
  (∀ d, documentSaved d m = None) ∧
  destroy m = Some ().
Proof.
  intros Hwf Hnil. pose proof Hwf as (Ha & Ht & _).
  pose proof (aligned_length m Ha) as Hlen. rewrite Hnil in Hlen. simpl in Hlen.
  assert (Hcur : currentIndex m = -1) by (destruct Ht as [[_ ?] | ?]; [done | lia]).
  assert (Hat : ∀ index, QList.at_ (mDocuments m) index = None).
  { intros index. destruct (QList.at_ _ _) as [x |] eqn:Hx; [| done].
    apply at_Some in Hx as [_ Hx]. by rewrite Hnil in Hx. }
  split; [unfold closeCurrentDocument; by rewrite bool_decide_eq_true_2 |].
  split; [unfold reloadCurrentDocument; by rewrite bool_decide_eq_true_2 |].
  split; [unfold switchToLeftDocument, TabWidget.count; rewrite Hlen;
          by rewrite bool_decide_eq_true_2 |].
  split; [unfold switchToRightDocument, TabWidget.count; rewrite Hlen;
          by rewrite bool_decide_eq_true_2 |].
  split; [intros fuel; destruct fuel; simpl; by rewrite Hnil |].
  split.
  { intros name. unfold fileChanged.
    assert (findDocument env name m = -1) as ->.
    { apply findDocument_none. intros d Hd. rewrite Hnil in Hd.
      by apply not_elem_of_nil in Hd. }
    done. }
  split; [intros index; apply switchToDocument_noop; right; rewrite Hlen; simpl; lia |].
  split; [intros index; unfold closeDocumentAt; by rewrite Hat |].
  split; [intros index; unfold reloadDocumentAt; by rewrite Hat |].
  split.
  { intros d. unfold documentSaved. rewrite indexOf_none; [done |].
    rewrite Hnil. apply not_elem_of_nil. }
  unfold destroy. by rewrite Hnil.
Qed.

Lemma nothing_open_witness :
  closeCurrentDocument init = Some init ∧
  fileChanged directory "a.tmx" init = Some init ∧
  closeDocumentAt 0 init = None.
Proof.
  destruct (nothing_open directory init init_wellFormed eq_refl)
    as (H1 & _ & _ & _ & _ & H6 & _ & H8 & _).
  split; [exact H1 |]. split; [exact (H6 "a.tmx") | exact (H8 0)].
Defined.

(** X7. [closeAllDocuments] terminates: as many rounds as there are
    documents suffice. It leaves no document and no tab, announces every
    document that was open with [documentAboutToClose], takes no signal back,
    and the manager can be destroyed afterwards (the destructor asserts that
    no document is left). *)
Theorem closeAllDocuments_empties (m : t) :
  wellFormed m →
  ∃ m' l, closeAllDocuments (length (mDocuments m)) m = Some m' ∧
    mDocuments m' = [] ∧ TabWidget.pages (mTabWidget m') = [] ∧
    currentIndex m' = -1 ∧
    UndoGroup.activeStack (mUndoGroup m') = None ∧ mSceneWithTool m' = None ∧
    destroy m' = Some () ∧
    emitted m' = emitted m ++ l ∧
    ∀ d, d ∈ mDocuments m → documentAboutToClose (docId d) ∈ l.
Proof.
  intros Hwf.
  destruct (closeAllDocuments_aux (length (mDocuments m)) m Hwf eq_refl)
    as (m' & l & Hm' & Hwf' & Hd & Hem & Hall).
  pose proof Hwf' as (Ha & Ht & _ & Hf1 & Hf2).
  pose proof (aligned_length m' Ha) as Hlen. rewrite Hd in Hlen. simpl in Hlen.
  assert (Hcur : currentIndex m' = -1) by (destruct Ht as [[_ ?] | ?]; [done | lia]).
  assert (Hid : currentId m' = None)
    by (unfold currentId; rewrite Hcur; by rewrite bool_decide_eq_false_2 by lia).
  exists m', l. split; [done |]. split; [done |].
  split; [by apply length_zero_iff_nil |]. split; [done |].
  rewrite Hf1, Hf2, Hid. do 2 (split; [done |]).
  split; [unfold destroy; by rewrite Hd | done].
Qed.

Lemma closeAllDocuments_empties_witness :
  ∃ m', closeAllDocuments 3 threeOpen = Some m' ∧ mDocuments m' = [] ∧
        destroy m' = Some ().
Proof.
  destruct (closeAllDocuments_empties threeOpen wellFormed_threeOpen)
    as (m' & l & H1 & H2 & _ & _ & _ & _ & H7 & _).
  exists m'. split; [exact H1 |]. split; [exact H2 | exact H7].
Defined.

(** X8. Moving a tab moves the document with it: after [moveTab] from one
    valid index to another the documents are the ones before in another
    order, the document that was at [from] is at [to], document and page at
    each index still belong together, the current document is the same, and
    no signal of the manager is emitted. With two equal indices, or one that
    is no tab, nothing changes. *)
Theorem moveTab_moves_document (from to : Z) (m : t) :
  wellFormed m →
  (0 ≤ from < Z.of_nat (length (mDocuments m)) →
   0 ≤ to < Z.of_nat (length (mDocuments m)) →
   ∃ m', moveTab from to m = Some m' ∧ wellFormed m' ∧
     mDocuments m' ≡ₚ mDocuments m ∧
     mDocuments m' !! Z.to_nat to = mDocuments m !! Z.to_nat from ∧
     currentId m' = currentId m ∧ emitted m' = emitted m) ∧
  (from = to ∨
   ¬ (0 ≤ from < Z.of_nat (length (mDocuments m)) ∧
      0 ≤ to < Z.of_nat (length (mDocuments m))) →
   moveTab from to m = Some m).
Proof.
  intros Hwf. pose proof Hwf as (Ha & Ht & Hu & Hf1 & Hf2).
  pose proof (aligned_length m Ha) as Hlen. split.
  - intros Hfrom Hto.
    destruct (decide (from = to)) as [<- | Hne].
    + destruct (moveTab_same from m) as (m' & Hm' & Hd & Htw).
      exists m'. split; [done |]. split; [by eapply moveTab_wellFormed |].
      rewrite Hd. do 2 (split; [done |]).
      split; [unfold currentId, currentIndex; by rewrite Hd, Htw |].
      unfold moveTab, TabWidget.moveTab in Hm'.
      rewrite bool_decide_eq_true_2 in Hm' by done. simpl in Hm'.
      by injection Hm' as <-.
    + destruct (move_valid (mDocuments m) from to Hfrom Hto) as [ds Hds].
      destruct (move_valid (TabWidget.pages (mTabWidget m)) from to) as [ps Hps];
        [by rewrite Hlen | by rewrite Hlen |].
      destruct (moveTab_ok from to m ds ps Hne Hds Hps) as (m' & Hm' & Hd & Hp & Hc).
      pose proof (moveTab_wellFormed from to m m' Hwf Hm') as Hwf'.
      assert (Hcur : 0 ≤ currentIndex m < Z.of_nat (length (mDocuments m)))
        by (apply current_in_range; [done |]; destruct (mDocuments m);
            [simpl in Hfrom; lia | done]).
      exists m'. split; [done |]. split; [done |]. rewrite Hd.
      split; [by eapply move_Permutation |].
      split.
      { pose proof (move_lookup _ _ from to (Z.to_nat from) Hds) as Hl.
        rewrite Z2Nat.id in Hl by lia.
        unfold TabWidget.calculateNewPosition in Hl.
        rewrite bool_decide_eq_true_2 in Hl by done. apply Hl. lia. }
      split.
      { pose proof (move_lookup _ _ from to (Z.to_nat (currentIndex m)) Hds) as Hl.
        rewrite Z2Nat.id in Hl by lia.
        pose proof (calculateNewPosition_range from to (currentIndex m)
                      (length (mDocuments m)) Hfrom Hto Hcur) as Hr.
        unfold currentId. rewrite Hc, Hd, Hl by lia.
        by rewrite !bool_decide_eq_true_2 by lia. }
      destruct (moveTab_spec from to m m' Hwf Hm')
        as [(_ & _ & [? | Hnone]) | (_ & _ & _ & Hem & _)]; [done | | done].
      rewrite Hds in Hnone. done.
  - intros Hno. unfold moveTab, TabWidget.moveTab.
    destruct (decide (from = to)) as [Heq | Hne].
    + rewrite bool_decide_eq_true_2 by done. simpl. by rewrite setTabWidget_same.
    + rewrite bool_decide_eq_false_2 by done.
      destruct Hno as [? | Hno]; [done |].
      rewrite move_invalid by (by rewrite Hlen).
      simpl. by rewrite setTabWidget_same.
Qed.

Lemma moveTab_moves_document_witness :
  ∃ m', moveTab 2 0 threeOpen = Some m' ∧
        mDocuments m' !! 0%nat = Some docC ∧
        currentId m' = currentId threeOpen.
Proof.
  assert (Hfrom : 0 ≤ 2 < Z.of_nat (length (mDocuments threeOpen)))
    by (vm_compute; split; discriminate || reflexivity).
  assert (Hto : 0 ≤ 0 < Z.of_nat (length (mDocuments threeOpen)))
    by (vm_compute; split; discriminate || reflexivity).
  destruct (moveTab_moves_document 2 0 threeOpen wellFormed_threeOpen) as [Hmove _].
  destruct (Hmove Hfrom Hto) as (m' & H1 & _ & _ & H4 & H5 & _).
  exists m'. split; [exact H1 |]. split; [exact H4 | exact H5].
Defined.

(** X9. Whatever the user and the file system do, in whatever order and
    whatever the files, the plugins and the loader are at each moment,
    starting from the manager as its constructor leaves it: as long as no
    assertion fails, the page at each index is the page of the document at
    that index, a tab is current exactly when there are tabs, no document is
    registered twice, and the undo stack of the current document is the
    active one and its scene the one with the selected tool. *)
Theorem reachable_wellFormed (l : list (Env * Action)) (m : t) :
  acts l init = Some m →
  aligned m ∧ tabsOk m ∧ uniqueObjects m ∧
  UndoGroup.activeStack (mUndoGroup m) = currentId m ∧
  mSceneWithTool m = currentId m ∧
  length (TabWidget.pages (mTabWidget m)) = length (mDocuments m).
Proof.
  intros H.
  pose proof (acts_wellFormed l init m init_wellFormed H)
    as (Ha & Ht & Hu & Hf1 & Hf2).
  do 5 (split; [done |]). by apply aligned_length.
Qed.

Lemma reachable_wellFormed_witness :
  ∃ m, acts [(directory, AddDocument docA); (directory, AddDocument docB);
             (directory, SwitchToLeftDocument);
             (directory, FileChanged "a.tmx");
             (allocatingAt 6%nat directory, FileChanged "a.tmx");
             (allocatingAt 7%nat directory, ReloadCurrentDocument);
             (directory, MoveTab 0 1); (directory, CloseCurrentDocument)] init
       = Some m ∧
       mSceneWithTool m = currentId m ∧
       (docId <$> mDocuments m) = [2%nat] ∧
       mSceneWithTool (default init
         (acts [(directory, AddDocument docA); (directory, AddDocument docB);
                (directory, SwitchToLeftDocument);
                (directory, FileChanged "a.tmx");
                (allocatingAt 6%nat directory, FileChanged "a.tmx");
                (allocatingAt 7%nat directory, ReloadCurrentDocument)] init))
       = Some 7%nat.
Proof.
  assert (Hrun : ∃ m,
    acts [(directory, AddDocument docA); (directory, AddDocument docB);
          (directory, SwitchToLeftDocument);
          (directory, FileChanged "a.tmx");
          (allocatingAt 6%nat directory, FileChanged "a.tmx");
          (allocatingAt 7%nat directory, ReloadCurrentDocument);
          (directory, MoveTab 0 1); (directory, CloseCurrentDocument)] init
    = Some m ∧ (docId <$> mDocuments m) = [2%nat]).
  { eexists. split; vm_compute; reflexivity. }
  destruct Hrun as (m & Hm & Hids). exists m. split; [exact Hm |].
  destruct (reachable_wellFormed _ m Hm) as (_ & _ & _ & _ & H5 & _).
  split; [exact H5 |]. split; [exact Hids |]. vm_compute. reflexivity.
Defined.

(** X10. When a file changed on disk under a document with unsaved
    changes, the warning of the document's page is visible afterwards.
    Saving the document (the slot of [saved]) and the warning's button to
    ignore then do the same: the warning of that page is hidden, the page
    keeps its view and scene, and documents, other pages, current index, undo
    group, tool, watcher and signals are as before the notification; when the
    warning was hidden before the notification, the manager is back as it
    was. *)
Theorem warning_hidden_by_save_or_ignore (env : Env) (name : string) (m : t)
    (index : Z) (document : MapDocument) :
  wellFormed m →
  QList.at_ (mDocuments m) index = Some document →
  resolvesTo env name document →
  (∀ (k : nat) d', Z.of_nat k < index → mDocuments m !! k = Some d' →
                   ¬ resolvesTo env name d') →
  lastModified env name ≠ lastSaved document → isModified document = true →
  ∃ m1 m2 c c1 c2,
    TabWidget.pages (mTabWidget m) !! Z.to_nat index = Some c ∧
    fileChanged env name m = Some m1 ∧
    TabWidget.pages (mTabWidget m1) !! Z.to_nat index = Some c1 ∧
    warningVisible c1 = true ∧
    mapView c1 = mapView c ∧ sceneDocument c1 = sceneDocument c ∧
    documentSaved (docId document) m1 = Some m2 ∧
    ignoreWarning (Z.to_nat index) m1 = m2 ∧
    TabWidget.pages (mTabWidget m2) !! Z.to_nat index = Some c2 ∧
    warningVisible c2 = false ∧
    mapView c2 = mapView c ∧ sceneDocument c2 = sceneDocument c ∧
    (∀ j : nat, j ≠ Z.to_nat index →
       TabWidget.pages (mTabWidget m2) !! j = TabWidget.pages (mTabWidget m) !! j) ∧
    currentIndex m2 = currentIndex m ∧
    mDocuments m2 = mDocuments m ∧ mUndoGroup m2 = mUndoGroup m ∧
    mSceneWithTool m2 = mSceneWithTool m ∧
    mFileSystemWatcher m2 = mFileSystemWatcher m ∧
    emitted m2 = emitted m ∧
    c1 = setFileChangedWarningVisible true c ∧
    m2 = setPage (Z.to_nat index) (setFileChangedWarningVisible false c) m ∧
    (warningVisible c = false → m2 = m).
Proof.
  intros Hwf Hat Hres Hmin Htime Hmod.
  destruct (prompt_state env name m index document Hwf Hat Hres Hmin Htime Hmod)
    as (c & Hc & _ & Hfc).
  pose proof Hwf as (_ & _ & Hu & _).
  pose proof Hat as Hat'. apply at_Some in Hat' as [Hi0 Hdoc].
  pose proof (lookup_lt_Some _ _ _ Hc) as Hi.
  set (m1 := setPage (Z.to_nat index) (setFileChangedWarningVisible true c) m) in *.
  assert (Hp1 : TabWidget.pages (mTabWidget m1) !! Z.to_nat index
                = Some (setFileChangedWarningVisible true c))
    by (subst m1; simpl; by rewrite list_lookup_insert_eq by lia).
  assert (Hsaved : documentSaved (docId document) m1
                   = Some (setPage (Z.to_nat index)
                             (setFileChangedWarningVisible false c) m)).
  { unfold documentSaved.
    assert (indexOf (docId document) m1 = index) as ->.
    { rewrite (indexOf_unique m1 (Z.to_nat index) document Hu Hdoc). lia. }
    rewrite bool_decide_eq_false_2 by lia.
    assert (TabWidget.widget (mTabWidget m1) index
            = Some (setFileChangedWarningVisible true c)) as ->
      by (apply at_Some; done).
    simpl. f_equal. apply (setPage_setPage (Z.to_nat index)). }
  assert (Hignore : ignoreWarning (Z.to_nat index) m1
                    = setPage (Z.to_nat index)
                        (setFileChangedWarningVisible false c) m).
  { unfold ignoreWarning. subst m1. simpl. by rewrite alter_insert_same. }
  exists m1, (setPage (Z.to_nat index) (setFileChangedWarningVisible false c) m),
    c, (setFileChangedWarningVisible true c), (setFileChangedWarningVisible false c).
  do 8 (split; [done |]).
  split; [simpl; by apply list_lookup_insert_eq |].
  do 3 (split; [done |]).
  split; [intros j Hj; simpl; by apply list_lookup_insert_ne |].
  do 8 (split; [done |]).
  intros Hhidden.
  assert (setFileChangedWarningVisible false c = c) as ->
    by (destruct c; simpl in *; by subst).
  by rewrite setPage_same.
Qed.

Lemma warning_hidden_by_save_or_ignore_witness :
  ∃ m1 c1 c2,
    fileChanged directory "b.tmx" threeOpen = Some m1 ∧
    TabWidget.pages (mTabWidget m1) !! 1%nat = Some c1 ∧
    warningVisible c1 = true ∧
    documentSaved 2%nat m1 = Some threeOpen ∧
    ignoreWarning 1 m1 = threeOpen ∧
    TabWidget.pages (mTabWidget threeOpen) !! 1%nat = Some c2 ∧
    warningVisible c2 = false.
Proof.
  assert (Hat : QList.at_ (mDocuments threeOpen) 1 = Some docB) by reflexivity.
  assert (Hres : resolvesTo directory "b.tmx" docB)
    by (clear; split; [vm_compute; intros H; discriminate H | reflexivity]).
  assert (Hmin : ∀ (k : nat) d', Z.of_nat k < 1 → mDocuments threeOpen !! k = Some d' →
                                 ¬ resolvesTo directory "b.tmx" d').
  { clear. intros [| k] d' Hk Hd'; [| lia].
    vm_compute in Hd'. injection Hd' as <-.
    intros [_ Heq]. vm_compute in Heq. discriminate Heq. }
  assert (Htime : lastModified directory "b.tmx" ≠ lastSaved docB)
    by (clear; vm_compute; intros H; discriminate H).
  destruct (warning_hidden_by_save_or_ignore directory "b.tmx" threeOpen 1 docB
              wellFormed_threeOpen Hat Hres Hmin Htime eq_refl)
    as (m1 & m2 & c & c1 & c2 & Hc & H1 & Hp1 & Hv1 & _ & _ & Hs & Hi & Hp2 & Hv2
        & _ & _ & _ & _ & _ & _ & _ & _ & _ & _ & _ & Hback).
  assert (Hhidden : warningVisible c = false)
    by (clear - Hc; vm_compute in Hc; injection Hc as <-; reflexivity).
  specialize (Hback Hhidden).
  exists m1, c1, c2. split; [exact H1 |]. split; [exact Hp1 |]. split; [exact Hv1 |].
  rewrite <- Hback.
  split; [exact Hs |]. split; [exact Hi |]. split; [exact Hp2 | exact Hv2].
Defined.

(** X11. The notification that shows the warning of a page changes
    nothing but that page: its warning is visible afterwards, and documents,
    current tab, other pages, undo group and signals are as before. A second
    notification for the same file changes nothing any more; and after the
    user chose to ignore the warning, which hides it, the next notification
    makes it visible again. *)
Theorem warning_shown_again (env : Env) (name : string) (m : t)
    (index : Z) (document : MapDocument) :
  wellFormed m →
  QList.at_ (mDocuments m) index = Some document →
  resolvesTo env name document →
  (∀ (k : nat) d', Z.of_nat k < index → mDocuments m !! k = Some d' →
                   ¬ resolvesTo env name d') →
  lastModified env name ≠ lastSaved document → isModified document = true →
  ∃ m1 c1 c0,
    fileChanged env name m = Some m1 ∧ wellFormed m1 ∧
    TabWidget.pages (mTabWidget m1) !! Z.to_nat index = Some c1 ∧
    warningVisible c1 = true ∧
    mDocuments m1 = mDocuments m ∧ currentIndex m1 = currentIndex m ∧
    mUndoGroup m1 = mUndoGroup m ∧
    emitted m1 = emitted m ∧
    (∀ i : nat, i ≠ Z.to_nat index →
       TabWidget.pages (mTabWidget m1) !! i = TabWidget.pages (mTabWidget m) !! i) ∧
    fileChanged env name m1 = Some m1 ∧
    TabWidget.pages (mTabWidget (ignoreWarning (Z.to_nat index) m1)) !! Z.to_nat index
    = Some c0 ∧
    warningVisible c0 = false ∧
    fileChanged env name (ignoreWarning (Z.to_nat index) m1) = Some m1.
Proof.
  intros Hwf Hat Hres Hmin Htime Hmod.
  destruct (prompt_state env name m index document Hwf Hat Hres Hmin Htime Hmod)
    as (c & Hc & Hagain & Hfc).
  pose proof (lookup_lt_Some _ _ _ Hc) as Hi.
  exists (setPage (Z.to_nat index) (setFileChangedWarningVisible true c) m),
    (setFileChangedWarningVisible true c), (setFileChangedWarningVisible false c).
  split; [done |]. split; [by apply warning_wellFormed |].
  split; [simpl; by apply list_lookup_insert_eq |].
  do 5 (split; [done |]).
  split; [intros i Hne; simpl; by rewrite list_lookup_insert_ne |].
  split; [apply Hagain |].
  split; [unfold ignoreWarning; simpl; rewrite alter_insert_same;
          by apply list_lookup_insert_eq |].
  split; [done |].
  unfold ignoreWarning. simpl. rewrite alter_insert_same.
  apply (Hagain false c).
Qed.

Lemma warning_shown_again_witness :
  ∃ m1 c1 c0,
    fileChanged directory "b.tmx" threeOpen = Some m1 ∧
    TabWidget.pages (mTabWidget m1) !! 1%nat = Some c1 ∧
    warningVisible c1 = true ∧
    fileChanged directory "b.tmx" m1 = Some m1 ∧
    TabWidget.pages (mTabWidget (ignoreWarning 1 m1)) !! 1%nat = Some c0 ∧
    warningVisible c0 = false ∧
    fileChanged directory "b.tmx" (ignoreWarning 1 m1) = Some m1.
Proof.
  assert (Hat : QList.at_ (mDocuments threeOpen) 1 = Some docB) by reflexivity.
  assert (Hres : resolvesTo directory "b.tmx" docB)
    by (clear; split; [vm_compute; intros H; discriminate H | reflexivity]).
  assert (Hmin : ∀ (k : nat) d', Z.of_nat k < 1 → mDocuments threeOpen !! k = Some d' →
                                 ¬ resolvesTo directory "b.tmx" d').
  { clear. intros [| k] d' Hk Hd'; [| lia].
    vm_compute in Hd'. injection Hd' as <-.
    intros [_ Heq]. vm_compute in Heq. discriminate Heq. }
  assert (Htime : lastModified directory "b.tmx" ≠ lastSaved docB)
    by (clear; vm_compute; intros H; discriminate H).
  destruct (warning_shown_again directory "b.tmx" threeOpen 1 docB
              wellFormed_threeOpen Hat Hres Hmin Htime eq_refl)
    as (m1 & c1 & c0 & H1 & _ & Hp1 & Hv1 & _ & _ & _ & _ & _ & H7 & Hp0 & Hv0 & H8).
  exists m1, c1, c0.
  split; [exact H1 |]. split; [exact Hp1 |]. split; [exact Hv1 |].
  split; [exact H7 |]. split; [exact Hp0 |]. split; [exact Hv0 | exact H8].
Defined.

(** X12. The accessors agree with one another. With no document open
    [currentDocument], [currentMapView] and [currentMapScene] are all null.
    Otherwise the current document is the document at the current index, the
    current view is the view of its page and the current scene is its scene.
    [viewForDocument] gives, for each open document, the view of the page at
    the document's index, and null for a document that is not open; none of
    them fails. *)
Theorem accessors_agree (m : t) :
  wellFormed m →
  (mDocuments m = [] →
   currentDocument m = Some None ∧ currentMapView m = None ∧
   currentMapScene m = None) ∧
  (mDocuments m ≠ [] →
   ∃ d c,
     mDocuments m !! Z.to_nat (currentIndex m) = Some d ∧
     TabWidget.pages (mTabWidget m) !! Z.to_nat (currentIndex m) = Some c ∧
     currentDocument m = Some (Some d) ∧
     currentMapView m = Some (mapView c) ∧
     currentMapScene m = Some (docId d) ∧
     viewForDocument (docId d) m = Some (currentMapView m)) ∧
  (∀ (i : nat) d, mDocuments m !! i = Some d →
     ∃ c, TabWidget.pages (mTabWidget m) !! i = Some c ∧
          sceneDocument c = docId d ∧
          viewForDocument (docId d) m = Some (Some (mapView c))) ∧
  (∀ x, x ∉ (docId <$> mDocuments m) → viewForDocument x m = Some None).
Proof.
  intros Hwf. pose proof Hwf as (Ha & Ht & Hu & _).
  pose proof (aligned_length m Ha) as Hlen.
  assert (Hview : ∀ (i : nat) d, mDocuments m !! i = Some d →
     ∃ c, TabWidget.pages (mTabWidget m) !! i = Some c ∧
          sceneDocument c = docId d ∧
          viewForDocument (docId d) m = Some (Some (mapView c))).
  { intros i d Hd. pose proof (lookup_lt_Some _ _ _ Hd) as Hi.
    destruct (lookup_lt_is_Some_2 (TabWidget.pages (mTabWidget m)) i) as [c Hc];
      [lia |].
    exists c. split; [done |]. split.
    { pose proof (aligned_lookup m i Ha) as Hal. rewrite Hc, Hd in Hal.
      simpl in Hal. by injection Hal. }
    unfold viewForDocument. rewrite (indexOf_unique m i d Hu Hd).
    rewrite bool_decide_eq_false_2 by lia.
    unfold TabWidget.widget. rewrite at_of_nat, Hc. done. }
  split; [| split; [| split; [done |]]].
  - intros Hnil. rewrite Hnil in Hlen. simpl in Hlen.
    apply length_zero_iff_nil in Hlen.
    assert (Hcur : currentIndex m = -1)
      by (destruct Ht as [[_ ?] | ?]; [done | rewrite Hlen in *; simpl in *; lia]).
    unfold currentDocument, currentMapView, currentMapScene, TabWidget.currentWidget,
      TabWidget.widget.
    rewrite Hcur, bool_decide_eq_true_2 by done.
    unfold currentIndex in Hcur. rewrite Hcur, Hlen. done.
  - intros Hne. pose proof (current_in_range m Hwf Hne) as Hcur.
    destruct (lookup_lt_is_Some_2 (mDocuments m) (Z.to_nat (currentIndex m)))
      as [d Hd]; [lia |].
    destruct (Hview _ d Hd) as (c & Hc & Hsc & Hv).
    assert (Hw : TabWidget.currentWidget (mTabWidget m) = Some c)
      by (apply at_Some; split; [apply Hcur | exact Hc]).
    exists d, c. split; [done |]. split; [done |].
    split.
    { unfold currentDocument. rewrite bool_decide_eq_false_2 by lia.
      assert (QList.at_ (mDocuments m) (currentIndex m) = Some d) as ->
        by (apply at_Some; split; [apply Hcur | exact Hd]).
      done. }
    unfold currentMapView, currentMapScene. rewrite Hw. simpl.
    split; [done |]. split; [by rewrite Hsc | done].
  - intros x Hx. unfold viewForDocument. by rewrite indexOf_none.
Qed.

Lemma accessors_agree_witness :
  currentDocument threeOpen = Some (Some docC) ∧
  currentMapScene threeOpen = Some 3%nat ∧
  viewForDocument 9%nat threeOpen = Some None.
Proof.
  assert (Hx : 9%nat ∉ (docId <$> mDocuments threeOpen))
    by (apply (bool_decide_unpack _); vm_compute; reflexivity).
  destruct (accessors_agree threeOpen wellFormed_threeOpen) as (_ & _ & _ & Hnone).
  split; [reflexivity |]. split; [reflexivity | exact (Hnone 9%nat Hx)].
Defined.

(** X13. Switching to a document given by its address makes that
    document the current one when it is open, and leaves the documents as
    they are; for a document that is not open nothing happens at all. *)
Theorem switchToDocumentPtr_selects (m : t) :
  wellFormed m →
  (∀ (i : nat) d, mDocuments m !! i = Some d →
     ∃ m', switchToDocumentPtr (docId d) m = Some m' ∧ wellFormed m' ∧
           currentIndex m' = Z.of_nat i ∧
           currentDocument m' = Some (Some d) ∧
           mDocuments m' = mDocuments m ∧
           mSceneWithTool m' = Some (docId d)) ∧
  (∀ x, x ∉ (docId <$> mDocuments m) → switchToDocumentPtr x m = Some m).
Proof.
  intros Hwf. pose proof Hwf as (Ha & Ht & Hu & _).
  pose proof (aligned_length m Ha) as Hlen. split.
  - intros i d Hd. pose proof (lookup_lt_Some _ _ _ Hd) as Hi.
    unfold switchToDocumentPtr. rewrite (indexOf_unique m i d Hu Hd).
    rewrite bool_decide_eq_false_2 by lia.
    destruct (switchToDocument_valid (Z.of_nat i) m Hwf)
      as (m' & Hm' & Hwf' & Hc & Hdocs & _); [lia |].
    assert (Hat : QList.at_ (mDocuments m') (Z.of_nat i) = Some d)
      by (rewrite at_of_nat, Hdocs; done).
    pose proof Hwf' as (_ & _ & _ & _ & Hf2).
    exists m'. do 3 (split; [done |]). split.
    { unfold currentDocument. rewrite Hc, bool_decide_eq_false_2 by lia.
      by rewrite Hat. }
    split; [done |]. rewrite Hf2. unfold currentId.
    rewrite Hc, bool_decide_eq_true_2 by lia. by rewrite Nat2Z.id, Hdocs, Hd.
  - intros x Hx. unfold switchToDocumentPtr. rewrite indexOf_none by done.
    by rewrite bool_decide_eq_true_2.
Qed.

Lemma switchToDocumentPtr_selects_witness :
  ∃ m', switchToDocumentPtr 1%nat threeOpen = Some m' ∧
        currentDocument m' = Some (Some docA).
Proof.
  assert (Hd : mDocuments threeOpen !! 0%nat = Some docA) by reflexivity.
  destruct (switchToDocumentPtr_selects threeOpen wellFormed_threeOpen) as [Hsel _].
  destruct (Hsel 0%nat docA Hd) as (m' & H1 & _ & _ & H4 & _).
  exists m'. split; [exact H1 | exact H4].
Defined.

(** X14. [centerViewOn] never fails and changes nothing but the view of
    the current page, which is centred by the renderer of the current
    document: documents, current index, signals and the other pages are as
    before, and with no document open the manager is left as it is. *)
Theorem centerViewOn_only_current_view (env : Env) (x y : qreal) (m : t) :
  wellFormed m →
  ∃ m', centerViewOn env x y m = Some m' ∧ wellFormed m' ∧
    mDocuments m' = mDocuments m ∧ currentIndex m' = currentIndex m ∧
    emitted m' = emitted m ∧ mUndoGroup m' = mUndoGroup m ∧
    (mDocuments m = [] → m' = m) ∧
    (∀ i : nat, i ≠ Z.to_nat (currentIndex m) →
       TabWidget.pages (mTabWidget m') !! i = TabWidget.pages (mTabWidget m) !! i) ∧
    (∀ d c, mDocuments m !! Z.to_nat (currentIndex m) = Some d →
            TabWidget.pages (mTabWidget m) !! Z.to_nat (currentIndex m) = Some c →
            mDocuments m ≠ [] →
            TabWidget.pages (mTabWidget m') !! Z.to_nat (currentIndex m)
            = Some (withMapView (centerOn env d x y) c)).
Proof.
  intros Hwf. pose proof Hwf as (Ha & Ht & _).
  pose proof (aligned_length m Ha) as Hlen.
  destruct (decide (mDocuments m = [])) as [Hdocs | Hdocs].
  - rewrite Hdocs in Hlen. simpl in Hlen. apply length_zero_iff_nil in Hlen.
    assert (Hnone : currentMapView m = None).
    { unfold currentMapView, TabWidget.currentWidget, TabWidget.widget.
      destruct (QList.at_ _ _) as [c |] eqn:Hc; [| done].
      apply at_Some in Hc as [_ Hc]. by rewrite Hlen in Hc. }
    exists m. unfold centerViewOn. rewrite Hnone.
    do 7 (split; [done |]). split; [done |]. intros d c Hd. done.
  - assert (Hcur : 0 ≤ currentIndex m < Z.of_nat (length (mDocuments m)))
      by (by apply current_in_range).
    destruct (at_valid (mDocuments m) _ Hcur) as [d Hat].
    rewrite (centerViewOn_spec env x y m d Hat) by lia.
    eexists. split; [reflexivity |].
    split; [apply pages_wellFormed; [done | by apply fmap_alter_same] |].
    do 4 (split; [done |]). split; [done |].
    simpl. split.
    + intros i Hi. by rewrite list_lookup_alter_ne.
    + intros d' c Hd' Hc _. apply at_Some in Hat as [_ Hd].
      assert (d' = d) as -> by congruence.
      unfold currentIndex in *. by rewrite list_lookup_alter_eq, Hc.
Qed.

Lemma centerViewOn_only_current_view_witness :
  ∃ m', centerViewOn directory 5 7 threeOpen = Some m' ∧
        mDocuments m' = mDocuments threeOpen ∧
        TabWidget.pages (mTabWidget m') !! 0%nat
        = TabWidget.pages (mTabWidget threeOpen) !! 0%nat.
Proof.
  assert (Hne : 0%nat ≠ Z.to_nat (currentIndex threeOpen)) by (vm_compute; discriminate).
  destruct (centerViewOn_only_current_view directory 5 7 threeOpen wellFormed_threeOpen)
    as (m' & H1 & _ & H3 & _ & _ & _ & _ & H8 & _).
  exists m'. split; [exact H1 |]. split; [exact H3 | exact (H8 0%nat Hne)].
Defined.
(** X15. Whatever the user and the file system do, whatever the files,
    the plugins and the loader are at each moment, starting from the manager
    as its constructor leaves it, the undo group holds the undo stacks of the
    open documents, each once, and no other stack; and the active stack, when
    there is one, is a stack of the group. *)
Theorem reachable_undo_group (l : list (Env * Action)) (m : t) :
  acts l init = Some m →
  stacksOk m ∧
  length (UndoGroup.stacks (mUndoGroup m)) = length (mDocuments m) ∧
  (∀ x, UndoGroup.activeStack (mUndoGroup m) = Some x →
        x ∈ UndoGroup.stacks (mUndoGroup m)) ∧
  (mDocuments m = [] → mUndoGroup m = UndoGroup.empty).
Proof.
  intros H.
  assert (Hst0 : stacksOk init) by (split; [apply NoDup_nil_2 | done]).
  pose proof (acts_wellFormed l init m init_wellFormed H) as Hwf.
  pose proof (acts_stacksOk l init m init_wellFormed Hst0 H) as Hst.
  pose proof Hwf as (Ha & Ht & Hu & Hf1 & _).
  pose proof Hst as [Hnd Hiff].
  assert (Hlen : length (UndoGroup.stacks (mUndoGroup m)) = length (mDocuments m)).
  { rewrite <- (length_fmap docId (mDocuments m)).
    apply Permutation_length, NoDup_Permutation; done. }
  split; [done |]. split; [done |]. split.
  - intros x Hx. apply Hiff. apply currentId_elem. by rewrite <- Hf1.
  - intros Hnil. rewrite Hnil in Hlen. simpl in Hlen.
    apply length_zero_iff_nil in Hlen.
    assert (Hact : UndoGroup.activeStack (mUndoGroup m) = None).
    { rewrite Hf1. unfold currentId. case_bool_decide; [| done].
      by rewrite Hnil. }
    destruct (mUndoGroup m) as [st act]. simpl in Hlen, Hact.
    by rewrite Hlen, Hact.
Qed.

Lemma reachable_undo_group_witness :
  ∃ m, acts [(directory, AddDocument docA); (directory, AddDocument docB);
             (directory, ReloadDocumentAt 0);
             (allocatingAt 6%nat directory, ReloadDocumentAt 0);
             (allocatingAt 7%nat directory, FileChanged "a.tmx");
             (directory, CloseDocumentAt 1)] init = Some m ∧
       stacksOk m ∧
       UndoGroup.stacks (mUndoGroup m) = [6%nat].
Proof.
  assert (Hrun : ∃ m,
    acts [(directory, AddDocument docA); (directory, AddDocument docB);
          (directory, ReloadDocumentAt 0);
          (allocatingAt 6%nat directory, ReloadDocumentAt 0);
          (allocatingAt 7%nat directory, FileChanged "a.tmx");
          (directory, CloseDocumentAt 1)] init = Some m ∧
    UndoGroup.stacks (mUndoGroup m) = [6%nat]).
  { eexists. split; vm_compute; reflexivity. }
  destruct Hrun as (m & Hm & Hst). exists m. split; [exact Hm |].
  destruct (reachable_undo_group _ m Hm) as (H1 & _).
  split; [exact H1 | exact Hst].
Defined.

(** X16. The slot [currentIndexChanged] fails on its assertion when the
    current index is past the documents. Otherwise it leaves documents and
    tabs as they are, emits [currentDocumentChanged] exactly once, with the
    current document or null, gives the tool to the scene of the current page
    (to none when there is no page), and makes the undo stack of the current
    document the active one; with no current document the active stack is
    left as it is. *)
Theorem currentIndexChanged_effect (m : t) :
  (Z.of_nat (length (mDocuments m)) ≤ currentIndex m → currentIndexChanged m = None) ∧
  (currentIndex m = -1 ∨ 0 ≤ currentIndex m < Z.of_nat (length (mDocuments m)) →
   ∃ m' cur,
     currentIndexChanged m = Some m' ∧ currentDocument m = Some cur ∧
     mDocuments m' = mDocuments m ∧ mTabWidget m' = mTabWidget m ∧
     emitted m' = emitted m ++ [currentDocumentChanged (docId <$> cur)] ∧
     mSceneWithTool m' = currentMapScene m ∧
     UndoGroup.stacks (mUndoGroup m') = UndoGroup.stacks (mUndoGroup m) ∧
     UndoGroup.activeStack (mUndoGroup m') =
       match cur with
       | Some d => Some (docId d)
       | None => UndoGroup.activeStack (mUndoGroup m)
       end).
Proof.
  split.
  - intros Hbig. unfold currentIndexChanged.
    assert (∀ s : option DocId,
              currentDocument (match s with
                               | Some _ => setSceneWithTool None m
                               | None => m
                               end) = None) as ->; [| done].
    intros s.
    assert (currentDocument m = None) as Hnone.
    { unfold currentDocument. rewrite bool_decide_eq_false_2 by lia.
      destruct (QList.at_ _ _) as [d |] eqn:Hat; [| done].
      apply at_Some in Hat as [_ Hat]. apply lookup_lt_Some in Hat. lia. }
    by destruct s.
  - intros Hcur.
    destruct (currentIndexChanged_ok m Hcur) as (m' & Hm' & _).
    destruct (currentIndexChanged_spec m m' Hm')
      as (Hd & Ht & Hs & _ & _ & Hsc & cur & Hc & Hact & Hem).
    by exists m', cur.
Qed.

Lemma currentIndexChanged_effect_witness :
  ∃ m', currentIndexChanged threeOpen = Some m' ∧
        emitted m' = emitted threeOpen ++ [currentDocumentChanged (Some 3%nat)].
Proof.
  assert (Hcur : currentIndex threeOpen = -1 ∨
                 0 ≤ currentIndex threeOpen
                 < Z.of_nat (length (mDocuments threeOpen)))
    by (right; vm_compute; split; discriminate || reflexivity).
  destruct (currentIndexChanged_effect threeOpen) as [_ Hok].
  destruct (Hok Hcur) as (m' & cur & H1 & H2 & _ & _ & H5 & _).
  assert (Hc : cur = Some docC) by (vm_compute in H2; by injection H2 as <-).
  exists m'. split; [exact H1 |]. rewrite Hc in H5. exact H5.
Defined.


(** X22. Reading the map of an open document again, seen from outside.
    When the file can be read and gives a document that is not open yet,
    [reloadDocumentAt] answers true; the new document is announced as current
    with [currentDocumentChanged] before the old one is announced with
    [documentAboutToClose]; afterwards the new document is the current one
    whichever was current before, its undo stack is in the undo group and is
    the active one, its scene has the tool, the undo stack of the old document
    has left the group, and the warning of the page is hidden. *)
Theorem reload_replaces_document (env : Env) (index : Z) (m : t)
    (oldDocument newDocument : MapDocument) :
  wellFormed m → stacksOk m →
  QList.at_ (mDocuments m) index = Some oldDocument →
  load env (fileName oldDocument) (readerOf env oldDocument) = inl newDocument →
  docId newDocument ∉ (docId <$> mDocuments m) →
  ∃ m' l c',
    reloadDocumentAt env index m = Some (true, m') ∧
    wellFormed m' ∧ stacksOk m' ∧
    emitted m'
    = emitted m ++ currentDocumentChanged (Some (docId newDocument))
        :: documentAboutToClose (docId oldDocument) :: l ∧
    currentIndex m' = index ∧
    UndoGroup.activeStack (mUndoGroup m') = Some (docId newDocument) ∧
    mSceneWithTool m' = Some (docId newDocument) ∧
    docId newDocument ∈ UndoGroup.stacks (mUndoGroup m') ∧
    (docId oldDocument ∉ UndoGroup.stacks (mUndoGroup m')) ∧
    TabWidget.pages (mTabWidget m') !! Z.to_nat index = Some c' ∧
    warningVisible c' = false.
Proof.
  intros Hwf Hst Hat Hload Hfresh.
  pose proof Hwf as (Ha & _ & Hu & _).
  pose proof Hat as Hat'. apply at_Some in Hat' as [Hi0 Hold].
  pose proof (lookup_lt_Some _ _ _ Hold) as Hi.
  destruct (consistent_page m _ _ (wellFormed_consistent m Hwf) Hold) as [old Hpage].
  destruct (reloadDocumentAt_success env _ m _ _ _ (wellFormed_consistent m Hwf)
              Hu Hold Hpage Hload Hfresh) as (m' & Hm' & Hd & Hp & Hcur).
  rewrite Z2Nat.id in Hm', Hcur by done.
  pose proof (reloadDocumentAt_wellFormed env index m true m' Hwf Hm') as Hwf'.
  pose proof (reloadDocumentAt_stacksOk env index m true m' Hwf Hst Hm') as Hst'.
  destruct (reloadDocumentAt_emitted env index m m' _ _ Hwf Hat Hload Hm') as [l Hem].
  assert (Hidnew : docId (reloadedDocument oldDocument newDocument) = docId newDocument)
    by (unfold reloadedDocument; by destruct (_ && _)).
  assert (Hid : currentId m' = Some (docId newDocument)).
  { unfold currentId. rewrite Hcur, bool_decide_eq_true_2 by done.
    rewrite Hd, list_lookup_insert_eq by done. simpl. by rewrite Hidnew. }
  pose proof Hwf' as (_ & _ & _ & Hf1 & Hf2). pose proof Hst' as [_ Hiff].
  exists m', l, (reloadedPage (mapView old) newDocument).
  do 5 (split; [done |]). rewrite Hf1, Hf2, Hid. do 2 (split; [done |]).
  split; [apply Hiff; by apply currentId_elem |].
  split.
  - intros Hin. apply Hiff in Hin. rewrite Hd in Hin.
    apply list_elem_of_fmap in Hin as (x & Hx & Hin).
    apply list_elem_of_lookup in Hin as [k Hk].
    destruct (decide (k = Z.to_nat index)) as [-> | Hne].
    + rewrite list_lookup_insert_eq in Hk by done. injection Hk as <-.
      apply Hfresh. rewrite <- Hidnew, <- Hx.
      apply list_elem_of_fmap. exists oldDocument. split; [done |].
      by eapply list_elem_of_lookup_2.
    + rewrite list_lookup_insert_ne in Hk by done.
      assert (k = Z.to_nat index); [| done].
      eapply (NoDup_lookup _ k (Z.to_nat index) (docId oldDocument) Hu);
        rewrite list_lookup_fmap; [rewrite Hk; simpl; by f_equal | by rewrite Hold].
  - split; [| done]. rewrite Hp. apply list_lookup_insert_eq.
    by eapply lookup_lt_Some.
Qed.

Lemma reload_replaces_document_witness :
  ∃ m', reloadDocumentAt directory 0 threeOpen = Some (true, m') ∧
        currentIndex m' = 0 ∧
        UndoGroup.activeStack (mUndoGroup m') = Some 4%nat ∧
        (1%nat ∉ UndoGroup.stacks (mUndoGroup m')).
Proof.
  assert (Hfresh : docId docA' ∉ (docId <$> mDocuments threeOpen))
    by (apply (bool_decide_unpack _); vm_compute; reflexivity).
  destruct (reload_replaces_document directory 0 threeOpen docA docA'
              wellFormed_threeOpen stacksOk_threeOpen eq_refl eq_refl Hfresh)
    as (m' & l & c' & H1 & _ & _ & _ & H5 & H6 & _ & _ & H9 & _).
  exists m'. split; [exact H1 |]. split; [exact H5 |]. split; [exact H6 | exact H9].
Defined.
End ManagerProperties.

(** * Facts about the invariant of the creation tool *)

Module ToolFacts.
Import CreateObjectTool Session ToolWellFormed SessionFacts.

Section Facts.
Variable geo : Geometry.
Variable createNewMapObject : t → option MapObject.

Lemma clearNewMapObjectItem_explicit s item it obj g grp :
  mNewMapObjectItem s = Some item → items s !! item = Some it →
  heap s !! mapObject it = Some obj → objectGroup obj = Some g →
  groups s !! g = Some grp →
  clearNewMapObjectItem s
  = Some (mapObject it,
          setOverlayPolygonItem None
            (deleteItem (mOverlayPolygonItem s)
               (setNewMapObjectItem None
                  (deleteItem (Some item)
                     (setHeap (<[mapObject it := setObjectGroup None obj]> (heap s))
                        (setGroups
                           (<[g := setObjects (removeOne (mapObject it) (objects grp))
                                     grp]> (groups s)) s)))))).
Proof.
  intros Hitem Hit Hobj Hg Hgrp. unfold clearNewMapObjectItem.
  rewrite Hitem. simpl. rewrite Hit. simpl. rewrite Hobj. simpl. rewrite Hg. simpl.
  unfold removeObject. rewrite Hgrp. simpl. rewrite Hobj. simpl. done.
Qed.

Lemma clearNewMapObjectItem_inv s r :
  clearNewMapObjectItem s = Some r →
  ∃ item it obj g grp,
    mNewMapObjectItem s = Some item ∧ items s !! item = Some it ∧
    heap s !! mapObject it = Some obj ∧ objectGroup obj = Some g ∧
    groups s !! g = Some grp.
Proof.
  unfold clearNewMapObjectItem. intros H.
  destruct (mNewMapObjectItem s) as [item |]; [| done]. simpl in H.
  destruct (items s !! item) as [it |] eqn:Hit; [| done]. simpl in H.
  destruct (heap s !! mapObject it) as [obj |] eqn:Hobj; [| done]. simpl in H.
  destruct (objectGroup obj) as [g |] eqn:Hg; [| done]. simpl in H.
  unfold removeObject in H.
  destruct (groups s !! g) as [grp |] eqn:Hgrp; [| done].
  by exists item, it, obj, g, grp.
Qed.

(** Everything [cancelNewMapObject] does. *)
Lemma cancelNewMapObject_full s item it obj g grp :
  mNewMapObjectItem s = Some item → items s !! item = Some it →
  heap s !! mapObject it = Some obj → objectGroup obj = Some g →
  groups s !! g = Some grp →
  ∃ s', cancelNewMapObject s = Some s' ∧
    mNewMapObjectItem s' = None ∧ mOverlayPolygonItem s' = None ∧
    currentObjectGroup s' = currentObjectGroup s ∧
    groups s' = <[g := setObjects (removeOne (mapObject it) (objects grp)) grp]>
                  (groups s).
Proof.
  intros Hitem Hit Hobj Hg Hgrp. unfold cancelNewMapObject.
  rewrite (clearNewMapObjectItem_explicit s item it obj g grp Hitem Hit Hobj Hg Hgrp).
  simpl. eexists. split; [reflexivity |].
  destruct (mOverlayPolygonItem s); simpl; done.
Qed.

(** Everything [finishNewMapObject] does. *)
Lemma finishNewMapObject_full s item it obj g grp :
  mNewMapObjectItem s = Some item → items s !! item = Some it →
  heap s !! mapObject it = Some obj → objectGroup obj = Some g →
  groups s !! g = Some grp →
  ∃ s', finishNewMapObject s = Some s' ∧
    mNewMapObjectItem s' = None ∧ mOverlayPolygonItem s' = None ∧
    currentObjectGroup s' = currentObjectGroup s ∧
    groups s' = <[g := setObjects (removeOne (mapObject it) (objects grp)
                                     ++ [mapObject it]) grp]> (groups s) ∧
    heap s' = <[mapObject it := setObjectGroup (Some g) obj]> (heap s) ∧
    undoStack s' = undoStack s ++ [AddMapObject g (mapObject it)] ∧
    baseCalls s' = baseCalls s ∧
    items s' = match mOverlayPolygonItem s with
               | Some overlay => delete overlay (delete item (items s))
               | None => delete item (items s)
               end ∧
    sceneItems s' = match mOverlayPolygonItem s with
                    | Some overlay => removeOne overlay (removeOne item (sceneItems s))
                    | None => removeOne item (sceneItems s)
                    end.
Proof.
  intros Hitem Hit Hobj Hg Hgrp. unfold finishNewMapObject.
  rewrite Hitem. simpl. rewrite Hit. simpl. rewrite Hobj. simpl. rewrite Hg. simpl.
  rewrite (clearNewMapObjectItem_explicit s item it obj g grp Hitem Hit Hobj Hg Hgrp).
  simpl. unfold push, addObject.
  destruct (mOverlayPolygonItem s) as [overlay |]; simpl;
    rewrite !lookup_insert_eq; simpl;
    (eexists; split; [reflexivity |]); simpl;
    rewrite !insert_insert_eq; done.
Qed.

Lemma cancelNewMapObject_idle s s' :
  cancelNewMapObject s = Some s' → mNewMapObjectItem s' = None.
Proof.
  intros H. unfold cancelNewMapObject in H.
  destruct (clearNewMapObjectItem s) as [r |] eqn:Hr; [| done].
  destruct (clearNewMapObjectItem_inv s r Hr)
    as (item & it & obj & g & grp & Hitem & Hit & Hobj & Hg & Hgrp).
  destruct (cancelNewMapObject_full s item it obj g grp Hitem Hit Hobj Hg Hgrp)
    as (s2 & Hc & Hidle & _).
  unfold cancelNewMapObject in Hc. rewrite Hr in Hc. congruence.
Qed.

Lemma finishNewMapObject_idle s s' :
  finishNewMapObject s = Some s' → mNewMapObjectItem s' = None.
Proof.
  intros H. pose proof H as H0. unfold finishNewMapObject in H.
  destruct (mNewMapObjectItem s) as [item |] eqn:Hitem; [| done]. simpl in H.
  destruct (items s !! item) as [it |] eqn:Hit; [| done]. simpl in H.
  destruct (heap s !! mapObject it) as [obj |] eqn:Hobj; [| done]. simpl in H.
  destruct (objectGroup obj) as [g |] eqn:Hg; [| done]. simpl in H.
  destruct (clearNewMapObjectItem s) as [r |] eqn:Hr; [| done].
  destruct (clearNewMapObjectItem_inv s r Hr)
    as (item' & it' & obj' & g' & grp & Hitem' & Hit' & Hobj' & Hg' & Hgrp).
  assert (item' = item) as -> by congruence.
  assert (it' = it) as -> by congruence.
  assert (obj' = obj) as -> by congruence.
  assert (g' = g) as -> by congruence.
  destruct (finishNewMapObject_full s item it obj g grp Hitem Hit Hobj Hg Hgrp)
    as (s2 & Hf & Hidle & _).
  congruence.
Qed.

(** ** The invariant *)

Lemma callBase_wellFormed c s : wellFormed s → wellFormed (callBase c s).
Proof. intros [H1 H2]. by split. Qed.

Lemma setTile_wellFormed tile s : wellFormed s → wellFormed (setTile tile s).
Proof. intros [H1 H2]. by split. Qed.

Lemma cancelNewMapObject_wellFormed s :
  wellFormed s → mNewMapObjectItem s ≠ None →
  ∃ s', cancelNewMapObject s = Some s' ∧ wellFormed s'.
Proof.
  intros [Hcur Hsess] Hs.
  destruct (mNewMapObjectItem s) as [item |] eqn:Hitem; [| done].
  destruct (Hsess item eq_refl) as (it & obj & g & grp & Hit & Hobj & Hg & Hgrp & _).
  destruct (cancelNewMapObject_full s item it obj g grp Hitem Hit Hobj Hg Hgrp)
    as (s' & Hc & Hidle & _ & Hcg & Hgroups).
  exists s'. split; [done |]. split.
  - intros g' Hg'. rewrite Hgroups. apply lookup_insert_is_Some'. right.
    apply Hcur. by rewrite <- Hcg.
  - intros item' Hitem'. congruence.
Qed.

Lemma finishNewMapObject_wellFormed s :
  wellFormed s → mNewMapObjectItem s ≠ None →
  ∃ s', finishNewMapObject s = Some s' ∧ wellFormed s'.
Proof.
  intros [Hcur Hsess] Hs.
  destruct (mNewMapObjectItem s) as [item |] eqn:Hitem; [| done].
  destruct (Hsess item eq_refl) as (it & obj & g & grp & Hit & Hobj & Hg & Hgrp & _).
  destruct (finishNewMapObject_full s item it obj g grp Hitem Hit Hobj Hg Hgrp)
    as (s' & Hc & Hidle & _ & Hcg & Hgroups & _).
  exists s'. split; [done |]. split.
  - intros g' Hg'. rewrite Hgroups. apply lookup_insert_is_Some'. right.
    apply Hcur. by rewrite <- Hcg.
  - intros item' Hitem'. congruence.
Qed.

Lemma started_wellFormed pos g grp s :
  wellFormed s → groups s !! g = Some grp → wellFormed (started pos g grp s).
Proof.
  intros [Hcur _] Hgrp. split.
  - intros g' Hg'. simpl in *. apply lookup_insert_is_Some'. right. by apply Hcur.
  - intros item Hitem. simpl in Hitem. injection Hitem as <-.
    exists {| mapObject := nextAddress s; zValue := 10000 |},
      {| position := pos; objectGroup := Some g |}, g,
      (setObjects (objects grp ++ [nextAddress s]) grp).
    simpl. rewrite !lookup_insert_eq. do 4 (split; [done |]).
    apply elem_of_app. right. by apply list_elem_of_singleton.
Qed.

Lemma startNewMapObject_wellFormed pos g s :
  wellFormed s → mNewMapObjectItem s = None → is_Some (groups s !! g) →
  ∃ s', startNewMapObject createNewMapObject pos g s = Some s' ∧ wellFormed s'.
Proof.
  intros Hwf Hidle [grp Hgrp].
  destruct (createNewMapObject s) as [made |] eqn:Hmade.
  - exists (started pos g grp s).
    split; [by eapply startNewMapObject_started | by apply started_wellFormed].
  - exists s. split; [by apply startNewMapObject_declined | done].
Qed.

Lemma handle_wellFormed ev s :
  wellFormed s →
  ∃ s', handle geo createNewMapObject ev s = Some s' ∧ wellFormed s'.
Proof.
  intros Hwf. destruct ev as [| k | | pos control | e | e | tile]; simpl.
  - unfold deactivate.
    destruct (mNewMapObjectItem s) as [item |] eqn:Hitem.
    + destruct (cancelNewMapObject_wellFormed s Hwf) as (s1 & -> & Hwf1);
        [by rewrite Hitem |].
      simpl. eexists. split; [reflexivity | by apply callBase_wellFormed].
    + simpl. eexists. split; [reflexivity | by apply callBase_wellFormed].
  - unfold keyPressed.
    destruct (mNewMapObjectItem s) as [item |] eqn:Hitem.
    + destruct k.
      * apply finishNewMapObject_wellFormed; [done | by rewrite Hitem].
      * apply finishNewMapObject_wellFormed; [done | by rewrite Hitem].
      * apply cancelNewMapObject_wellFormed; [done | by rewrite Hitem].
      * eexists. split; [reflexivity | by apply callBase_wellFormed].
    + destruct k; (eexists; split; [reflexivity | by apply callBase_wellFormed]).
  - by exists s.
  - unfold mouseMoved. simpl.
    destruct (mNewMapObjectItem s);
      (eexists; split; [reflexivity | by apply callBase_wellFormed]).
  - unfold mousePressed.
    destruct (mNewMapObjectItem s) as [item |] eqn:Hitem; [by exists s |].
    destruct (button e);
      try (eexists; split; [reflexivity | by apply callBase_wellFormed]).
    destruct (currentObjectGroup s) as [g |] eqn:Hg; [| by exists s].
    pose proof Hwf as [Hcur _]. destruct (Hcur g Hg) as [grp Hgrp].
    rewrite Hgrp. simpl. destruct (isVisible grp); simpl; [| by exists s].
    destruct (mMode s).
    + destruct (mTile s); [| by exists s].
      apply startNewMapObject_wellFormed; [done | done | by rewrite Hgrp].
    + apply startNewMapObject_wellFormed; [done | done | by rewrite Hgrp].
  - unfold mouseReleased. destruct (mNewMapObjectItem s); by exists s.
  - eexists. split; [reflexivity | by apply setTile_wellFormed].
Qed.

Lemma run_wellFormed evs s :
  wellFormed s →
  ∃ s', run geo createNewMapObject evs s = Some s' ∧ wellFormed s'.
Proof.
  revert s. induction evs as [| ev evs IH]; intros s Hwf; simpl.
  - by exists s.
  - destruct (handle_wellFormed ev s Hwf) as (s1 & -> & Hwf1). simpl.
    by apply IH.
Qed.

Lemma create_wellFormed mode hp gs cur prefs next :
  (∀ g, cur = Some g → is_Some (gs !! g)) →
  wellFormed (create mode hp gs cur prefs next).
Proof. intros Hcur. split; [exact Hcur |]. intros item Hitem. done. Qed.

Lemma event_kinds ev : quiet ev ∨ confirms ev ∨ cancels ev.
Proof.
  destruct ev as [| k | | | | |]; simpl; try (by left).
  - right. right. by right.
  - destruct k; simpl.
    + right. left. by left.
    + right. left. by right.
    + right. right. by left.
    + by left.
Qed.

Lemma handle_ends_session ev s s' :
  confirms ev ∨ cancels ev → mNewMapObjectItem s ≠ None →
  handle geo createNewMapObject ev s = Some s' → mNewMapObjectItem s' = None.
Proof.
  intros Hev Hs H.
  destruct (mNewMapObjectItem s) as [item |] eqn:Hitem; [| done].
  destruct Hev as [[-> | ->] | [-> | ->]]; simpl in H.
  - unfold keyPressed in H. rewrite Hitem in H. by eapply finishNewMapObject_idle.
  - unfold keyPressed in H. rewrite Hitem in H. by eapply finishNewMapObject_idle.
  - unfold keyPressed in H. rewrite Hitem in H. by eapply cancelNewMapObject_idle.
  - unfold deactivate in H. rewrite Hitem in H.
    destruct (cancelNewMapObject s) as [s1 |] eqn:Hc; [| done].
    simpl in H. injection H as <-. simpl. by eapply cancelNewMapObject_idle.
Qed.

(** ** A press with no creation going on *)

Lemma mousePressed_started e s g grp made :
  mNewMapObjectItem s = None → button e = LeftButton →
  currentObjectGroup s = Some g → groups s !! g = Some grp → isVisible grp = true →
  (mMode s = CreateTile → is_Some (mTile s)) →
  createNewMapObject s = Some made →
  mousePressed geo createNewMapObject e s
  = Some (started (pressPosition geo e s) g grp s).
Proof.
  intros Hidle Hleft Hg Hgrp Hvis Htile Hmade.
  unfold mousePressed, pressPosition.
  rewrite Hidle, Hleft, Hg, Hgrp. simpl. rewrite Hvis. simpl.
  destruct (mMode s).
  - destruct (Htile eq_refl) as [tile ->].
    by eapply startNewMapObject_started.
  - by eapply startNewMapObject_started.
Qed.

Lemma handle_idle ev s s' :
  mNewMapObjectItem s = None → handle geo createNewMapObject ev s = Some s' →
  (mNewMapObjectItem s' = None ∧ sameModel s s') ∨
  (∃ e g grp,
     ev = MousePressed e ∧ button e = LeftButton ∧
     currentObjectGroup s = Some g ∧ groups s !! g = Some grp ∧
     isVisible grp = true ∧ is_Some (createNewMapObject s) ∧
     (mMode s = CreateTile → is_Some (mTile s)) ∧
     s' = started (pressPosition geo e s) g grp s).
Proof.
  intros Hidle H.
  assert (Hsame : ∀ c, (mNewMapObjectItem (callBase c s) = None ∧
                        sameModel s (callBase c s)))
    by (intros c; split; [done | by repeat split]).
  assert (Hrefl : mNewMapObjectItem s = None ∧ sameModel s s)
    by (split; [done | apply sameModel_refl]).
  destruct ev as [| k | | pos control | e | e | tile]; simpl in H.
  - left. unfold deactivate in H. rewrite Hidle in H. simpl in H.
    injection H as <-. apply Hsame.
  - left. unfold keyPressed in H. rewrite Hidle in H.
    destruct k; injection H as <-; apply Hsame.
  - left. injection H as <-. apply Hrefl.
  - left. unfold mouseMoved in H. simpl in H. rewrite Hidle in H.
    injection H as <-. apply Hsame.
  - unfold mousePressed in H. rewrite Hidle in H.
    destruct (button e) eqn:Hbutton;
      try (left; injection H as <-; apply Hsame).
    destruct (currentObjectGroup s) as [g |] eqn:Hg;
      [| left; injection H as <-; apply Hrefl].
    destruct (groups s !! g) as [grp |] eqn:Hgrp; [| done]. simpl in H.
    destruct (isVisible grp) eqn:Hvis; simpl in H;
      [| left; injection H as <-; apply Hrefl].
    destruct (createNewMapObject s) as [made |] eqn:Hmade.
    + assert (Hstart : (mMode s = CreateTile → is_Some (mTile s)) →
                       s' = started (pressPosition geo e s) g grp s).
      { intros Htile.
        pose proof (mousePressed_started e s g grp made Hidle Hbutton Hg Hgrp Hvis
                      Htile Hmade) as Hstart.
        unfold mousePressed in Hstart.
        rewrite Hidle, Hbutton, Hg, Hgrp in Hstart. simpl in Hstart.
        rewrite Hvis in Hstart. simpl in Hstart. congruence. }
      destruct (mMode s) eqn:Hm.
      * destruct (mTile s) as [tile |] eqn:Ht.
        -- right. exists e, g, grp. do 5 (split; [done |]).
           split; [by eexists |]. split; [by intros _; eexists |].
           apply Hstart. intros _. by eexists.
        -- left. injection H as <-. apply Hrefl.
      * right. exists e, g, grp. do 5 (split; [done |]).
        split; [by eexists |]. split; [intros Hm'; discriminate Hm' |].
        apply Hstart. intros Hm'. discriminate Hm'.
    + left. destruct (mMode s).
      * destruct (mTile s); [| injection H as <-; apply Hrefl].
        rewrite startNewMapObject_declined in H by done.
        injection H as <-. apply Hrefl.
      * rewrite startNewMapObject_declined in H by done.
        injection H as <-. apply Hrefl.
  - left. unfold mouseReleased in H. rewrite Hidle in H.
    injection H as <-. apply Hrefl.
  - left. injection H as <-. split; [done | by repeat split].
Qed.

(** ** Calls of the base class *)

Lemma cancelNewMapObject_baseCalls s s' :
  cancelNewMapObject s = Some s' → baseCalls s' = baseCalls s.
Proof.
  intros H. pose proof H as H0. unfold cancelNewMapObject in H.
  destruct (clearNewMapObjectItem s) as [r |] eqn:Hr; [| done].
  destruct (clearNewMapObjectItem_inv s r Hr)
    as (item & it & obj & g & grp & Hitem & Hit & Hobj & Hg & Hgrp).
  destruct (cancelNewMapObject_ok s item it obj g grp Hitem Hit Hobj Hg Hgrp)
    as (s2 & Hc & _ & _ & _ & _ & _ & _ & Hb & _).
  congruence.
Qed.

Lemma finishNewMapObject_baseCalls s s' :
  finishNewMapObject s = Some s' → baseCalls s' = baseCalls s.
Proof.
  intros H. pose proof H as H0. unfold finishNewMapObject in H.
  destruct (mNewMapObjectItem s) as [item |] eqn:Hitem; [| done]. simpl in H.
  destruct (items s !! item) as [it |] eqn:Hit; [| done]. simpl in H.
  destruct (heap s !! mapObject it) as [obj |] eqn:Hobj; [| done]. simpl in H.
  destruct (objectGroup obj) as [g |] eqn:Hg; [| done]. simpl in H.
  destruct (clearNewMapObjectItem s) as [r |] eqn:Hr; [| done].
  destruct (clearNewMapObjectItem_inv s r Hr)
    as (item' & it' & obj' & g' & grp & Hitem' & Hit' & Hobj' & Hg' & Hgrp).
  assert (item' = item) as -> by congruence.
  assert (it' = it) as -> by congruence.
  assert (obj' = obj) as -> by congruence.
  assert (g' = g) as -> by congruence.
  destruct (finishNewMapObject_full s item it obj g grp Hitem Hit Hobj Hg Hgrp)
    as (s2 & Hf & _ & _ & _ & _ & _ & _ & Hb & _).
  congruence.
Qed.

Lemma startNewMapObject_baseCalls pos g s s' :
  startNewMapObject createNewMapObject pos g s = Some s' →
  baseCalls s' = baseCalls s.
Proof.
  unfold startNewMapObject. intros H.
  destruct (mNewMapObjectItem s); [done |].
  destruct (createNewMapObject s) as [made |]; [| by injection H as <-].
  unfold addObject in H. simpl in H.
  destruct (groups s !! g) as [grp |]; [| done]. simpl in H.
  rewrite lookup_insert_eq in H. simpl in H.
  by injection H as <-.
Qed.

Lemma handle_baseCalls ev s s' :
  handle geo createNewMapObject ev s = Some s' →
  baseCalls s' = baseCalls s ++ forwarded ev s.
Proof.
  intros H. destruct ev as [| k | | pos control | e | e | tile]; simpl in H; simpl.
  - unfold deactivate in H.
    destruct (mNewMapObjectItem s).
    + destruct (cancelNewMapObject s) as [s1 |] eqn:Hc; [| done].
      simpl in H. injection H as <-. simpl.
      by rewrite (cancelNewMapObject_baseCalls s s1 Hc).
    + simpl in H. by injection H as <-.
  - unfold keyPressed in H.
    destruct k, (mNewMapObjectItem s) as [item |] eqn:Hitem;
      try (by injection H as <-); rewrite app_nil_r.
    + by apply finishNewMapObject_baseCalls.
    + by apply finishNewMapObject_baseCalls.
    + by apply cancelNewMapObject_baseCalls.
  - injection H as <-. by rewrite app_nil_r.
  - unfold mouseMoved in H. simpl in H.
    destruct (mNewMapObjectItem s); by injection H as <-.
  - unfold mousePressed in H.
    destruct (mNewMapObjectItem s);
      [injection H as <-; by rewrite app_nil_r |].
    destruct (button e); try (by injection H as <-). rewrite app_nil_r.
    destruct (currentObjectGroup s) as [g |]; [| by injection H as <-].
    destruct (groups s !! g) as [grp |]; [| done]. simpl in H.
    destruct (isVisible grp); simpl in H; [| by injection H as <-].
    destruct (mMode s).
    + destruct (mTile s); [| by injection H as <-].
      by eapply startNewMapObject_baseCalls.
    + by eapply startNewMapObject_baseCalls.
  - unfold mouseReleased in H. rewrite app_nil_r.
    destruct (mNewMapObjectItem s); by injection H as <-.
  - injection H as <-. by rewrite app_nil_r.
Qed.

Lemma wellFormed_idle : wellFormed ToolExamples.idle.
Proof.
  apply create_wellFormed. intros g Hg. injection Hg as <-.
  exists ToolExamples.layer. reflexivity.
Qed.
End Facts.
End ToolFacts.

(** * More properties of the creation tool *)

Module ToolProperties.
Import CreateObjectTool Session ToolWellFormed ToolExamples SessionFacts ToolFacts.

(** X17. The tool as constructed on a document whose current object
    group, if there is one, is a group of the map satisfies the tool's
    invariant; and from a state that satisfies it, whatever events arrive in
    whatever order, each is handled without a failed assertion or a null
    dereference, and the invariant holds again. *)
Theorem tool_events_never_fail (geo : Geometry)
    (createNewMapObject : t → option MapObject) :
  (∀ mode hp gs cur prefs next,
     (∀ g, cur = Some g → is_Some (gs !! g)) →
     wellFormed (create mode hp gs cur prefs next)) ∧
  (∀ (evs : list Event) (s : t),
     wellFormed s →
     ∃ s', run geo createNewMapObject evs s = Some s' ∧ wellFormed s').
Proof.
  split.
  - intros mode hp gs cur prefs next. apply create_wellFormed.
  - intros evs s. apply run_wellFormed.
Qed.

Lemma tool_events_never_fail_witness :
  ∃ s', run unitTiles makeShape
          [MousePressed press; KeyPressed Key_Enter; MousePressed press; Deactivate]
          idle = Some s'.
Proof.
  destruct (tool_events_never_fail unitTiles makeShape) as [_ Hrun].
  destruct (Hrun [MousePressed press; KeyPressed Key_Enter; MousePressed press;
                  Deactivate] idle wellFormed_idle) as (s' & H1 & _).
  exists s'. exact H1.
Defined.

(** X18. How a creation starts and ends. With none going on, an event
    that is handled either leaves the document and the scene as they are, or
    it is a press of the left button on a visible current object group for
    which the factory made an object (in tile mode, with a tile selected), and
    then the tool is as [startNewMapObject] leaves it. With one going on, it
    ends only with a confirm key, the cancel key or the deactivation of the
    tool, and these always end it; any other event leaves the document and
    the scene as they are. *)
Theorem session_starts_and_ends (geo : Geometry)
    (createNewMapObject : t → option MapObject) (ev : Event) (s s' : t) :
  handle geo createNewMapObject ev s = Some s' →
  (mNewMapObjectItem s = None → mNewMapObjectItem s' ≠ None →
   ∃ e g grp,
     ev = MousePressed e ∧ button e = LeftButton ∧
     currentObjectGroup s = Some g ∧ groups s !! g = Some grp ∧
     isVisible grp = true ∧ is_Some (createNewMapObject s) ∧
     (mMode s = CreateTile → is_Some (mTile s)) ∧
     s' = started (pressPosition geo e s) g grp s) ∧
  (mNewMapObjectItem s = None → mNewMapObjectItem s' = None → sameModel s s') ∧
  (mNewMapObjectItem s ≠ None → mNewMapObjectItem s' = None →
   confirms ev ∨ cancels ev) ∧
  (mNewMapObjectItem s ≠ None → mNewMapObjectItem s' ≠ None →
   quiet ev ∧ sameModel s s').
Proof.
  intros H. split; [| split; [| split]].
  - intros Hidle Hs'.
    destruct (handle_idle geo createNewMapObject ev s s' Hidle H) as [[? _] | Hstart];
      [done | exact Hstart].
  - intros Hidle Hs'.
    destruct (handle_idle geo createNewMapObject ev s s' Hidle H)
      as [[_ ?] | (e & g & grp & _ & _ & _ & _ & _ & _ & _ & ->)]; [done | done].
  - intros Hs Hs'. destruct (event_kinds ev) as [Hq | Hev]; [| exact Hev].
    destruct (handle_quiet geo createNewMapObject ev s Hq Hs) as (s2 & H2 & Hsame).
    assert (s2 = s') as -> by congruence.
    destruct Hsame as [Heq _]. congruence.
  - intros Hs Hs'. destruct (event_kinds ev) as [Hq | Hev].
    + destruct (handle_quiet geo createNewMapObject ev s Hq Hs) as (s2 & H2 & Hsame).
      assert (s2 = s') as -> by congruence. done.
    + exfalso. apply Hs'.
      by apply (handle_ends_session geo createNewMapObject ev s s').
Qed.

Lemma session_starts_and_ends_witness :
  sameModel idle (callBase (base_keyPressed Key_Escape) idle) ∧
  ∃ e, MousePressed press = MousePressed e ∧ button e = LeftButton.
Proof.
  destruct (session_starts_and_ends unitTiles makeShape (KeyPressed Key_Escape) idle
              (callBase (base_keyPressed Key_Escape) idle) eq_refl)
    as (_ & Hsame & _).
  destruct (session_starts_and_ends unitTiles makeShape (MousePressed press) idle
              (started (0, 0) 10%nat layer idle) eq_refl)
    as (Hstart & _).
  split; [exact (Hsame eq_refl eq_refl) |].
  destruct Hstart as (e & g & grp & He & Hb & _); [reflexivity | discriminate |].
  exists e. split; [exact He | exact Hb].
Defined.

(** X19. Where a press puts the new object. The scene position of the
    press is converted to tile coordinates (in tile mode after moving it left
    by half the tile's width and down by half its height, halves of integers),
    snapped, and converted to pixels; the object gets that position, whatever
    position the factory gave it, and the current group as its group. Without
    the Control key the fine grid is used when snap-to-fine-grid is on,
    otherwise the grid when snap-to-grid is on; with the Control key the fine
    grid is never used and snap-to-grid counts as its opposite. *)
Theorem press_places_object (geo : Geometry)
    (createNewMapObject : t → option MapObject) (e : MouseEvent) (s : t)
    (g : Address) (grp : ObjectGroup) (made : MapObject) :
  mNewMapObjectItem s = None → button e = LeftButton →
  currentObjectGroup s = Some g → groups s !! g = Some grp → isVisible grp = true →
  (mMode s = CreateTile → is_Some (mTile s)) →
  createNewMapObject s = Some made →
  let tileCoords :=
    match mMode s, mTile s with
    | CreateTile, Some tile =>
        screenToTileCoords geo
          (pointAdd geo (scenePos e)
             (ofPoint geo (Z.quot (- width tile) 2, Z.quot (height tile) 2)))
    | _, _ => screenToTileCoords geo (scenePos e)
    end in
  let fine := negb (controlModifier e) && snapToFineGrid (preferences s) in
  let grid := xorb (controlModifier e) (snapToGrid (preferences s)) in
  let snapped :=
    if fine then
      pointDiv geo
        (ofPoint geo (toPoint geo (pointMul geo tileCoords (gridFine (preferences s)))))
        (gridFine (preferences s))
    else if grid then ofPoint geo (toPoint geo tileCoords)
    else tileCoords in
  ∃ s', mousePressed geo createNewMapObject e s = Some s' ∧
        mNewMapObjectItem s' = Some (S (nextAddress s)) ∧
        heap s' !! nextAddress s
        = Some {| position := tileToPixelCoords geo snapped; objectGroup := Some g |} ∧
        pressPosition geo e s = tileToPixelCoords geo snapped.
Proof.
  intros Hidle Hleft Hg Hgrp Hvis Htile Hmade tileCoords fine grid snapped.
  assert (Hpos : pressPosition geo e s = tileToPixelCoords geo snapped).
  { unfold pressPosition, snapFlags, snap. subst snapped fine grid tileCoords.
    destruct (controlModifier e), (snapToGrid (preferences s)),
      (snapToFineGrid (preferences s)); reflexivity. }
  exists (started (pressPosition geo e s) g grp s).
  split; [by eapply mousePressed_started |]. split; [done |].
  split; [| done]. simpl. by rewrite lookup_insert_eq, Hpos.
Qed.

Lemma press_places_object_witness :
  ∃ s', mousePressed unitTiles makeShape press idle = Some s' ∧
        heap s' !! 20%nat = Some {| position := (0, 0); objectGroup := Some 10%nat |}.
Proof.
  assert (Hmode : mMode idle = CreateTile → is_Some (mTile idle))
    by (intros Hm; discriminate Hm).
  destruct (press_places_object unitTiles makeShape press idle 10%nat layer
              {| position := (0, 0); objectGroup := None |}
              eq_refl eq_refl eq_refl eq_refl eq_refl Hmode eq_refl)
    as (s' & H1 & _ & H3 & _).
  exists s'. split; [exact H1 | exact H3].
Defined.

(** X20. Confirming a creation removes the preview. After a creation is
    started, any number of events that neither finish nor cancel have
    followed and a confirm key is pressed, the item that showed the object is
    destroyed and no overlay item is left; the base class is not called; the
    object is the last one of its group when its address was not in the group
    before; and when no overlay item existed and the item's address was not in
    the scene, the scene has the items it had before the start and every other
    item is as it was. *)
Theorem commit_clears_preview (geo : Geometry)
    (createNewMapObject : t → option MapObject)
    (s : t) (pos : QPointF) (g : Address) (grp : ObjectGroup) (made : MapObject)
    (evs : list Event) (ev : Event) :
  mNewMapObjectItem s = None →
  groups s !! g = Some grp →
  createNewMapObject s = Some made →
  Forall quiet evs →
  confirms ev →
  ∃ s1 s2 s3,
    startNewMapObject createNewMapObject pos g s = Some s1 ∧
    run geo createNewMapObject evs s1 = Some s2 ∧
    handle geo createNewMapObject ev s2 = Some s3 ∧
    sceneItems s1 = sceneItems s ++ [S (nextAddress s)] ∧
    items s1 !! S (nextAddress s)
    = Some {| mapObject := nextAddress s; zValue := 10000 |} ∧
    items s3 !! S (nextAddress s) = None ∧
    mOverlayPolygonItem s3 = None ∧
    baseCalls s3 = baseCalls s2 ∧
    (nextAddress s ∉ objects grp →
     groups s3 !! g = Some (setObjects (objects grp ++ [nextAddress s]) grp)) ∧
    (mOverlayPolygonItem s = None → S (nextAddress s) ∉ sceneItems s →
     sceneItems s3 = sceneItems s) ∧
    (mOverlayPolygonItem s = None →
     ∀ a, a ≠ S (nextAddress s) → items s3 !! a = items s !! a).
Proof.
  intros Hidle Hgrp Hmade Hq Hev.
  pose proof (startNewMapObject_started createNewMapObject pos g grp made s
                Hidle Hmade Hgrp) as Hstart.
  destruct (run_quiet geo createNewMapObject evs (started pos g grp s) Hq)
    as (s2 & Hrun & Hsame); [done |].
  destruct (started_session pos g grp s s2 Hgrp Hsame)
    as (Hitem & Hit & Hobj & Hg2 & Hundo & Hscene & Hov).
  pose proof Hsame as (_ & _ & _ & _ & _ & Hitems & _).
  destruct (finishNewMapObject_full s2 _ _ _ g _ Hitem Hit Hobj eq_refl Hg2)
    as (s3 & Hf & Hn3 & Ho3 & _ & Hg3 & _ & _ & Hb3 & Hi3 & Hs3).
  simpl in Hg3, Hi3, Hs3.
  exists (started pos g grp s), s2, s3.
  split; [done |]. split; [done |].
  split.
  { destruct Hev as [-> | ->]; simpl; unfold keyPressed; by rewrite Hitem. }
  split; [done |]. split; [simpl; by rewrite lookup_insert_eq |].
  split.
  { rewrite Hi3. destruct (mOverlayPolygonItem s2) as [overlay |].
    - destruct (decide (overlay = S (nextAddress s))) as [-> | Hne].
      + apply lookup_delete_eq.
      + rewrite lookup_delete_ne by done. apply lookup_delete_eq.
    - apply lookup_delete_eq. }
  split; [done |]. split; [done |].
  split.
  { intros Hfresh. rewrite Hg3, lookup_insert_eq.
    by rewrite removeOne_snoc_fresh by done. }
  split.
  { intros Hnov Hfresh. rewrite Hs3, Hov, Hnov, Hscene.
    by apply removeOne_snoc_fresh. }
  intros Hnov a Ha. rewrite Hi3, Hov, Hnov, Hitems. simpl.
  rewrite lookup_delete_ne by done. by rewrite lookup_insert_ne.
Qed.

Lemma commit_clears_preview_witness :
  ∃ s1 s3,
    mousePressed unitTiles makeShape press idle = Some s1 ∧
    sceneItems s1 = [21%nat] ∧
    run unitTiles makeShape [MouseMoved (0, 0) false; KeyPressed Key_Return] s1
    = Some s3 ∧
    sceneItems s3 = [] ∧
    groups s3 !! 10%nat = Some (setObjects [11%nat; 12%nat; 20%nat] layer).
Proof.
  assert (Hq : Forall quiet [MouseMoved (0, 0) false])
    by (repeat constructor).
  assert (Hconfirm : confirms (KeyPressed Key_Return)) by (right; reflexivity).
  assert (Hfresh : 20%nat ∉ objects layer)
    by (apply (bool_decide_unpack _); vm_compute; exact I).
  assert (Hscene : 21%nat ∉ sceneItems idle)
    by (apply (bool_decide_unpack _); vm_compute; exact I).
  destruct (commit_clears_preview unitTiles makeShape idle (0, 0) 10%nat layer
              {| position := (0, 0); objectGroup := None |}
              [MouseMoved (0, 0) false] (KeyPressed Key_Return)
              eq_refl eq_refl eq_refl Hq Hconfirm)
    as (s1 & s2 & s3 & H1 & H2 & H3 & H4 & _ & _ & _ & _ & H9 & H10 & _).
  exists s1, s3. split; [exact H1 |]. split; [exact H4 |]. split.
  - change [MouseMoved (0, 0) false; KeyPressed Key_Return]
      with ([MouseMoved (0, 0) false] ++ [KeyPressed Key_Return]).
    rewrite run_app, H2. cbn [mbind option_bind].
    rewrite run_singleton. exact H3.
  - split; [exact (H10 eq_refl Hscene) | exact (H9 Hfresh)].
Defined.

(** X21. What the tool passes on to its base class. Deactivation and
    every mouse move are passed on; a key is passed on unless it is a confirm
    or cancel key pressed while a creation is going on; a press is passed on
    only when no creation is going on and the button is not the left one;
    entering, releasing and the choice of a tile are never passed on. Nothing
    else reaches the base class, over any sequence of events. *)
Theorem base_class_calls (geo : Geometry)
    (createNewMapObject : t → option MapObject) :
  (∀ (ev : Event) (s s' : t),
     handle geo createNewMapObject ev s = Some s' →
     baseCalls s' = baseCalls s ++ forwarded ev s) ∧
  (∀ (evs : list Event) (s s' : t),
     run geo createNewMapObject evs s = Some s' →
     ∃ calls, baseCalls s' = baseCalls s ++ calls ∧
              (length calls ≤ length evs)%nat).
Proof.
  split; [apply handle_baseCalls |].
  intros evs. induction evs as [| ev evs IH]; intros s s' H; simpl in H.
  - injection H as <-. exists []. by rewrite app_nil_r.
  - destruct (handle geo createNewMapObject ev s) as [s1 |] eqn:H1; [| done].
    simpl in H. destruct (IH s1 s' H) as (calls & Hc & Hlen).
    exists (forwarded ev s ++ calls). split.
    + rewrite Hc, (handle_baseCalls geo createNewMapObject ev s s1 H1).
      by rewrite app_assoc.
    + rewrite length_app. simpl.
      assert (length (forwarded ev s) ≤ 1)%nat; [| lia].
      destruct ev as [| k | | | e | |]; simpl; try lia.
      * destruct k, (mNewMapObjectItem s); simpl; lia.
      * destruct (mNewMapObjectItem s), (button e); simpl; lia.
Qed.

Lemma base_class_calls_witness :
  baseCalls (callBase (base_keyPressed Key_Escape) idle) = [base_keyPressed Key_Escape].
Proof.
  destruct (base_class_calls unitTiles makeShape) as [Hone _].
  exact (Hone (KeyPressed Key_Escape) idle
           (callBase (base_keyPressed Key_Escape) idle) eq_refl).
Defined.
End ToolProperties.

(** * The file watcher in all reachable states *)

Module WatchInvariantFacts.
Import DocumentManager Registry DocumentManagerMore WellFormed.
Import QListFacts RegistryFacts WatcherFacts WellFormedFacts.

Lemma watchOk_same m m' :
  watchOk m → mFileSystemWatcher m' = mFileSystemWatcher m →
  (fileName <$> mDocuments m') ≡ₚ (fileName <$> mDocuments m) → watchOk m'.
Proof.
  intros Hw Hf Hd. unfold watchOk in *. rewrite Hf, Hw.
  apply list_to_set_disj_perm. by rewrite Hd.
Qed.

Lemma switchToDocument_watchOk index m m' :
  watchOk m → switchToDocument index m = Some m' → watchOk m'.
Proof.
  intros Hw H. unfold switchToDocument in H.
  apply afterTabs_spec in H as (Hd & _ & _ & Hf & _).
  apply (watchOk_same m); [done | done | by rewrite Hd].
Qed.

Lemma moveTab_watchOk from to m m' :
  wellFormed m → watchOk m → moveTab from to m = Some m' → watchOk m'.
Proof.
  intros Hwf Hw H.
  destruct (moveTab_spec from to m m' Hwf H)
    as [(Hd & Htw & _) | ((Hd & _) & _ & _ & _ & Hf)].
  - unfold moveTab, TabWidget.moveTab in H.
    assert (mFileSystemWatcher m' = mFileSystemWatcher m) as Hf.
    { destruct (bool_decide (from = to)); simpl in H; [by injection H as <- |].
      destruct (QList.move from to (TabWidget.pages (mTabWidget m)));
        simpl in H; [| by injection H as <-].
      unfold documentTabMoved in H. simpl in H.
      destruct (QList.move from to (mDocuments m)); [| done].
      simpl in H. by injection H as <-. }
    apply (watchOk_same m); [done | done | by rewrite Hd].
  - apply (watchOk_same m); [done | done |].
    apply fmap_Permutation. by apply (move_Permutation _ _ from to).
Qed.

Lemma restoreView_watchOk s h v m m' :
  watchOk m → restoreView s h v m = Some m' → watchOk m'.
Proof.
  intros Hw H. unfold restoreView in H.
  destruct (currentMapView m); [| done]. injection H as <-.
  by apply (watchOk_same m).
Qed.

Lemma setLayerIndexOf_watchOk d i m : watchOk m → watchOk (setLayerIndexOf d i m).
Proof.
  intros Hw. apply (watchOk_same m); [done | done |].
  unfold setLayerIndexOf. simpl. rewrite <- list_fmap_compose.
  assert ((fileName ∘ (λ x, if bool_decide (docId x = d)
                            then setCurrentLayerIndex i x else x)) <$> mDocuments m
          = fileName <$> mDocuments m) as ->; [| done].
  apply list_fmap_ext. intros j x _. simpl. by case_bool_decide.
Qed.

Lemma reloadDocumentAt_watchOk env index m r m' :
  wellFormed m → watchOk m → reloadDocumentAt env index m = Some (r, m') →
  watchOk m'.
Proof.
  intros Hwf Hw H. unfold reloadDocumentAt in H.
  destruct (QList.at_ (mDocuments m) index) as [oldDocument |] eqn:Hat; [| done].
  simpl in H.
  destruct (load env _ _) as [newDocument | error].
  - destruct (viewForDocument (docId oldDocument) m) as [[v |] |]; try done.
    simpl in H.
    destruct (addDocument env newDocument m) as [m1 |] eqn:H1; [| done].
    simpl in H.
    destruct (closeDocumentAt index m1) as [m2 |] eqn:H2; [| done]. simpl in H.
    destruct (moveTab _ index m2) as [m3 |] eqn:H3; [| done]. simpl in H.
    destruct (restoreView _ _ _ m3) as [m4 |] eqn:H4; [| done]. simpl in H.
    injection H as _ <-.
    pose proof (addDocument_wellFormed env _ m m1 Hwf H1) as Hwf1.
    pose proof (closeDocumentAt_wellFormed index m1 m2 Hwf1 H2) as Hwf2.
    pose proof (watchOk_add env _ m m1 (wellFormed_consistent m Hwf) Hw H1) as Hw1.
    assert (Hat1 : QList.at_ (mDocuments m1) index = Some oldDocument).
    { destruct (addDocument_stacks env _ m m1 H1) as [_ Hd1].
      apply at_Some in Hat as [Hi0 Hdoc]. apply at_Some. split; [done |].
      rewrite Hd1. by apply lookup_app_l_Some. }
    pose proof (watchOk_close index m1 m2 oldDocument
                  (wellFormed_consistent m1 Hwf1) Hw1 Hat1 H2) as Hw2.
    pose proof (moveTab_watchOk _ _ m2 m3 Hwf2 Hw2 H3) as Hw3.
    pose proof (restoreView_watchOk _ _ _ m3 m4 Hw3 H4) as Hw4.
    destruct (_ && _); [by apply setLayerIndexOf_watchOk | done].
  - injection H as _ <-. by apply (watchOk_same m).
Qed.

Lemma act_watchOk env a m m' :
  wellFormed m → watchOk m → act env a m = Some m' → watchOk m'.
Proof.
  intros Hwf Hw H. pose proof (wellFormed_consistent m Hwf) as Hc.
  assert (Hclose : ∀ index m', closeDocumentAt index m = Some m' → watchOk m').
  { intros index m1 H1.
    destruct (closeDocumentAt_stacks index m m1 H1) as (d & Hdoc & _).
    eapply (watchOk_close index m m1 d); try done.
    unfold closeDocumentAt in H1.
    destruct (QList.at_ (mDocuments m) index) as [d' |] eqn:Hat; [| done].
    apply at_Some in Hat as [Hi0 Hd']. congruence. }
  destruct a; simpl in H.
  - by eapply watchOk_add.
  - by eapply Hclose.
  - unfold closeCurrentDocument in H.
    case_bool_decide; [by injection H as <- | by eapply Hclose].
  - by eapply switchToDocument_watchOk.
  - unfold switchToDocumentPtr in H.
    case_bool_decide; [by injection H as <- | by eapply switchToDocument_watchOk].
  - unfold switchToLeftDocument in H.
    case_bool_decide; [by injection H as <- | by eapply switchToDocument_watchOk].
  - unfold switchToRightDocument in H.
    case_bool_decide; [by injection H as <- | by eapply switchToDocument_watchOk].
  - by eapply moveTab_watchOk.
  - destruct (reloadDocumentAt env index m) as [[r m1] |] eqn:Hr; [| done].
    simpl in H. injection H as <-. by eapply reloadDocumentAt_watchOk.
  - unfold reloadCurrentDocument in H.
    case_bool_decide; [simpl in H; by injection H as <- |].
    destruct (reloadDocumentAt env _ m) as [[r m1] |] eqn:Hr; [| done].
    simpl in H. injection H as <-. by eapply reloadDocumentAt_watchOk.
  - unfold fileChanged in H.
    case_bool_decide; [by injection H as <- |].
    destruct (QList.at_ (mDocuments m) _) as [document |]; [| done]. simpl in H.
    case_bool_decide; [by injection H as <- |].
    destruct (isModified document); simpl in H.
    + destruct (TabWidget.widget _ _) as [c |]; [| done]. simpl in H.
      injection H as <-. by apply (watchOk_same m).
    + destruct (reloadDocumentAt env _ m) as [[r m1] |] eqn:Hr; [| done].
      simpl in H. injection H as <-. by eapply reloadDocumentAt_watchOk.
  - unfold documentSaved in H.
    case_bool_decide; [done |].
    destruct (TabWidget.widget _ _) as [c |]; [| done]. simpl in H.
    injection H as <-. by apply (watchOk_same m).
  - injection H as <-. by apply (watchOk_same m).
Qed.

Lemma acts_watchOk l m m' :
  wellFormed m → watchOk m → acts l m = Some m' → watchOk m'.
Proof.
  revert m. induction l as [| [env a] l IH]; intros m Hwf Hw H; simpl in H.
  - by injection H as <-.
  - destruct (act env a m) as [m1 |] eqn:Ha; [| done]. simpl in H.
    eapply (IH m1); [by eapply act_wellFormed | by eapply act_watchOk | exact H].
Qed.
End WatchInvariantFacts.

(** * Properties of the file watcher *)

Module WatchProperties.
Import DocumentManager Registry DocumentManagerMore WellFormed Examples.
Import WatcherFacts WellFormedFacts WatchInvariantFacts.

(** X23. Whatever the user and the file system do, starting from the
    manager as its constructor leaves it, the file watcher holds one
    subscription for each open document that has a file name, and no other:
    a path is watched exactly when it is the non-empty file name of an open
    document, also after reloads, which subscribe the new document's path
    before they unsubscribe the old one's. *)
Theorem reachable_watch (l : list (Env * Action)) (m : t) :
  acts l init = Some m →
  watchOk m ∧
  (∀ p, FileSystemWatcher.watches (mFileSystemWatcher m) p = true ↔
        p ≠ "" ∧ ∃ d, d ∈ mDocuments m ∧ fileName d = p) ∧
  (mDocuments m = [] → mFileSystemWatcher m = FileSystemWatcher.empty).
Proof.
  intros H.
  pose proof (acts_watchOk l init m init_wellFormed watchOk_init H) as Hw.
  split; [done |]. split; [intros p; by apply watchOk_watches |].
  intros Hnil. unfold watchOk in Hw. by rewrite Hw, Hnil.
Qed.

Lemma reachable_watch_witness :
  ∃ m, acts [(directory, AddDocument docA); (directory, AddDocument docB);
             (directory, ReloadDocumentAt 0);
             (allocatingAt 6%nat directory, ReloadDocumentAt 0);
             (directory, CloseDocumentAt 1)] init = Some m ∧
       FileSystemWatcher.watches (mFileSystemWatcher m) "a.tmx" = true ∧
       FileSystemWatcher.watches (mFileSystemWatcher m) "b.tmx" = false.
Proof.
  assert (Hrun : ∃ m,
    acts [(directory, AddDocument docA); (directory, AddDocument docB);
          (directory, ReloadDocumentAt 0);
          (allocatingAt 6%nat directory, ReloadDocumentAt 0);
          (directory, CloseDocumentAt 1)] init = Some m ∧
    (fileName <$> mDocuments m) = ["a.tmx"]).
  { eexists. split; vm_compute; reflexivity. }
  destruct Hrun as (m & Hm & Hnames). exists m. split; [exact Hm |].
  destruct (reachable_watch _ m Hm) as (_ & Hiff & _).
  clear Hm. split.
  - apply Hiff. split; [intros E; discriminate E |].
    assert (Hin : "a.tmx" ∈ (fileName <$> mDocuments m))
      by (rewrite Hnames; apply list_elem_of_here).
    apply list_elem_of_fmap in Hin as (d & Hd & Hin). by exists d.
  - destruct (FileSystemWatcher.watches (mFileSystemWatcher m) "b.tmx") eqn:Hb;
      [| reflexivity].
    apply Hiff in Hb as (_ & d & Hin & Hd).
    assert (Hin' : "b.tmx" ∈ (fileName <$> mDocuments m))
      by (apply list_elem_of_fmap; exists d; by split).
    rewrite Hnames in Hin'. apply list_elem_of_singleton in Hin'.
    discriminate Hin'.
Defined.
End WatchProperties.

(** * Facts about the arithmetic of doubles *)

Module QRealFacts.
Import SpecFloat QReal QRealValue.
Import QArith Qpower Lqa.
Local Open Scope Z_scope.

(** ** Digits and shifts *)

Lemma digits2_pos_size p : digits2_pos p = Pos.size p.
Proof. induction p; simpl; congruence. Qed.

Lemma Zdigits2_bounds m :
  0 < m → 1 ≤ Zdigits2 m ∧ 2 ^ (Zdigits2 m - 1) ≤ m < 2 ^ Zdigits2 m.
Proof.
  destruct m as [| p | p]; try lia. intros _. simpl. rewrite digits2_pos_size.
  pose proof (Pos.size_gt p) as Hgt. pose proof (Pos.size_le p) as Hle.
  apply Pos2Z.pos_lt_pos in Hgt. apply Pos2Z.pos_le_pos in Hle.
  rewrite Pos2Z.inj_pow in Hgt, Hle.
  split; [lia |]. split; [| exact Hgt].
  replace (2 ^ Z.pos (Pos.size p)) with (2 * 2 ^ (Z.pos (Pos.size p) - 1)) in Hle.
  - lia.
  - rewrite <- Z.pow_succ_r by lia. f_equal. lia.
Qed.

Lemma Zdigits2_unique m d :
  2 ^ (d - 1) ≤ m < 2 ^ d → 1 ≤ d → Zdigits2 m = d.
Proof.
  intros [Hl Hu] Hd.
  assert (Hm : 0 < m) by (pose proof (Z.pow_pos_nonneg 2 (d - 1)); lia).
  destruct (Zdigits2_bounds m Hm) as (H1 & H2 & H3).
  destruct (Z.lt_trichotomy (Zdigits2 m) d) as [Hlt | [Heq | Hgt]]; [| done |].
  - assert (2 ^ Zdigits2 m ≤ 2 ^ (d - 1)) by (apply Z.pow_le_mono_r; lia). lia.
  - assert (2 ^ d ≤ 2 ^ (Zdigits2 m - 1)) by (apply Z.pow_le_mono_r; lia). lia.
Qed.

Lemma shr_m_shr_1 mrs : 0 ≤ shr_m mrs → shr_m (shr_1 mrs) = shr_m mrs / 2.
Proof.
  destruct mrs as [m r s]. simpl. intros Hm.
  destruct m as [| [p | p |] | p]; simpl; [reflexivity | | | reflexivity | lia].
  - apply (Z.div_unique _ _ _ 1); lia.
  - apply (Z.div_unique _ _ _ 0); lia.
Qed.

Lemma shr_m_iter p : ∀ mrs,
  0 ≤ shr_m mrs → shr_m (SpecFloat.iter_pos shr_1 p mrs) = shr_m mrs / 2 ^ Z.pos p.
Proof.
  assert (Hnn : ∀ q mrs, 0 ≤ shr_m mrs →
            shr_m (SpecFloat.iter_pos shr_1 q mrs) = shr_m mrs / 2 ^ Z.pos q →
            0 ≤ shr_m (SpecFloat.iter_pos shr_1 q mrs)).
  { intros q mrs H0 ->. apply Z.div_pos; [done |]. apply Z.pow_pos_nonneg; lia. }
  induction p as [p IH | p IH |]; intros mrs Hm; simpl.
  - assert (H1 : 0 ≤ shr_m (shr_1 mrs))
      by (rewrite shr_m_shr_1 by done; apply Z.div_pos; lia).
    pose proof (IH _ H1) as E1. pose proof (Hnn _ _ H1 E1) as H2.
    rewrite (IH _ H2), E1, shr_m_shr_1 by done.
    rewrite !Z.div_div by (try apply Z.pow_pos_nonneg; lia).
    f_equal. replace (Z.pos p~1) with (1 + Z.pos p + Z.pos p) by lia.
    rewrite !Z.pow_add_r by lia. lia.
  - pose proof (IH _ Hm) as E1. pose proof (Hnn _ _ Hm E1) as H2.
    rewrite (IH _ H2), E1.
    rewrite !Z.div_div by (try apply Z.pow_pos_nonneg; lia).
    f_equal. replace (Z.pos p~0) with (Z.pos p + Z.pos p) by lia.
    by rewrite Z.pow_add_r by lia.
  - by rewrite shr_m_shr_1.
Qed.

Lemma shr_m_shr mrs e n :
  0 ≤ shr_m mrs → 0 ≤ n →
  shr_m (shr mrs e n).1 = shr_m mrs / 2 ^ n ∧ (shr mrs e n).2 = e + n.
Proof.
  intros Hm Hn. destruct n as [| p | p]; simpl; try lia.
  - split; [by rewrite Z.div_1_r | lia].
  - split; [by apply shr_m_iter | done].
Qed.

Lemma shr_m_record_of_loc m l : shr_m (shr_record_of_loc m l) = m.
Proof. by destruct l as [| []]. Qed.

Lemma round_nearest_even_cases m l :
  round_nearest_even m l = m ∨ round_nearest_even m l = m + 1.
Proof.
  destruct l as [| []]; simpl; auto. destruct (Z.even m); auto.
Qed.

Lemma pow2_52 : 2 ^ 52 = 4503599627370496. Proof. reflexivity. Qed.
Lemma pow2_53 : 2 ^ 53 = 9007199254740992. Proof. reflexivity. Qed.

(** ** Rounding to 53 digits *)


Lemma fexp_normal e : -1021 ≤ e → fexp prec emax e = e - 53.
Proof. unfold fexp, emin, prec, emax. lia. Qed.

Lemma binary_round_aux_spec s mx ex lx d :
  d = Zdigits2 mx →
  0 < mx → 53 ≤ d → -1021 ≤ d + ex → d + ex < 1024 →
  ∃ m e m1,
    binary_round_aux prec emax s mx ex lx = S754_finite s m e ∧
    canonical m ∧
    d + ex - 53 ≤ e ≤ d + ex - 52 ∧
    m1 = mx / 2 ^ (d - 53) ∧ 2 ^ 52 ≤ m1 < 2 ^ 53 ∧
    (Z.pos m * 2 ^ (e - (d + ex - 53)) = m1 ∨
     Z.pos m * 2 ^ (e - (d + ex - 53)) = m1 + 1) ∧
    (lx = loc_Exact → d = 53 → Z.pos m = mx ∧ e = ex).
Proof.
  intros Ed Hmx Hd Hlo Hhi.
  destruct (Zdigits2_bounds mx Hmx) as (_ & Hdl & Hdu). rewrite <- Ed in Hdl, Hdu.
  assert (Hp : 0 < 2 ^ (d - 53)) by (apply Z.pow_pos_nonneg; lia).
  set (m1 := mx / 2 ^ (d - 53)).
  assert (Hm1 : 2 ^ 52 ≤ m1 < 2 ^ 53).
  { unfold m1. split.
    - apply Z.div_le_lower_bound; [done |].
      rewrite <- Z.pow_add_r by lia. replace (d - 53 + 52) with (d - 1) by lia. done.
    - apply Z.div_lt_upper_bound; [done |].
      rewrite <- Z.pow_add_r by lia. replace (d - 53 + 53) with d by lia. done. }
  unfold binary_round_aux.
  assert (Hshr1 : shr_m (shr_fexp prec emax mx ex lx).1 = m1 ∧
                  (shr_fexp prec emax mx ex lx).2 = d + ex - 53).
  { unfold shr_fexp. rewrite <- Ed, fexp_normal by lia.
    destruct (shr_m_shr (shr_record_of_loc mx lx) ex (d + ex - 53 - ex)) as [E1 E2].
    - rewrite shr_m_record_of_loc. lia.
    - lia.
    - rewrite E1, E2, shr_m_record_of_loc. unfold m1. split; [f_equal; f_equal |]; lia. }
  destruct (shr_fexp prec emax mx ex lx) as [mrs' e'] eqn:Hs1.
  simpl in Hshr1. destruct Hshr1 as [Hm' He'].
  set (m2 := round_nearest_even (shr_m mrs') (loc_of_shr_record mrs')).
  assert (Hm2 : m2 = m1 ∨ m2 = m1 + 1)
    by (unfold m2; rewrite <- Hm'; apply round_nearest_even_cases).
  assert (Hexact : lx = loc_Exact → d = 53 → m2 = mx).
  { intros -> Hd53. unfold m2.
    unfold shr_fexp in Hs1. rewrite <- Ed, fexp_normal in Hs1 by lia.
    replace (d + ex - 53 - ex) with 0 in Hs1 by lia. simpl in Hs1.
    injection Hs1 as <- <-. reflexivity. }
  assert (Hm1mx : d = 53 → m1 = mx).
  { intros Hd53. unfold m1. rewrite Hd53. simpl. apply Z.div_1_r. }
  destruct (decide (m2 < 2 ^ 53)) as [Hlt | Hge].
  - (* no carry *)
    assert (Hd2 : Zdigits2 m2 = 53) by (apply Zdigits2_unique; lia).
    assert (Hs2 : shr_fexp prec emax m2 e' loc_Exact
                  = (Build_shr_record m2 false false, e')).
    { unfold shr_fexp. rewrite Hd2, fexp_normal by lia.
      replace (53 + e' - 53 - e') with 0 by lia. reflexivity. }
    rewrite Hs2. simpl.
    destruct m2 as [| p | p] eqn:Hp2; try lia.
    rewrite (proj2 (Z.leb_le _ _)) by (unfold emax, prec; lia).
    exists p, e', m1. split; [done |]. split; [unfold canonical; lia |].
    split; [lia |]. split; [done |]. split; [done |]. split.
    + replace (e' - (d + ex - 53)) with 0 by lia. rewrite Z.mul_1_r. lia.
    + intros Hl Hd53. specialize (Hexact Hl Hd53). split; [lia | lia].
  - (* carry: the rounded mantissa is 2^53 *)
    assert (Hm2' : m2 = 2 ^ 53) by lia.
    assert (Hd2 : Zdigits2 m2 = 54) by (rewrite Hm2'; reflexivity).
    assert (Hs2 : shr_fexp prec emax m2 e' loc_Exact
                  = (Build_shr_record (2 ^ 52) false false, e' + 1)).
    { unfold shr_fexp. rewrite Hd2, fexp_normal by lia.
      replace (54 + e' - 53 - e') with 1 by lia. rewrite Hm2'. reflexivity. }
    rewrite Hs2. simpl.
    rewrite (proj2 (Z.leb_le _ _)) by (unfold emax, prec; lia).
    exists 4503599627370496%positive, (e' + 1), m1.
    split; [done |]. split; [unfold canonical; lia |].
    split; [lia |]. split; [done |]. split; [done |]. split.
    + right. replace (e' + 1 - (d + ex - 53)) with 1 by lia. lia.
    + intros Hl Hd53. specialize (Hexact Hl Hd53). specialize (Hm1mx Hd53). lia.
Qed.

(** ** The value of a double, as a rational *)


Lemma pow2_pos e : (0 < pow2 e)%Q.
Proof. apply Qpower_0_lt. reflexivity. Qed.

Lemma pow2_add a b : (pow2 (a + b) == pow2 a * pow2 b)%Q.
Proof. apply Qpower_plus. intros H. discriminate H. Qed.

Lemma pow2_nonneg e : 0 ≤ e → (pow2 e == inject_Z (2 ^ e))%Q.
Proof. intros He. unfold pow2. by rewrite Zpower_Qpower. Qed.

Lemma pow2_le a b : a ≤ b → (pow2 a <= pow2 b)%Q.
Proof. intros H. apply Qpower_le_compat_l; [done |]. clear. unfold Qle. simpl. lia. Qed.

Lemma pow2_lt_inv a b : (pow2 a < pow2 b)%Q → a < b.
Proof. intros H. eapply Qpower_lt_compat_l_inv; [exact H | reflexivity]. Qed.

Lemma sgn_xorb a b : (sgn (xorb a b) == sgn a * sgn b)%Q.
Proof. by destruct a, b. Qed.

Lemma mag_pos m e : (0 < mag m e)%Q.
Proof.
  unfold mag. apply Qmult_lt_0_compat; [| apply pow2_pos].
  unfold Qlt. simpl. lia.
Qed.

Lemma mag_bounds m e :
  canonical m → (pow2 (e + 52) <= mag m e ∧ mag m e < pow2 (e + 53))%Q.
Proof.
  intros [Hl Hu]. unfold mag.
  rewrite !pow2_add, (pow2_nonneg 52), (pow2_nonneg 53) by lia.
  pose proof (pow2_pos e) as Hp.
  rewrite Zle_Qle in Hl. rewrite Zlt_Qlt in Hu.
  set (M := inject_Z (Z.pos m)) in *. set (P := pow2 e) in *.
  set (A := inject_Z (2 ^ 52)) in *. set (B := inject_Z (2 ^ 53)) in *.
  split; nra.
Qed.

(** One rounding, seen from a real value [X] that lies between the mantissa
    and its successor. *)
Lemma binary_round_aux_Q s mx ex lx d (X : Q) :
  d = Zdigits2 mx →
  0 < mx → 53 ≤ d → -1021 ≤ d + ex → d + ex < 1024 →
  (inject_Z mx * pow2 ex <= X)%Q → (X < inject_Z (mx + 1) * pow2 ex)%Q →
  ∃ m e,
    binary_round_aux prec emax s mx ex lx = S754_finite s m e ∧
    canonical m ∧ d + ex - 53 ≤ e ≤ d + ex - 52 ∧
    (X * (1 - u) <= mag m e ∧ mag m e <= X * (1 + u))%Q.
Proof.
  intros Ed Hmx Hd Hlo Hhi HX1 HX2.
  destruct (binary_round_aux_spec s mx ex lx d Ed Hmx Hd Hlo Hhi)
    as (m & e & m1 & Hres & Hcan & He & Hm1 & Hm1b & Hval & _).
  exists m, e. split; [done |]. split; [done |]. split; [done |].
  set (E1 := d + ex - 53) in *.
  assert (HK : 0 < 2 ^ (d - 53)) by (apply Z.pow_pos_nonneg; lia).
  pose proof (Z.div_mod mx (2 ^ (d - 53)) ltac:(lia)) as Hdm.
  pose proof (Z.mod_pos_bound mx (2 ^ (d - 53)) HK) as Hmod.
  rewrite <- Hm1 in Hdm.
  assert (Hlow : m1 * 2 ^ (d - 53) ≤ mx) by lia.
  assert (Hupp : mx + 1 ≤ (m1 + 1) * 2 ^ (d - 53)) by lia.
  rewrite Zle_Qle in Hlow, Hupp. rewrite inject_Z_mult in Hlow, Hupp.
  rewrite <- pow2_nonneg in Hlow, Hupp by lia.
  rewrite inject_Z_plus in Hupp.
  assert (HP : (pow2 E1 == pow2 (d - 53) * pow2 ex)%Q).
  { rewrite <- pow2_add. unfold E1. by replace (d + ex - 53) with (d - 53 + ex) by lia. }
  assert (HV : (mag m e == inject_Z (Z.pos m * 2 ^ (e - E1)) * pow2 E1)%Q).
  { unfold mag. rewrite inject_Z_mult, <- pow2_nonneg by lia.
    rewrite <- Qmult_assoc, <- pow2_add. by replace (e - E1 + E1) with e by lia. }
  pose proof (pow2_pos ex) as Hpex. pose proof (pow2_pos E1) as HpE.
  pose proof (pow2_pos (d - 53)) as HpK.
  destruct Hm1b as [Hm1l _]. rewrite Zle_Qle in Hm1l.
  assert (Hc : (mag m e == inject_Z m1 * pow2 E1 ∨
                mag m e == (inject_Z m1 + 1) * pow2 E1)%Q).
  { destruct Hval as [Hv | Hv]; [left | right]; rewrite HV, Hv; [reflexivity |].
    by rewrite inject_Z_plus. }
  set (t := (inject_Z m1 * pow2 E1)%Q) in *.
  assert (Et : (t == inject_Z m1 * pow2 (d - 53) * pow2 ex)%Q)
    by (unfold t; rewrite HP; ring).
  assert (Et' : (t + pow2 E1 == inject_Z (m1 + 1) * pow2 (d - 53) * pow2 ex)%Q)
    by (unfold t; rewrite HP, inject_Z_plus; ring).
  assert (Ht1 : (t <= X)%Q).
  { rewrite Et. eapply Qle_trans; [| exact HX1].
    apply Qmult_le_compat_r; [done | by apply Qlt_le_weak]. }
  assert (Ht2 : (X < t + pow2 E1)%Q).
  { eapply Qlt_le_trans; [exact HX2 |]. rewrite Et'.
    apply Qmult_le_compat_r; [| by apply Qlt_le_weak].
    rewrite inject_Z_plus. done. }
  assert (Ht3 : (inject_Z (2 ^ 52) * pow2 E1 <= t)%Q).
  { unfold t. apply Qmult_le_compat_r; [done | by apply Qlt_le_weak]. }
  change (inject_Z (2 ^ 52)) with (4503599627370496 # 1)%Q in Ht3.
  assert (Ec : ((inject_Z m1 + 1) * pow2 E1 == t + pow2 E1)%Q) by (unfold t; ring).
  rewrite Ec in Hc. clearbody t.
  unfold u.
  destruct Hc as [Hc | Hc]; rewrite Hc; split; lra.
Qed.

Lemma iter_xO m p : Z.pos (Pos.iter xO m p) = Z.pos m * 2 ^ Z.pos p.
Proof.
  induction p as [| p IH] using Pos.peano_ind.
  - simpl. lia.
  - rewrite Pos.iter_succ, Pos2Z.inj_succ, Z.pow_succ_r by lia.
    change (Z.pos (Pos.iter xO m p)~0) with (2 * Z.pos (Pos.iter xO m p)).
    rewrite IH. lia.
Qed.

Lemma near_exact (X : Q) : (0 < X)%Q → (X * (1 - u) <= X ∧ X <= X * (1 + u))%Q.
Proof. intros H. unfold u. split; lra. Qed.

(** [binary_round]: the mantissa is brought to 53 digits, exactly when it
    has no more than that. *)
Lemma binary_round_Q s m e d :
  d = Zdigits2 (Z.pos m) →
  -1021 ≤ d + e → d + e < 1024 →
  ∃ m' e',
    binary_round prec emax s m e = S754_finite s m' e' ∧
    canonical m' ∧ d + e - 53 ≤ e' ≤ d + e - 52 ∧
    (mag m e * (1 - u) <= mag m' e' ∧ mag m' e' <= mag m e * (1 + u))%Q ∧
    (d ≤ 53 → (mag m' e' == mag m e)%Q).
Proof.
  intros Ed Hlo Hhi.
  destruct (Zdigits2_bounds (Z.pos m) ltac:(lia)) as (Hd1 & Hdl & Hdu).
  rewrite <- Ed in Hd1, Hdl, Hdu.
  unfold binary_round, shl_align.
  change (Z.pos (digits2_pos m)) with (Zdigits2 (Z.pos m)). rewrite <- Ed.
  rewrite fexp_normal by lia.
  destruct (d + e - 53 - e) as [| p | p] eqn:Hk.
  - (* exactly 53 digits *)
    assert (Hd53 : d = 53) by lia.
    destruct (binary_round_aux_spec s (Z.pos m) e loc_Exact d Ed) as
      (m' & e' & m1 & Hres & Hcan & He & _ & _ & _ & Hex); try lia.
    destruct (Hex eq_refl Hd53) as [Em Ee].
    exists m', e'. split; [done |]. split; [done |]. split; [done |].
    assert (Emag : (mag m' e' == mag m e)%Q)
      by (unfold mag; rewrite Em, Ee; reflexivity).
    split; [| done]. rewrite Emag. apply near_exact, mag_pos.
  - (* more than 53 digits: one rounding *)
    destruct (binary_round_aux_Q s (Z.pos m) e loc_Exact d (mag m e) Ed) as
      (m' & e' & Hres & Hcan & He & Hb); try lia.
    + apply Qle_refl.
    + unfold mag. apply Qmult_lt_compat_r; [apply pow2_pos |].
      rewrite <- Zlt_Qlt. lia.
    + exists m', e'. do 4 (split; [done |]). lia.
  - (* fewer digits: the mantissa is shifted to the left *)
    assert (Hp : Z.pos p = 53 - d) by lia.
    set (mz := Pos.iter xO m p).
    assert (Emz : Z.pos mz = Z.pos m * 2 ^ (53 - d))
      by (unfold mz; rewrite iter_xO, Hp; reflexivity).
    assert (Hpw : 2 ^ (d - 1) * 2 ^ (53 - d) = 2 ^ 52)
      by (rewrite <- Z.pow_add_r by lia; f_equal; lia).
    assert (Hpw' : 2 ^ d * 2 ^ (53 - d) = 2 ^ 53)
      by (rewrite <- Z.pow_add_r by lia; f_equal; lia).
    assert (Hpp : 0 < 2 ^ (53 - d)) by (apply Z.pow_pos_nonneg; lia).
    assert (Hcz : 2 ^ 52 ≤ Z.pos mz < 2 ^ 53) by (rewrite Emz; nia).
    assert (Hdz : Zdigits2 (Z.pos mz) = 53) by (apply Zdigits2_unique; lia).
    destruct (binary_round_aux_spec s (Z.pos mz) (d + e - 53) loc_Exact 53
                (eq_sym Hdz)) as
      (m' & e' & m1 & Hres & Hcan & He & _ & _ & _ & Hex); try lia.
    destruct (Hex eq_refl eq_refl) as [Em Ee].
    exists m', e'. split; [done |]. split; [done |]. split; [lia |].
    assert (Emag : (mag m' e' == mag m e)%Q).
    { unfold mag. rewrite Em, Ee, Emz, inject_Z_mult, <- pow2_nonneg by lia.
      rewrite <- Qmult_assoc, <- pow2_add.
      by replace (53 - d + (d + e - 53)) with e by lia. }
    split; [| done]. rewrite Emag. apply near_exact, mag_pos.
Qed.

Lemma near_delta (M X : Q) :
  (0 < X)%Q → (X * (1 - u) <= M)%Q → (M <= X * (1 + u))%Q →
  ∃ δ : Q, (- u <= δ)%Q ∧ (δ <= u)%Q ∧ (M == X * (1 + δ))%Q.
Proof.
  intros HX H1 H2. exists ((M - X) / X)%Q.
  split; [| split].
  - apply Qle_shift_div_l; [done |]. lra.
  - apply Qle_shift_div_r; [done |]. lra.
  - field. lra.
Qed.

Lemma F2Q_cond_Zopp (z : Z) (m : positive) :
  Z.abs z = Z.pos m →
  (sgn (z <? 0) * inject_Z (Z.pos m) == inject_Z z)%Q.
Proof.
  intros H. destruct z as [| p | p]; simpl in *; [lia | |].
  - injection H as ->. unfold sgn. ring.
  - injection H as ->. unfold sgn.
    change (inject_Z (Z.neg m)) with (- inject_Z (Z.pos m))%Q. ring.
Qed.

(** [binary_normalize]: the double next to [z * 2^e]. *)
Lemma binary_normalize_Q z e d :
  d = Zdigits2 z →
  z ≠ 0 → -1021 ≤ d + e → d + e < 1024 →
  ∃ m' e' (δ : Q),
    binary_normalize prec emax z e false = S754_finite (z <? 0) m' e' ∧
    canonical m' ∧ d + e - 53 ≤ e' ≤ d + e - 52 ∧
    (- u <= δ)%Q ∧ (δ <= u)%Q ∧
    (F2Q (z <? 0) m' e' == inject_Z z * pow2 e * (1 + δ))%Q ∧
    (d ≤ 53 → (δ == 0)%Q).
Proof.
  intros Ed Hz Hlo Hhi.
  assert (Hgen : ∀ s m, Z.abs z = Z.pos m → s = (z <? 0) → d = Zdigits2 (Z.pos m) →
            ∃ m' e' (δ : Q),
              binary_round prec emax s m e = S754_finite (z <? 0) m' e' ∧
              canonical m' ∧ d + e - 53 ≤ e' ≤ d + e - 52 ∧
              (- u <= δ)%Q ∧ (δ <= u)%Q ∧
              (F2Q (z <? 0) m' e' == inject_Z z * pow2 e * (1 + δ))%Q ∧
              (d ≤ 53 → (δ == 0)%Q)).
  { intros s m Habs -> Hdm.
    destruct (binary_round_Q (z <? 0) m e d Hdm)
      as (m' & e' & Hres & Hcan & He & [Hb1 Hb2] & Hex); try lia.
    assert (Hsigned : ∀ δ : Q, (mag m' e' == mag m e * (1 + δ))%Q →
              (F2Q (z <? 0) m' e' == inject_Z z * pow2 e * (1 + δ))%Q).
    { intros δ Hδ. unfold F2Q. rewrite Hδ. unfold mag.
      rewrite <- (F2Q_cond_Zopp z m Habs). ring. }
    destruct (decide (d ≤ 53)) as [Hle | Hgt].
    - exists m', e', 0%Q. split; [done |]. split; [done |]. split; [done |].
      split; [by unfold u |]. split; [by unfold u |].
      split; [| done]. apply Hsigned. rewrite (Hex Hle). ring.
    - destruct (near_delta (mag m' e') (mag m e) (mag_pos m e) Hb1 Hb2)
        as (δ & Hδ1 & Hδ2 & Hδ).
      exists m', e', δ. do 5 (split; [done |]). split; [by apply Hsigned | lia]. }
  destruct z as [| p | p]; [done | |]; simpl.
  - apply (Hgen false p); [reflexivity | reflexivity | exact Ed].
  - apply (Hgen true p); [reflexivity | reflexivity | exact Ed].
Qed.

(** An [int] is converted to the [double] of the same value. *)
Lemma ofInt_Q n :
  n ≠ 0 → - 2 ^ 53 < n < 2 ^ 53 →
  ∃ m e, ofInt n = S754_finite (n <? 0) m e ∧ canonical m ∧ -52 ≤ e ≤ 1 ∧
         (F2Q (n <? 0) m e == inject_Z n)%Q.
Proof.
  intros Hn Hr.
  assert (Habs : 0 < Z.abs n < 2 ^ 53) by lia.
  assert (Hdabs : Zdigits2 n = Zdigits2 (Z.abs n)) by (by destruct n).
  destruct (Zdigits2_bounds (Z.abs n) ltac:(lia)) as (Hd1 & Hdl & Hdu).
  rewrite <- Hdabs in Hd1, Hdl, Hdu.
  assert (Hd53 : Zdigits2 n ≤ 53).
  { destruct (decide (Zdigits2 n ≤ 53)); [done |].
    assert (2 ^ 53 ≤ 2 ^ (Zdigits2 n - 1)) by (apply Z.pow_le_mono_r; lia). lia. }
  destruct (binary_normalize_Q n 0 _ eq_refl Hn)
    as (m & e & δ & Hres & Hcan & He & _ & _ & Hv & Hex); try lia.
  exists m, e. split; [done |]. split; [done |]. split; [lia |].
  rewrite Hv, (Hex Hd53). change (pow2 0) with 1%Q. ring.
Qed.

(** ** The four operations on finite doubles *)

Lemma Zdigits2_canonical m : canonical m → Zdigits2 (Z.pos m) = 53.
Proof. intros [H1 H2]. apply Zdigits2_unique; lia. Qed.

Lemma Zdigits2_between z a b :
  0 ≤ a → 2 ^ a ≤ z < 2 ^ b → a < Zdigits2 z ≤ b.
Proof.
  intros Ha [H1 H2].
  assert (Hz : 0 < z) by (pose proof (Z.pow_pos_nonneg 2 a); lia).
  destruct (Zdigits2_bounds z Hz) as (Hd1 & Hdl & Hdu).
  split.
  - apply (Z.pow_lt_mono_r_iff 2); lia.
  - assert (Zdigits2 z - 1 < b); [| lia].
    assert (0 ≤ b).
    { destruct (decide (0 ≤ b)); [done |]. rewrite Z.pow_neg_r in H2 by lia. lia. }
    apply (Z.pow_lt_mono_r_iff 2); lia.
Qed.

Lemma mul_Q sx mx ex sy my ey :
  canonical mx → canonical my → -400 ≤ ex ≤ 400 → -400 ≤ ey ≤ 400 →
  ∃ m e (δ : Q),
    mul (S754_finite sx mx ex) (S754_finite sy my ey)
    = S754_finite (xorb sx sy) m e ∧
    canonical m ∧ ex + ey + 52 ≤ e ≤ ex + ey + 54 ∧
    (- u <= δ)%Q ∧ (δ <= u)%Q ∧
    (F2Q (xorb sx sy) m e == F2Q sx mx ex * F2Q sy my ey * (1 + δ))%Q.
Proof.
  intros [Hx1 Hx2] [Hy1 Hy2] Hex Hey. unfold mul. simpl.
  set (P := Z.pos (mx * my)).
  assert (EP : P = Z.pos mx * Z.pos my) by reflexivity.
  assert (HP : 2 ^ 104 ≤ P < 2 ^ 106).
  { rewrite EP. change (2 ^ 104) with (2 ^ 52 * 2 ^ 52).
    change (2 ^ 106) with (2 ^ 53 * 2 ^ 53). split; nia. }
  pose proof (Zdigits2_between P 104 106 ltac:(lia) HP) as Hd.
  set (X := (mag mx ex * mag my ey)%Q).
  assert (EX : (X == inject_Z P * pow2 (ex + ey))%Q).
  { unfold X, mag. rewrite EP, inject_Z_mult, pow2_add. ring. }
  assert (HXp : (0 < X)%Q) by (apply Qmult_lt_0_compat; apply mag_pos).
  destruct (binary_round_aux_Q (xorb sx sy) P (ex + ey) loc_Exact _ X eq_refl)
    as (m & e & Hres & Hcan & He & Hb1 & Hb2); try lia.
  - rewrite EX. apply Qle_refl.
  - rewrite EX. apply Qmult_lt_compat_r; [apply pow2_pos |].
    rewrite <- Zlt_Qlt. lia.
  - destruct (near_delta (mag m e) X HXp Hb1 Hb2) as (δ & Hδ1 & Hδ2 & Hδ).
    exists m, e, δ. split; [exact Hres |]. split; [done |]. split; [lia |].
    split; [done |]. split; [done |].
    unfold F2Q. rewrite Hδ, sgn_xorb. unfold X. ring.
Qed.

Lemma SFdiv_core_binary_canonical mx ex my ey :
  canonical mx → canonical my → -400 ≤ ex ≤ 400 → -400 ≤ ey ≤ 400 →
  SFdiv_core_binary prec emax (Z.pos mx) ex (Z.pos my) ey
  = (Z.pos mx * 2 ^ 53 / Z.pos my, ex - ey - 53,
     new_location (Z.pos my) ((Z.pos mx * 2 ^ 53) mod Z.pos my)).
Proof.
  intros Hx Hy Hex Hey. unfold SFdiv_core_binary.
  rewrite !Zdigits2_canonical by done.
  rewrite fexp_normal by lia.
  replace (Z.min (53 + ex - (53 + ey) - 53) (ex - ey)) with (ex - ey - 53) by lia.
  replace (ex - ey - (ex - ey - 53)) with 53 by lia.
  cbv zeta. rewrite Z.shiftl_mul_pow2 by lia.
  unfold Z.div, Z.modulo.
  by destruct (Z.div_eucl (Z.pos mx * 2 ^ 53) (Z.pos my)).
Qed.

Lemma div_Q sx mx ex sy my ey :
  canonical mx → canonical my → -400 ≤ ex ≤ 400 → -400 ≤ ey ≤ 400 →
  ∃ m e (δ : Q),
    div (S754_finite sx mx ex) (S754_finite sy my ey)
    = S754_finite (xorb sx sy) m e ∧
    canonical m ∧ ex - ey - 53 ≤ e ≤ ex - ey - 51 ∧
    (- u <= δ)%Q ∧ (δ <= u)%Q ∧
    (F2Q (xorb sx sy) m e == F2Q sx mx ex / F2Q sy my ey * (1 + δ))%Q.
Proof.
  intros Hx Hy Hex Hey. unfold div, SFdiv.
  rewrite SFdiv_core_binary_canonical by done.
  pose proof Hx as [Hx1 Hx2]. pose proof Hy as [Hy1 Hy2].
  set (N := Z.pos mx * 2 ^ 53). set (D := Z.pos my).
  assert (HD : 0 < D) by (unfold D; lia).
  pose proof (Z.div_mod N D ltac:(lia)) as Hdm.
  pose proof (Z.mod_pos_bound N D HD) as Hmod.
  set (Q0 := N / D) in *.
  assert (HQ : 2 ^ 52 ≤ Q0 < 2 ^ 54).
  { split.
    - apply Z.div_le_lower_bound; [done |]. unfold N, D. nia.
    - apply Z.div_lt_upper_bound; [done |]. unfold N, D.
      change (2 ^ 54) with (2 * 2 ^ 53). nia. }
  pose proof (Zdigits2_between Q0 52 54 ltac:(lia) HQ) as Hd.
  set (X := (mag mx ex / mag my ey)%Q).
  pose proof (mag_pos mx ex) as Hmx. pose proof (mag_pos my ey) as Hmy.
  assert (HXp : (0 < X)%Q).
  { unfold X. apply Qlt_shift_div_l; [done |]. lra. }
  assert (EX : (X == inject_Z N / inject_Z D * pow2 (ex - ey - 53))%Q).
  { unfold X, mag, N, D.
    replace ex with ((ex - ey - 53) + 53 + ey) at 1 by lia.
    rewrite inject_Z_mult, !pow2_add, (pow2_nonneg 53) by lia.
    pose proof (pow2_pos ey). pose proof (pow2_pos (ex - ey - 53)).
    assert (0 < inject_Z (Z.pos my))%Q by (rewrite <- (Zlt_Qlt 0); lia).
    field. split; lra. }
  assert (HDq : (0 < inject_Z D)%Q) by (rewrite <- (Zlt_Qlt 0); lia).
  assert (Hlow : (inject_Z Q0 <= inject_Z N / inject_Z D)%Q).
  { apply Qle_shift_div_l; [done |]. rewrite <- inject_Z_mult, <- Zle_Qle. lia. }
  assert (Hupp : (inject_Z N / inject_Z D < inject_Z (Q0 + 1))%Q).
  { apply Qlt_shift_div_r; [done |]. rewrite <- inject_Z_mult, <- Zlt_Qlt. lia. }
  destruct (binary_round_aux_Q (xorb sx sy) Q0 (ex - ey - 53)
              (new_location D (N mod D)) _ X eq_refl)
    as (m & e & Hres & Hcan & He & Hb1 & Hb2); try lia.
  - rewrite EX. apply Qmult_le_compat_r; [done | apply Qlt_le_weak, pow2_pos].
  - rewrite EX. apply Qmult_lt_compat_r; [apply pow2_pos | done].
  - destruct (near_delta (mag m e) X HXp Hb1 Hb2) as (δ & Hδ1 & Hδ2 & Hδ).
    exists m, e, δ. split; [exact Hres |]. split; [done |]. split; [lia |].
    split; [done |]. split; [done |].
    unfold F2Q. rewrite Hδ, sgn_xorb. unfold X.
    destruct sx, sy; unfold sgn; field; lra.
Qed.

Lemma shl_align_fst mx ex ez :
  ez ≤ ex → Z.pos (shl_align mx ex ez).1 = Z.pos mx * 2 ^ (ex - ez).
Proof.
  intros H. unfold shl_align. destruct (ez - ex) as [| p | p] eqn:Hk; simpl.
  - replace (ex - ez) with 0 by lia. lia.
  - lia.
  - rewrite iter_xO. f_equal. f_equal. lia.
Qed.

(** The sum of two finite doubles: zero when it is zero, else the double
    next to it. *)
Lemma add_Q sx mx ex sy my ey :
  canonical mx → canonical my → -400 ≤ ex ≤ 400 → -400 ≤ ey ≤ 400 →
  let X := (F2Q sx mx ex + F2Q sy my ey)%Q in
  ((X == 0)%Q ∧
   add (S754_finite sx mx ex) (S754_finite sy my ey) = S754_zero false) ∨
  (∃ s m e (δ : Q),
     add (S754_finite sx mx ex) (S754_finite sy my ey) = S754_finite s m e ∧
     canonical m ∧ Z.min ex ey - 52 ≤ e ≤ Z.max ex ey + 2 ∧
     (- u <= δ)%Q ∧ (δ <= u)%Q ∧ (F2Q s m e == X * (1 + δ))%Q).
Proof.
  intros [Hx1 Hx2] [Hy1 Hy2] Hex Hey X. unfold add, SFadd.
  set (ez := Z.min ex ey).
  rewrite !shl_align_fst by (unfold ez; lia).
  set (a := Z.pos mx * 2 ^ (ex - ez)). set (b := Z.pos my * 2 ^ (ey - ez)).
  set (z := cond_Zopp sx a + cond_Zopp sy b).
  assert (Hpa : 0 < 2 ^ (ex - ez)) by (apply Z.pow_pos_nonneg; unfold ez; lia).
  assert (Hpb : 0 < 2 ^ (ey - ez)) by (apply Z.pow_pos_nonneg; unfold ez; lia).
  assert (EX : (X == inject_Z z * pow2 ez)%Q).
  { unfold X, F2Q, mag, z, a, b.
    rewrite inject_Z_plus.
    replace ex with ((ex - ez) + ez) at 1 by lia.
    replace ey with ((ey - ez) + ez) at 1 by lia.
    rewrite !pow2_add, !(pow2_nonneg (_ - ez)) by (unfold ez; lia).
    destruct sx, sy; unfold cond_Zopp, sgn;
      rewrite ?inject_Z_opp, !inject_Z_mult; ring. }
  destruct (decide (z = 0)) as [Hz | Hz].
  - left. rewrite Hz. split; [| reflexivity]. rewrite EX, Hz. ring.
  - right.
    assert (Hzabs : Z.abs z < 2 ^ (Z.max ex ey - ez + 54)).
    { assert (Ha : a < 2 ^ (Z.max ex ey - ez + 53)).
      { unfold a. replace (Z.max ex ey - ez + 53) with (53 + (ex - ez) + (Z.max ex ey - ex))
          by lia.
        rewrite !Z.pow_add_r by (unfold ez; lia).
        assert (0 < 2 ^ (Z.max ex ey - ex)) by (apply Z.pow_pos_nonneg; lia).
        nia. }
      assert (Hb : b < 2 ^ (Z.max ex ey - ez + 53)).
      { unfold b. replace (Z.max ex ey - ez + 53) with (53 + (ey - ez) + (Z.max ex ey - ey))
          by lia.
        rewrite !Z.pow_add_r by (unfold ez; lia).
        assert (0 < 2 ^ (Z.max ex ey - ey)) by (apply Z.pow_pos_nonneg; lia).
        nia. }
      replace (Z.max ex ey - ez + 54) with (Z.succ (Z.max ex ey - ez + 53)) by lia.
      rewrite Z.pow_succ_r by (unfold ez; lia).
      assert (0 < a) by (unfold a; lia). assert (0 < b) by (unfold b; lia).
      unfold z. destruct sx, sy; unfold cond_Zopp; lia. }
    assert (Hdabs : Zdigits2 z = Zdigits2 (Z.abs z)) by (by destruct z).
    assert (Hd : 0 < Zdigits2 z ≤ Z.max ex ey - ez + 54).
    { rewrite Hdabs. apply Zdigits2_between; [lia |].
      change (2 ^ 0) with 1. lia. }
    destruct (binary_normalize_Q z ez _ eq_refl Hz)
      as (m & e & δ & Hres & Hcan & He & Hδ1 & Hδ2 & Hv & _);
      try (unfold ez in *; lia).
    exists (z <? 0), m, e, δ. split; [exact Hres |]. split; [done |].
    split; [unfold ez in *; lia |]. split; [done |]. split; [done |].
    rewrite Hv, EX. reflexivity.
Qed.

Lemma sub_finite x sy my ey :
  (∃ sx mx ex, x = S754_finite sx mx ex) →
  sub x (S754_finite sy my ey) = add x (S754_finite (negb sy) my ey).
Proof.
  intros (sx & mx & ex & ->). unfold sub, add, SFsub, SFadd. f_equal.
  destruct sy; unfold cond_Zopp; simpl negb; cbv iota; lia.
Qed.

Lemma F2Q_negb s m e : (F2Q (negb s) m e == - F2Q s m e)%Q.
Proof. unfold F2Q. destruct s; unfold sgn; simpl; ring. Qed.

(** ** Conversion to [int] and [qRound] *)

#[local] Arguments add : simpl never.
#[local] Arguments sub : simpl never.
#[local] Arguments mul : simpl never.
#[local] Arguments div : simpl never.
#[local] Arguments ofInt : simpl never.
#[local] Arguments toInt : simpl never.

Lemma checked_Some n : INT_MIN ≤ n ≤ INT_MAX → checked n = Some n.
Proof. intros H. unfold checked. by rewrite bool_decide_eq_true_2. Qed.

Lemma checked_range n k : checked n = Some k → k = n ∧ INT_MIN ≤ n ≤ INT_MAX.
Proof.
  unfold checked. case_bool_decide as H; [| intros E; discriminate E].
  intros [= <-]. done.
Qed.

Lemma pow2_opp e : (pow2 e * pow2 (- e) == 1)%Q.
Proof. rewrite <- pow2_add. by replace (e + - e) with 0 by lia. Qed.

(** The whole part of a magnitude. *)
Lemma trunc_mag m e n :
  (inject_Z n <= mag m e)%Q → (mag m e < inject_Z n + 1)%Q →
  (if bool_decide (0 ≤ e) then Z.pos m * 2 ^ e else Z.pos m / 2 ^ (- e)) = n.
Proof.
  intros H1 H2. case_bool_decide as He.
  - unfold mag in H1, H2. rewrite pow2_nonneg in H1, H2 by done.
    rewrite <- inject_Z_mult in H1, H2.
    change 1%Q with (inject_Z 1) in H2. rewrite <- inject_Z_plus in H2.
    rewrite <- Zle_Qle in H1. rewrite <- Zlt_Qlt in H2. lia.
  - assert (HK : 0 < 2 ^ (- e)) by (apply Z.pow_pos_nonneg; lia).
    assert (HKq : (0 < inject_Z (2 ^ (- e)))%Q) by (rewrite <- (Zlt_Qlt 0); lia).
    assert (Em : (mag m e * inject_Z (2 ^ (- e)) == inject_Z (Z.pos m))%Q).
    { unfold mag. rewrite <- pow2_nonneg by lia.
      rewrite <- Qmult_assoc, pow2_opp. ring. }
    assert (G1 : n * 2 ^ (- e) ≤ Z.pos m).
    { rewrite Zle_Qle, inject_Z_mult, <- Em.
      apply Qmult_le_compat_r; [done | by apply Qlt_le_weak]. }
    assert (G2 : Z.pos m < (n + 1) * 2 ^ (- e)).
    { rewrite Zlt_Qlt, inject_Z_mult, inject_Z_plus, <- Em.
      apply Qmult_lt_compat_r; done. }
    symmetry. apply (Z.div_unique _ _ _ (Z.pos m - n * 2 ^ (- e))); lia.
Qed.

Lemma toInt_finite s m e n :
  0 ≤ n → (inject_Z n <= mag m e)%Q → (mag m e < inject_Z n + 1)%Q →
  toInt (S754_finite s m e) = checked (cond_Zopp s n).
Proof.
  intros Hn H1 H2. pose proof (trunc_mag m e n H1 H2) as Ht.
  unfold toInt. f_equal. case_bool_decide as He.
  - destruct s; simpl; lia.
  - assert (HK : 0 < 2 ^ (- e)) by (apply Z.pow_pos_nonneg; lia).
    destruct s; simpl.
    + change (Z.neg m) with (- Z.pos m). rewrite Z.quot_opp_l by lia.
      rewrite Z.quot_div_nonneg by lia. lia.
    + rewrite Z.quot_div_nonneg by lia. lia.
Qed.

Lemma F2Q_sign_pos s m e : (0 < F2Q s m e)%Q → s = false.
Proof.
  pose proof (mag_pos m e). unfold F2Q. destruct s; [| done].
  unfold sgn. intros. lra.
Qed.

Lemma F2Q_sign_neg s m e : (F2Q s m e < 0)%Q → s = true.
Proof.
  pose proof (mag_pos m e). unfold F2Q. destruct s; [done |].
  unfold sgn. intros. lra.
Qed.

Lemma canonical_half : canonical 4503599627370496.
Proof. unfold canonical. rewrite pow2_52, pow2_53. lia. Qed.

Lemma F2Q_half : (F2Q false 4503599627370496 (-53) == 1 # 2)%Q.
Proof. reflexivity. Qed.

Lemma F2Q_one s : (F2Q s 4503599627370496 (-52) == sgn s)%Q.
Proof.
  unfold F2Q. assert (mag 4503599627370496 (-52) == 1)%Q as -> by reflexivity. ring.
Qed.

Lemma err_bound (X δ B : Q) :
  (- B <= X)%Q → (X <= B)%Q → (- u <= δ)%Q → (δ <= u)%Q →
  (- (B * u) <= X * δ ∧ X * δ <= B * u)%Q.
Proof.
  intros H1 H2 H3 H4. assert (0 <= u)%Q by (by unfold u).
  split; nra.
Qed.

(** [int(x + 0.5)] for a double [x] of value [v] with [v + 0.5] well inside
    [r, r + 1). *)
Lemma toInt_add_half x (v : Q) r :
  (x = S754_zero false ∧ (v == 0)%Q) ∨
  (∃ s m e, x = S754_finite s m e ∧ canonical m ∧ -400 ≤ e ≤ 400 ∧
            (v == F2Q s m e)%Q) →
  0 ≤ r ≤ INT_MAX →
  (inject_Z r + (1 # 4) <= v + (1 # 2))%Q →
  (v + (1 # 2) <= inject_Z r + (3 # 4))%Q →
  toInt (add x half) = Some r.
Proof.
  intros Hx Hr H1 H2.
  assert (HrQ : (0 <= inject_Z r)%Q ∧ (inject_Z r <= inject_Z INT_MAX)%Q)
    by (rewrite <- (Zle_Qle 0), <- Zle_Qle; lia).
  change (inject_Z INT_MAX) with (2147483647 # 1)%Q in HrQ.
  destruct Hx as [[-> Hv] | (s & m & e & -> & Hcan & He & Hv)].
  - assert (r = 0); [| subst r; reflexivity].
    rewrite Hv in H1, H2.
    assert (inject_Z r < inject_Z 1)%Q as Hlt by (change (inject_Z 1) with 1%Q; lra).
    rewrite <- Zlt_Qlt in Hlt. lia.
  - unfold half.
    destruct (add_Q s m e false 4503599627370496 (-53) Hcan canonical_half He ltac:(lia))
      as [[HX0 _] | (s' & m' & e' & δ & Hres & Hcan' & He' & Hδ1 & Hδ2 & Hv')].
    { rewrite F2Q_half, <- Hv in HX0. lra. }
    rewrite Hres. rewrite F2Q_half, <- Hv in Hv'.
    set (X := (v + (1 # 2))%Q) in *.
    destruct (err_bound X δ (2147483648 # 1)%Q) as [Hb1 Hb2]; [lra | lra | done | done |].
    unfold u in Hb1, Hb2.
    assert (Hpos : (0 < F2Q s' m' e')%Q) by (rewrite Hv'; lra).
    pose proof (F2Q_sign_pos _ _ _ Hpos) as ->.
    assert (Emag : (mag m' e' == X * (1 + δ))%Q)
      by (rewrite <- Hv'; unfold F2Q, sgn; ring).
    rewrite (toInt_finite false m' e' r); [apply checked_Some; unfold INT_MIN; simpl; lia
                                          | lia | rewrite Emag; lra | rewrite Emag; lra].
Qed.

Lemma SFleb_zero_finite s m e :
  SFleb (S754_zero false) (S754_finite s m e) = negb s.
Proof. by destruct s. Qed.

Lemma exp_of_mag m e a b :
  canonical m → (pow2 a <= mag m e)%Q → (mag m e < pow2 b)%Q → a - 53 < e < b - 52.
Proof.
  intros Hcan H1 H2. destruct (mag_bounds m e Hcan) as [H3 H4].
  split.
  - assert (a < e + 53); [| lia]. apply pow2_lt_inv. lra.
  - assert (e + 52 < b); [| lia]. apply pow2_lt_inv. lra.
Qed.

(** [qRound] of a double whose value is next to the integer [n]. *)
Lemma qRound_finite s m e n :
  canonical m → n ≠ 0 → INT_MIN < n ≤ INT_MAX →
  (inject_Z n - (1 # 524288) <= F2Q s m e)%Q →
  (F2Q s m e <= inject_Z n + (1 # 524288))%Q →
  qRound (S754_finite s m e) = Some n.
Proof.
  intros Hcan Hn0 Hn H1 H2.
  set (v := F2Q s m e) in *.
  assert (HnQ : (inject_Z INT_MIN < inject_Z n)%Q ∧ (inject_Z n <= inject_Z INT_MAX)%Q)
    by (rewrite <- Zlt_Qlt, <- Zle_Qle; lia).
  change (inject_Z INT_MAX) with (2147483647 # 1)%Q in HnQ.
  change (inject_Z INT_MIN) with (-2147483648 # 1)%Q in HnQ.
  (* the exponent of the double *)
  assert (He : -54 < e < -20).
  { apply (exp_of_mag m e (-1) 32 Hcan).
    - change (pow2 (-1)) with (1 # 2)%Q.
      destruct (decide (0 < n)) as [Hp | Hp].
      + assert (inject_Z 1 <= inject_Z n)%Q by (rewrite <- Zle_Qle; lia).
        change (inject_Z 1) with 1%Q in *.
        assert (s = false) as -> by (apply (F2Q_sign_pos s m e); fold v; lra).
        unfold v, F2Q, sgn in H1. lra.
      + assert (inject_Z n <= inject_Z (-1))%Q by (rewrite <- Zle_Qle; lia).
        change (inject_Z (-1)) with (-1 # 1)%Q in *.
        assert (s = true) as -> by (apply (F2Q_sign_neg s m e); fold v; lra).
        unfold v, F2Q, sgn in H2. lra.
    - change (pow2 32) with (4294967296 # 1)%Q.
      pose proof (mag_pos m e). unfold v, F2Q in H1, H2.
      destruct s; unfold sgn in H1, H2; lra. }
  unfold qRound.
  destruct (decide (0 < n)) as [Hp | Hp].
  - (* the double is positive *)
    assert (Hn1 : (inject_Z 1 <= inject_Z n)%Q) by (rewrite <- Zle_Qle; lia).
    change (inject_Z 1) with 1%Q in Hn1.
    assert (s = false) as -> by (apply (F2Q_sign_pos s m e); fold v; lra).
    rewrite SFleb_zero_finite. simpl negb. cbv iota.
    apply (toInt_add_half _ v n); [| lia | lra | lra].
    right. exists false, m, e. split; [done |]. split; [done |]. split; [lia | done].
  - (* the double is negative *)
    assert (Hn1 : (inject_Z n <= inject_Z (-1))%Q) by (rewrite <- Zle_Qle; lia).
    change (inject_Z (-1)) with (-1 # 1)%Q in Hn1.
    assert (s = true) as -> by (apply (F2Q_sign_neg s m e); fold v; lra).
    rewrite SFleb_zero_finite. simpl negb. cbv iota.
    (* k = int(d - 1) *)
    change (ofInt 1) with (S754_finite false 4503599627370496 (-52)).
    rewrite sub_finite by eauto. simpl negb.
    destruct (add_Q true m e true 4503599627370496 (-52) Hcan canonical_half
                ltac:(lia) ltac:(lia))
      as [[HX0 _] | (s1 & m1 & e1 & δ1 & Hres1 & Hcan1 & He1 & Hδ1a & Hδ1b & Hv1)].
    { rewrite F2Q_one in HX0. fold v in HX0. unfold sgn in HX0. lra. }
    rewrite Hres1. rewrite F2Q_one in Hv1. fold v in Hv1. unfold sgn in Hv1.
    set (X1 := (v + -1)%Q) in *.
    assert (HX1 : (inject_Z n - 1 - (1 # 524288) <= X1)%Q ∧
                  (X1 <= inject_Z n - 1 + (1 # 524288))%Q) by (unfold X1; lra).
    destruct (err_bound X1 δ1 (2147483650 # 1)%Q) as [Hb1 Hb2];
      [lra | lra | done | done |].
    unfold u in Hb1, Hb2.
    assert (Hneg1 : (F2Q s1 m1 e1 < 0)%Q) by (rewrite Hv1; lra).
    pose proof (F2Q_sign_neg _ _ _ Hneg1) as ->.
    assert (Emag1 : (mag m1 e1 == - (X1 * (1 + δ1)))%Q)
      by (rewrite <- Hv1; unfold F2Q, sgn; ring).
    assert (Hk : ∃ k, (k = n ∨ k = n - 1) ∧
                      toInt (S754_finite true m1 e1) = Some k).
    { destruct (Qlt_le_dec (mag m1 e1) (inject_Z (- n) + 1)) as [Hlt | Hge].
      - exists n. split; [by left |].
        rewrite (toInt_finite true m1 e1 (- n)); [| lia | | done].
        + simpl. rewrite Z.opp_involutive. apply checked_Some. lia.
        + rewrite Emag1, inject_Z_opp. lra.
      - exists (n - 1). split; [by right |].
        rewrite (toInt_finite true m1 e1 (- n + 1)); [| lia | | ].
        + simpl. replace (- (- n + 1)) with (n - 1) by lia.
          apply checked_Some. unfold INT_MIN in *. lia.
        + by rewrite inject_Z_plus.
        + rewrite Emag1, inject_Z_plus, inject_Z_opp.
          change (inject_Z 1) with 1%Q. lra. }
    destruct Hk as (k & Hk & HtoInt).
    rewrite HtoInt. simpl.
    (* r = int(d - k + 0.5) *)
    assert (Hk0 : k ≠ 0) by lia.
    assert (Hkr : - 2 ^ 53 < k < 2 ^ 53) by (unfold INT_MIN, INT_MAX in *; lia).
    destruct (ofInt_Q k Hk0 Hkr) as (mk & ek & HK & Hcank & Hek & HvK).
    rewrite HK. rewrite sub_finite by eauto.
    assert (Hr : ∃ r, r + k = n ∧
              toInt (add (add (S754_finite true m e)
                              (S754_finite (negb (k <? 0)) mk ek)) half) = Some r).
    { exists (n - k). split; [lia |].
      assert (HkQ : (inject_Z k == inject_Z n ∨ inject_Z k == inject_Z n - 1)%Q).
      { destruct Hk as [-> | ->]; [by left | right].
        unfold Z.sub. rewrite inject_Z_plus. reflexivity. }
      destruct (add_Q true m e (negb (k <? 0)) mk ek Hcan Hcank ltac:(lia) ltac:(lia))
        as [[HX0 Hres2] | (s2 & m2 & e2 & δ2 & Hres2 & Hcan2 & He2 & Hδ2a & Hδ2b & Hv2)].
      - rewrite Hres2. rewrite F2Q_negb, HvK in HX0. fold v in HX0.
        apply (toInt_add_half _ 0%Q (n - k)); [by left | unfold INT_MAX; lia | |].
        + unfold Z.sub. rewrite inject_Z_plus, inject_Z_opp.
          destruct HkQ as [E | E]; rewrite E; lra.
        + unfold Z.sub. rewrite inject_Z_plus, inject_Z_opp.
          destruct HkQ as [E | E]; rewrite E; lra.
      - rewrite Hres2. rewrite F2Q_negb, HvK in Hv2. fold v in Hv2.
        set (X2 := (v + - inject_Z k)%Q) in *.
        assert (HX2 : (inject_Z (n - k) - (1 # 524288) <= X2)%Q ∧
                      (X2 <= inject_Z (n - k) + (1 # 524288))%Q).
        { unfold Z.sub. rewrite inject_Z_plus, inject_Z_opp. unfold X2. lra. }
        assert (Hnk : (0 <= inject_Z (n - k))%Q ∧ (inject_Z (n - k) <= 1)%Q).
        { change 1%Q with (inject_Z 1). rewrite <- (Zle_Qle 0), <- Zle_Qle. lia. }
        destruct (err_bound X2 δ2 (2 # 1)%Q) as [Hc1 Hc2];
          [lra | lra | done | done |].
        unfold u in Hc1, Hc2.
        apply (toInt_add_half _ (X2 * (1 + δ2))%Q (n - k)).
        + right. exists s2, m2, e2. split; [done |]. split; [done |].
          split; [lia | by symmetry].
        + unfold INT_MAX. lia.
        + lra.
        + lra. }
    destruct Hr as (r & Hrk & ->). simpl. rewrite Hrk.
    apply checked_Some. lia.
Qed.

Lemma toInt_range x n : toInt x = Some n → INT_MIN ≤ n ≤ INT_MAX.
Proof.
  destruct x as [s | s | | s m e]; unfold toInt.
  - intros [= <-]. unfold INT_MIN, INT_MAX. lia.
  - intros E. discriminate E.
  - intros E. discriminate E.
  - intros E. apply checked_range in E as [-> E]. done.
Qed.

Lemma qRound_range d n : qRound d = Some n → INT_MIN ≤ n ≤ INT_MAX.
Proof.
  unfold qRound. destruct (SFleb _ d).
  - apply toInt_range.
  - destruct (toInt (sub d (ofInt 1))) as [k |]; simpl; [| intros E; discriminate E].
    destruct (toInt (add (sub d (ofInt k)) half)) as [r |]; simpl;
      [| intros E; discriminate E].
    intros E. apply checked_range in E as [-> E]. done.
Qed.

Lemma ofInt_zero_or_finite n :
  - 2 ^ 53 < n < 2 ^ 53 →
  ofInt n = S754_zero false ∨ ∃ s m e, ofInt n = S754_finite s m e.
Proof.
  intros Hn. destruct (decide (n = 0)) as [-> | Hn0]; [by left | right].
  destruct (ofInt_Q n Hn0 Hn) as (m & e & -> & _). eauto.
Qed.

(** [qRound] gives back the [int] a double was made from. *)
Lemma qRound_ofInt n : INT_MIN < n ≤ INT_MAX → qRound (ofInt n) = Some n.
Proof.
  intros Hn. destruct (decide (n = 0)) as [-> | Hn0]; [reflexivity |].
  destruct (ofInt_Q n Hn0) as (m & e & -> & Hcan & He & Hv);
    [unfold INT_MIN, INT_MAX in Hn; lia |].
  apply qRound_finite; [done | done | done | rewrite Hv; lra | rewrite Hv; lra].
Qed.

(** Dividing an [int] by a factor and multiplying by it again gives a double
    that [qRound] takes back to the [int]. *)
Lemma qRound_mul_div n g :
  INT_MIN < n ≤ INT_MAX → INT_MIN ≤ g ≤ INT_MAX → g ≠ 0 →
  qRound (mul (div (ofInt n) (ofInt g)) (ofInt g)) = Some n.
Proof.
  intros Hn Hg Hg0.
  destruct (ofInt_Q g Hg0) as (mg & eg & HG & Hcang & Heg & Hvg);
    [unfold INT_MIN, INT_MAX in Hg; lia |].
  rewrite HG.
  destruct (decide (n = 0)) as [-> | Hn0]; [by destruct (g <? 0) |].
  destruct (ofInt_Q n Hn0) as (mn & en & -> & Hcann & Hen & Hvn);
    [unfold INT_MIN, INT_MAX in Hn; lia |].
  destruct (div_Q (n <? 0) mn en (g <? 0) mg eg Hcann Hcang ltac:(lia) ltac:(lia))
    as (mq & eq & δ1 & -> & Hcanq & Heq & Hδ1a & Hδ1b & Hvq).
  destruct (mul_Q (xorb (n <? 0) (g <? 0)) mq eq (g <? 0) mg eg Hcanq Hcang
              ltac:(lia) ltac:(lia))
    as (mp & ep & δ2 & -> & Hcanp & Hep & Hδ2a & Hδ2b & Hvp).
  assert (HgQ : ¬ (inject_Z g == 0)%Q).
  { intros E. apply Hg0. unfold Qeq in E. simpl in E. lia. }
  assert (Ev : (F2Q (xorb (xorb (n <? 0) (g <? 0)) (g <? 0)) mp ep
                == inject_Z n + inject_Z n * (δ1 + δ2 + δ1 * δ2))%Q).
  { rewrite Hvp, Hvq, Hvn, Hvg. field. done. }
  assert (HnQ : (- (2147483648 # 1) <= inject_Z n)%Q ∧
                (inject_Z n <= 2147483648 # 1)%Q).
  { change (2147483648 # 1)%Q with (inject_Z 2147483648).
    rewrite <- inject_Z_opp, <- !Zle_Qle. unfold INT_MIN, INT_MAX in Hn. lia. }
  assert (Hδ : (- ((3 # 1) * u) <= δ1 + δ2 + δ1 * δ2)%Q ∧
               (δ1 + δ2 + δ1 * δ2 <= (3 # 1) * u)%Q).
  { destruct (err_bound δ1 δ2 u) as [E1 E2]; try done.
    unfold u in *. split; lra. }
  set (t := (δ1 + δ2 + δ1 * δ2)%Q) in *.
  assert (Ht : (- ((2147483648 # 1) * ((3 # 1) * u)) <= inject_Z n * t)%Q ∧
               (inject_Z n * t <= (2147483648 # 1) * ((3 # 1) * u))%Q).
  { assert (0 <= u)%Q by (by unfold u).
    destruct Hδ, HnQ. split; nra. }
  unfold u in Ht.
  apply qRound_finite; [done | done | done | rewrite Ev; lra | rewrite Ev; lra].
Qed.
End QRealFacts.

(** * Properties of the snapping *)

Module QRealProperties.
Import SpecFloat QReal QRealFacts.

(** C10. Snapping is idempotent: for every fine-grid factor and every tile
    coordinate that the snap of [mousePressed] takes to a coordinate, the
    same snap takes the snapped coordinate to itself, be it the fine-grid
    snap (multiply by the factor, round, divide by the factor), the
    whole-tile snap (round) or none. A coordinate is a pair of numbers: with
    the factor 0, and only then, the fine-grid snap divides by zero and what
    it gives is no number. The position of the least [int] is left out: the
    snap can give it, but [qRound] is undefined on it. *)
Theorem snap_idempotent (snapToGrid snapToFineGrid : bool) (gridFine : Z)
    (tileCoords snapped : QPointF) :
  INT_MIN ≤ gridFine ≤ INT_MAX →
  snap snapToGrid snapToFineGrid gridFine tileCoords = Some snapped →
  isNumber snapped.1 = true → isNumber snapped.2 = true →
  (∀ least, leastPosition snapToGrid snapToFineGrid gridFine = Some least →
            snapped.1 ≠ least ∧ snapped.2 ≠ least) →
  snap snapToGrid snapToFineGrid gridFine snapped = Some snapped.
Proof.
  intros Hg Hsnap Hnum1 Hnum2 Hleast. unfold snap, leastPosition in *.
  destruct tileCoords as [x1 x2], snapped as [y1 y2].
  assert (Hpt : ∀ p1 p2 : spec_float,
            toPoint (p1, p2) = (n1 ← qRound p1; n2 ← qRound p2; Some (n1, n2)))
    by reflexivity.
  destruct snapToFineGrid.
  - destruct (Hleast _ eq_refl) as [Hl1 Hl2]. simpl in Hl1, Hl2.
    unfold pointMul in Hsnap. simpl in Hsnap. rewrite Hpt in Hsnap.
    destruct (qRound (mul x1 (ofInt gridFine))) as [n1 |] eqn:E1;
      [| discriminate Hsnap].
    destruct (qRound (mul x2 (ofInt gridFine))) as [n2 |] eqn:E2;
      [| discriminate Hsnap].
    simpl in Hsnap. injection Hsnap as <- <-.
    apply qRound_range in E1, E2.
    assert (Hg0 : gridFine ≠ 0).
    { intros ->.
      change (isNumber (div (ofInt n1) (ofInt 0)) = true) in Hnum1.
      clear - Hnum1 E1.
      destruct (ofInt_zero_or_finite n1) as [E | (s & m & e & E)];
        [unfold INT_MIN, INT_MAX in E1; lia | rewrite E in Hnum1 ..];
        discriminate Hnum1. }
    assert (Hn1 : n1 ≠ INT_MIN) by (intros ->; by apply Hl1).
    assert (Hn2 : n2 ≠ INT_MIN) by (intros ->; by apply Hl2).
    unfold pointMul. simpl. rewrite Hpt.
    rewrite !qRound_mul_div by (done || lia). reflexivity.
  - destruct snapToGrid; [| done].
    destruct (Hleast _ eq_refl) as [Hl1 Hl2]. simpl in Hl1, Hl2.
    rewrite Hpt in Hsnap.
    destruct (qRound x1) as [n1 |] eqn:E1; [| discriminate Hsnap].
    destruct (qRound x2) as [n2 |] eqn:E2; [| discriminate Hsnap].
    simpl in Hsnap. injection Hsnap as <- <-.
    apply qRound_range in E1, E2.
    assert (Hn1 : n1 ≠ INT_MIN) by (intros ->; by apply Hl1).
    assert (Hn2 : n2 ≠ INT_MIN) by (intros ->; by apply Hl2).
    unfold ofPoint. simpl. rewrite Hpt.
    rewrite !qRound_ofInt by lia. reflexivity.
Qed.

Lemma snap_idempotent_witness :
  snap true true 4 (div (ofInt 23) (ofInt 10), div (ofInt (-17)) (ofInt 10))
  = Some (div (ofInt 9) (ofInt 4), div (ofInt (-7)) (ofInt 4)) ∧
  snap true true 4 (div (ofInt 9) (ofInt 4), div (ofInt (-7)) (ofInt 4))
  = Some (div (ofInt 9) (ofInt 4), div (ofInt (-7)) (ofInt 4)).
Proof.
  assert (Hsnap : snap true true 4
                    (div (ofInt 23) (ofInt 10), div (ofInt (-17)) (ofInt 10))
                  = Some (div (ofInt 9) (ofInt 4), div (ofInt (-7)) (ofInt 4)))
    by (vm_compute; reflexivity).
  split; [exact Hsnap |].
  apply (snap_idempotent true true 4 _ _ ltac:(unfold INT_MIN, INT_MAX; lia)
           Hsnap eq_refl eq_refl).
  intros least [= <-]. split; vm_compute; intros E; discriminate E.
Defined.

(** What the hypotheses on the snapped coordinate leave out. With the
    factor 0 the fine-grid snap gives, whatever the tile coordinate, a pair
    that is no number, and converting that to [int] is undefined. The
    whole-tile snap reaches the position of the least [int] from the quarter
    tile above it, and is undefined there. *)
Fact snap_undefined :
  (∀ tileCoords snapped,
     snap true true 0 tileCoords = Some snapped →
     snapped = (S754_nan, S754_nan) ∧ snap true true 0 snapped = None) ∧
  snap true true 0 (ofInt 3, ofInt 3) = Some (S754_nan, S754_nan) ∧
  snap true false 4 (div (ofInt (-8589934591)) (ofInt 4), ofInt 0)
  = Some (ofInt INT_MIN, ofInt 0) ∧
  snap true false 4 (ofInt INT_MIN, ofInt 0) = None.
Proof.
  split; [| split; [| split]]; [| vm_compute; reflexivity ..].
  intros [x1 x2] snapped Hsnap.
  change (snap true true 0 (x1, x2))
    with (p ← (n1 ← qRound (mul x1 (ofInt 0)); n2 ← qRound (mul x2 (ofInt 0));
               Some (n1, n2));
          Some (pointDiv (ofPoint p) (ofInt 0))) in Hsnap.
  assert (Hz : ∀ x n, qRound (mul x (ofInt 0)) = Some n → n = 0).
  { intros x n. destruct x as [[] | [] | | [] m e]; vm_compute;
      intros E; by inversion E. }
  destruct (qRound (mul x1 (ofInt 0))) as [n1 |] eqn:E1; [| discriminate Hsnap].
  destruct (qRound (mul x2 (ofInt 0))) as [n2 |] eqn:E2; [| discriminate Hsnap].
  apply Hz in E1, E2. subst n1 n2. injection Hsnap as <-.
  split; vm_compute; reflexivity.
Qed.
End QRealProperties.
